(* ===== verification/_CoqProject ===== *)
-Q . S2P
Prelude.v
Buffer.v
AudioFrame.v
Api.v
AudioSource.v
RecordSource.v
Ffmpeg.v
FfmpegReference.v
FileDecoder.v
Resampler.v
FileSource.v
FfmpegHeap.v
FileLifetime.v
Playback.v
StdMap.v
WebRtc.v
Heap.v
Mixer.v
MixerInvariant.v
MixerOperations.v
MixerProperties.v
Jni.v
JniGlue.v
JavaMixer.v
ProxyCache.v
IosMixer.v
SeqNum.v
SafeNumerics.v
NumericRange.v
CheckedMath.v
ClampedMath.v
Checks.v
Units.v
ByteIO.v
SwapQueue.v
MovingMax.v
PacketQueue.v
Float32.v
PercentileFilter.v
AvCommon.v
CircularDeque.v
DequeInvariant.v
DequeEnds.v
DequeMiddle.v
StdAlgorithms.v
FlatTree.v
FlatTreeSearch.v
FlatTreeProperties.v
G711.v
RefCount.v
