(* ===== verification/Prelude.v ===== *)
(** * AudioMixer: a verification of the mixer and of the headers it is built on

    The program mixes audio files and recorded audio into one stream.  Its own
    code is src/src; it calls FFmpeg (decoding, resampling) and the WebRTC
    audio mixer, of which the repository holds the headers only
    (src/libs/ffmpeg/include, src/libs/webrtc/include).  This library models
    src/src completely, the native functions through which Java code uses it,
    the Objective-C classes through which iOS applications use it, and parts of
    the headers that are code.

    ** How the program works

    [AudioMixer] (audio_mixer.cpp) owns a map from SSRC to source and registers
    every source with the WebRTC mixer, which keeps raw pointers.  [Mix] asks
    the WebRTC mixer for 10 ms of audio; the WebRTC mixer calls
    [GetAudioFrameWithInfo] of the registered sources.  A file source
    (audio_file_source.cpp) takes samples from its decoder
    (audio_file_decoder.cpp: demuxer, codec and a FIFO of samples) and converts
    them with its resampler (audio_resampler.cpp); a record source
    (audio_record_source.cpp) takes them from an [rtc::BufferT] that
    [AddRecordedData] fills.  Both scale the frame by their volume
    (audio_source.cpp).  On Android, Java classes hold the addresses of these
    objects and call them through audio_mixer_jni.cpp; on iOS,
    PYAAudioMixer.mm holds the mixer and a buffer for its output.

    ** The files

    Foundations
    - Prelude (this file): what a C++ call does, as the monad [outcome]: it
      returns, it stops the process (a failed check, an uncaught exception), it
      has undefined behaviour (of a kind of [undefined]), or the fuel of a loop
      was too small; [wp] and [wpa] are its total specifications, without and
      with the possibility of a controlled stop.  Machine integers are [Z]
      with their conversions and overflow written out; lists are indexed by
      [Z] where the code indexes by [int] or [size_t].
    - Buffer: [rtc::BufferT] (rtc_base/buffer.h) on blocks with indeterminate
      cells and an allocator that can fail; RTC_CHECK and RTC_DCHECK, the
      latter subject to the build ([BuildConfig]).
    - AudioFrame: [webrtc::AudioFrame]; its member functions are the class
      [AudioFrameApi], their documented behaviour [AudioFrameLaws].
    - Api: the records and constants of generated_src/cpp, and the arithmetic on
      frame durations.
    - StdMap: [std::map] with integer keys.  Heap: the objects behind
      [std::shared_ptr] and the virtual calls on them.

    The mixer
    - AudioSource, RecordSource, FileDecoder, Resampler, FileSource and Mixer:
      a record for the members of each class of src/src, a function for each
      member function, under the names of the code (with a prefix where two
      classes share a name: rs_ for record sources, fs_ for file sources, am_
      for the mixer), with every check, early return and state change.
    - Ffmpeg: the class [FFmpeg] of the library functions that are called and
      the class [FFmpegSpec] of what their headers document; FfmpegReference: an
      implementation of both.  WebRtc: the same for [webrtc::AudioMixer]
      ([WebRtcMixer], [WebRtcMixerLaws], [ReferenceMixer]).
    - MixerInvariant, MixerOperations, MixerProperties: the invariant of the
      mixer, that each operation preserves it, and the properties.
    - Playback: that what is recorded is played and that playback ends.
    - FfmpegHeap and FileLifetime: the memory behind the file sources.  The
      FFmpeg objects live on a heap with an allocator, the deleters of
      avx_helper.h free them, and the constructors, methods and destructors of
      the decoder, the resampler and the file source run on it (functions
      mem_...).
    - Jni and JniGlue: the functions of JNI that are called (the classes [JNI]
      and [JNISpec], with an implementation of both), samples as bytes of a
      Java array, and the native functions of audio_mixer_jni.cpp and of
      AudioMixerApi.CppProxy.  JavaMixer: the Java class AudioMixer on top of
      them.  ProxyCache: the cache that gives a C++ object its Java proxy
      (djinni/support-lib), as a state machine.
    - IosMixer: the Objective-C classes PYAAudioMixer, PYAAudioBuffer and
      PYAAudioMixerApi, with their reference counts and what they get from
      malloc, and clients that hold references to them.

    Parts of the headers
    - SeqNum: wrapping sequence numbers.  SafeNumerics: comparison, conversion
      and clamping of mixed integer types (of WebRTC).  NumericRange: the same
      questions as Chromium answers them, and the types it promotes operands
      to; CheckedMath: its integers that know when they overflowed;
      ClampedMath: those that stop at the limits of their type.
      Checks: the comparing checks.
      Units: sizes, rates and times.  ByteIO: integers in memory.  SwapQueue:
      the queue between threads.  MovingMax: the maximum over a window.
      PacketQueue: entries indexed by packet number.  PercentileFilter: the
      percentile of a set and the median over a window; Float32: the rounding
      of binary32 that its index depends on.
      RefCount: the reference-counted pointers, of which the mixer holds one.
      CircularDeque, with DequeInvariant, DequeEnds and DequeMiddle: the
      double-ended queue of Chromium.  FlatTree, with StdAlgorithms,
      FlatTreeSearch and FlatTreeProperties: the sorted vector behind its flat
      maps and sets.  G711: the G.711 codecs.  AvCommon: clipping and character
      encodings of FFmpeg.

    ** What is shown

    Of the mixer.  [MixerProperties]: every reachable state owns exactly the
    sources in the map and no call that keeps the rules of [op_ok] has undefined
    behaviour ([reachable_safe]); what the constructor, [AddSource], [RemoveSource],
    [UpdateVolume], [Mix] and the destructor do to map, registrations and
    objects; and the calls that go wrong: an SSRC used twice
    ([duplicate_source_dangles]), recorded data for a file source, durations
    that divide by zero, output rates at which nothing is played.
    [RecordSource]: a record source with 10 ms frames refines a first-in
    first-out queue, in bounded memory; with shorter frames it reads beyond
    its buffer.  [FileDecoder]: the decoder hands out the samples of the
    stream in order, without loss or duplication, and its loops terminate.
    [FileSource], [Resampler]: reads are whole frames, stay in bounds, which
    input formats are never heard, and when playback ends while packets wait
    ([short_codec_frames_end_playback]).  [Playback]: everything recorded is
    played but for an incomplete frame; a file plays no more frames than its
    samples make.  [FileLifetime]: a file source with its memory does what the
    one without does ([lifetime_refines]), and from construction to
    destruction uses no freed object, frees none twice and leaks none
    ([lifetime_safe]).  [JniGlue]: native calls release what they obtain and
    use live handles ([session_frame]); the array of the Java class
    AudioFileSource suffices for the frames of at most 10 ms of a mixer, and a
    read of longer frames can overrun it ([java_source_read],
    [long_frames_overrun]); that of AudioFileDecoder suffices exactly for
    samples in one plane that are short enough ([java_decoder_consume]).  [JavaMixer]: calls of the Java class
    AudioMixer that keep its rules are safe ([java_mixer_safe]).  [IosMixer]: so
    are the calls of an iOS client ([ios_mixer_safe]), and when it has given up its references nothing
    is left allocated ([ios_no_leaks]).  [ProxyCache]: the cache hands out one proxy
    for an object, whenever destructors run ([proxy_cache_refines]), but not
    if a handle is destroyed before its proxy ([early_destroy_keeps_entry]).

    Of the headers: round trips ([byte_io_roundtrip], [utf8_roundtrip],
    [rate_roundtrip], [seqnum_unwrapper_recovers]), refinements of abstract
    data types ([swap_queue_refines_fifo], [moving_max_refines],
    [deque_refines_sequence], [tree_refines_map], [packet_queue_refines],
    [percentile_filter_refines], [moving_median_refines]),
    exactness of comparisons, casts and clips
    ([safe_compare_exact], [casts_exact], [safe_clamp_exact], [clips_exact],
    [bit_searches]), the agreement of checked and clamped arithmetic with the
    integers in the six operators from sums to minima, for every pair of types
    and in the portable and the optimised versions ([checked_expression_exact],
    [clamped_exact]), the error of the G.711 codecs ([companding]), and the
    safety of reference counting under every interleaving of threads
    ([refcount_safe]).

    A property with hypotheses has a witness [<property>_witness], which
    applies it to a concrete input; those with a class parameter are
    instantiated by the reference implementations.

    ** Bounds and fuel

    Loops that end by a condition take fuel.  [FillDecoder] needs more fuel than
    packets are left, [FillFifo] more than frames are pending
    ([enough_fuel] covers both for a whole file); that this suffices is shown
    ([fill_decoder_terminates], [fill_fifo_bounded]) and used by every property
    above them.  The loops of the headers are given fuel by the model itself
    (the number of elements or bits), which their properties show to be enough.

    Sizes and indices of the core keep their width: [int] overflow is undefined,
    [size_t] wraps around, a request above [alloc_limit] makes the allocator
    throw.  The deque and the swap queue are supposed to find the memory they
    ask for; the packet queue may not, and exactly then throws.  Packet numbers are
    between 0 and 2^63 - 2.  Threads: the swap queue's operations are critical sections, so an
    execution is a sequence of operations; the steps of the reference-counted
    pointers interleave at every access to a counter; src/src starts no thread
    and takes no lock, and calls are modelled one at a time.

    ** Not modelled, and why

    - The functions of FFmpeg and of the WebRTC libraries: not in the
      repository; they are parameters with documented laws.
    - The conversions of values in the djinni support library, the sample
      applications: conversions and user interfaces around the interface.  In
      the Objective-C classes, the setter of PYAAudioBuffer.data, which no code
      calls.
    - Overloads of the headers for floating-point numbers, and their printing;
      the volume of the mixer is modelled as an IEEE binary32 number.
    - The rest of the headers: declarations of code that is compiled elsewhere.
      Of the code in headers, array_view.h (pointer and length), the functions of
      audio_util.h on channels and samples, and the ARM assembler versions of
      the arithmetic are left out. *)

From Stdlib Require Export ZArith Lia.
From stdpp Require Export base tactics option list strings numbers.

#[export] Set Default Goal Selector "!".

Open Scope Z_scope.

(** ** Outcomes of a C++ call *)

(** The undefined behaviours a modelled statement can run into. *)
Inductive undefined : Type :=
| DivisionByZero
| SignedOverflow
| BadShift
| OutOfBounds
| Indeterminate
| NullPointer
| DanglingPointer
| BadDowncast.

(** What a modelled function does: it returns, it stops the process (a failed
    [RTC_CHECK] or an uncaught exception), it has undefined behaviour, or the
    loop fuel given to it was too small. *)
Inductive outcome (A : Type) : Type :=
| Ret (a : A)
| Abort (msg : string)
| Undef (u : undefined)
| NoFuel.
Arguments Ret {_} _.
Arguments Abort {_} _.
Arguments Undef {_} _.
Arguments NoFuel {_}.

#[export] Instance undefined_eq_dec : EqDecision undefined.
Proof. solve_decision. Defined.
#[export] Instance outcome_eq_dec `{EqDecision A} : EqDecision (outcome A).
Proof. solve_decision. Defined.

#[export] Instance outcome_ret : MRet outcome := @Ret.
#[export] Instance outcome_bind : MBind outcome := λ A B f m,
  match m with
  | Ret a => f a
  | Abort s => Abort s
  | Undef u => Undef u
  | NoFuel => NoFuel
  end.
#[export] Instance outcome_fmap : FMap outcome := λ A B f m,
  match m with
  | Ret a => Ret (f a)
  | Abort s => Abort s
  | Undef u => Undef u
  | NoFuel => NoFuel
  end.

(** Total correctness: the call returns, and its result satisfies [P]. *)
Definition wp {A} (m : outcome A) (P : A → Prop) : Prop :=
  match m with Ret a => P a | _ => False end.

(** The call is free of undefined behaviour: it returns or stops the process
    in a controlled way. *)
Definition defined_behaviour {A} (m : outcome A) : Prop :=
  match m with Undef _ => False | _ => True end.

(** The call returns a result satisfying [P], or stops the process in a
    controlled way; it has no undefined behaviour and enough fuel. *)
Definition wpa {A} (m : outcome A) (P : A → Prop) : Prop :=
  match m with Ret a => P a | Abort _ => True | _ => False end.

Section outcome_lemmas.
Context {A B : Type}.
Implicit Types (m : outcome A) (P Q : A → Prop).

Lemma wp_bind m (f : A → outcome B) (P : B → Prop) :
  wp (m ≫= f) P ↔ wp m (λ a, wp (f a) P).
Proof. by destruct m. Qed.

Lemma wpa_bind m (f : A → outcome B) (P : B → Prop) :
  wpa (m ≫= f) P ↔ wpa m (λ a, wpa (f a) P).
Proof. by destruct m. Qed.

Lemma wpa_mono m P Q : (∀ a, P a → Q a) → wpa m P → wpa m Q.
Proof. destruct m; naive_solver. Qed.

Lemma wpa_Ret m P a : wpa m P → m = Ret a → P a.
Proof. by intros Hw ->. Qed.

Lemma wpa_defined m P : wpa m P → defined_behaviour m.
Proof. by destruct m. Qed.

Lemma wp_wpa m P : wp m P → wpa m P.
Proof. by destruct m. Qed.

Lemma wp_mono m P Q : (∀ a, P a → Q a) → wp m P → wp m Q.
Proof. destruct m; naive_solver. Qed.

Lemma wp_Ret (a : A) P : P a → wp (Ret a) P.
Proof. done. Qed.

Lemma wp_exists m P : wp m P ↔ ∃ a, m = Ret a ∧ P a.
Proof. destruct m; naive_solver. Qed.

Lemma wp_eq m (a : A) P : m = Ret a → P a → wp m P.
Proof. by intros ->. Qed.

Lemma bind_Ret m (f : A → outcome B) b :
  m ≫= f = Ret b ↔ ∃ a, m = Ret a ∧ f a = Ret b.
Proof. destruct m; naive_solver. Qed.

Lemma wp_defined m P : wp m P → defined_behaviour m.
Proof. by destruct m. Qed.
End outcome_lemmas.

(** [RTC_CHECK(b) << msg]: a failed check stops the process. *)
Definition RTC_CHECK (b : bool) (msg : string) : outcome unit :=
  if b then Ret tt else Abort msg.

(** [require b u]: the rest of the statement has undefined behaviour [u]
    unless [b] holds. *)
Definition require (b : bool) (u : undefined) : outcome unit :=
  if b then Ret tt else Undef u.

(** ** Machine integers *)

(** The range of [int32_t] (and [int]). *)
Definition i32_min : Z := - 2 ^ 31.
Definition i32_max : Z := 2 ^ 31 - 1.
Definition is_i32 (z : Z) : Prop := i32_min ≤ z ≤ i32_max.
Definition is_i32b (z : Z) : bool := (i32_min <=? z) && (z <=? i32_max).

(** [size_t] on the 64-bit targets: conversion from any integer type wraps. *)
Definition u64_modulus : Z := 2 ^ 64.
Definition to_size_t (z : Z) : Z := z mod u64_modulus.
Definition is_size_t (z : Z) : Prop := 0 ≤ z < u64_modulus.

(** Conversion to [int32_t] keeps the low 32 bits. *)
Definition as_i32 (z : Z) : Z := (z + 2 ^ 31) mod 2 ^ 32 - 2 ^ 31.

(** Signed 32-bit arithmetic: a result out of range is undefined behaviour. *)
Definition i32_ret (z : Z) : outcome Z :=
  if is_i32b z then Ret z else Undef SignedOverflow.
Definition i32_mul (a b : Z) : outcome Z := i32_ret (a * b).

(** C++ division truncates toward zero. *)
Definition i32_div (a b : Z) : outcome Z :=
  if b =? 0 then Undef DivisionByZero else i32_ret (Z.quot a b).

#[export] Instance is_i32_dec z : Decision (is_i32 z).
Proof. unfold is_i32; solve_decision. Defined.
#[export] Instance is_size_t_dec z : Decision (is_size_t z).
Proof. unfold is_size_t; solve_decision. Defined.

Ltac unfold_i32 :=
  unfold is_i32, is_size_t, to_size_t, i32_min, i32_max, u64_modulus in *.

(** [lia] with the division and remainder equations. *)
Ltac dlia := Z.to_euclidean_division_equations; lia.

Lemma is_i32b_true z : is_i32b z = true ↔ is_i32 z.
Proof. unfold is_i32b, is_i32. rewrite andb_true_iff, !Z.leb_le. done. Qed.

Lemma i32_ret_ok z : is_i32 z → i32_ret z = Ret z.
Proof. intros H. unfold i32_ret. by rewrite (proj2 (is_i32b_true z) H). Qed.

Lemma i32_mul_ok a b : is_i32 (a * b) → i32_mul a b = Ret (a * b).
Proof. apply i32_ret_ok. Qed.

Lemma i32_div_zero a : i32_div a 0 = Undef DivisionByZero.
Proof. done. Qed.

Lemma i32_div_ok a b :
  0 ≤ a → 0 < b → is_i32 a → i32_div a b = Ret (a / b).
Proof.
  intros Ha Hb Hr. unfold i32_div.
  rewrite (proj2 (Z.eqb_neq b 0)) by lia.
  rewrite Z.quot_div_nonneg by lia. apply i32_ret_ok.
  pose proof (Z.div_pos a b Ha Hb). unfold_i32.
  pose proof (Z.div_le_upper_bound a b a Hb ltac:(nia)). lia.
Qed.

Lemma to_size_t_small z : is_size_t z → to_size_t z = z.
Proof. intros H. unfold_i32. by apply Z.mod_small. Qed.

Lemma to_size_t_range z : is_size_t (to_size_t z).
Proof. unfold_i32. by apply Z.mod_pos_bound. Qed.

Lemma is_i32_size_t z : 0 ≤ z → is_i32 z → is_size_t z.
Proof. unfold_i32. lia. Qed.

Lemma as_i32_id z : is_i32 z → as_i32 z = z.
Proof. intros H. unfold as_i32. unfold_i32. rewrite Z.mod_small; lia. Qed.

Lemma as_i32_range z : is_i32 (as_i32 z).
Proof.
  unfold as_i32. unfold_i32. pose proof (Z.mod_pos_bound (z + 2 ^ 31) (2 ^ 32)).
  lia.
Qed.

(** ** Pointers *)

(** The truth value of a pointer that is null or owns something. *)
Definition non_null {A} (p : option A) : bool :=
  match p with Some _ => true | None => false end.

(** ** Lists indexed by machine integers *)

Definition lenZ {A} (l : list A) : Z := Z.of_nat (length l).
Definition takeZ {A} (n : Z) (l : list A) : list A := take (Z.to_nat n) l.
Definition dropZ {A} (n : Z) (l : list A) : list A := drop (Z.to_nat n) l.

Lemma lenZ_app {A} (l k : list A) : lenZ (l ++ k) = lenZ l + lenZ k.
Proof. unfold lenZ. rewrite length_app. lia. Qed.
Lemma lenZ_nil {A} : lenZ (@nil A) = 0.
Proof. done. Qed.
Lemma lenZ_cons {A} (x : A) l : lenZ (x :: l) = 1 + lenZ l.
Proof. unfold lenZ. cbn [length]. lia. Qed.
Lemma lenZ_nonneg {A} (l : list A) : 0 ≤ lenZ l.
Proof. unfold lenZ. lia. Qed.
Lemma lenZ_fmap {A B} (f : A → B) (l : list A) : lenZ (f <$> l) = lenZ l.
Proof. unfold lenZ. by rewrite length_fmap. Qed.
Lemma lenZ_takeZ {A} n (l : list A) :
  0 ≤ n → lenZ (takeZ n l) = Z.min n (lenZ l).
Proof. unfold lenZ, takeZ. rewrite length_take. lia. Qed.
Lemma lenZ_dropZ {A} n (l : list A) :
  0 ≤ n → lenZ (dropZ n l) = Z.max 0 (lenZ l - n).
Proof. unfold lenZ, dropZ. rewrite length_drop. lia. Qed.
Lemma lenZ_replicate {A} n (x : A) :
  lenZ (replicate (Z.to_nat n) x) = Z.max 0 n.
Proof. unfold lenZ. rewrite length_replicate. lia. Qed.
Lemma takeZ_dropZ {A} n (l : list A) : takeZ n l ++ dropZ n l = l.
Proof. apply take_drop. Qed.
Lemma takeZ_0 {A} (l : list A) : takeZ 0 l = [].
Proof. done. Qed.
Lemma dropZ_0 {A} (l : list A) : dropZ 0 l = l.
Proof. done. Qed.
Lemma takeZ_all {A} n (l : list A) : lenZ l ≤ n → takeZ n l = l.
Proof. unfold lenZ, takeZ. intros. apply take_ge. lia. Qed.
Lemma dropZ_all {A} n (l : list A) : lenZ l ≤ n → dropZ n l = [].
Proof. unfold lenZ, dropZ. intros. apply drop_ge. lia. Qed.
Lemma takeZ_app {A} (l k : list A) n : lenZ l = n → takeZ n (l ++ k) = l.
Proof. unfold lenZ, takeZ. intros <-. by rewrite Nat2Z.id, take_app_length. Qed.
Lemma takeZ_app_ge {A} (l k : list A) n :
  lenZ l ≤ n → takeZ n (l ++ k) = l ++ takeZ (n - lenZ l) k.
Proof.
  unfold lenZ, takeZ. intros. rewrite take_app_ge by lia. do 2 f_equal. lia.
Qed.
Lemma dropZ_app {A} (l k : list A) n : lenZ l = n → dropZ n (l ++ k) = k.
Proof. unfold lenZ, dropZ. intros <-. by rewrite Nat2Z.id, drop_app_length. Qed.
Lemma takeZ_takeZ {A} n m (l : list A) :
  0 ≤ n → 0 ≤ m → takeZ n (takeZ m l) = takeZ (Z.min n m) l.
Proof. unfold takeZ. intros. rewrite take_take. f_equal. lia. Qed.
Lemma dropZ_dropZ {A} n m (l : list A) :
  0 ≤ n → 0 ≤ m → dropZ n (dropZ m l) = dropZ (m + n) l.
Proof. unfold dropZ. intros. rewrite drop_drop. f_equal. lia. Qed.
Lemma takeZ_fmap {A B} (f : A → B) n (l : list A) :
  takeZ n (f <$> l) = f <$> takeZ n l.
Proof. unfold takeZ. by rewrite fmap_take. Qed.
Lemma dropZ_fmap {A B} (f : A → B) n (l : list A) :
  dropZ n (f <$> l) = f <$> dropZ n l.
Proof. unfold dropZ. by rewrite fmap_drop. Qed.
Lemma takeZ_dropZ_commute {A} n m (l : list A) :
  0 ≤ n → 0 ≤ m → takeZ n (dropZ m l) = dropZ m (takeZ (m + n) l).
Proof.
  unfold takeZ, dropZ. intros. rewrite Z2Nat.inj_add by lia.
  by rewrite take_drop_commute.
Qed.

Create Rewrite HintDb lenZ.
#[export] Hint Rewrite @lenZ_nil @lenZ_cons @lenZ_app @lenZ_fmap @lenZ_replicate : lenZ.
#[export] Hint Rewrite @lenZ_takeZ @lenZ_dropZ using lia : lenZ.
#[export] Hint Resolve lenZ_nonneg to_size_t_range : core.

(** [ground] decides closed statements by computation. *)
Ltac ground :=
  vm_compute; repeat match goal with |- _ ∧ _ => split end;
  first [reflexivity|discriminate|done|intuition congruence].

(** [solve_len] closes the length side conditions of list operations. *)
Ltac pose_len_nonneg :=
  repeat match goal with
  | l : list _ |- _ =>
      lazymatch goal with
      | _ : 0 ≤ lenZ l |- _ => fail
      | _ => pose proof (lenZ_nonneg l)
      end
  end.
Ltac solve_len := pose_len_nonneg; autorewrite with lenZ in *; try lia.
