(* ===== verification/Buffer.v ===== *)
(** [rtc::BufferT<T, ZeroOnFree>] of libs/webrtc/include/rtc_base/buffer.h,
    the growable buffer in which [AudioRecordSource] keeps recorded samples.

    The memory block a buffer owns is a list of cells; a cell is [None] while
    its value is indeterminate (fresh from [new T[n]]).  [size_] and
    [capacity_] are [size_t] values.  The operations keep every check, every
    copy and every reallocation of the source; the abstract view of a buffer
    is the list of its first [size_] elements ([holds]). *)

From S2P Require Import Prelude.

(** What a build fixes: whether [RTC_DCHECK] is compiled in (checks.h), and
    the number of bytes a single [new T[n]] can obtain before the allocator
    throws. *)
Class BuildConfig := {
  dcheck_is_on : bool;
  alloc_limit : Z
}.

(** Two concrete builds, used by the examples. *)
Definition DebugBuild : BuildConfig :=
  {| dcheck_is_on := true; alloc_limit := 2 ^ 40 |}.
Definition ReleaseBuild : BuildConfig :=
  {| dcheck_is_on := false; alloc_limit := 2 ^ 40 |}.

(** [RTC_DCHECK(b)]: [RTC_CHECK(b)] in a debug build, nothing otherwise. *)
Definition RTC_DCHECK `{BuildConfig} (b : bool) (msg : string) : outcome unit :=
  if dcheck_is_on then RTC_CHECK b msg else Ret tt.

(** ** Memory blocks *)

Section memory.
Context {T : Type}.

(** [n] elements of a block starting at element [off], as a copy reads
    them. *)
Definition mem_read (block : list (option T)) (off n : Z)
    : outcome (list (option T)) :=
  if (0 <=? off) && (0 <=? n) && (off + n <=? lenZ block)
  then Ret (takeZ n (dropZ off block)) else Undef OutOfBounds.

(** Storing [src] at element [off] of a block. *)
Definition mem_write (block : list (option T)) (off : Z)
    (src : list (option T)) : outcome (list (option T)) :=
  if (0 <=? off) && (off + lenZ src <=? lenZ block)
  then Ret (takeZ off block ++ src ++ dropZ (off + lenZ src) block)
  else Undef OutOfBounds.

(** [memcpy] (and [memmove]) of [n] elements between blocks. *)
Definition memcpy (dst : list (option T)) (doff : Z)
    (src : list (option T)) (soff n : Z) : outcome (list (option T)) :=
  mem_read src soff n ≫= mem_write dst doff.

(** Values read out of cells: an indeterminate cell has no value. *)
Fixpoint cell_values (cells : list (option T)) : outcome (list T) :=
  match cells with
  | [] => Ret []
  | None :: _ => Undef Indeterminate
  | Some x :: cells => l ← cell_values cells; Ret (x :: l)
  end.

Lemma mem_read_ok block off n :
  0 ≤ off → 0 ≤ n → off + n ≤ lenZ block →
  mem_read block off n = Ret (takeZ n (dropZ off block)).
Proof.
  intros. unfold mem_read.
  rewrite !(proj2 (Z.leb_le _ _)) by lia. done.
Qed.

Lemma mem_read_oob block off n :
  lenZ block < off + n → mem_read block off n = Undef OutOfBounds.
Proof.
  intros. unfold mem_read.
  rewrite (proj2 (Z.leb_gt (off + n) _)) by lia. by rewrite andb_false_r.
Qed.

Lemma mem_write_ok block off src :
  0 ≤ off → off + lenZ src ≤ lenZ block →
  mem_write block off src =
    Ret (takeZ off block ++ src ++ dropZ (off + lenZ src) block).
Proof.
  intros. unfold mem_write.
  rewrite !(proj2 (Z.leb_le _ _)) by lia. done.
Qed.

Lemma cell_values_Some (l : list T) : cell_values (Some <$> l) = Ret l.
Proof. induction l as [|x l IH]; [done|]. by cbn; rewrite IH. Qed.

Lemma cell_values_Ret cells l :
  cell_values cells = Ret l ↔ cells = Some <$> l.
Proof.
  split; [|by intros ->; apply cell_values_Some].
  revert l. induction cells as [|[x|] cells IH]; intros l; cbn.
  - by intros [= <-].
  - rewrite bind_Ret. intros (k & Hk & [= <-]). by rewrite (IH _ Hk).
  - done.
Qed.
End memory.

Create Rewrite HintDb mem.
#[export] Hint Rewrite @mem_read_ok @mem_write_ok using solve_len : mem.
#[export] Hint Rewrite @cell_values_Some : mem.

(** ** The buffer *)

Record BufferT (T : Type) : Type := MkBufferT {
  size_ : Z;
  capacity_ : Z;
  data_ : option (list (option T))
}.
Arguments MkBufferT {T} _ _ _.
Arguments size_ {T} _.
Arguments capacity_ {T} _.
Arguments data_ {T} _.

Section buffer.
Context `{BuildConfig} {T : Type} `{EqDecision T}.
(** The element type: its zero value, its size in bytes, whether it is an
    integral type; and the template argument [ZeroOnFree]. *)
Context (zero : T) (sizeof_T : Z) (is_integral ZeroOnFree : bool).
Implicit Types (b : BufferT T).

(** The block behind [data_.get()]: a null pointer has no elements. *)
Definition block b : list (option T) := default [] (data_ b).

(** The pointer [data_] after stores turned its block into [blk]. *)
Definition store b (blk : list (option T)) : option (list (option T)) :=
  if non_null (data_ b) then Some blk else None.

(** [new T[n]]: indeterminate elements; the allocator throws when the
    request is too large. *)
Definition new_array (n : Z) : outcome (list (option T)) :=
  if n * sizeof_T <=? alloc_limit
  then Ret (replicate (Z.to_nat n) None)
  else Abort "std::bad_alloc".

Definition IsConsistent b : bool :=
  (non_null (data_ b) || (capacity_ b =? 0))
  && (size_ b <=? capacity_ b).

Definition dcheck_consistent b : outcome unit :=
  RTC_DCHECK (IsConsistent b) "IsConsistent()".

(** [ExplicitZeroMemory] on elements [off, off + count) of the block. *)
Definition ExplicitZeroMemory b (off count : Z) : outcome (BufferT T) :=
  blk ← mem_write (block b) off (replicate (Z.to_nat count) (Some zero));
  Ret (MkBufferT (size_ b) (capacity_ b) (store b blk)).

Definition MaybeZeroCompleteBuffer b : outcome (BufferT T) :=
  if ZeroOnFree && negb (capacity_ b =? 0)
  then ExplicitZeroMemory b 0 (capacity_ b) else Ret b.

Definition ZeroTrailingData b (count : Z) : outcome (BufferT T) :=
  _ ← dcheck_consistent b;
  _ ← RTC_DCHECK (count <=? to_size_t (capacity_ b - size_ b))
        "count <= capacity_ - size_";
  ExplicitZeroMemory b (size_ b) count.

Definition EnsureCapacityWithHeadroom b (capacity : Z)
    (extra_headroom : bool) : outcome (BufferT T) :=
  _ ← dcheck_consistent b;
  if capacity <=? capacity_ b then Ret b else
  let new_capacity :=
    if extra_headroom
    then Z.max capacity (to_size_t (capacity_ b + capacity_ b / 2))
    else capacity in
  new_data ← new_array new_capacity;
  new_data ← memcpy new_data 0 (block b) 0 (size_ b);
  b ← MaybeZeroCompleteBuffer b;
  let b := MkBufferT (size_ b) new_capacity (Some new_data) in
  _ ← dcheck_consistent b;
  Ret b.

(** [BufferT()] *)
Definition BufferT_empty : outcome (BufferT T) :=
  let b := MkBufferT 0 0 None in
  _ ← dcheck_consistent b; Ret b.

(** [BufferT(size_t size, size_t capacity)] and [BufferT(size_t size)] *)
Definition BufferT_capacity (size capacity : Z) : outcome (BufferT T) :=
  let cap := Z.max size capacity in
  data ← new_array cap;
  let b := MkBufferT size cap (Some data) in
  _ ← dcheck_consistent b; Ret b.
Definition BufferT_size (size : Z) : outcome (BufferT T) :=
  BufferT_capacity size size.

(** [BufferT(U* data, size_t size, size_t capacity)]; [src] is the memory
    readable at [data]. *)
Definition BufferT_copy (src : list (option T)) (size capacity : Z)
    : outcome (BufferT T) :=
  b ← BufferT_capacity size capacity;
  blk ← memcpy (block b) 0 src 0 size;
  Ret (MkBufferT (size_ b) (capacity_ b) (store b blk)).

Definition OnMovedFrom b : BufferT T :=
  if dcheck_is_on then MkBufferT 0 0 (data_ b)
  else MkBufferT 1 0 (data_ b).

Definition size b : outcome Z := _ ← dcheck_consistent b; Ret (size_ b).
Definition capacity b : outcome Z :=
  _ ← dcheck_consistent b; Ret (capacity_ b).
Definition empty b : outcome bool :=
  _ ← dcheck_consistent b; Ret (size_ b =? 0).

(** [data()]: the block the returned pointer points to. *)
Definition data b : outcome (list (option T)) :=
  _ ← dcheck_consistent b; Ret (block b).

(** [BufferT(BufferT&& buf)]: the new buffer and the moved-from one. *)
Definition BufferT_move (buf : BufferT T)
    : outcome (BufferT T * BufferT T) :=
  s ← size buf; c ← capacity buf;
  let b := MkBufferT s c (data_ buf) in
  _ ← dcheck_consistent b;
  Ret (b, OnMovedFrom (MkBufferT (size_ buf) (capacity_ buf) None)).

(** [operator=(BufferT&& buf)] *)
Definition move_assign b (buf : BufferT T)
    : outcome (BufferT T * BufferT T) :=
  _ ← dcheck_consistent b; _ ← dcheck_consistent buf;
  Ret (MkBufferT (size_ buf) (capacity_ buf) (data_ buf),
       OnMovedFrom (MkBufferT (size_ buf) (capacity_ buf) None)).

(** The element-wise loop of [operator==], from the first elements on. *)
Fixpoint eq_loop (n : nat) (k l : list (option T)) : outcome bool :=
  match n, k, l with
  | O, _, _ => Ret true
  | S n, Some x :: k, Some y :: l =>
      if decide (x = y) then eq_loop n k l else Ret false
  | S _, [], _ | S _, _, [] => Undef OutOfBounds
  | S _, _, _ => Undef Indeterminate
  end.

(** [operator==]; the [memcmp] branch reads both blocks completely. *)
Definition buffer_eq b (buf : BufferT T) : outcome bool :=
  _ ← dcheck_consistent b;
  if negb (size_ b =? size_ buf) then Ret false else
  if is_integral then
    k ← mem_read (block b) 0 (size_ b);
    l ← mem_read (block buf) 0 (size_ b);
    k ← cell_values k; l ← cell_values l;
    Ret (bool_decide (k = l))
  else eq_loop (Z.to_nat (size_ b)) (block b) (block buf).
Definition buffer_ne b (buf : BufferT T) : outcome bool :=
  r ← buffer_eq b buf; Ret (negb r).

(** [operator[](size_t index) const] *)
Definition at_ b (index : Z) : outcome T :=
  _ ← RTC_DCHECK (index <? size_ b) "index < size_";
  blk ← data b;
  l ← mem_read blk index 1;
  vs ← cell_values l;
  match vs with [x] => Ret x | _ => Undef OutOfBounds end.

(** [buf[index] = x] *)
Definition set_at b (index : Z) (x : T) : outcome (BufferT T) :=
  _ ← RTC_DCHECK (index <? size_ b) "index < size_";
  blk ← data b;
  blk ← mem_write blk index [Some x];
  Ret (MkBufferT (size_ b) (capacity_ b) (store b blk)).

(** [AppendData(const U* data, size_t size)] *)
Definition AppendData b (src : list (option T)) (n : Z)
    : outcome (BufferT T) :=
  _ ← dcheck_consistent b;
  let new_size := to_size_t (size_ b + n) in
  b ← EnsureCapacityWithHeadroom b new_size true;
  blk ← memcpy (block b) (size_ b) src 0 n;
  let b := MkBufferT new_size (capacity_ b) (store b blk) in
  _ ← dcheck_consistent b;
  Ret b.

(** [AppendData(const U& item)] *)
Definition AppendItem b (item : T) : outcome (BufferT T) :=
  AppendData b [Some item] 1.

Definition SetSize b (size : Z) : outcome (BufferT T) :=
  let old_size := size_ b in
  b ← EnsureCapacityWithHeadroom b size true;
  let b := MkBufferT size (capacity_ b) (data_ b) in
  if ZeroOnFree && (size <? old_size)
  then ZeroTrailingData b (old_size - size) else Ret b.

Definition EnsureCapacity b (capacity : Z) : outcome (BufferT T) :=
  EnsureCapacityWithHeadroom b capacity false.

(** [AppendData(size_t max_elements, F&& setter)]: [setter] fills a view of
    [max_elements] elements and returns how many it wrote. *)
Definition AppendData_setter b (max_elements : Z)
    (setter : list (option T) → outcome (Z * list (option T)))
    : outcome (Z * BufferT T) :=
  _ ← dcheck_consistent b;
  let old_size := size_ b in
  b ← SetSize b (to_size_t (old_size + max_elements));
  view ← mem_read (block b) old_size max_elements;
  '(written_elements, view) ← setter view;
  blk ← mem_write (block b) old_size view;
  _ ← RTC_CHECK (written_elements <=? max_elements)
        "written_elements <= max_elements";
  let b := MkBufferT (to_size_t (old_size + written_elements))
             (capacity_ b) (store b blk) in
  _ ← dcheck_consistent b;
  Ret (written_elements, b).

(** [SetData(const U* data, size_t size)] *)
Definition SetData b (src : list (option T)) (n : Z)
    : outcome (BufferT T) :=
  _ ← dcheck_consistent b;
  let old_size := size_ b in
  b ← AppendData (MkBufferT 0 (capacity_ b) (data_ b)) src n;
  if ZeroOnFree && (size_ b <? old_size)
  then ZeroTrailingData b (old_size - size_ b) else Ret b.

(** [SetData(size_t max_elements, F&& setter)] *)
Definition SetData_setter b (max_elements : Z)
    (setter : list (option T) → outcome (Z * list (option T)))
    : outcome (Z * BufferT T) :=
  _ ← dcheck_consistent b;
  let old_size := size_ b in
  '(written, b) ←
    AppendData_setter (MkBufferT 0 (capacity_ b) (data_ b))
      max_elements setter;
  if ZeroOnFree && (size_ b <? old_size)
  then b ← ZeroTrailingData b (old_size - size_ b); Ret (written, b)
  else Ret (written, b).

Definition Clear b : outcome (BufferT T) :=
  b ← MaybeZeroCompleteBuffer b;
  let b := MkBufferT 0 (capacity_ b) (data_ b) in
  _ ← dcheck_consistent b;
  Ret b.

Definition swap (a b : BufferT T) : BufferT T * BufferT T := (b, a).

(** ** The class invariant and the abstract view *)

Definition buffer_wf b : Prop :=
  0 ≤ size_ b ≤ capacity_ b ∧ is_size_t (capacity_ b)
  ∧ lenZ (block b) = capacity_ b.

(** The buffer holds the elements [l]: its first [size_] cells. *)
Definition holds b (l : list T) : Prop :=
  buffer_wf b ∧ takeZ (size_ b) (block b) = Some <$> l.

(** The capacity after a request for [c] elements. *)
Definition grown b (c : Z) (extra : bool) : Z :=
  if c <=? capacity_ b then capacity_ b
  else if extra then Z.max c (to_size_t (capacity_ b + capacity_ b / 2))
  else c.

(** The allocator can serve a request for [c] elements. *)
Definition can_grow b (c : Z) (extra : bool) : Prop :=
  c ≤ capacity_ b ∨ grown b c extra * sizeof_T ≤ alloc_limit.

Lemma holds_size b l : holds b l → size_ b = lenZ l.
Proof.
  intros [(Hs & _ & Hb) Hl]. apply (f_equal lenZ) in Hl.
  rewrite lenZ_takeZ, lenZ_fmap in Hl by lia. lia.
Qed.

Lemma wf_consistent b : buffer_wf b → IsConsistent b = true.
Proof.
  intros (Hs & _ & Hb). unfold IsConsistent, block in *.
  rewrite (proj2 (Z.leb_le _ _)) by lia. rewrite andb_true_r.
  destruct (data_ b); [done|]. cbn in *. apply Z.eqb_eq. by rewrite <- Hb.
Qed.

Lemma wf_dcheck b : buffer_wf b → dcheck_consistent b = Ret tt.
Proof.
  intros Hb. unfold dcheck_consistent, RTC_DCHECK, RTC_CHECK.
  rewrite wf_consistent by done. by destruct dcheck_is_on.
Qed.

Lemma zero_block_wf b :
  buffer_wf b → wp (MaybeZeroCompleteBuffer b) (λ b',
    buffer_wf b' ∧ size_ b' = size_ b ∧ capacity_ b' = capacity_ b).
Proof.
  intros Hb. unfold MaybeZeroCompleteBuffer.
  destruct ZeroOnFree; [|done].
  destruct (Z.eqb_spec (capacity_ b) 0) as [|Hc]; [done|]. cbn.
  unfold ExplicitZeroMemory. destruct Hb as (Hs & Hu & Hl).
  rewrite mem_write_ok by solve_len. cbn.
  split; [|done]. split; [done|]. split; [done|].
  unfold store, block, non_null in *.
  destruct (data_ b); cbn in *; [solve_len|lia].
Qed.

Lemma EnsureCapacity_spec b c extra :
  buffer_wf b → is_size_t c → can_grow b c extra →
  wp (EnsureCapacityWithHeadroom b c extra) (λ b',
    buffer_wf b' ∧ size_ b' = size_ b ∧ c ≤ capacity_ b'
    ∧ capacity_ b' = grown b c extra
    ∧ takeZ (size_ b) (block b') = takeZ (size_ b) (block b)).
Proof.
  intros Hb Hc Hg. unfold EnsureCapacityWithHeadroom.
  rewrite wf_dcheck by done. cbn [mbind outcome_bind].
  unfold can_grow, grown in *.
  destruct (Z.leb_spec c (capacity_ b)) as [Hle|Hlt].
  { cbn. repeat split; try done; apply Hb. }
  destruct Hg as [|Hg]; [lia|].
  set (nc := if extra then _ else _) in *.
  assert (c ≤ nc) by (subst nc; destruct extra; lia).
  assert (is_size_t nc).
  { pose proof (to_size_t_range (capacity_ b + capacity_ b / 2)).
    subst nc. unfold is_size_t in *. destruct extra; lia. }
  unfold new_array. rewrite (proj2 (Z.leb_le _ _)) by done. cbn.
  destruct Hb as (Hs & Hu & Hl). unfold memcpy.
  rewrite mem_read_ok by lia. cbn.
  rewrite mem_write_ok by solve_len. cbn.
  apply wp_bind. eapply wp_mono; [|apply zero_block_wf; done].
  intros b' ((Hs' & _ & _) & Hsz & _).
  match goal with |- wp (_ ← dcheck_consistent ?x; _) _ => set (b2 := x) end.
  assert (buffer_wf b2) as Hwf.
  { subst b2. unfold buffer_wf, block. cbn. rewrite Hsz.
    split_and!; [lia|lia|done|solve_len]. }
  rewrite wf_dcheck by done. cbn. split_and!; [done|done|done|done|].
  refine (takeZ_app (takeZ (size_ b) (block b)) _ _ _). solve_len.
Qed.

(** A request the allocator cannot serve throws. *)
Lemma EnsureCapacity_bad_alloc b c extra :
  buffer_wf b → ¬ can_grow b c extra →
  EnsureCapacityWithHeadroom b c extra = Abort "std::bad_alloc".
Proof.
  intros Hb Hg. unfold EnsureCapacityWithHeadroom.
  rewrite wf_dcheck by done. cbn. unfold can_grow, grown in *.
  destruct (Z.leb_spec c (capacity_ b)); [lia|].
  unfold new_array. by rewrite (proj2 (Z.leb_gt _ _)) by lia.
Qed.

Lemma empty_holds :
  wp BufferT_empty (λ b, holds b [] ∧ capacity_ b = 0).
Proof.
  unfold BufferT_empty. rewrite wf_dcheck by done. done.
Qed.

Lemma AppendData_holds b l src k n :
  holds b l → lenZ l + n < u64_modulus → 0 ≤ n ≤ lenZ src →
  takeZ n src = Some <$> k → can_grow b (lenZ l + n) true →
  wp (AppendData b src n) (λ b',
    holds b' (l ++ k) ∧ capacity_ b' = grown b (lenZ l + n) true).
Proof.
  intros Hh Hov Hn Hk Hg. pose proof (holds_size _ _ Hh) as Hsz.
  destruct Hh as [Hb Hl]. unfold AppendData. rewrite wf_dcheck by done.
  cbn [mbind outcome_bind]. rewrite Hsz.
  pose proof (lenZ_nonneg l).
  rewrite to_size_t_small by (unfold is_size_t; lia).
  apply wp_bind. eapply wp_mono; [|apply EnsureCapacity_spec; try done].
  2: { unfold is_size_t. lia. }
  intros b' (Hb' & Hs' & Hc' & Hcap & Htake).
  pose proof Hb' as (Hs'' & Hu & Hlen). unfold memcpy.
  rewrite mem_read_ok by lia. cbn [mbind outcome_bind].
  rewrite dropZ_0.
  rewrite mem_write_ok by solve_len. cbn [mbind outcome_bind].
  match goal with |- wp (_ ← dcheck_consistent ?x; _) _ => set (b2 := x) end.
  assert (block b2 = takeZ (size_ b') (block b') ++ takeZ n src
            ++ dropZ (size_ b' + lenZ (takeZ n src)) (block b')) as Hblk.
  { subst b2. unfold block, store, non_null. cbn.
    destruct (data_ b') eqn:Hd; [done|].
    unfold block in *. rewrite Hd in *. cbn in *.
    assert (capacity_ b' = 0) as Hz by (rewrite <- Hlen; done).
    unfold takeZ, dropZ. rewrite take_nil, drop_nil.
    replace n with 0 by lia. done. }
  assert (buffer_wf b2) as Hwf.
  { unfold buffer_wf. rewrite Hblk. subst b2. cbn. split_and!; [lia|lia|done|]. solve_len. }
  rewrite wf_dcheck by done. cbn. split; [|done]. split; [done|].
  rewrite Hblk, app_assoc. rewrite takeZ_app.
  - rewrite Hs', Htake, Hl, Hk. by rewrite fmap_app.
  - subst b2. cbn. solve_len.
Qed.

Lemma SetSize_truncate_holds b l n :
  ZeroOnFree = false → holds b l → 0 ≤ n ≤ lenZ l →
  wp (SetSize b n) (λ b',
    holds b' (takeZ n l) ∧ data_ b' = data_ b
    ∧ capacity_ b' = capacity_ b).
Proof.
  intros Hz Hh Hn. pose proof (holds_size _ _ Hh) as Hsz.
  destruct Hh as [Hb Hl]. unfold SetSize, EnsureCapacityWithHeadroom.
  rewrite wf_dcheck by done. cbn. destruct Hb as (Hs & Hu & Hlen).
  rewrite (proj2 (Z.leb_le n (capacity_ b))) by lia. cbn. rewrite Hz. cbn.
  split; [|done]. unfold holds, buffer_wf, block in *. cbn.
  split; [split_and!; (done || lia)|].
  rewrite <- takeZ_fmap, <- Hl, takeZ_takeZ by lia. f_equal. lia.
Qed.

(** Growing by half keeps the capacity within 3/2 of the largest request. *)
Lemma grown_bound b c N :
  0 ≤ capacity_ b → 2 * capacity_ b ≤ 3 * N → 0 ≤ c ≤ N →
  2 * grown b c true ≤ 3 * N.
Proof.
  intros Hc0 Hc Hn. unfold grown.
  destruct (Z.leb_spec c (capacity_ b)); [done|].
  assert (to_size_t (capacity_ b + capacity_ b / 2)
    ≤ capacity_ b + capacity_ b / 2) by (apply Z.mod_le; [dlia|done]).
  dlia.
Qed.
End buffer.

Create HintDb buffer discriminated.
#[export] Hint Resolve wf_dcheck wf_consistent : buffer.
