(* ===== verification/AudioFrame.v ===== *)
(** [webrtc::AudioFrame] (libs/webrtc/include/api/audio/audio_frame.h) and
    [AudioFrameOperations::ScaleWithSat] as the mixer code uses them.

    The header gives the state; the member functions live in a library that
    is not part of the repository, so they are the operations of the class
    [AudioFrameApi] and what the header documents about them is the class
    [AudioFrameLaws].  [ReferenceFrameApi] is an instance of both. *)

From Stdlib Require Import SpecFloat.
From S2P Require Import Prelude.

(** [float]: an IEEE 754 binary32 value. *)
Notation f32 := spec_float.

Inductive VADActivity : Set := kVadActive | kVadPassive | kVadUnknown.
Inductive SpeechType : Set :=
| kNormalSpeech | kPLC | kCNG | kPLCCNG | kUndefined.

#[export] Instance VADActivity_eq_dec : EqDecision VADActivity.
Proof. solve_decision. Defined.
#[export] Instance SpeechType_eq_dec : EqDecision SpeechType.
Proof. solve_decision. Defined.

Definition kMaxDataSizeSamples : Z := 3840.
Definition kMaxDataSizeBytes : Z := kMaxDataSizeSamples * 2.

(** The fields describing a frame, and its sample store. *)
Record AudioFrame : Type := MkAudioFrame {
  timestamp_ : Z;
  elapsed_time_ms_ : Z;
  ntp_time_ms_ : Z;
  samples_per_channel_ : Z;
  sample_rate_hz_ : Z;
  num_channels_ : Z;
  speech_type_ : SpeechType;
  vad_activity_ : VADActivity;
  profile_timestamp_ms_ : Z;
  frame_data_ : list Z;
  muted_ : bool
}.

#[export] Instance AudioFrame_eq_dec : EqDecision AudioFrame.
Proof. solve_decision. Defined.

(** The member initialisers of the class; the array [data_] is given. *)
Definition AudioFrame_initial (d : list Z) : AudioFrame :=
  MkAudioFrame 0 (-1) (-1) 0 0 0 kUndefined kVadUnknown 0 d true.

(** What [UpdateFrame] is told about the frame. *)
Record FrameFormat : Type := MkFrameFormat {
  fmt_timestamp : Z;
  fmt_samples_per_channel : Z;
  fmt_sample_rate : Z;
  fmt_speech : SpeechType;
  fmt_vad : VADActivity;
  fmt_channels : Z
}.

Definition format_of (f : AudioFrame) : FrameFormat :=
  MkFrameFormat (timestamp_ f) (samples_per_channel_ f) (sample_rate_hz_ f)
    (speech_type_ f) (vad_activity_ f) (num_channels_ f).

(** "The total number of samples is samples_per_channel_ * num_channels_." *)
Definition total_samples (F : FrameFormat) : Z :=
  fmt_samples_per_channel F * fmt_channels F.

(** The array [data_] has its declared size. *)
Definition frame_wf (f : AudioFrame) : Prop :=
  lenZ (frame_data_ f) = kMaxDataSizeSamples.

Class AudioFrameApi := {
  (** [AudioFrame()] *)
  AudioFrame_new : AudioFrame;
  (** [UpdateFrame]; its data argument is [None] for [nullptr] and otherwise
      the samples read through the pointer. *)
  UpdateFrame : option (list Z) → FrameFormat → AudioFrame → outcome AudioFrame;
  (** [data()]: the array the returned pointer points to. *)
  frame_data : AudioFrame → list Z;
  (** [mutable_data()]: the frame after the call; the returned pointer points
      to its array [data_]. *)
  mutable_data : AudioFrame → AudioFrame;
  (** [AudioFrameOperations::ScaleWithSat]: result code and scaled frame. *)
  ScaleWithSat : f32 → AudioFrame → Z * AudioFrame
}.

(** A format whose samples fit the array of a frame. *)
Definition format_fits (F : FrameFormat) : Prop :=
  0 ≤ fmt_samples_per_channel F ∧ 0 ≤ fmt_channels F
  ∧ total_samples F ≤ kMaxDataSizeSamples.

Class AudioFrameLaws `{AudioFrameApi} : Prop := {
  AudioFrame_new_wf : frame_wf AudioFrame_new;
  UpdateFrame_data d F f :
    frame_wf f → format_fits F → lenZ d = total_samples F →
    wp (UpdateFrame (Some d) F f) (λ f',
      frame_wf f' ∧ format_of f' = F ∧ muted_ f' = false
      ∧ takeZ (total_samples F) (frame_data_ f') = d);
  UpdateFrame_null F f :
    frame_wf f → format_fits F →
    wp (UpdateFrame None F f) (λ f',
      frame_wf f' ∧ format_of f' = F ∧ muted_ f' = true);
  (** "data() returns a zeroed static buffer if the frame is muted." *)
  frame_data_muted f :
    muted_ f = true → frame_data f = replicate (Z.to_nat kMaxDataSizeSamples) 0;
  frame_data_unmuted f : muted_ f = false → frame_data f = frame_data_ f;
  (** "the first call to mutable_frame() zeros the non-static buffer and marks
      the frame unmuted." *)
  mutable_data_spec f :
    frame_wf f →
    frame_wf (mutable_data f) ∧ muted_ (mutable_data f) = false
    ∧ format_of (mutable_data f) = format_of f
    ∧ frame_data_ (mutable_data f) = frame_data f;
  ScaleWithSat_format v f :
    frame_wf f →
    frame_wf (snd (ScaleWithSat v f))
    ∧ format_of (snd (ScaleWithSat v f)) = format_of f
}.

(** The samples a frame carries. *)
Definition frame_samples `{AudioFrameApi} (f : AudioFrame) : list Z :=
  takeZ (total_samples (format_of f)) (frame_data f).

Lemma frame_data_length `{AudioFrameLaws} f :
  frame_wf f → lenZ (frame_data f) = kMaxDataSizeSamples.
Proof.
  intros Hf. destruct (muted_ f) eqn:Hm.
  - by rewrite frame_data_muted.
  - by rewrite frame_data_unmuted.
Qed.

(** ** A concrete frame library *)

Definition i16_saturate (z : Z) : Z := Z.max (-32768) (Z.min 32767 z).

(** A sample times a binary32 factor, truncated and saturated to 16 bits. *)
Definition scale_sample (v : f32) (x : Z) : Z :=
  match v with
  | S754_finite s m e =>
      let k := (if s then Z.neg m else Z.pos m) * x in
      i16_saturate (if 0 <=? e then k * 2 ^ e else Z.quot k (2 ^ (- e)))
  | _ => 0
  end.

Definition set_frame (F : FrameFormat) (d : list Z) (m : bool) (f : AudioFrame)
    : AudioFrame :=
  MkAudioFrame (fmt_timestamp F) (elapsed_time_ms_ f) (ntp_time_ms_ f)
    (fmt_samples_per_channel F) (fmt_sample_rate F) (fmt_channels F)
    (fmt_speech F) (fmt_vad F) (profile_timestamp_ms_ f) d m.

Definition zero_data : list Z := replicate (Z.to_nat kMaxDataSizeSamples) 0.

#[export] Instance ReferenceFrameApi : AudioFrameApi := {
  AudioFrame_new := AudioFrame_initial zero_data;
  UpdateFrame d F f :=
    if total_samples F <=? kMaxDataSizeSamples then
      match d with
      | Some l => Ret (set_frame F
          (l ++ dropZ (total_samples F) (frame_data_ f)) false f)
      | None => Ret (set_frame F (frame_data_ f) true f)
      end
    else Abort "length <= kMaxDataSizeSamples";
  frame_data f := if muted_ f then zero_data else frame_data_ f;
  mutable_data f :=
    if muted_ f then set_frame (format_of f) zero_data false f else f;
  ScaleWithSat v f :=
    (0, if muted_ f then f
        else set_frame (format_of f) (scale_sample v <$> frame_data_ f) false f)
}.

#[export] Instance ReferenceFrameLaws : AudioFrameLaws.
Proof.
  split.
  - done.
  - intros d F f Hf (? & ? & Hfit) Hd. cbn.
    rewrite (proj2 (Z.leb_le _ _)) by done. cbn. unfold frame_wf in *. cbn.
    split_and!; [|by destruct F|done|by apply takeZ_app].
    assert (0 ≤ total_samples F) by (unfold total_samples; nia). solve_len.
  - intros F f Hf (? & ? & Hfit). cbn.
    rewrite (proj2 (Z.leb_le _ _)) by done. cbn. by destruct F.
  - by intros f Hm; cbn; rewrite Hm.
  - by intros f Hm; cbn; rewrite Hm.
  - intros f Hf. cbn. by destruct (muted_ f) eqn:Hm.
  - intros v f Hf. cbn. destruct (muted_ f) eqn:Hm; [done|].
    split; [|done]. unfold frame_wf in *. cbn. by rewrite lenZ_fmap.
Qed.
