(* ===== verification/Api.v ===== *)
(** The vocabulary of the mixer: the records and constants of the generated
    interface (generated_src/cpp), the callback results of
    [webrtc::AudioMixer::Source] (api/audio/audio_mixer.h) and the arithmetic
    on frame durations that every component repeats. *)

From stdpp Require Import strings.
From S2P Require Import Prelude.
From S2P Require Import AudioFrame.

(** ** generated_src/cpp *)

Definition MAX_BUF_SIZE : Z := 7680.
Definition SAMPLE_SIZE : Z := 2.

Definition TYPE_FILE : Z := 1.
Definition TYPE_RECORD : Z := 2.

Record MixerSource : Type := MkMixerSource {
  ms_type : Z;
  ms_ssrc : Z;
  ms_volume : f32;
  ms_path : string;
  ms_sample_rate : Z;
  ms_channel_num : Z
}.

Record MixerConfig : Type := MkMixerConfig {
  mc_sources : list MixerSource;
  mc_output_sample_rate : Z;
  mc_output_channel_num : Z;
  mc_frame_duration_ms : Z
}.

(** ** libs/webrtc *)

(** [AudioMixerImpl::kFrameDurationInMs] *)
Definition kFrameDurationInMs : Z := 10.

(** [AudioMixer::Source::AudioFrameInfo] *)
Inductive AudioFrameInfo : Set := kNormal | kMuted | kError.

#[export] Instance AudioFrameInfo_eq_dec : EqDecision AudioFrameInfo.
Proof. solve_decision. Defined.

(** ** Frame durations *)

(** [x / (1000 / frame_duration_ms)] on [int32_t] *)
Definition per_frame (x frame_duration_ms : Z) : outcome Z :=
  d ← i32_div 1000 frame_duration_ms; i32_div x d.
#[global] Arguments per_frame : simpl never.

(** The value [per_frame] has when it returns. *)
Definition frames_share (x ms : Z) : Z := x / (1000 / ms).

Lemma frames_per_second_pos ms : 1 ≤ ms ≤ 1000 → 0 < 1000 / ms.
Proof. intros. apply Z.div_str_pos. lia. Qed.

Lemma per_frame_ok x ms :
  1 ≤ ms ≤ 1000 → 0 ≤ x → is_i32 x →
  per_frame x ms = Ret (frames_share x ms).
Proof.
  intros. unfold per_frame. rewrite i32_div_ok by (unfold_i32; lia).
  cbn. by rewrite i32_div_ok by (done || by apply frames_per_second_pos).
Qed.

(** No duration outside [1, 1000] has a defined frame size, except negative
    ones down to -1000. *)
Lemma per_frame_div_zero x ms :
  is_i32 ms → ms = 0 ∨ ms < -1000 ∨ 1000 < ms →
  per_frame x ms = Undef DivisionByZero.
Proof.
  intros Hr Hms. unfold per_frame, i32_div.
  destruct (Z.eqb_spec ms 0) as [|Hz]; [reflexivity|].
  assert (Z.quot 1000 ms = 0) as ->.
  { destruct Hms as [Hms|[Hms|Hms]]; [lia| |].
    - rewrite <- (Z.opp_involutive ms), Z.quot_opp_r by lia.
      by rewrite Z.quot_small by lia.
    - by apply Z.quot_small. }
  done.
Qed.

Lemma frames_share_nonneg x ms : 1 ≤ ms ≤ 1000 → 0 ≤ x → 0 ≤ frames_share x ms.
Proof.
  intros. apply Z.div_pos; [done|]. by apply frames_per_second_pos.
Qed.

Lemma frames_share_le x ms : 1 ≤ ms ≤ 1000 → 0 ≤ x → frames_share x ms ≤ x.
Proof.
  intros Hms Hx. pose proof (frames_per_second_pos ms Hms).
  apply Z.div_le_upper_bound; [done|nia].
Qed.

(** A longer frame has at least as many samples. *)
Lemma frames_share_mono x ms ms' :
  0 ≤ x → 1 ≤ ms ≤ ms' → ms' ≤ 1000 → frames_share x ms ≤ frames_share x ms'.
Proof.
  intros. unfold frames_share.
  apply Z.div_le_compat_l; [done|]. split.
  - apply frames_per_second_pos. lia.
  - apply Z.div_le_compat_l; lia.
Qed.

(** The frame size is exact when the durations and rates divide evenly. *)
Lemma frames_share_exact x ms :
  1 ≤ ms → (ms | 1000) → (1000 / ms | x) →
  frames_share x ms * 1000 = x * ms.
Proof.
  intros Hms [k Hk] [q ->]. unfold frames_share.
  assert (1000 / ms = k) as -> by (rewrite Hk; apply Z.div_mul; lia).
  assert (k ≠ 0) by (intros ->; lia).
  rewrite Z.div_mul by done. rewrite Hk. lia.
Qed.

Lemma frames_share_mul c x ms :
  1 ≤ ms ≤ 1000 → 0 ≤ c → 0 ≤ x →
  c * frames_share x ms ≤ frames_share (c * x) ms.
Proof.
  intros. unfold frames_share.
  apply Z.div_mul_le; [done|by apply frames_per_second_pos|done].
Qed.
