(* ===== verification/AudioSource.v ===== *)
(** [audio_mixer::AudioSource] (src/src/audio_source.cpp, audio_source.h):
    the base class of the sources, which holds the volume and applies it to a
    frame. *)

From Stdlib Require Import SpecFloat.
From S2P Require Import Prelude.
From S2P Require Import AudioFrame.

(** The binary32 literals [0.99f] and [1.01f]: 16609444 * 2^-24 and
    8472494 * 2^-23. *)
Definition f32_0_99 : f32 := S754_finite false 16609444 (-24).
Definition f32_1_01 : f32 := S754_finite false 8472494 (-23).
Definition f32_1 : f32 := S754_finite false 8388608 (-23).

Record AudioSource : Type := MkAudioSource { volume_ : f32 }.

(** [volume_ < 0.99f || volume_ > 1.01f]; both comparisons are false for a
    NaN. *)
Definition volume_out_of_band (v : f32) : bool :=
  SFltb v f32_0_99 || SFltb f32_1_01 v.

Section audio_source.
Context `{AudioFrameApi}.

Definition ApplyVolume (s : AudioSource) (frame : AudioFrame) : AudioFrame :=
  if volume_out_of_band (volume_ s)
  then snd (ScaleWithSat (volume_ s) frame) else frame.

Definition UpdateVolume (s : AudioSource) (volume : f32) : AudioSource :=
  MkAudioSource volume.

Lemma ApplyVolume_format `{!AudioFrameLaws} s f :
  frame_wf f →
  frame_wf (ApplyVolume s f)
  ∧ format_of (ApplyVolume s f) = format_of f.
Proof.
  intros Hf. unfold ApplyVolume. destruct (volume_out_of_band _); [|done].
  by apply ScaleWithSat_format.
Qed.
End audio_source.

(** ** The dead band in terms of real values *)

(** A valid binary32 value. *)
Definition valid_f32 (v : f32) : bool := valid_binary 24 128 v.

(** The value of a finite float in units of 2^-149, the least positive
    binary32. *)
Definition f32_units (v : f32) : option Z :=
  match v with
  | S754_zero _ => Some 0
  | S754_finite s m e =>
      Some ((if s then Z.neg m else Z.pos m) * 2 ^ (e + 149))
  | _ => None
  end.

Lemma digits2_pos_bounds m :
  2 ^ (Z.pos (digits2_pos m) - 1) ≤ Z.pos m < 2 ^ Z.pos (digits2_pos m).
Proof.
  induction m as [m IH|m IH|]; cbn [digits2_pos]; [| |done].
  all: rewrite Pos2Z.inj_succ, Z.pow_succ_r by lia.
  all: replace (Z.succ (Z.pos (digits2_pos m)) - 1)
         with (Z.succ (Z.pos (digits2_pos m) - 1)) by lia.
  all: rewrite Z.pow_succ_r by lia; lia.
Qed.

(** Canonical binary32 mantissas: 24 bits, or fewer at the least exponent. *)
Lemma valid_finite s m e :
  valid_f32 (S754_finite s m e) = true →
  -149 ≤ e ≤ 104 ∧ Z.pos m < 2 ^ 24 ∧ (-149 < e → 2 ^ 23 ≤ Z.pos m).
Proof.
  unfold valid_f32, valid_binary, bounded, canonical_mantissa, fexp,
    SpecFloat.emin.
  rewrite andb_true_iff, Z.leb_le. intros [Hc He].
  apply Z.eqb_eq in Hc. pose proof (digits2_pos_bounds m) as [Hlo Hhi].
  set (d := Z.pos (digits2_pos m)) in *.
  assert (d ≤ 24) by lia. split_and!; [lia|lia| |].
  - eapply Z.lt_le_trans; [done|]. apply Z.pow_le_mono_r; lia.
  - intros. assert (d = 24) as Hd by lia. by rewrite Hd in Hlo.
Qed.

(** The comparison of positive floats is the comparison of their values. *)
Lemma positive_ltb m1 e1 m2 e2 :
  valid_f32 (S754_finite false m1 e1) = true →
  valid_f32 (S754_finite false m2 e2) = true →
  SFltb (S754_finite false m1 e1) (S754_finite false m2 e2) = true ↔
  Z.pos m1 * 2 ^ (e1 + 149) < Z.pos m2 * 2 ^ (e2 + 149).
Proof.
  intros (He1 & Hm1 & Hn1)%valid_finite (He2 & Hm2 & Hn2)%valid_finite.
  assert (∀ ma ea mb eb, -149 ≤ ea → ea < eb → Z.pos ma < 2 ^ 24 →
    2 ^ 23 ≤ Z.pos mb →
    Z.pos ma * 2 ^ (ea + 149) < Z.pos mb * 2 ^ (eb + 149)) as Hexp.
  { intros ma ea mb eb ? ? ? ?.
    replace (eb + 149) with (Z.succ (ea + 149) + (eb - ea - 1)) by lia.
    rewrite (Z.pow_add_r 2 (Z.succ (ea + 149))), Z.pow_succ_r by lia.
    assert (0 < 2 ^ (ea + 149)) by (apply Z.pow_pos_nonneg; lia).
    assert (0 < 2 ^ (eb - ea - 1)) by (apply Z.pow_pos_nonneg; lia).
    generalize dependent (2 ^ (ea + 149)); intros P HP.
    generalize dependent (2 ^ (eb - ea - 1)); intros Q HQ.
    apply Z.lt_le_trans with (2 ^ 24 * P); [nia|].
    assert (2 ^ 24 ≤ 2 * Z.pos mb * Q) by nia. nia. }
  unfold SFltb, SFcompare.
  destruct (Z.compare_spec e1 e2) as [->|Hlt|Hgt].
  - assert (0 < 2 ^ (e2 + 149)) by (apply Z.pow_pos_nonneg; lia).
    change (Pos.compare_cont Eq m1 m2) with (m1 ?= m2)%positive.
    destruct (Pos.compare_spec m1 m2); split; intros; (done || nia).
  - split; [intros _|done]. apply Hexp; lia.
  - split; [done|]. pose proof (Hexp m2 e2 m1 e1). lia.
Qed.

Lemma volume_band_finite s m e :
  valid_f32 (S754_finite s m e) = true →
  volume_out_of_band (S754_finite s m e) = false ↔
  ∃ u, f32_units (S754_finite s m e) = Some u
       ∧ 16609444 * 2 ^ 125 ≤ u ≤ 8472494 * 2 ^ 126.
Proof.
  intros Hv. unfold volume_out_of_band. rewrite orb_false_iff.
  destruct s.
  - split; [by intros []|]. intros (u & [= <-] & Hu & _).
    assert (0 ≤ 2 ^ (e + 149)) by (apply Z.pow_nonneg; lia). nia.
  - unfold f32_0_99, f32_1_01.
    rewrite <- !not_true_iff_false, !positive_ltb by done.
    cbn [f32_units]. split.
    + intros [? ?]. eexists. split; [done|]. split; lia.
    + intros (u & [= <-] & ? & ?). split; lia.
Qed.

(** ** Property *)

(** A volume change is exact outside the dead band: for a finite volume, a
    frame is left alone if and only if the volume lies between the floats
    nearest to 0.99 and 1.01; every other frame is scaled by the volume.  A NaN
    leaves the frame alone, and the infinities scale it. *)
Theorem volume_dead_band `{AudioFrameApi} v f :
  valid_f32 v = true →
  ApplyVolume (MkAudioSource v) f
    = match f32_units v with
      | Some u =>
          if decide (16609444 * 2 ^ 125 ≤ u ≤ 8472494 * 2 ^ 126) then f
          else snd (ScaleWithSat v f)
      | None =>
          match v with S754_nan => f | _ => snd (ScaleWithSat v f) end
      end.
Proof.
  intros Hv. unfold ApplyVolume. cbn [volume_].
  destruct v as [s|s| |s m e]; [by destruct s|by destruct s|done|].
  pose proof (volume_band_finite s m e Hv) as Hb. cbn [f32_units] in *.
  destruct (volume_out_of_band _), (decide _) as [Hd|Hd]; try done; exfalso.
  - assert (true = false) as Ht by (apply Hb; by eexists). done.
  - apply Hd. destruct Hb as [Hb _]. by destruct Hb as (u & [= ->] & ?).
Qed.

Lemma volume_dead_band_witness :
  ApplyVolume (MkAudioSource f32_0_99) (AudioFrame_initial zero_data)
    = AudioFrame_initial zero_data
  ∧ ApplyVolume (MkAudioSource (S754_finite false 16609443 (-24)))
      (AudioFrame_initial zero_data)
    = snd (ScaleWithSat (S754_finite false 16609443 (-24))
             (AudioFrame_initial zero_data)).
Proof.
  split.
  - etrans; [apply (volume_dead_band f32_0_99 (AudioFrame_initial zero_data));
      reflexivity|]. reflexivity.
  - etrans; [apply (volume_dead_band (S754_finite false 16609443 (-24))
      (AudioFrame_initial zero_data)); reflexivity|]. reflexivity.
Defined.
