(* ===== verification/RecordSource.v ===== *)
(** [audio_mixer::AudioRecordSource] (src/src/audio_record_source.cpp, .h):
    recorded samples are appended to a buffer and handed to the mixer one
    frame at a time. *)

From S2P Require Import Prelude.
From S2P Require Import Buffer.
From S2P Require Import AudioFrame.
From S2P Require Import Api.
From S2P Require Import AudioSource.

Record AudioRecordSource : Type := MkRecordSource {
  rs_base : AudioSource;
  rs_ssrc : Z;
  rs_sample_rate : Z;
  rs_channel_num : Z;
  rs_frame_duration_ms : Z;
  rs_report_output_samples : Z;
  rs_real_buffer_num_elements : Z;
  rs_buffer : BufferT Z
}.

Definition rs_set_buffer (s : AudioRecordSource) (b : BufferT Z)
    : AudioRecordSource :=
  MkRecordSource (rs_base s) (rs_ssrc s) (rs_sample_rate s)
    (rs_channel_num s) (rs_frame_duration_ms s) (rs_report_output_samples s)
    (rs_real_buffer_num_elements s) b.

Lemma rs_set_buffer_id s : s = rs_set_buffer s (rs_buffer s).
Proof. by destruct s. Qed.

Section record_source.
Context `{BuildConfig, AudioFrameApi}.

(** The buffer is a [BufferT<int16_t>]. *)
Notation AppendData16 := (AppendData 0 2 false).
Notation SetSize16 := (SetSize 0 2 false).
Notation Clear16 := (Clear 0 false).

(** The constructor. *)
Definition AudioRecordSource_new
    (ssrc sample_rate channel_num frame_duration_ms : Z) (volume : f32)
    : outcome AudioRecordSource :=
  report ← per_frame sample_rate kFrameDurationInMs;
  elements ← i32_mul channel_num sample_rate;
  real ← per_frame elements frame_duration_ms;
  b ← BufferT_empty;
  b ← Clear16 b;
  Ret (MkRecordSource (MkAudioSource volume) ssrc sample_rate channel_num
         frame_duration_ms report real b).

(** [OnAudioRecorded]; [samples] is the memory readable at [data], as
    16-bit elements.  [size / sizeof(int16_t)] is computed in [size_t]. *)
Definition OnAudioRecorded (s : AudioRecordSource) (samples : list Z)
    (size : Z) : outcome AudioRecordSource :=
  b ← AppendData16 (rs_buffer s) (Some <$> samples)
        (to_size_t size / 2);
  Ret (rs_set_buffer s b).

(** The format [GetAudioFrameWithInfo] gives to [UpdateFrame]. *)
Definition rs_format (s : AudioRecordSource) : FrameFormat :=
  MkFrameFormat 0 (to_size_t (rs_report_output_samples s))
    (rs_sample_rate s) kNormalSpeech kVadActive
    (to_size_t (rs_channel_num s)).

(** The data argument of [UpdateFrame]: null, or the [n] elements it reads
    from the buffer. *)
Definition read_samples (b : BufferT Z) (n : Z) : outcome (option (list Z)) :=
  blk ← data b;
  if non_null (data_ b)
  then l ← mem_read blk 0 n; l ← cell_values l; Ret (Some l)
  else Ret None.

Definition rs_GetAudioFrameWithInfo (s : AudioRecordSource)
    (sample_rate_hz : Z) (audio_frame : AudioFrame)
    : outcome (AudioFrameInfo * AudioFrame * AudioRecordSource) :=
  if negb (sample_rate_hz =? rs_sample_rate s)
  then Ret (kError, audio_frame, s) else
  let b := rs_buffer s in
  let real := rs_real_buffer_num_elements s in
  sz ← size b;
  if sz <? to_size_t real then Ret (kMuted, audio_frame, s) else
  d ← read_samples b (total_samples (rs_format s));
  audio_frame ← UpdateFrame d (rs_format s) audio_frame;
  let rest := to_size_t (sz - real) in
  blk ← memcpy (block b) 0 (block b) real rest;
  let b := MkBufferT (size_ b) (capacity_ b) (store b blk) in
  b ← SetSize16 b rest;
  Ret (kNormal, ApplyVolume (rs_base s) audio_frame, rs_set_buffer s b).

Definition rs_Ssrc (s : AudioRecordSource) : Z := rs_ssrc s.
Definition rs_PreferredSampleRate (s : AudioRecordSource) : Z :=
  rs_sample_rate s.

Definition rs_UpdateVolume (s : AudioRecordSource) (volume : f32)
    : AudioRecordSource :=
  MkRecordSource (UpdateVolume (rs_base s) volume) (rs_ssrc s)
    (rs_sample_rate s) (rs_channel_num s) (rs_frame_duration_ms s)
    (rs_report_output_samples s) (rs_real_buffer_num_elements s)
    (rs_buffer s).
End record_source.

(** ** The invariant of a record source *)

(** A rate, channel count and duration for which the frame arithmetic is
    defined and the reported frame fits [AudioFrame]. *)
Definition valid_timing (sample_rate channel_num frame_duration_ms : Z)
    : Prop :=
  0 ≤ sample_rate ∧ 0 ≤ channel_num ∧ 1 ≤ frame_duration_ms ≤ 1000
  ∧ is_i32 sample_rate ∧ is_i32 channel_num
  ∧ is_i32 (channel_num * sample_rate)
  ∧ frames_share sample_rate kFrameDurationInMs * channel_num
      ≤ kMaxDataSizeSamples.

(** [s] holds the queue [l] of recorded samples. *)
Definition rs_queue (s : AudioRecordSource) (l : list Z) : Prop :=
  valid_timing (rs_sample_rate s) (rs_channel_num s) (rs_frame_duration_ms s)
  ∧ rs_report_output_samples s
      = frames_share (rs_sample_rate s) kFrameDurationInMs
  ∧ rs_real_buffer_num_elements s
      = frames_share (rs_channel_num s * rs_sample_rate s)
          (rs_frame_duration_ms s)
  ∧ holds (rs_buffer s) l.

Section record_source_lemmas.
Context `{BuildConfig, AudioFrameLaws}.
Implicit Types (s : AudioRecordSource) (l : list Z).

Lemma timing_report sr ch ms :
  valid_timing sr ch ms →
  per_frame sr kFrameDurationInMs
    = Ret (frames_share sr kFrameDurationInMs).
Proof. intros (? & _ & _ & ? & _). by apply per_frame_ok. Qed.

Lemma timing_share_size_t x ms :
  1 ≤ ms ≤ 1000 → 0 ≤ x → is_i32 x → is_size_t (frames_share x ms).
Proof.
  intros. pose proof (frames_share_le x ms). 
  pose proof (frames_share_nonneg x ms). unfold_i32. lia.
Qed.

Lemma rs_new_queue ssrc sr ch ms v :
  valid_timing sr ch ms →
  wp (AudioRecordSource_new ssrc sr ch ms v) (λ s,
    rs_queue s [] ∧ rs_base s = MkAudioSource v ∧ rs_ssrc s = ssrc
    ∧ rs_sample_rate s = sr ∧ rs_channel_num s = ch
    ∧ rs_frame_duration_ms s = ms ∧ capacity_ (rs_buffer s) = 0).
Proof.
  intros Ht. unfold AudioRecordSource_new.
  rewrite (timing_report _ _ _ Ht). cbn [mbind outcome_bind].
  pose proof Ht as (? & ? & ? & ? & ? & ? & _).
  rewrite i32_mul_ok by done. cbn [mbind outcome_bind].
  rewrite per_frame_ok by (done || nia). cbn [mbind outcome_bind].
  unfold BufferT_empty, Clear. rewrite wf_dcheck by done. cbn.
  rewrite wf_dcheck by done. cbn. done.
Qed.

Lemma to_size_t_half z :
  0 ≤ z → is_i32 z → to_size_t z / 2 = z / 2.
Proof. intros. by rewrite to_size_t_small by by apply is_i32_size_t. Qed.

(** Recording appends. *)
Lemma OnAudioRecorded_queue s l samples size :
  rs_queue s l → 0 ≤ size → is_i32 size → size / 2 ≤ lenZ samples →
  lenZ l + size / 2 < u64_modulus →
  can_grow 2 (rs_buffer s) (lenZ l + size / 2) true →
  wp (OnAudioRecorded s samples size) (λ s',
    rs_queue s' (l ++ takeZ (size / 2) samples)
    ∧ capacity_ (rs_buffer s')
        = grown (rs_buffer s) (lenZ l + size / 2) true
    ∧ s' = rs_set_buffer s (rs_buffer s')).
Proof.
  intros (Ht & Hr & Hn & Hb) Hs Hi Hlen Hov Hg. unfold OnAudioRecorded.
  rewrite to_size_t_half by done.
  assert (0 ≤ size / 2) by (apply Z.div_pos; lia).
  apply wp_bind. eapply wp_mono; [|eapply AppendData_holds; try done].
  - intros b [Hb' Hc]. done.
  - split; [done|]. by rewrite lenZ_fmap.
  - by rewrite takeZ_fmap.
Qed.

(** A negative size becomes a request the allocator refuses. *)
Lemma OnAudioRecorded_negative_aux s l samples size :
  rs_queue s l → size < 0 → is_i32 size →
  capacity_ (rs_buffer s) < 2 ^ 62 → alloc_limit < 2 ^ 63 →
  OnAudioRecorded s samples size = Abort "std::bad_alloc".
Proof.
  intros (_ & _ & _ & Hb) Hs Hi Hcap Hlim.
  pose proof (holds_size _ _ Hb) as Hsz. destruct Hb as [Hb Hl].
  pose proof Hb as (Hsc & Hu & _).
  unfold OnAudioRecorded, AppendData. rewrite wf_dcheck by done.
  cbn [mbind outcome_bind].
  assert (2 ^ 62 ≤ to_size_t size / 2 < 2 ^ 63) as Hn.
  { unfold to_size_t. rewrite <- (Z.mod_unique size u64_modulus (-1)
      (size + u64_modulus)); unfold_i32; [|lia|lia].
    split; [apply Z.div_le_lower_bound|apply Z.div_lt_upper_bound]; lia. }
  rewrite (to_size_t_small (size_ _ + _)) by (unfold_i32; lia).
  rewrite (EnsureCapacity_bad_alloc 0 2); [done|done|].
  unfold can_grow, grown.
  destruct (Z.leb_spec (size_ (rs_buffer s) + to_size_t size / 2)
    (capacity_ (rs_buffer s))); lia.
Qed.

(** ** Delivering a frame *)

Lemma rs_format_total s l :
  rs_queue s l →
  format_fits (rs_format s)
  ∧ total_samples (rs_format s)
      = frames_share (rs_sample_rate s) kFrameDurationInMs
        * rs_channel_num s.
Proof.
  intros ((Hsr & Hch & Hms & Hisr & Hich & Hi & Hfit) & Hr & _).
  unfold format_fits, total_samples, rs_format. cbn. rewrite Hr.
  rewrite to_size_t_small by by apply timing_share_size_t.
  rewrite to_size_t_small by by apply is_i32_size_t.
  pose proof (frames_share_nonneg (rs_sample_rate s) kFrameDurationInMs).
  unfold kFrameDurationInMs in *. split_and!; lia.
Qed.

Lemma rs_real_range s l :
  rs_queue s l →
  0 ≤ rs_real_buffer_num_elements s
  ∧ is_size_t (rs_real_buffer_num_elements s).
Proof.
  intros ((? & ? & ? & _ & _ & ? & _) & _ & -> & _).
  split; [apply frames_share_nonneg|apply timing_share_size_t]; done || nia.
Qed.

Lemma read_samples_ok b l n :
  holds b l → 0 < n ≤ lenZ l → read_samples b n = Ret (Some (takeZ n l)).
Proof.
  intros Hb Hn. pose proof (holds_size _ _ Hb) as Hsz.
  destruct Hb as [Hb Hl]. unfold read_samples, data.
  rewrite wf_dcheck by done. cbn [mbind outcome_bind].
  destruct Hb as (Hs & _ & Hlen).
  unfold block in *. destruct (data_ b) as [cells|]; cbn in *; [|solve_len].
  rewrite mem_read_ok by lia. cbn [mbind outcome_bind].
  rewrite dropZ_0. replace (takeZ n cells) with (Some <$> takeZ n l).
  - by rewrite cell_values_Some.
  - rewrite <- takeZ_fmap, <- Hl, takeZ_takeZ by lia. f_equal. lia.
Qed.

(** The buffer after its first [n] elements were moved out. *)
Lemma buffer_pop b l n :
  holds b l → 0 ≤ n ≤ lenZ l →
  wp (blk ← memcpy (block b) 0 (block b) n (lenZ l - n);
      SetSize 0 2 false
        (MkBufferT (size_ b) (capacity_ b) (store b blk)) (lenZ l - n))
    (λ b', holds b' (dropZ n l) ∧ capacity_ b' = capacity_ b).
Proof.
  intros Hb Hn. pose proof (holds_size _ _ Hb) as Hsz.
  destruct Hb as [Hb Hl]. pose proof Hb as (Hs & Hu & Hlen).
  unfold memcpy. rewrite mem_read_ok by lia. cbn [mbind outcome_bind].
  rewrite mem_write_ok by solve_len. cbn [mbind outcome_bind].
  set (moved := takeZ (lenZ l - n) (dropZ n (block b))).
  set (blk := takeZ 0 (block b) ++ _).
  set (b' := MkBufferT _ _ _).
  assert (lenZ moved = lenZ l - n) as Hm by (subst moved; solve_len).
  assert (moved = Some <$> dropZ n l) as Hmv.
  { subst moved. rewrite takeZ_dropZ_commute by lia.
    replace (n + (lenZ l - n)) with (size_ b) by lia.
    by rewrite Hl, dropZ_fmap. }
  assert (block b' = blk) as Hblk.
  { subst b'. unfold block, store, non_null. cbn.
    destruct (data_ b) eqn:Hd; [done|]. cbn.
    assert (block b = []) as Hnil by (unfold block; by rewrite Hd).
    subst blk moved. rewrite Hnil. unfold takeZ, dropZ.
    by rewrite !drop_nil, !take_nil. }
  assert (holds b' (dropZ n l ++ dropZ (lenZ l - n) l)) as Hh.
  { split.
    - unfold buffer_wf. rewrite Hblk. subst b' blk. cbn.
      split_and!; [lia|lia|done|solve_len].
    - rewrite Hblk. subst b' blk. cbn [size_]. rewrite takeZ_0. cbn [app].
      rewrite takeZ_app_ge by lia. rewrite Hmv, fmap_app. f_equal.
      rewrite Z.add_0_l, <- Hmv, Hm, takeZ_dropZ_commute by lia.
      replace (lenZ l - n + _) with (size_ b) by lia.
      by rewrite Hl, dropZ_fmap. }
  eapply wp_mono;
    [|eapply SetSize_truncate_holds; [done|exact Hh|solve_len]].
  intros b2 (Hb2 & _ & Hc). split; [|done].
  by rewrite takeZ_app in Hb2 by solve_len.
Qed.

(** The whole of a successful [GetAudioFrameWithInfo]. *)
Lemma rs_get_frame s l f :
  rs_queue s l → frame_wf f →
  rs_real_buffer_num_elements s ≤ lenZ l →
  0 < total_samples (rs_format s) ≤ lenZ l →
  wp (rs_GetAudioFrameWithInfo s (rs_sample_rate s) f) (λ '(i, f', s'),
    i = kNormal
    ∧ rs_queue s' (dropZ (rs_real_buffer_num_elements s) l)
    ∧ s' = rs_set_buffer s (rs_buffer s')
    ∧ capacity_ (rs_buffer s') = capacity_ (rs_buffer s)
    ∧ ∃ f0, f' = ApplyVolume (rs_base s) f0 ∧ frame_wf f0
        ∧ format_of f0 = rs_format s
        ∧ frame_samples f0 = takeZ (total_samples (rs_format s)) l).
Proof.
  intros Hq Hf Hreal Htot. pose proof (rs_format_total _ _ Hq) as [Hfit _].
  pose proof (rs_real_range _ _ Hq) as [Hr0 Hrs].
  pose proof Hq as (Ht & Hr & Hn & Hb).
  pose proof (holds_size _ _ Hb) as Hsz.
  unfold rs_GetAudioFrameWithInfo. rewrite Z.eqb_refl. cbn [negb].
  unfold size at 1. rewrite wf_dcheck by apply Hb. cbn [mbind outcome_bind].
  rewrite to_size_t_small by done.
  rewrite (proj2 (Z.ltb_ge _ _)) by lia.
  rewrite (read_samples_ok _ _ _ Hb) by done. cbn [mbind outcome_bind].
  apply wp_bind. eapply wp_mono; [|apply UpdateFrame_data; try done].
  2: { rewrite lenZ_takeZ by lia. lia. }
  intros f0 (Hwf0 & Hfmt & Hm & Hd). rewrite Hsz.
  rewrite (to_size_t_small (lenZ l - _)).
  2: { destruct Hb as ((? & Hu & _) & _). unfold is_size_t in *. lia. }
  pose proof (buffer_pop _ _ _ Hb (conj Hr0 Hreal)) as Hpop.
  destruct (memcpy _ _ _ _ _) as [blk| | |]; [|done..].
  cbn [mbind outcome_bind] in *. rewrite Hsz in Hpop. apply wp_bind.
  eapply wp_mono; [|exact Hpop]. intros b' [Hb' Hc]. cbn.
  split_and!; [done|split_and!; done|done|done|].
  exists f0. split_and!; [done|done|done|].
  unfold frame_samples. by rewrite frame_data_unmuted, Hfmt, Hd.
Qed.

Lemma rs_get_muted s l f :
  rs_queue s l → lenZ l < rs_real_buffer_num_elements s →
  rs_GetAudioFrameWithInfo s (rs_sample_rate s) f = Ret (kMuted, f, s).
Proof.
  intros Hq Hlt. pose proof (rs_real_range _ _ Hq) as [Hr0 Hrs].
  pose proof Hq as (_ & _ & _ & Hb). pose proof (holds_size _ _ Hb) as Hsz.
  unfold rs_GetAudioFrameWithInfo. rewrite Z.eqb_refl. cbn [negb].
  unfold size. rewrite wf_dcheck by apply Hb. cbn [mbind outcome_bind].
  rewrite to_size_t_small by done.
  by rewrite (proj2 (Z.ltb_lt _ _)) by lia.
Qed.

Lemma rs_get_error s rate f :
  rate ≠ rs_sample_rate s →
  rs_GetAudioFrameWithInfo s rate f = Ret (kError, f, s).
Proof.
  intros Hne. unfold rs_GetAudioFrameWithInfo.
  by rewrite (proj2 (Z.eqb_neq _ _)) by done.
Qed.

(** With 10 ms frames a delivered frame never needs more samples than the
    queue test guarantees. *)
Lemma rs_10ms_enough s l :
  rs_queue s l → rs_frame_duration_ms s = kFrameDurationInMs →
  total_samples (rs_format s) ≤ rs_real_buffer_num_elements s.
Proof.
  intros Hq Hms. destruct (rs_format_total _ _ Hq) as [_ ->].
  destruct Hq as ((? & ? & ? & _) & _ & -> & _). rewrite Hms.
  rewrite Z.mul_comm. apply frames_share_mul; unfold kFrameDurationInMs; lia.
Qed.

(** A frame that needs more elements than the block has is read out of
    bounds. *)
Lemma rs_get_overread_aux s l f :
  rs_queue s l → rs_real_buffer_num_elements s ≤ lenZ l →
  data_ (rs_buffer s) ≠ None →
  capacity_ (rs_buffer s) < total_samples (rs_format s) →
  rs_GetAudioFrameWithInfo s (rs_sample_rate s) f = Undef OutOfBounds.
Proof.
  intros Hq Hreal Hnn Hcap. pose proof (rs_real_range _ _ Hq) as [Hr0 Hrs].
  pose proof Hq as (_ & _ & _ & Hb). pose proof (holds_size _ _ Hb) as Hsz.
  pose proof Hb as ((_ & _ & Hlen) & _).
  unfold rs_GetAudioFrameWithInfo. rewrite Z.eqb_refl. cbn [negb].
  unfold size at 1. rewrite wf_dcheck by apply Hb. cbn [mbind outcome_bind].
  rewrite to_size_t_small by done.
  rewrite (proj2 (Z.ltb_ge _ _)) by lia.
  unfold read_samples, data. rewrite wf_dcheck by apply Hb.
  cbn [mbind outcome_bind]. destruct (data_ (rs_buffer s)) eqn:Hd; [|done].
  cbn [non_null]. by rewrite mem_read_oob by lia.
Qed.
End record_source_lemmas.

(** ** The source as a first-in first-out queue *)

(** What is done to a record source: the recorder delivers bytes, the mixer
    asks for a frame at a rate. *)
Inductive rs_op : Type :=
| OpRecord (samples : list Z) (size : Z)
| OpGet (sample_rate_hz : Z).

Section queue_spec.
(** The specification: a queue of samples; a request at the source's rate
    takes [real] samples off the queue and shows the first [shown] of
    them. *)
Context (rate real shown : Z).

Definition queue_step (l : list Z) (op : rs_op)
    : list Z * option (AudioFrameInfo * list Z) :=
  match op with
  | OpRecord samples size => (l ++ takeZ (size / 2) samples, None)
  | OpGet r =>
      if negb (r =? rate) then (l, Some (kError, []))
      else if lenZ l <? real then (l, Some (kMuted, []))
      else (dropZ real l, Some (kNormal, takeZ shown l))
  end.

Fixpoint queue_run (l : list Z) (ops : list rs_op)
    : list Z * list (option (AudioFrameInfo * list Z)) :=
  match ops with
  | [] => (l, [])
  | op :: ops =>
      let '(l, o) := queue_step l op in
      let '(l, os) := queue_run l ops in (l, o :: os)
  end.
End queue_spec.

(** The number of samples the recorder delivers in a run. *)
Fixpoint recorded (ops : list rs_op) : Z :=
  match ops with
  | [] => 0
  | OpRecord _ size :: ops => size / 2 + recorded ops
  | OpGet _ :: ops => recorded ops
  end.

(** The recorder passes sizes that its memory covers. *)
Definition rs_op_ok (op : rs_op) : Prop :=
  match op with
  | OpRecord samples size =>
      0 ≤ size ∧ is_i32 size ∧ size / 2 ≤ lenZ samples
  | OpGet _ => True
  end.

Section queue_refinement.
Context `{BuildConfig, AudioFrameLaws}.

Definition rs_step (f : AudioFrame) (s : AudioRecordSource) (op : rs_op)
    : outcome (AudioRecordSource * option (AudioFrameInfo * AudioFrame)) :=
  match op with
  | OpRecord samples size =>
      s ← OnAudioRecorded s samples size; Ret (s, None)
  | OpGet rate =>
      '(i, f, s) ← rs_GetAudioFrameWithInfo s rate f; Ret (s, Some (i, f))
  end.

Fixpoint rs_run (f : AudioFrame) (s : AudioRecordSource) (ops : list rs_op)
    : outcome (AudioRecordSource * list (option (AudioFrameInfo * AudioFrame)))
    :=
  match ops with
  | [] => Ret (s, [])
  | op :: ops =>
      '(s, o) ← rs_step f s op;
      '(s, os) ← rs_run f s ops; Ret (s, o :: os)
  end.

(** The frame of an answer carries the samples of the specification, scaled
    by the volume of the source. *)
Definition answer_ok (base : AudioSource) (F : FrameFormat)
    (o : option (AudioFrameInfo * AudioFrame))
    (o' : option (AudioFrameInfo * list Z)) : Prop :=
  match o, o' with
  | None, None => True
  | Some (i, f), Some (i', l) =>
      i = i' ∧ (i = kNormal → ∃ f0,
        f = ApplyVolume base f0 ∧ format_of f0 = F ∧ frame_samples f0 = l)
  | _, _ => False
  end.

(** Every answer of a run, and the queue at its end. *)
Definition run_ok (s0 : AudioRecordSource)
    (r : AudioRecordSource * list (option (AudioFrameInfo * AudioFrame)))
    (spec : list Z * list (option (AudioFrameInfo * list Z))) : Prop :=
  rs_queue r.1 spec.1
  ∧ Forall2 (answer_ok (rs_base s0) (rs_format s0)) r.2 spec.2.

Lemma rs_queue_capacity s l :
  rs_queue s l → 0 ≤ capacity_ (rs_buffer s) ∧ lenZ l ≤ capacity_ (rs_buffer s).
Proof.
  intros (_ & _ & _ & Hb). pose proof (holds_size _ _ Hb).
  destruct Hb as ((? & _) & _). lia.
Qed.

Lemma recorded_nonneg ops : Forall rs_op_ok ops → 0 ≤ recorded ops.
Proof.
  induction 1 as [|[samples size|r] ops Hop _ IH]; cbn; [done| |done].
  destruct Hop as [? _]. pose proof (Z.div_pos size 2). lia.
Qed.

(** The specification a run of [s] is compared with. *)
Definition spec_run s l ops :=
  queue_run (rs_sample_rate s) (rs_real_buffer_num_elements s)
    (total_samples (rs_format s)) l ops.

(** The rest of a run, after a step that only changed the buffer. *)
Lemma rs_run_rest N f s s1 ops l o o' :
  s1 = rs_set_buffer s (rs_buffer s1) →
  answer_ok (rs_base s) (rs_format s) o o' →
  wp (rs_run f s1 ops) (λ r,
    run_ok s1 r (spec_run s1 l ops)
    ∧ 2 * capacity_ (rs_buffer r.1) ≤ 3 * N) →
  wp ('(s, os) ← rs_run f s1 ops; Ret (s, o :: os)) (λ r,
    run_ok s r
      (let '(l, os) := spec_run s l ops in (l, o' :: os))
    ∧ 2 * capacity_ (rs_buffer r.1) ≤ 3 * N).
Proof.
  intros Heq Ho Hrun. apply wp_bind. eapply wp_mono; [|exact Hrun].
  replace (spec_run s1 l ops) with (spec_run s l ops) by by rewrite Heq.
  unfold run_ok. replace (rs_base s1) with (rs_base s) by by rewrite Heq.
  replace (rs_format s1) with (rs_format s) by by rewrite Heq.
  intros [s2 os]. cbn. destruct (spec_run s l ops) as [l2 os'].
  intros [[Hq2 Hos] Hc2]. split; [|done]. split; [done|]. by constructor.
Qed.

Lemma rs_run_aux N f ops s l :
  frame_wf f → rs_queue s l → rs_frame_duration_ms s = kFrameDurationInMs →
  0 < total_samples (rs_format s) →
  Forall rs_op_ok ops → lenZ l + recorded ops ≤ N →
  2 * capacity_ (rs_buffer s) ≤ 3 * N → 3 * N ≤ alloc_limit →
  N < u64_modulus →
  wp (rs_run f s ops) (λ r,
    run_ok s r (spec_run s l ops) ∧ 2 * capacity_ (rs_buffer r.1) ≤ 3 * N).
Proof.
  intros Hf Hq Hms Htot Hops HN Hcap Hlim Hu. revert s l Hq Hms Htot HN Hcap.
  induction ops as [|op ops IH]; intros s l Hq Hms Htot HN Hcap; [done|].
  apply Forall_cons_1 in Hops as [Hop Hops].
  pose proof (recorded_nonneg _ Hops) as Hrec.
  specialize (IH Hops). unfold spec_run.
  destruct op as [samples size|r]; cbn [rs_run rs_step queue_run queue_step].
  - destruct Hop as (Hs0 & Hsi & Hsl). cbn [recorded] in HN.
    pose proof (rs_queue_capacity _ _ Hq) as [Hc0 Hlc].
    assert (0 ≤ size / 2) by (apply Z.div_pos; lia).
    assert (2 * grown (rs_buffer s) (lenZ l + size / 2) true ≤ 3 * N)
      by (apply grown_bound; solve_len).
    rewrite !wp_bind. eapply wp_mono;
      [|apply OnAudioRecorded_queue; (done || lia || by right; lia)].
    intros s1 (Hq1 & Hcap1 & Heq). cbn [mbind outcome_bind].
    apply rs_run_rest; [done|done|].
    apply IH; [done|by rewrite Heq|by rewrite Heq|solve_len|by rewrite Hcap1].
  - destruct (Z.eqb_spec r (rs_sample_rate s)) as [->|Hne]; cbn [negb].
    2: { rewrite rs_get_error by done. cbn [mbind outcome_bind].
         apply rs_run_rest; [apply rs_set_buffer_id|done|by apply IH]. }
    destruct (Z.ltb_spec (lenZ l) (rs_real_buffer_num_elements s)).
    { erewrite rs_get_muted by done. cbn [mbind outcome_bind].
      apply rs_run_rest; [apply rs_set_buffer_id|done|by apply IH]. }
    pose proof (rs_10ms_enough _ _ Hq Hms).
    pose proof (rs_real_range _ _ Hq) as [Hr0 _].
    rewrite !wp_bind. eapply wp_mono; [|apply (rs_get_frame s l); done || lia].
    intros [[i f1] s1] (-> & Hq1 & Heq & Hcap1 & f0 & -> & _ & Hfmt & Hsmp).
    cbn [mbind outcome_bind]. apply rs_run_rest; [done|cbn; by eauto|].
    cbn [recorded] in HN.
    apply IH; [done|by rewrite Heq|by rewrite Heq|solve_len|by rewrite Hcap1].
Qed.
End queue_refinement.

(** ** Properties *)

Section record_source_properties.
Context `{BuildConfig, AudioFrameLaws}.

Lemma record_source_runs_queue ssrc sr ch v f ops :
  valid_timing sr ch kFrameDurationInMs →
  0 < frames_share sr kFrameDurationInMs * ch →
  frame_wf f → Forall rs_op_ok ops →
  3 * recorded ops ≤ alloc_limit → recorded ops < u64_modulus →
  wp (s ← AudioRecordSource_new ssrc sr ch kFrameDurationInMs v;
      rs_run f s ops) (λ r,
    let spec := queue_run sr (frames_share (ch * sr) kFrameDurationInMs)
                  (frames_share sr kFrameDurationInMs * ch) [] ops in
    holds (rs_buffer r.1) spec.1
    ∧ Forall2 (answer_ok (MkAudioSource v)
        (MkFrameFormat 0 (frames_share sr kFrameDurationInMs) sr
           kNormalSpeech kVadActive ch)) r.2 spec.2
    ∧ 2 * capacity_ (rs_buffer r.1) ≤ 3 * recorded ops).
Proof.
  intros Ht Hpos Hf Hops Hlim Hu. apply wp_bind.
  eapply wp_mono; [|by apply rs_new_queue].
  intros s (Hq & Hbase & _ & Hsr & Hch & Hms & Hcap).
  pose proof (rs_format_total _ _ Hq) as [_ Htot].
  pose proof Hq as (_ & Hrep & Hreal & _).
  eapply wp_mono; [|apply (rs_run_aux (recorded ops) f ops s []); try done].
  - intros r [[(_ & _ & _ & Hb) Ha] Hc]. unfold spec_run in *.
    rewrite Htot, Hreal, Hsr, Hch, Hms in *.
    split_and!; [done| |done].
    rewrite Hbase in Ha. unfold rs_format in Ha.
    rewrite Hrep, Hsr, Hch in Ha.
    destruct Ht as (? & ? & ? & ? & ? & _).
    rewrite to_size_t_small in Ha by by apply timing_share_size_t.
    by rewrite to_size_t_small in Ha by by apply is_i32_size_t.
  - by rewrite Htot, Hsr, Hch.
  - rewrite Hcap. pose proof (recorded_nonneg _ Hops). lia.
Qed.

(** C2: A record source with 10 ms frames is a first-in first-out queue of
    samples.  Whatever sequence of recordings and frame requests follows
    its construction, no check fails and no access is out of bounds; every
    answer is the one of the queue specification (an error for a foreign
    rate, muted while less than a frame is queued, otherwise the oldest
    samples, scaled by the volume); the buffer ends up holding exactly the
    queue; and its capacity never exceeds 3/2 of the number of samples
    ever recorded. *)
Theorem record_source_refines_queue ssrc sr ch v f ops :
  valid_timing sr ch kFrameDurationInMs →
  0 < frames_share sr kFrameDurationInMs * ch →
  frame_wf f → Forall rs_op_ok ops →
  3 * recorded ops ≤ alloc_limit → recorded ops < u64_modulus →
  wp (s ← AudioRecordSource_new ssrc sr ch kFrameDurationInMs v;
      rs_run f s ops) (λ r,
    let spec := queue_run sr (frames_share (ch * sr) kFrameDurationInMs)
                  (frames_share sr kFrameDurationInMs * ch) [] ops in
    holds (rs_buffer r.1) spec.1
    ∧ Forall2 (answer_ok (MkAudioSource v)
        (MkFrameFormat 0 (frames_share sr kFrameDurationInMs) sr
           kNormalSpeech kVadActive ch)) r.2 spec.2
    ∧ 2 * capacity_ (rs_buffer r.1) ≤ 3 * recorded ops).
Proof. apply record_source_runs_queue. Qed.

(** A recording with a negative size does not corrupt the queue: the
    size becomes a [size_t] no allocator can serve and the append throws. *)
Theorem on_audio_recorded_negative_size s l samples size :
  rs_queue s l → size < 0 → is_i32 size →
  capacity_ (rs_buffer s) < 2 ^ 62 → alloc_limit < 2 ^ 63 →
  OnAudioRecorded s samples size = Abort "std::bad_alloc".
Proof. apply OnAudioRecorded_negative_aux. Qed.

(** C21: With frames shorter than 10 ms the source reads past its buffer.
    The queue test asks for [real] samples, the frame it then builds always
    spans 10 ms: a source that has recorded exactly one short frame makes
    [UpdateFrame] read beyond the allocated block. *)
Theorem short_frames_overread ssrc sr ch ms v f samples :
  valid_timing sr ch ms →
  lenZ samples = frames_share (ch * sr) ms →
  0 < lenZ samples → is_i32 (2 * lenZ samples) →
  2 * lenZ samples ≤ alloc_limit →
  lenZ samples < frames_share sr kFrameDurationInMs * ch →
  (s ← AudioRecordSource_new ssrc sr ch ms v;
   s ← OnAudioRecorded s samples (2 * lenZ samples);
   rs_GetAudioFrameWithInfo s sr f) = Undef OutOfBounds.
Proof.
  intros Ht Hlen Hpos Hi Hlim Hshort.
  destruct (proj1 (wp_exists _ _) (rs_new_queue ssrc sr ch ms v Ht))
    as (s & -> & Hq & _ & _ & Hsr & Hch & Hms & Hcap).
  cbn [mbind outcome_bind].
  assert (2 * lenZ samples / 2 = lenZ samples) as Hhalf by dlia.
  assert (lenZ samples < u64_modulus) by (unfold_i32; lia).
  assert (grown (rs_buffer s) (lenZ samples) true = lenZ samples) as Hgr.
  { unfold grown. rewrite Hcap. rewrite (proj2 (Z.leb_gt _ _)) by lia.
    change (to_size_t (0 + 0 / 2)) with 0. lia. }
  destruct (proj1 (wp_exists _ _) (OnAudioRecorded_queue s [] samples
    (2 * lenZ samples) Hq ltac:(lia) Hi ltac:(lia)
    ltac:(rewrite Hhalf; done)
    ltac:(rewrite Hhalf; right; change (lenZ [] + lenZ samples)
            with (lenZ samples); rewrite Hgr; lia)))
    as (s' & -> & Hq' & Hcap' & Heq).
  rewrite Hhalf in *. change (lenZ [] + lenZ samples) with (lenZ samples) in *.
  rewrite takeZ_all in Hq' by done. rewrite Hgr in Hcap'.
  cbn [mbind outcome_bind].
  assert (rs_sample_rate s' = sr) as <- by (by rewrite Heq).
  eapply rs_get_overread_aux; [exact Hq'|..].
  - rewrite Heq. cbn. destruct Hq as (_ & _ & -> & _).
    rewrite Hch, Hsr, Hms. cbn. by rewrite Hlen.
  - intros Hd. destruct Hq' as (_ & _ & _ & (_ & _ & Hb) & _).
    unfold block in Hb. rewrite Hd in Hb. cbn in Hb.
    change (lenZ (@nil (option Z))) with 0 in Hb. lia.
  - rewrite Hcap'. destruct (rs_format_total _ _ Hq') as [_ ->].
    by rewrite Heq in *; cbn in *; rewrite Hch.
Qed.
End record_source_properties.

(** ** Examples *)

#[local] Existing Instance ReleaseBuild.

Definition demo_ops : list rs_op :=
  [OpGet 100; OpRecord [11; 12; 13] 5; OpGet 48000; OpGet 100; OpGet 100;
   OpRecord [14] 2; OpGet 100].

Definition demo_frame : AudioFrame := AudioFrame_initial zero_data.

Lemma record_source_refines_queue_witness :
  wp (s ← AudioRecordSource_new 7 100 1 kFrameDurationInMs f32_1;
      rs_run demo_frame s demo_ops) (λ r,
    let spec := queue_run 100 (frames_share (1 * 100) kFrameDurationInMs)
                  (frames_share 100 kFrameDurationInMs * 1) [] demo_ops in
    holds (rs_buffer r.1) spec.1
    ∧ Forall2 (answer_ok (MkAudioSource f32_1)
        (MkFrameFormat 0 (frames_share 100 kFrameDurationInMs) 100
           kNormalSpeech kVadActive 1)) r.2 spec.2
    ∧ 2 * capacity_ (rs_buffer r.1) ≤ 3 * recorded demo_ops).
Proof.
  apply record_source_refines_queue; [ground..| |ground|ground].
  repeat constructor; ground.
Defined.

Example demo_queue_answers :
  queue_run 100 1 1 [] demo_ops =
    ([], [Some (kMuted, []); None; Some (kError, []); Some (kNormal, [11]);
          Some (kNormal, [12]); None; Some (kNormal, [14])]).
Proof. reflexivity. Qed.

Lemma on_audio_recorded_negative_size_witness :
  ∃ s, AudioRecordSource_new 7 100 1 10 f32_1 = Ret s
       ∧ OnAudioRecorded s [1] (-2) = Abort "std::bad_alloc".
Proof.
  eexists. split; [vm_compute; reflexivity|].
  apply on_audio_recorded_negative_size with (l := []); ground.
Defined.

Lemma short_frames_overread_witness :
  (s ← AudioRecordSource_new 7 200 1 5 f32_1;
   s ← OnAudioRecorded s [42] (2 * lenZ [42]);
   rs_GetAudioFrameWithInfo s 200 demo_frame) = Undef OutOfBounds.
Proof. apply short_frames_overread; ground. Defined.
