(* ===== verification/Ffmpeg.v ===== *)
(** The FFmpeg functions the decoder, the resampler and the file source call.

    The libraries are not part of the repository (only their headers are,
    under libs/ffmpeg/include), so their state and functions are the fields of
    the class [FFmpeg], and the behaviour the headers document is the class
    [FFmpegSpec].  The data types and error codes the headers define are
    definitions. *)

From stdpp Require Import strings.
From S2P Require Import Prelude.

(** ** libavutil/samplefmt.h, error.h, channel_layout.h, mathematics.h *)

Inductive AVSampleFormat : Set :=
| AV_SAMPLE_FMT_NONE
| AV_SAMPLE_FMT_U8 | AV_SAMPLE_FMT_S16 | AV_SAMPLE_FMT_S32
| AV_SAMPLE_FMT_FLT | AV_SAMPLE_FMT_DBL
| AV_SAMPLE_FMT_U8P | AV_SAMPLE_FMT_S16P | AV_SAMPLE_FMT_S32P
| AV_SAMPLE_FMT_FLTP | AV_SAMPLE_FMT_DBLP
| AV_SAMPLE_FMT_S64 | AV_SAMPLE_FMT_S64P
| AV_SAMPLE_FMT_NB.

#[export] Instance AVSampleFormat_eq_dec : EqDecision AVSampleFormat.
Proof. solve_decision. Defined.

(** The sizes the comments of the enumeration give. *)
Definition sample_format_bytes (f : AVSampleFormat) : Z :=
  match f with
  | AV_SAMPLE_FMT_U8 | AV_SAMPLE_FMT_U8P => 1
  | AV_SAMPLE_FMT_S16 | AV_SAMPLE_FMT_S16P => 2
  | AV_SAMPLE_FMT_S32 | AV_SAMPLE_FMT_S32P
  | AV_SAMPLE_FMT_FLT | AV_SAMPLE_FMT_FLTP => 4
  | AV_SAMPLE_FMT_DBL | AV_SAMPLE_FMT_DBLP
  | AV_SAMPLE_FMT_S64 | AV_SAMPLE_FMT_S64P => 8
  | AV_SAMPLE_FMT_NONE | AV_SAMPLE_FMT_NB => 0
  end.

Inductive AVRounding : Set :=
| AV_ROUND_ZERO | AV_ROUND_INF | AV_ROUND_DOWN | AV_ROUND_UP
| AV_ROUND_NEAR_INF | AV_ROUND_PASS_MINMAX.

(** [MKTAG] (common.h), [FFERRTAG], [AVERROR] and [AVERROR_EOF] (error.h); the
    tag characters are below 128, so that only the last one is shifted as an
    unsigned number. *)
Definition MKTAG (a b c d : Z) : Z :=
  Z.lor (Z.lor a (Z.shiftl b 8)) (Z.lor (Z.shiftl c 16) (Z.shiftl d 24)).
Definition FFERRTAG (a b c d : Z) : Z := - as_i32 (MKTAG a b c d).
Definition AVERROR (e : Z) : Z := - e.
Definition AVERROR_EOF : Z := FFERRTAG 69 79 70 32.

(** [AV_CH_LAYOUT_MONO] and [AV_CH_LAYOUT_STEREO] (channel_layout.h) *)
Definition AV_CH_FRONT_LEFT : Z := 0x1.
Definition AV_CH_FRONT_RIGHT : Z := 0x2.
Definition AV_CH_FRONT_CENTER : Z := 0x4.
Definition AV_CH_LAYOUT_MONO : Z := AV_CH_FRONT_CENTER.
Definition AV_CH_LAYOUT_STEREO : Z := Z.lor AV_CH_FRONT_LEFT AV_CH_FRONT_RIGHT.

Lemma AVERROR_EOF_value : AVERROR_EOF = -541478725.
Proof. reflexivity. Qed.

(** ** The libraries *)

(** A demuxed packet: the stream it belongs to and its payload. *)
Record AVPacket (P : Type) : Type := MkAVPacket {
  pkt_stream_index : Z;
  pkt_payload : P
}.
Arguments MkAVPacket {P} _ _.
Arguments pkt_stream_index {P} _.
Arguments pkt_payload {P} _.

(** A decoded audio frame: [nb_samples] samples, each of all channels. *)
Record AVFrame (S : Type) : Type := MkAVFrame {
  nb_samples : Z;
  extended_data : list S
}.
Arguments MkAVFrame {S} _ _.
Arguments nb_samples {S} _.
Arguments extended_data {S} _.

Class FFmpeg := {
  AVFormatContext : Type;
  AVCodec : Type;
  AVCodecContext : Type;
  AVAudioFifo : Type;
  SwrContext : Type;
  (** packet payloads, and samples of all channels in the decoder's format *)
  Payload : Type;
  Sample : Type;

  EAGAIN : Z;
  (** the message of an error code, from [av_strerror] *)
  av_err2str : Z → string;

  av_frame_alloc : option unit;
  av_packet_alloc : option unit;
  avformat_open_input : string → Z * option AVFormatContext;
  avformat_find_stream_info : AVFormatContext → Z * AVFormatContext;
  av_find_best_stream : AVFormatContext → Z;
  (** [avcodec_find_decoder] on the codec id of a stream *)
  avcodec_find_decoder : AVFormatContext → Z → option AVCodec;
  avcodec_alloc_context3 : AVCodec → option AVCodecContext;
  avcodec_parameters_to_context :
    AVCodecContext → AVFormatContext → Z → Z * AVCodecContext;
  avcodec_open2 : AVCodecContext → AVCodec → Z * AVCodecContext;
  ctx_sample_fmt : AVCodecContext → AVSampleFormat;
  ctx_sample_rate : AVCodecContext → Z;
  ctx_channels : AVCodecContext → Z;

  av_read_frame :
    AVFormatContext → Z * AVPacket Payload * AVFormatContext;
  avcodec_send_packet :
    AVCodecContext → AVPacket Payload → Z * AVCodecContext;
  avcodec_receive_frame :
    AVCodecContext → Z * AVFrame Sample * AVCodecContext;

  av_audio_fifo_alloc : AVSampleFormat → Z → Z → option AVAudioFifo;
  av_audio_fifo_size : AVAudioFifo → Z;
  av_audio_fifo_write : AVAudioFifo → list Sample → Z → Z * AVAudioFifo;
  av_audio_fifo_read : AVAudioFifo → Z → Z * list Sample * AVAudioFifo;

  av_get_bytes_per_sample : AVSampleFormat → Z;
  (** nb_channels, nb_samples, sample_fmt, align *)
  av_samples_get_buffer_size : Z → Z → AVSampleFormat → Z → Z;
  (** nb_channels, nb_samples, sample_fmt, align: the return code *)
  av_samples_alloc_array_and_samples : Z → Z → AVSampleFormat → Z → Z;
  (** the samples of a fresh buffer *)
  silence : AVSampleFormat → Sample;
  av_rescale_rnd : Z → Z → Z → AVRounding → Z;

  swr_alloc : option SwrContext;
  av_opt_set_int : SwrContext → string → Z → SwrContext;
  av_opt_set_sample_fmt : SwrContext → string → AVSampleFormat → SwrContext;
  swr_init : SwrContext → Z * SwrContext;
  (** out_count, in, in_count: the return code and the interleaved 16-bit
      samples written to the output *)
  swr_convert :
    SwrContext → Z → list Sample → Z → Z * list Z * SwrContext
}.

(** The samples of a list of frames. *)
Definition frames_samples {S} (l : list (AVFrame S)) : list S :=
  concat (extended_data <$> l).

Lemma frames_samples_app {S} (k l : list (AVFrame S)) :
  frames_samples (k ++ l) = frames_samples k ++ frames_samples l.
Proof. unfold frames_samples. by rewrite fmap_app, concat_app. Qed.

(** What the headers document, in terms of views of the hidden states. *)
Class FFmpegSpec `{FFmpeg} := {
  (** the samples in a FIFO *)
  fifo_contents : AVAudioFifo → list Sample;
  (** the packets a demuxer has yet to return *)
  fmt_packets : AVFormatContext → list (AVPacket Payload);
  (** the packets a decoder accepted, the frames it returned, and the frames
      it can return without further input *)
  codec_accepted : AVCodecContext → list (AVPacket Payload);
  codec_received : AVCodecContext → list (AVFrame Sample);
  codec_pending : AVCodecContext → list (AVFrame Sample);
  (** the frames a decoder produces for a sequence of packets *)
  decoded : list (AVPacket Payload) → list (AVFrame Sample);
  (** the channels of the output of a resampler *)
  swr_channels : SwrContext → Z;

  fifo_alloc_empty f c n q :
    av_audio_fifo_alloc f c n = Some q → fifo_contents q = [];
  (** "number of samples available for reading" *)
  fifo_size_spec q : av_audio_fifo_size q = lenZ (fifo_contents q);
  (** "If successful, the number of samples actually written will always be
      nb_samples." *)
  fifo_write_spec q d n :
    lenZ d = n → 0 ≤ (av_audio_fifo_write q d n).1 →
    fifo_contents (av_audio_fifo_write q d n).2 = fifo_contents q ++ d;
  (** "will only be less than nb_samples if av_audio_fifo_size is less" *)
  fifo_read_spec q n r d q' :
    0 ≤ n → av_audio_fifo_read q n = (r, d, q') → 0 ≤ r →
    r = Z.min n (lenZ (fifo_contents q)) ∧ d = takeZ r (fifo_contents q)
    ∧ fifo_contents q' = dropZ r (fifo_contents q);

  (** "Return the next frame of a stream." *)
  read_frame_ok c p c' :
    av_read_frame c = (0, p, c') → fmt_packets c = p :: fmt_packets c';
  read_frame_end c e p c' :
    av_read_frame c = (e, p, c') → e ≠ 0 → fmt_packets c' = fmt_packets c;

  (** a context that was just opened has seen no packet *)
  open_fresh c k e c' :
    avcodec_open2 c k = (e, c') → 0 ≤ e →
    codec_accepted c' = [] ∧ codec_received c' = [];
  codec_stream c :
    codec_received c ++ codec_pending c = decoded (codec_accepted c);
  send_ok c p c' :
    avcodec_send_packet c p = (0, c') →
    codec_accepted c' = codec_accepted c ++ [p]
    ∧ codec_received c' = codec_received c;
  (** "input is not accepted in the current state" *)
  send_rejected c p e c' :
    avcodec_send_packet c p = (e, c') → e ≠ 0 →
    codec_accepted c' = codec_accepted c
    ∧ codec_received c' = codec_received c;
  receive_ok c f c' :
    avcodec_receive_frame c = (0, f, c') →
    codec_accepted c' = codec_accepted c
    ∧ codec_received c' = codec_received c ++ [f]
    ∧ nb_samples f = lenZ (extended_data f);
  receive_rejected c e f c' :
    avcodec_receive_frame c = (e, f, c') → e ≠ 0 →
    codec_accepted c' = codec_accepted c
    ∧ codec_received c' = codec_received c;

  bytes_per_sample_spec f :
    av_get_bytes_per_sample f = sample_format_bytes f;
  (** "required buffer size", with no alignment *)
  buffer_size_spec c n f :
    0 < c → 0 < n → is_i32 (c * n * sample_format_bytes f) →
    0 < sample_format_bytes f →
    av_samples_get_buffer_size c n f 1 = c * n * sample_format_bytes f;
  (** "mathematically equivalent to a * b / c", rounded toward +infinity *)
  rescale_up_spec a b c :
    0 ≤ a → 0 ≤ b → 0 < c →
    av_rescale_rnd a b c AV_ROUND_UP = (a * b + c - 1) / c;
  (** the options of a resampler *)
  swr_set_mono c :
    swr_channels (av_opt_set_int c "out_channel_layout" AV_CH_LAYOUT_MONO) = 1;
  swr_set_stereo c :
    swr_channels (av_opt_set_int c "out_channel_layout" AV_CH_LAYOUT_STEREO)
      = 2;
  swr_set_other c name v :
    name ≠ "out_channel_layout"%string →
    swr_channels (av_opt_set_int c name v) = swr_channels c;
  swr_set_fmt c name f :
    swr_channels (av_opt_set_sample_fmt c name f) = swr_channels c;
  swr_init_channels c : swr_channels (swr_init c).2 = swr_channels c;
  (** "number of samples output per channel", within the space available;
      16-bit output is interleaved *)
  swr_convert_spec c n d k r out c' :
    0 ≤ n → swr_convert c n d k = (r, out, c') →
    r ≤ n ∧ lenZ out = Z.max 0 r * swr_channels c
    ∧ swr_channels c' = swr_channels c
}.

(** The FIFO finds memory for its data. *)
Class FifoReliable `{FFmpeg} : Prop := {
  fifo_write_succeeds q d n : 0 ≤ (av_audio_fifo_write q d n).1;
  fifo_read_succeeds q n : 0 ≤ n → 0 ≤ (av_audio_fifo_read q n).1.1
}.

(** The channel count of a stream does not change while it is decoded. *)
Class StableChannels `{FFmpeg} : Prop := {
  send_channels c p :
    ctx_channels (avcodec_send_packet c p).2 = ctx_channels c;
  receive_channels c : ctx_channels (avcodec_receive_frame c).2 = ctx_channels c
}.

Lemma codec_pending_receive `{FFmpegSpec} c f c' :
  avcodec_receive_frame c = (0, f, c') → codec_pending c = f :: codec_pending c'.
Proof.
  intros Hr. destruct (receive_ok _ _ _ Hr) as (Ha & Hrec & _).
  pose proof (codec_stream c') as Hs. rewrite Ha, <- codec_stream, Hrec in Hs.
  rewrite <- app_assoc in Hs. by apply app_inv_head in Hs.
Qed.
