(* ===== verification/FfmpegReference.v ===== *)
(** A small FFmpeg that satisfies [FFmpegSpec]: the examples run the modelled
    code on it, so that the specification is known to be satisfiable.

    A file is a list of packets whose payload is a list of decoded frames; the
    codec accepts a packet while fewer than [limit] frames are pending. *)

From stdpp Require Import strings.
From S2P Require Import Prelude.
From S2P Require Import Ffmpeg.

Section reference.
Context (file : list (AVPacket (list (list Z)))).
Context (format : AVSampleFormat) (rate channels : Z) (limit : nat).

(** The codec: the packets it accepted and how many frames it returned. *)
Record RefCodec : Type := MkRefCodec {
  rc_accepted : list (AVPacket (list (list Z)));
  rc_returned : nat
}.

Definition ref_frame (d : list Z) : AVFrame Z := MkAVFrame (lenZ d) d.
Definition ref_decoded (l : list (AVPacket (list (list Z))))
    : list (AVFrame Z) :=
  ref_frame <$> concat (pkt_payload <$> l).
Definition ref_received (c : RefCodec) :=
  take (rc_returned c) (ref_decoded (rc_accepted c)).
Definition ref_pending (c : RefCodec) :=
  drop (rc_returned c) (ref_decoded (rc_accepted c)).

Definition ref_send (c : RefCodec) (p : AVPacket (list (list Z)))
    : Z * RefCodec :=
  if (length (ref_pending c) <? limit)%nat
  then (0, MkRefCodec (rc_accepted c ++ [p])
             (rc_returned c `min` length (ref_decoded (rc_accepted c))))
  else (AVERROR 11, c).

Definition ref_receive (c : RefCodec) : Z * AVFrame Z * RefCodec :=
  match ref_pending c with
  | f :: _ => (0, f, MkRefCodec (rc_accepted c) (S (rc_returned c)))
  | [] => (AVERROR 11, MkAVFrame 0 [], c)
  end.

Definition align_up (n a : Z) : Z := (n + a - 1) / a * a.

Definition ref_buffer_size (c n : Z) (f : AVSampleFormat) (align : Z) : Z :=
  if (c <=? 0) || (n <=? 0) || (sample_format_bytes f =? 0) then -22
  else c * (if align =? 0 then align_up n 32 else n) * sample_format_bytes f.

(** A resampler is the list of its options, the last one first; it repeats
    each input sample once per output channel. *)
Fixpoint ref_channels (c : list (string * Z)) : Z :=
  match c with
  | [] => 1
  | (name, v) :: c =>
      if String.eqb name "out_channel_layout"
      then if v =? AV_CH_LAYOUT_MONO then 1 else 2 else ref_channels c
  end.
Definition ref_convert (c : list (string * Z)) (n : Z) (d : list Z) (k : Z)
    : Z * list Z * list (string * Z) :=
  let r := Z.max 0 (Z.min n k) in
  (r, concat ((λ x, replicate (Z.to_nat (ref_channels c)) x)
              <$> takeZ r (d ++ replicate (Z.to_nat r) 0)), c).

#[local] Instance ReferenceFFmpeg : FFmpeg := {
  AVFormatContext := list (AVPacket (list (list Z)));
  AVCodec := unit;
  AVCodecContext := RefCodec;
  AVAudioFifo := list Z;
  SwrContext := list (string * Z);
  Payload := list (list Z);
  Sample := Z;
  EAGAIN := 11;
  av_err2str _ := "error";
  av_frame_alloc := Some tt;
  av_packet_alloc := Some tt;
  avformat_open_input _ := (0, Some file);
  avformat_find_stream_info c := (0, c);
  av_find_best_stream _ := 0;
  avcodec_find_decoder _ _ := Some tt;
  avcodec_alloc_context3 _ := Some (MkRefCodec [] 0);
  avcodec_parameters_to_context c _ _ := (0, c);
  avcodec_open2 _ _ := (0, MkRefCodec [] 0);
  ctx_sample_fmt _ := format;
  ctx_sample_rate _ := rate;
  ctx_channels _ := channels;
  av_read_frame c :=
    match c with
    | p :: c => (0, p, c)
    | [] => (AVERROR_EOF, MkAVPacket 0 [], [])
    end;
  avcodec_send_packet := ref_send;
  avcodec_receive_frame := ref_receive;
  av_audio_fifo_alloc _ _ _ := Some [];
  av_audio_fifo_size := lenZ;
  av_audio_fifo_write q d n := (n `max` 0, q ++ takeZ n d);
  av_audio_fifo_read q n :=
    (Z.min n (lenZ q), takeZ n q, dropZ n q);
  av_get_bytes_per_sample := sample_format_bytes;
  av_samples_get_buffer_size := ref_buffer_size;
  av_samples_alloc_array_and_samples := ref_buffer_size;
  silence _ := 0;
  av_rescale_rnd a b c _ := (a * b + c - 1) / c;
  swr_alloc := Some [];
  av_opt_set_int c name v := (name, v) :: c;
  av_opt_set_sample_fmt c name f := c;
  swr_init c := (0, c);
  swr_convert := ref_convert
}.

Lemma ref_decoded_app k l :
  ref_decoded (k ++ l) = ref_decoded k ++ ref_decoded l.
Proof. unfold ref_decoded. by rewrite fmap_app, concat_app, fmap_app. Qed.

Lemma lenZ_concat_replicate (n : Z) (l : list Z) :
  0 ≤ n →
  lenZ (concat ((λ x, replicate (Z.to_nat n) x) <$> l)) = lenZ l * n.
Proof.
  intros Hn. induction l as [|x l IH]; [done|]. cbn.
  rewrite lenZ_app, lenZ_cons, IH, lenZ_replicate. lia.
Qed.

Lemma ref_channels_nonneg c : 0 ≤ ref_channels c.
Proof.
  induction c as [|[name v] c IH]; cbn; [lia|]. repeat case_match; lia.
Qed.

#[local] Program Instance ReferenceFFmpegSpec : FFmpegSpec := {
  fifo_contents q := q;
  fmt_packets c := c;
  codec_accepted := rc_accepted;
  codec_received := ref_received;
  codec_pending := ref_pending;
  decoded := ref_decoded;
  swr_channels := ref_channels
}.
Next Obligation. by intros; simplify_eq/=. Qed.
Next Obligation. done. Qed.
Next Obligation. intros q d n <- _. cbn. by rewrite takeZ_all. Qed.
Next Obligation.
  intros q n r d q' Hn [= <- <- <-] Hr. cbn.
  destruct (Z.min_spec n (lenZ q)) as [[? ->]|[? ->]]; [done|].
  rewrite !takeZ_all by lia. split_and!; [done|done|].
  unfold dropZ. by rewrite !drop_ge by (unfold lenZ in *; lia).
Qed.
Next Obligation. intros [|q l] p c' Heq; by simplify_eq/=. Qed.
Next Obligation. intros [|q l] e p c' Heq Hne; by simplify_eq/=. Qed.
Next Obligation. by intros ???? [= <- <-] _. Qed.
Next Obligation. intros c. apply take_drop. Qed.
Next Obligation.
  intros c p c' Hs. cbn in Hs. unfold ref_send in Hs.
  destruct (_ <? _)%nat; simplify_eq/=. split; [done|].
  unfold ref_received. cbn [rc_accepted rc_returned].
  rewrite ref_decoded_app.
  rewrite take_app_le by lia.
  destruct (Nat.min_spec (rc_returned c) (length (ref_decoded (rc_accepted c))))
    as [[? ->]|[? ->]]; [done|].
  by rewrite !take_ge by lia.
Qed.
Next Obligation.
  intros c p e c' Hs Hne. cbn in Hs. unfold ref_send in Hs.
  destruct (_ <? _)%nat; by simplify_eq/=.
Qed.
Next Obligation.
  intros c f c' Hr. cbn in Hr. unfold ref_receive in Hr.
  destruct (ref_pending c) as [|g l] eqn:Hp; simplify_eq/=.
  unfold ref_pending in Hp. unfold ref_received. cbn [rc_accepted rc_returned].
  assert (ref_decoded (rc_accepted c) !! rc_returned c = Some f) as Hl
    by by rewrite <- (Nat.add_0_r (rc_returned c)), <- lookup_drop, Hp.
  split_and!; [done|by apply take_S_r|].
  apply list_elem_of_lookup_2 in Hl. unfold ref_decoded in Hl.
  apply list_elem_of_fmap in Hl as (x & -> & _). done.
Qed.
Next Obligation.
  intros c e f c' Hr Hne. cbn in Hr. unfold ref_receive in Hr.
  destruct (ref_pending c); by simplify_eq/=.
Qed.
Next Obligation. done. Qed.
Next Obligation.
  intros c n f Hc Hn Hi Hb. cbn. unfold ref_buffer_size.
  rewrite !(proj2 (Z.leb_gt _ _)) by done.
  by rewrite (proj2 (Z.eqb_neq _ _)) by lia.
Qed.
Next Obligation. done. Qed.
Next Obligation. done. Qed.
Next Obligation. done. Qed.
Next Obligation.
  intros c name v Hne. cbn. by rewrite (proj2 (String.eqb_neq _ _)) by done.
Qed.
Next Obligation. done. Qed.
Next Obligation. done. Qed.
Next Obligation.
  intros c n d k r out c' Hn Hc.
  assert (r = Z.max 0 (Z.min n k)) as Hr by by injection Hc.
  assert (c' = c) as -> by by injection Hc.
  assert (out = concat ((λ x, replicate (Z.to_nat (ref_channels c)) x)
            <$> takeZ r (d ++ replicate (Z.to_nat r) 0))) as ->
    by (rewrite Hr; by injection Hc).
  split_and!; [lia| |done]. rewrite lenZ_concat_replicate by apply ref_channels_nonneg.
  rewrite lenZ_takeZ by lia. rewrite lenZ_app, lenZ_replicate.
  pose proof (@lenZ_nonneg Z d). f_equal. lia.
Qed.

#[local] Instance ReferenceFifoReliable : FifoReliable.
Proof.
  split; cbn; intros; [lia|]. pose proof (lenZ_nonneg q). lia.
Qed.

#[local] Instance ReferenceStableChannels : StableChannels.
Proof. done. Qed.
End reference.
