(* ===== verification/FileDecoder.v ===== *)
(** [audio_mixer::AudioFileDecoder] (src/src/audio_file_decoder.cpp, .h): it
    demuxes the best audio stream of a file, decodes it, and keeps decoded
    samples in a FIFO from which [Consume] reads. *)

From stdpp Require Import strings.
From S2P Require Import Prelude.
From S2P Require Import Api.
From S2P Require Import Ffmpeg.
From S2P Require Import FfmpegReference.

Record AudioFileDecoder `{FFmpeg} : Type := MkFileDecoder {
  fd_fifo_capacity : Z;
  fd_stream_no : Z;
  fd_format_context : AVFormatContext;
  fd_codec_context : AVCodecContext;
  fd_packet : option (AVPacket Payload);
  fd_packet_consumed : bool;
  fd_fifo : AVAudioFifo
}.

Arguments MkFileDecoder {_} _ _ _ _ _ _ _.

Section file_decoder.
Context `{FFmpeg}.
Implicit Types (d : AudioFileDecoder).

Definition sample_format d : AVSampleFormat :=
  ctx_sample_fmt (fd_codec_context d).
Definition sample_rate d : Z := ctx_sample_rate (fd_codec_context d).
Definition channel_num d : Z := ctx_channels (fd_codec_context d).

(** The states between the statements of the loops. *)
Definition fd_set_format d (c : AVFormatContext) : AudioFileDecoder :=
  MkFileDecoder (fd_fifo_capacity d) (fd_stream_no d) c
    (fd_codec_context d) (fd_packet d) (fd_packet_consumed d) (fd_fifo d).
Definition fd_set_packet d (p : option (AVPacket Payload)) (b : bool)
    : AudioFileDecoder :=
  MkFileDecoder (fd_fifo_capacity d) (fd_stream_no d) (fd_format_context d)
    (fd_codec_context d) p b (fd_fifo d).
Definition fd_set_codec d (c : AVCodecContext) : AudioFileDecoder :=
  MkFileDecoder (fd_fifo_capacity d) (fd_stream_no d) (fd_format_context d)
    c (fd_packet d) (fd_packet_consumed d) (fd_fifo d).
Definition fd_set_fifo d (q : AVAudioFifo) : AudioFileDecoder :=
  MkFileDecoder (fd_fifo_capacity d) (fd_stream_no d) (fd_format_context d)
    (fd_codec_context d) (fd_packet d) (fd_packet_consumed d) q.

(** Sending the held packet: the second half of the loop body of
    [FillDecoder], with the rest of the loop as a continuation. *)
Definition send_held d (continue : AudioFileDecoder → outcome AudioFileDecoder)
    : outcome AudioFileDecoder :=
  match fd_packet d with
  | None => Undef NullPointer
  | Some p =>
      let '(error, c) := avcodec_send_packet (fd_codec_context d) p in
      let d := fd_set_codec d c in
      if error =? 0 then continue (fd_set_packet d None true)
      else if (error =? AVERROR EAGAIN) || (error =? AVERROR_EOF)
      then Ret d
      else Abort (av_err2str error)
  end.

(** [while (true)] of [FillDecoder]. *)
Fixpoint FillDecoder (fuel : nat) d : outcome AudioFileDecoder :=
  match fuel with
  | O => NoFuel
  | S fuel =>
      if fd_packet_consumed d then
        let '(r, p, c) := av_read_frame (fd_format_context d) in
        let d := fd_set_format d c in
        if negb (r =? 0) then Ret d
        else if negb (pkt_stream_index p =? fd_stream_no d)
        then FillDecoder fuel (fd_set_packet d None true)
        else send_held (fd_set_packet d (Some p) false) (FillDecoder fuel)
      else send_held d (FillDecoder fuel)
  end.

(** [while (size < fifo_capacity_ && receive(..) == 0)] of [FillFifo]. *)
Fixpoint FillFifo (fuel : nat) d : outcome AudioFileDecoder :=
  match fuel with
  | O => NoFuel
  | S fuel =>
      if av_audio_fifo_size (fd_fifo d) <? fd_fifo_capacity d then
        let '(r, f, c) := avcodec_receive_frame (fd_codec_context d) in
        let d := fd_set_codec d c in
        if r =? 0 then
          let '(_, q) := av_audio_fifo_write (fd_fifo d) (extended_data f)
                           (nb_samples f) in
          FillFifo fuel (fd_set_fifo d q)
        else Ret d
      else Ret d
  end.

(** [Consume(buffer, samples)]: the returned byte count, the samples stored
    in the buffer, and the decoder after the call. *)
Definition Consume (fuel : nat) d (samples : Z)
    : outcome (Z * list Sample * AudioFileDecoder) :=
  d ← FillDecoder fuel d;
  d ← FillFifo fuel d;
  let target_samples := Z.min (av_audio_fifo_size (fd_fifo d)) samples in
  let '(actual_samples, out, q) :=
    av_audio_fifo_read (fd_fifo d) target_samples in
  let d := fd_set_fifo d q in
  twice ← i32_mul actual_samples 2;
  bytes ← i32_mul twice (channel_num d);
  Ret (bytes, out, d).

Definition check_ptr {A} (p : option A) (msg : string) : outcome A :=
  match p with Some a => Ret a | None => Abort msg end.

(** The constructor. *)
Definition AudioFileDecoder_new (fuel : nat) (filepath : string)
    : outcome AudioFileDecoder :=
  _ ← check_ptr av_frame_alloc "av_frame_alloc fail";
  _ ← check_ptr av_packet_alloc "av_packet_alloc fail";
  let '(error, format_context) := avformat_open_input filepath in
  _ ← RTC_CHECK (0 <=? error) (av_err2str error);
  format_context ← match format_context with
                   | Some c => Ret c | None => Undef NullPointer end;
  let '(error, format_context) := avformat_find_stream_info format_context in
  _ ← RTC_CHECK (0 <=? error) (av_err2str error);
  let stream_no := av_find_best_stream format_context in
  _ ← RTC_CHECK (0 <=? stream_no) (av_err2str stream_no);
  codec ← check_ptr (avcodec_find_decoder format_context stream_no)
            "avcodec_find_decoder fail";
  codec_context ← check_ptr (avcodec_alloc_context3 codec)
                    "avcodec_alloc_context3 fail";
  let '(error, codec_context) :=
    avcodec_parameters_to_context codec_context format_context stream_no in
  _ ← RTC_CHECK (0 <=? error) (av_err2str error);
  let '(error, codec_context) := avcodec_open2 codec_context codec in
  _ ← RTC_CHECK (0 <=? error) (av_err2str error);
  ten ← i32_mul 10 (ctx_sample_rate codec_context);
  fifo_capacity ← per_frame ten kFrameDurationInMs;
  fifo ← check_ptr (av_audio_fifo_alloc (ctx_sample_fmt codec_context)
           (ctx_channels codec_context) fifo_capacity)
           "av_audio_fifo_alloc fail";
  FillDecoder fuel (MkFileDecoder fifo_capacity stream_no format_context
    codec_context None true fifo).
End file_decoder.

(** ** What the loops preserve *)

Section file_decoder_lemmas.
Context `{FFmpegSpec, !FifoReliable}.
Implicit Types (d : AudioFileDecoder) (file : list (AVPacket Payload)).

(** The packets of stream [no]. *)
Definition audio_packets (no : Z) (l : list (AVPacket Payload)) :=
  filter (λ p, pkt_stream_index p = no) l.

(** The packet that was read but not yet accepted by the codec. *)
Definition held d : list (AVPacket Payload) :=
  if fd_packet_consumed d then [] else option_list (fd_packet d).

(** No packet of the stream and no decoded sample is lost, duplicated or
    reordered: [file] is the stream's packets, [out] the samples handed out
    so far. *)
Definition dec_inv file (out : list Sample) d : Prop :=
  (fd_packet_consumed d = false → is_Some (fd_packet d))
  ∧ codec_accepted (fd_codec_context d) ++ held d
      ++ audio_packets (fd_stream_no d) (fmt_packets (fd_format_context d))
    = file
  ∧ frames_samples (codec_received (fd_codec_context d))
    = out ++ fifo_contents (fd_fifo d).

(** The loop measure of [FillDecoder]. *)
Definition packets_left d : nat :=
  length (fmt_packets (fd_format_context d))
  + (if fd_packet_consumed d then 0 else 1).

Lemma send_held_spec d k P :
  fd_packet_consumed d = false → is_Some (fd_packet d) →
  (∀ c p, fd_packet d = Some p →
    avcodec_send_packet (fd_codec_context d) p = (0, c) →
    wpa (k (fd_set_packet (fd_set_codec d c) None true)) P) →
  (∀ c p e, fd_packet d = Some p → e ≠ 0 →
    avcodec_send_packet (fd_codec_context d) p = (e, c) →
    P (fd_set_codec d c)) →
  wpa (send_held d k) P.
Proof.
  intros _ [p Hp] Hok Hrej. unfold send_held. rewrite Hp.
  destruct (avcodec_send_packet _ p) as [e c] eqn:Hs.
  destruct (Z.eqb_spec e 0) as [->|Hne]; [by eapply Hok|].
  destruct (_ || _); [|done]. by eapply Hrej.
Qed.

(** What a step of [FillDecoder] leaves alone. *)
Definition same_fifo d d' : Prop :=
  fd_fifo d' = fd_fifo d ∧ fd_fifo_capacity d' = fd_fifo_capacity d
  ∧ fd_stream_no d' = fd_stream_no d.

Lemma dec_inv_send file out d c p e :
  dec_inv file out d → fd_packet_consumed d = false →
  fd_packet d = Some p →
  avcodec_send_packet (fd_codec_context d) p = (e, c) →
  dec_inv file out (if decide (e = 0)
    then fd_set_packet (fd_set_codec d c) None true else fd_set_codec d c).
Proof.
  intros (Hh & Hf & Ho) Hc Hp Hs. unfold dec_inv, held in *.
  rewrite Hc, Hp in *. case_decide as He.
  - subst e. destruct (send_ok _ _ _ Hs) as (Ha & Hr). cbn.
    rewrite Ha, Hr. split_and!; [done| |done].
    by rewrite <- app_assoc.
  - destruct (send_rejected _ _ _ _ Hs He) as (Ha & Hr). cbn.
    rewrite Ha, Hr, Hc, Hp. split_and!; [eauto|done|done].
Qed.

Lemma dec_inv_read file out d r p c :
  dec_inv file out d → fd_packet_consumed d = true →
  av_read_frame (fd_format_context d) = (r, p, c) →
  let d' := fd_set_format d c in
  dec_inv file out
    (if decide (r = 0) then
       if decide (pkt_stream_index p = fd_stream_no d)
       then fd_set_packet d' (Some p) false else fd_set_packet d' None true
     else d').
Proof.
  intros (Hh & Hf & Ho) Hc Hr d'. unfold dec_inv, held in *. subst d'.
  rewrite Hc in *.
  case_decide as Hr0; [subst r; case_decide|]; cbn; rewrite ?Hc.
  - rewrite (read_frame_ok _ _ _ Hr) in Hf. unfold audio_packets in *.
    rewrite filter_cons_True in Hf by done.
    split_and!; [eauto|done|done].
  - rewrite (read_frame_ok _ _ _ Hr) in Hf. unfold audio_packets in *.
    rewrite filter_cons_False in Hf by done.
    split_and!; [done|done|done].
  - rewrite (read_frame_end _ _ _ _ Hr) by done. done.
Qed.

Definition filled_decoder file (out : list Sample) d d' : Prop :=
  dec_inv file out d' ∧ same_fifo d d' ∧ (packets_left d' ≤ packets_left d)%nat.

Lemma filled_decoder_mono file out d1 d2 d' :
  same_fifo d1 d2 → (packets_left d2 ≤ packets_left d1)%nat →
  filled_decoder file out d2 d' → filled_decoder file out d1 d'.
Proof.
  unfold filled_decoder, same_fifo. intros (? & ? & ?) ? (? & (? & ? & ?) & ?).
  split_and!; (done || congruence || lia).
Qed.

(** The send half of an iteration, given the rest of the loop. *)
Lemma FillDecoder_send fuel file out d :
  (∀ d, dec_inv file out d → (packets_left d < fuel)%nat →
    wpa (FillDecoder fuel d) (filled_decoder file out d)) →
  dec_inv file out d → fd_packet_consumed d = false →
  (packets_left d < S fuel)%nat →
  wpa (send_held d (FillDecoder fuel)) (filled_decoder file out d).
Proof.
  intros IH Hd Hc Hfuel. unfold packets_left in Hfuel. rewrite Hc in Hfuel.
  apply send_held_spec; [done|by apply Hd|..].
  - intros c' p' Hp' Hs.
    pose proof (dec_inv_send _ _ _ _ _ _ Hd Hc Hp' Hs) as Hd2.
    eapply wpa_mono; [|apply IH; [exact Hd2|unfold packets_left; cbn; lia]].
    intros d'. apply filled_decoder_mono; [done|].
    unfold packets_left. cbn. rewrite Hc. lia.
  - intros c' p' e Hp' Hne Hs.
    pose proof (dec_inv_send _ _ _ _ _ _ Hd Hc Hp' Hs) as Hd2.
    rewrite decide_False in Hd2 by done. done.
Qed.

Lemma FillDecoder_inv fuel file out d :
  dec_inv file out d → (packets_left d < fuel)%nat →
  wpa (FillDecoder fuel d) (filled_decoder file out d).
Proof.
  revert d. induction fuel as [|fuel IH]; intros d Hd Hfuel; [lia|].
  cbn [FillDecoder]. destruct (fd_packet_consumed d) eqn:Hc.
  2: by apply FillDecoder_send.
  unfold packets_left in Hfuel. rewrite Hc in Hfuel.
  destruct (av_read_frame (fd_format_context d)) as [[r p] c] eqn:Hr.
  pose proof (dec_inv_read _ _ _ _ _ _ Hd Hc Hr) as Hd'. cbn zeta in Hd'.
  destruct (Z.eqb_spec r 0) as [->|Hne]; cbn [negb].
  2: { rewrite decide_False in Hd' by done. split_and!; try done.
       unfold packets_left. cbn. by rewrite (read_frame_end _ _ _ _ Hr). }
  rewrite decide_True in Hd' by done.
  pose proof (read_frame_ok _ _ _ Hr) as Hpk.
  rewrite Hpk in Hfuel. cbn [length] in Hfuel.
  assert (∀ p' b d', d' = fd_set_packet (fd_set_format d c) p' b →
    (packets_left d' ≤ packets_left d)%nat) as Hle.
  { intros p' b d' ->. unfold packets_left. rewrite Hpk, Hc. cbn.
    destruct b; lia. }
  destruct (Z.eqb_spec (pkt_stream_index p)
    (fd_stream_no (fd_set_format d c))) as [He|He]; cbn [negb].
  - rewrite decide_True in Hd' by done.
    eapply wpa_mono; [|apply FillDecoder_send;
      [exact IH|exact Hd'|done|unfold packets_left; cbn; lia]].
    intros d'. apply filled_decoder_mono; [done|by eapply Hle].
  - rewrite decide_False in Hd' by done.
    eapply wpa_mono; [|apply IH; [exact Hd'|unfold packets_left; cbn; lia]].
    intros d'. apply filled_decoder_mono; [done|by eapply Hle].
Qed.

(** ** Filling the FIFO *)

(** [FillFifo] stops when the FIFO has its capacity or the codec refuses to
    return a frame. *)
Definition fifo_filled d : Prop :=
  fd_fifo_capacity d ≤ lenZ (fifo_contents (fd_fifo d))
  ∨ ∃ c r f, avcodec_receive_frame c = (r, f, fd_codec_context d) ∧ r ≠ 0.

(** All frames pending in the codec have at most [m] samples. *)
Definition frames_bounded (m : Z) (l : list (AVFrame Sample)) : Prop :=
  Forall (λ f, lenZ (extended_data f) ≤ m) l.

Lemma frames_bounded_exists l : ∃ m, frames_bounded m l.
Proof.
  induction l as [|f l [m IH]]; [by exists 0; constructor|].
  exists (Z.max (lenZ (extended_data f)) m). constructor; [lia|].
  eapply Forall_impl; [|exact IH]. cbn. lia.
Qed.

Lemma FillFifo_inv fuel file out d m :
  dec_inv file out d →
  (length (codec_pending (fd_codec_context d)) < fuel)%nat →
  frames_bounded m (codec_pending (fd_codec_context d)) →
  wp (FillFifo fuel d) (λ d',
    dec_inv file out d' ∧ fifo_filled d'
    ∧ fd_fifo_capacity d' = fd_fifo_capacity d
    ∧ packets_left d' = packets_left d
    ∧ codec_accepted (fd_codec_context d') = codec_accepted (fd_codec_context d)
    ∧ lenZ (fifo_contents (fd_fifo d'))
        ≤ Z.max (lenZ (fifo_contents (fd_fifo d)))
            (fd_fifo_capacity d - 1 + m)).
Proof.
  revert d. induction fuel as [|fuel IH]; intros d Hd Hfuel Hm; [lia|].
  cbn [FillFifo]. rewrite fifo_size_spec.
  destruct (Z.ltb_spec (lenZ (fifo_contents (fd_fifo d)))
    (fd_fifo_capacity d)) as [Hlt|Hge].
  2: { cbn. split_and!; try done; [by left|lia]. }
  destruct (avcodec_receive_frame _) as [[r f] c] eqn:Hr.
  pose proof Hd as (Hh & Hf & Ho).
  destruct (Z.eqb_spec r 0) as [->|Hne].
  - pose proof (codec_pending_receive _ _ _ Hr) as Hpend.
    destruct (receive_ok _ _ _ Hr) as (Ha & Hrec & Hn).
    rewrite Hpend in Hfuel, Hm. cbn in Hfuel.
    apply Forall_cons_1 in Hm as [Hfm Hm].
    destruct (av_audio_fifo_write _ _ _) as [w q] eqn:Hw.
    pose proof (fifo_write_spec (fd_fifo d) (extended_data f) (nb_samples f)
      (eq_sym Hn)) as Hws. cbn [fd_set_codec fd_fifo] in Hw.
    rewrite Hw in Hws. pose proof (fifo_write_succeeds (fd_fifo d)
      (extended_data f) (nb_samples f)) as Hpos.
    rewrite Hw in Hpos. specialize (Hws Hpos). cbn in Hws.
    eapply wp_mono; [|apply IH].
    + cbn. rewrite Ha, Hws. intros d' (? & ? & ? & ? & ? & Hb).
      split_and!; try done. rewrite lenZ_app in Hb.
      pose proof (lenZ_nonneg (extended_data f)). lia.
    + unfold dec_inv, held in *. cbn. rewrite Ha, Hrec, Hws.
      split_and!; [done|done|].
      rewrite frames_samples_app, Ho, app_assoc. unfold frames_samples.
      cbn. by rewrite app_nil_r.
    + cbn. lia.
    + done.
  - destruct (receive_rejected _ _ _ _ Hr Hne) as (Ha & Hrec).
    cbn. unfold dec_inv, held in *. cbn. rewrite Ha, Hrec.
    split_and!; try done; [|lia]. right. by eexists _, _, _.
Qed.

(** ** Consuming *)

(** The fuel covers the packets left and the frames of the whole file. *)
Definition enough_fuel fuel file d : Prop :=
  (packets_left d < fuel)%nat
  ∧ ∀ k, k `prefix_of` file → (length (decoded k) < fuel)%nat.

Lemma dec_inv_accepted file out d :
  dec_inv file out d → codec_accepted (fd_codec_context d) `prefix_of` file.
Proof. intros (_ & <- & _). by apply prefix_app_r. Qed.

Lemma pending_fuel file out d fuel :
  dec_inv file out d → enough_fuel fuel file d →
  (length (codec_pending (fd_codec_context d)) < fuel)%nat.
Proof.
  intros Hd [_ Hf]. specialize (Hf _ (dec_inv_accepted _ _ _ Hd)).
  rewrite <- codec_stream, length_app in Hf. lia.
Qed.

Context (max_channels : Z).
Hypothesis channels_range : ∀ c, 0 ≤ ctx_channels c ≤ max_channels.

(** A request the byte count of [Consume] can express. *)
Definition request_ok (samples : Z) : Prop :=
  0 ≤ samples ∧ samples * 2 ≤ i32_max ∧ samples * 2 * max_channels ≤ i32_max.

Lemma consume_bytes n samples c :
  request_ok samples → 0 ≤ n ≤ samples →
  (twice ← i32_mul n 2; i32_mul twice (ctx_channels c))
    = Ret (n * 2 * ctx_channels c).
Proof.
  intros (? & ? & ?) ?. pose proof (channels_range c).
  rewrite i32_mul_ok by (unfold_i32; lia). cbn.
  apply i32_mul_ok. unfold_i32. nia.
Qed.

(** The result of a [Consume]. *)
Definition consumed file (out : list Sample) (samples : Z) d
    (r : Z * list Sample * AudioFileDecoder) : Prop :=
  let '(bytes, o, d') := r in
  dec_inv file (out ++ o) d'
  ∧ lenZ o ≤ samples
  ∧ bytes = lenZ o * 2 * channel_num d'
  ∧ (lenZ o < samples → fifo_contents (fd_fifo d') = [])
  ∧ (packets_left d' ≤ packets_left d)%nat.

(** Once the codec has been given packets, nothing can stop a [Consume], and
    the codec is given no more. *)
Lemma Consume_filled fuel file out d d1 samples :
  dec_inv file out d → enough_fuel fuel file d → request_ok samples →
  FillDecoder fuel d = Ret d1 → filled_decoder file out d d1 →
  wp (Consume fuel d samples) (λ r, consumed file out samples d r
    ∧ codec_accepted (fd_codec_context r.2) = codec_accepted (fd_codec_context d1)).
Proof.
  intros Hd Hfuel Hreq Hrun (Hd1 & _ & Hle1). unfold Consume. rewrite Hrun.
  cbn [mbind outcome_bind]. apply wp_bind.
  assert (enough_fuel fuel file d1) as Hfuel1.
  { split; [|apply Hfuel]. destruct Hfuel. lia. }
  destruct (frames_bounded_exists (codec_pending (fd_codec_context d1)))
    as [m Hm].
  eapply wp_mono;
    [|eapply FillFifo_inv; [exact Hd1|by eapply pending_fuel|exact Hm]].
  intros d2 (Hd2 & _ & _ & Hle2 & Hacc & _). rewrite fifo_size_spec.
  set (target := Z.min _ samples).
  destruct (av_audio_fifo_read (fd_fifo d2) target) as [[n o] q] eqn:Hr.
  pose proof Hreq as (Hs0 & _).
  assert (0 ≤ target) as Ht
    by (pose proof (lenZ_nonneg (fifo_contents (fd_fifo d2))); lia).
  pose proof (fifo_read_succeeds (fd_fifo d2) target Ht) as Hn.
  rewrite Hr in Hn. cbn in Hn.
  destruct (fifo_read_spec _ _ _ _ _ Ht Hr Hn) as (Hnv & Ho & Hq).
  assert (lenZ o = n) as Hon by (rewrite Ho; solve_len).
  pose proof (consume_bytes n samples
    (fd_codec_context (fd_set_fifo d2 q)) Hreq ltac:(lia)) as Hb.
  rewrite bind_Ret in Hb. destruct Hb as (t & -> & Hb). cbn.
  unfold channel_num. cbn in *. rewrite Hb. cbn. rewrite Hon.
  split_and!; [|lia|done| | |done].
  - destruct Hd2 as (Hh & Hf & Ho2). split_and!; [done|done|]. cbn.
    by rewrite Ho2, Ho, Hq, <- app_assoc, takeZ_dropZ.
  - intros Hlt. rewrite Hq. apply length_zero_iff_nil.
    pose proof (lenZ_dropZ n (fifo_contents (fd_fifo d2)) Hn) as Hl.
    unfold lenZ at 1 in Hl. lia.
  - unfold packets_left in *. cbn. lia.
Qed.

Lemma Consume_spec fuel file out d samples :
  dec_inv file out d → enough_fuel fuel file d → request_ok samples →
  wpa (Consume fuel d samples) (consumed file out samples d).
Proof.
  intros Hd Hfuel Hreq.
  pose proof (FillDecoder_inv fuel file out d Hd (proj1 Hfuel)) as Hfill.
  destruct (FillDecoder fuel d) as [d1| | |] eqn:Hrun; [| |done..].
  - eapply wpa_mono;
      [|by apply wp_wpa, (Consume_filled fuel file out d d1 samples)].
    by intros r [Hr _].
  - unfold Consume. by rewrite Hrun.
Qed.

(** Decoding keeps the channel count. *)
Section stable_channels.
Context `{!StableChannels}.

Lemma FillDecoder_channels fuel d :
  wpa (FillDecoder fuel d) (λ _, True) →
  wpa (FillDecoder fuel d) (λ d', channel_num d' = channel_num d).
Proof.
  revert d. induction fuel as [|fuel IH]; intros d; [done|].
  assert (∀ d1, channel_num d1 = channel_num d →
    wpa (send_held d1 (FillDecoder fuel)) (λ _, True) →
    wpa (send_held d1 (FillDecoder fuel))
      (λ d', channel_num d' = channel_num d)) as Hsend.
  { intros d1 Hd1. unfold send_held. destruct (fd_packet d1) as [p|]; [|done].
    pose proof (send_channels (fd_codec_context d1) p) as Hc.
    destruct (avcodec_send_packet _ p) as [e c]. cbn in Hc.
    unfold channel_num in *. destruct (e =? 0).
    - intros Hw. eapply wpa_mono; [|by apply IH].
      cbn. congruence.
    - destruct (_ || _); cbn; [congruence|done]. }
  cbn [FillDecoder]. destruct (fd_packet_consumed d); [|by apply Hsend].
  destruct (av_read_frame _) as [[r p] c].
  destruct (r =? 0); cbn [negb]; [|done].
  destruct (_ =? _); cbn [negb]; [by apply Hsend|].
  intros Hw. eapply wpa_mono; [|by apply IH]. done.
Qed.

Lemma FillFifo_channels fuel d :
  wpa (FillFifo fuel d) (λ _, True) →
  wpa (FillFifo fuel d) (λ d', channel_num d' = channel_num d).
Proof.
  revert d. induction fuel as [|fuel IH]; intros d; [done|].
  cbn [FillFifo]. destruct (_ <? _); [|done].
  pose proof (receive_channels (fd_codec_context d)) as Hc.
  destruct (avcodec_receive_frame _) as [[r f] c]. cbn in Hc.
  destruct (r =? 0); [|by cbn].
  destruct (av_audio_fifo_write _ _ _) as [w q].
  intros Hw. eapply wpa_mono; [|by apply IH].
  unfold channel_num. cbn. congruence.
Qed.

Lemma Consume_channels fuel d samples bytes o d' :
  Consume fuel d samples = Ret (bytes, o, d') →
  channel_num d' = channel_num d.
Proof.
  unfold Consume. rewrite bind_Ret. intros (d1 & Hrun1 & Hrest).
  apply bind_Ret in Hrest as (d2 & Hrun2 & Hrest).
  pose proof (FillDecoder_channels fuel d) as Hc1. rewrite Hrun1 in Hc1.
  pose proof (FillFifo_channels fuel d1) as Hc2. rewrite Hrun2 in Hc2.
  destruct (av_audio_fifo_read _ _) as [[n out] q].
  apply bind_Ret in Hrest as (t & _ & Hrest).
  apply bind_Ret in Hrest as (b & _ & [= _ _ <-]).
  unfold channel_num in *. cbn in *. rewrite Hc2, Hc1; done.
Qed.
End stable_channels.

(** A sequence of requests. *)
Fixpoint Consume_all (fuel : nat) d (requests : list Z)
    : outcome (list (Z * list Sample) * AudioFileDecoder) :=
  match requests with
  | [] => Ret ([], d)
  | n :: requests =>
      '(bytes, o, d) ← Consume fuel d n;
      '(l, d) ← Consume_all fuel d requests;
      Ret ((bytes, o) :: l, d)
  end.

Lemma Consume_all_spec fuel file out d requests :
  dec_inv file out d → enough_fuel fuel file d →
  Forall request_ok requests →
  wpa (Consume_all fuel d requests) (λ '(l, d'),
    dec_inv file (out ++ concat (snd <$> l)) d'
    ∧ Forall2 (λ r n, lenZ r.2 ≤ n) l requests).
Proof.
  intros Hd Hfuel Hreq. revert out d Hd Hfuel.
  induction Hreq as [|n requests Hn _ IH]; intros out d Hd Hfuel; cbn.
  { by rewrite app_nil_r. }
  apply wpa_bind. eapply wpa_mono; [|by apply Consume_spec].
  intros [[bytes o] d1] (Hd1 & Hlen & _ & _ & Hle). apply wpa_bind.
  eapply wpa_mono; [|apply (IH _ _ Hd1)].
  - intros [l d2] (Hd2 & Hl). cbn. rewrite app_assoc. split; [done|].
    by constructor.
  - destruct Hfuel as [Hf ?]. split; [lia|done].
Qed.

(** ** Construction *)

(** A decoder before its first packet. *)
Lemma dec_inv_fresh cap no ctx c k e c' q f n m :
  avcodec_open2 c k = (e, c') → 0 ≤ e →
  av_audio_fifo_alloc f n m = Some q →
  dec_inv (audio_packets no (fmt_packets ctx)) []
    (MkFileDecoder cap no ctx c' None true q).
Proof.
  intros Ho He Hq. destruct (open_fresh _ _ _ _ Ho He) as [Ha Hr].
  unfold dec_inv, held. cbn. rewrite Ha, Hr.
  split_and!; [done|done|]. by rewrite (fifo_alloc_empty _ _ _ _ Hq).
Qed.

(** The capacity holds 100 ms of audio, whatever is decoded. *)
Definition fresh_decoder ctx d : Prop :=
  dec_inv (audio_packets (fd_stream_no d) (fmt_packets ctx)) [] d
  ∧ 0 ≤ fd_stream_no d
  ∧ (packets_left d ≤ S (length (fmt_packets ctx)))%nat
  ∧ ∃ c, fd_fifo_capacity d = 10 * ctx_sample_rate c / 100.

Lemma AudioFileDecoder_new_spec fuel path ctx0 e0 e ctx :
  avformat_open_input path = (e0, Some ctx0) →
  avformat_find_stream_info ctx0 = (e, ctx) →
  (∀ c, 0 ≤ ctx_sample_rate c ∧ is_i32 (10 * ctx_sample_rate c)) →
  (length (fmt_packets ctx) < fuel)%nat →
  wpa (AudioFileDecoder_new fuel path) (fresh_decoder ctx).
Proof.
  intros Hopen Hinfo Hrate Hfuel. unfold AudioFileDecoder_new.
  destruct av_frame_alloc; [|done]. destruct av_packet_alloc; [|done].
  rewrite Hopen. cbn. destruct (0 <=? e0); [|done]. cbn.
  rewrite Hinfo. destruct (0 <=? e); [|done]. cbn.
  destruct (Z.leb_spec 0 (av_find_best_stream ctx)) as [Hno|]; [|done]. cbn.
  destruct (avcodec_find_decoder _ _) as [k|]; [|done]. cbn.
  destruct (avcodec_alloc_context3 k) as [c0|]; [|done]. cbn.
  destruct (avcodec_parameters_to_context _ _ _) as [e1 c1].
  destruct (0 <=? e1); [|done]. cbn.
  destruct (avcodec_open2 c1 k) as [e2 c2] eqn:Ho.
  destruct (Z.leb_spec 0 e2) as [He2|]; [|done]. cbn.
  destruct (Hrate c2) as [Hr0 Hri]. rewrite i32_mul_ok by done.
  cbn [mbind outcome_bind].
  rewrite per_frame_ok by (done || unfold kFrameDurationInMs; lia). cbn.
  destruct (av_audio_fifo_alloc _ _ _) as [q|] eqn:Hq; [|done]. cbn.
  eapply wpa_mono; [|apply FillDecoder_inv;
    [by eapply dec_inv_fresh|unfold packets_left; cbn; lia]].
  intros d (Hd & (_ & Hcap & Hst) & Hle). cbn in Hcap, Hst.
  unfold fresh_decoder. rewrite Hst. split_and!; [done|done| |].
  - unfold packets_left in Hle at 2. cbn in Hle. lia.
  - exists c2. by rewrite Hcap.
Qed.
End file_decoder_lemmas.

(** ** Properties *)

Section file_decoder_properties.
Context `{FFmpegSpec, !FifoReliable}.

(** C3: The decoder plays its stream in order and without loss.  From a
    decoder that has handed out nothing, any sequence of [Consume] calls
    either stops at a decoding error or returns, and then: the samples
    handed out, followed by those in the FIFO and those pending in the
    codec, are exactly the decoded samples of the packets the codec
    accepted; the accepted packets, the one held back and those still in
    the file are the packets of the stream in file order; and no call
    returns more samples than it was asked for. *)
Theorem decoder_stream_order fuel file d requests max_channels :
  (∀ c, 0 ≤ ctx_channels c ≤ max_channels) →
  dec_inv file [] d → enough_fuel fuel file d →
  Forall (request_ok max_channels) requests →
  wpa (Consume_all fuel d requests) (λ '(l, d'),
    concat (snd <$> l) ++ fifo_contents (fd_fifo d')
      ++ frames_samples (codec_pending (fd_codec_context d'))
    = frames_samples (decoded (codec_accepted (fd_codec_context d')))
    ∧ codec_accepted (fd_codec_context d') ++ held d'
        ++ audio_packets (fd_stream_no d')
             (fmt_packets (fd_format_context d')) = file
    ∧ Forall2 (λ r n, lenZ r.2 ≤ n) l requests).
Proof.
  intros Hch Hd Hfuel Hreq.
  eapply wpa_mono; [|by eapply Consume_all_spec].
  intros [l d'] ((_ & Hf & Ho) & Hl). split_and!; [|done|done].
  rewrite <- codec_stream, frames_samples_app, Ho. by rewrite <- app_assoc.
Qed.

(** [Consume] reports exactly the bytes of the 16-bit samples it stored
    (two per channel and sample), never exceeds the request, and falls short
    of it only when it leaves the FIFO empty. *)
Theorem consume_result fuel file out d samples max_channels :
  (∀ c, 0 ≤ ctx_channels c ≤ max_channels) →
  dec_inv file out d → enough_fuel fuel file d →
  request_ok max_channels samples →
  wpa (Consume fuel d samples) (λ '(bytes, o, d'),
    bytes = lenZ o * 2 * channel_num d'
    ∧ lenZ o ≤ samples
    ∧ (lenZ o < samples → fifo_contents (fd_fifo d') = [])
    ∧ frames_samples (codec_received (fd_codec_context d'))
        = (out ++ o) ++ fifo_contents (fd_fifo d')).
Proof.
  intros Hch Hd Hfuel Hreq.
  eapply wpa_mono; [|by eapply Consume_spec].
  intros [[bytes o] d'] ((_ & _ & Ho) & Hlen & Hb & Hshort & _).
  by split_and!.
Qed.

(** C26: The packet loop of [FillDecoder] terminates: one iteration per
    packet left in the file and one for a held packet are enough, whatever
    the codec answers. *)
Theorem fill_decoder_terminates file out d :
  dec_inv file out d →
  FillDecoder (S (packets_left d)) d ≠ NoFuel
  ∧ defined_behaviour (FillDecoder (S (packets_left d)) d).
Proof.
  intros Hd. pose proof (FillDecoder_inv (S (packets_left d)) _ _ _ Hd
    ltac:(lia)) as Hw.
  by destruct (FillDecoder _ d).
Qed.

(** [FillFifo] terminates, always returns, and keeps the FIFO bounded: it
    grows to at most one frame less one sample beyond [fifo_capacity_]. *)
Theorem fill_fifo_bounded file out d m :
  dec_inv file out d →
  frames_bounded m (codec_pending (fd_codec_context d)) →
  wp (FillFifo (S (length (codec_pending (fd_codec_context d)))) d) (λ d',
    dec_inv file out d' ∧ fifo_filled d'
    ∧ lenZ (fifo_contents (fd_fifo d'))
        ≤ Z.max (lenZ (fifo_contents (fd_fifo d)))
            (fd_fifo_capacity d - 1 + m)).
Proof.
  intros Hd Hm. eapply wp_mono; [|apply FillFifo_inv; [done|lia|done]].
  intros d' (? & ? & _ & _ & _ & ?). done.
Qed.

(** The constructor yields, unless a check stops it, a decoder that has
    handed out nothing of the selected stream, with a FIFO sized for 100 ms
    of audio. *)
Theorem decoder_construction fuel path ctx0 e0 e ctx :
  avformat_open_input path = (e0, Some ctx0) →
  avformat_find_stream_info ctx0 = (e, ctx) →
  (∀ c, 0 ≤ ctx_sample_rate c ∧ is_i32 (10 * ctx_sample_rate c)) →
  (length (fmt_packets ctx) < fuel)%nat →
  wpa (AudioFileDecoder_new fuel path) (fresh_decoder ctx).
Proof. apply AudioFileDecoder_new_spec. Qed.
End file_decoder_properties.

(** ** Examples: a file of four packets, one of them of another stream *)

Definition demo_file : list (AVPacket (list (list Z))) :=
  [MkAVPacket 0 [[1; 2; 3]]; MkAVPacket 1 [[90; 91]];
   MkAVPacket 0 [[4]; [5; 6]]; MkAVPacket 0 [[7; 8; 9]]].

Definition demo_ffmpeg : FFmpeg :=
  ReferenceFFmpeg demo_file AV_SAMPLE_FMT_S16 8000 1 2.
Definition demo_spec : @FFmpegSpec demo_ffmpeg :=
  ReferenceFFmpegSpec demo_file AV_SAMPLE_FMT_S16 8000 1 2.
Definition demo_reliable : @FifoReliable demo_ffmpeg :=
  ReferenceFifoReliable demo_file AV_SAMPLE_FMT_S16 8000 1 2.

#[local] Existing Instance demo_ffmpeg.
#[local] Existing Instance demo_spec.
#[local] Existing Instance demo_reliable.

Definition demo_decoder : AudioFileDecoder :=
  MkFileDecoder (H := demo_ffmpeg) 800 0 demo_file (MkRefCodec [] 0) None true
    [].

(** The packets of the first stream. *)
Definition demo_stream : list (AVPacket (@Payload demo_ffmpeg)) :=
  @audio_packets demo_ffmpeg 0 demo_file.

Lemma demo_dec_inv :
  dec_inv demo_stream [] demo_decoder.
Proof. by split_and!. Qed.

Lemma demo_fuel : enough_fuel 10 demo_stream demo_decoder.
Proof.
  split; [cbn; lia|]. intros k Hk.
  assert (length (decoded k)
    ≤ length (decoded demo_stream))%nat as Hle.
  { destruct Hk as [k' ->]. cbn -[length].
    rewrite ref_decoded_app, length_app. lia. }
  eapply Nat.le_lt_trans; [exact Hle|]. apply Nat.ltb_lt. reflexivity.
Qed.

Lemma demo_channels : ∀ c : AVCodecContext, 0 ≤ ctx_channels c ≤ 1.
Proof. cbn. lia. Qed.

Lemma decoder_stream_order_witness :
  wpa (Consume_all 10 demo_decoder [2; 4; 100]) (λ '(l, d'),
    concat (snd <$> l) ++ fifo_contents (fd_fifo d')
      ++ frames_samples (codec_pending (fd_codec_context d'))
    = frames_samples (decoded (codec_accepted (fd_codec_context d')))
    ∧ codec_accepted (fd_codec_context d') ++ held d'
        ++ audio_packets (fd_stream_no d')
             (fmt_packets (fd_format_context d'))
      = demo_stream
    ∧ Forall2 (λ r n, lenZ r.2 ≤ n) l [2; 4; 100]).
Proof.
  apply (decoder_stream_order 10 _ _ _ 1).
  - exact demo_channels.
  - exact demo_dec_inv.
  - exact demo_fuel.
  - repeat constructor; ground.
Defined.

Example demo_consume_values :
  ('(l, d) ← Consume_all 10 demo_decoder [2; 4; 100];
   Ret (map snd l)) = Ret [[1; 2]; [3; 4; 5; 6]; [7; 8; 9]].
Proof. reflexivity. Qed.

Lemma consume_result_witness :
  wpa (Consume 10 demo_decoder 2) (λ '(bytes, o, d'),
    bytes = lenZ o * 2 * channel_num d'
    ∧ lenZ o ≤ 2
    ∧ (lenZ o < 2 → fifo_contents (fd_fifo d') = [])
    ∧ frames_samples (codec_received (fd_codec_context d'))
        = ([] ++ o) ++ fifo_contents (fd_fifo d')).
Proof.
  apply (consume_result 10 demo_stream [] demo_decoder 2 1).
  - exact demo_channels.
  - exact demo_dec_inv.
  - exact demo_fuel.
  - ground.
Defined.

Lemma fill_decoder_terminates_witness :
  FillDecoder (S (packets_left demo_decoder)) demo_decoder ≠ NoFuel
  ∧ defined_behaviour (FillDecoder (S (packets_left demo_decoder)) demo_decoder).
Proof.
  apply (fill_decoder_terminates demo_stream []).
  exact demo_dec_inv.
Defined.

(** A codec that has accepted the first packet. *)
Definition demo_primed : AudioFileDecoder :=
  MkFileDecoder (H := demo_ffmpeg) 2 0 [MkAVPacket 0 [[7; 8; 9]]]
    (MkRefCodec [MkAVPacket 0 [[1; 2; 3]]; MkAVPacket 0 [[4]; [5; 6]]] 0)
    None true [].

Lemma fill_fifo_bounded_witness :
  wp (FillFifo (S (length (codec_pending (fd_codec_context demo_primed))))
        demo_primed) (λ d',
    dec_inv demo_stream [] d' ∧ fifo_filled d'
    ∧ lenZ (fifo_contents (fd_fifo d'))
        ≤ Z.max (lenZ (fifo_contents (fd_fifo demo_primed)))
            (fd_fifo_capacity demo_primed - 1 + 3)).
Proof.
  apply (fill_fifo_bounded demo_stream [] demo_primed 3).
  - by split_and!.
  - repeat constructor; ground.
Defined.

Lemma decoder_construction_witness :
  wpa (AudioFileDecoder_new 10 "morning.mp3")
    (fresh_decoder (H := demo_ffmpeg) demo_file).
Proof.
  apply (@decoder_construction demo_ffmpeg demo_spec 10 "morning.mp3"
    demo_file 0 0 demo_file).
  - reflexivity.
  - reflexivity.
  - intros c. ground.
  - cbn. lia.
Defined.
