(* ===== verification/Resampler.v ===== *)
(** [audio_mixer::AudioResampler] (src/src/audio_resampler.cpp, .h): converts
    decoded samples to interleaved 16-bit samples at the output rate. *)

From stdpp Require Import strings.
From S2P Require Import Prelude.
From S2P Require Import Api.
From S2P Require Import Ffmpeg.
From S2P Require Import FileDecoder.

(** [kOutputSampleFormat] (src/src/audio_mixer_global.cpp) *)
Definition kOutputSampleFormat : AVSampleFormat := AV_SAMPLE_FMT_S16.

Record AudioResampler `{FFmpeg} : Type := MkResampler {
  ar_context : SwrContext;
  ar_input_format : AVSampleFormat;
  ar_input_sample_rate : Z;
  ar_input_channel_num : Z;
  ar_output_format : AVSampleFormat;
  ar_output_sample_rate : Z;
  ar_output_channel_num : Z
}.
Arguments MkResampler {_} _ _ _ _ _ _ _.

Section resampler.
Context `{FFmpeg}.

Definition channel_layout (channel_num : Z) : Z :=
  if channel_num =? 1 then AV_CH_LAYOUT_MONO else AV_CH_LAYOUT_STEREO.

(** The options the constructor sets, in order. *)
Definition configure (c : SwrContext)
    (input_format : AVSampleFormat) (input_sample_rate input_channel_num : Z)
    (output_format : AVSampleFormat)
    (output_sample_rate output_channel_num : Z) : SwrContext :=
  let c := av_opt_set_int c "in_channel_layout"
             (channel_layout input_channel_num) in
  let c := av_opt_set_int c "in_sample_rate" input_sample_rate in
  let c := av_opt_set_sample_fmt c "in_sample_fmt" input_format in
  let c := av_opt_set_int c "out_channel_layout"
             (channel_layout output_channel_num) in
  let c := av_opt_set_int c "out_sample_rate" output_sample_rate in
  av_opt_set_sample_fmt c "out_sample_fmt" output_format.

Definition AudioResampler_new
    (input_format : AVSampleFormat) (input_sample_rate input_channel_num : Z)
    (output_format : AVSampleFormat)
    (output_sample_rate output_channel_num : Z) : outcome AudioResampler :=
  c ← check_ptr swr_alloc "context_.get()";
  let c := configure c input_format input_sample_rate input_channel_num
             output_format output_sample_rate output_channel_num in
  let '(error, c) := swr_init c in
  _ ← RTC_CHECK (0 <=? error) (av_err2str error);
  Ret (MkResampler c input_format input_sample_rate input_channel_num
         output_format output_sample_rate output_channel_num).

Definition ar_set_context (r : AudioResampler) (c : SwrContext)
    : AudioResampler :=
  MkResampler c (ar_input_format r) (ar_input_sample_rate r)
    (ar_input_channel_num r) (ar_output_format r) (ar_output_sample_rate r)
    (ar_output_channel_num r).

(** [Resample]; [input] is the memory readable at the input planes.  The
    result is the return value and the samples written to the output. *)
Definition Resample (r : AudioResampler) (input : list Sample)
    (input_size : Z) : outcome (Z * list Z * AudioResampler) :=
  per_channel ← i32_div input_size (ar_input_channel_num r);
  input_samples ← i32_div per_channel
                    (av_get_bytes_per_sample (ar_input_format r));
  let output_samples :=
    as_i32 (av_rescale_rnd input_samples (ar_output_sample_rate r)
              (ar_input_sample_rate r) AV_ROUND_UP) in
  _ ← require (input_samples <=? lenZ input) OutOfBounds;
  let '(real_output_samples, out, c) :=
    swr_convert (ar_context r) output_samples
      (takeZ input_samples input) input_samples in
  let r := ar_set_context r c in
  if real_output_samples <? 0 then Ret (real_output_samples, out, r)
  else Ret (av_samples_get_buffer_size (ar_output_channel_num r)
              real_output_samples (ar_output_format r) 0, out, r).
End resampler.

Section resampler_lemmas.
Context `{FFmpegSpec}.

(** The channels the resampler writes, whatever it was asked for. *)
Definition layout_channels (n : Z) : Z := if n =? 1 then 1 else 2.

Lemma configure_channels c f sr ch f' sr' ch' :
  swr_channels (configure c f sr ch f' sr' ch') = layout_channels ch'.
Proof.
  unfold configure, channel_layout, layout_channels.
  rewrite swr_set_fmt, swr_set_other by done.
  destruct (ch' =? 1); [apply swr_set_mono|apply swr_set_stereo].
Qed.

(** A resampler built by the constructor. *)
Definition resampler_ok (r : AudioResampler) : Prop :=
  swr_channels (ar_context r) = layout_channels (ar_output_channel_num r).

Lemma AudioResampler_new_ok f sr ch f' sr' ch' :
  wpa (AudioResampler_new f sr ch f' sr' ch') (λ r,
    resampler_ok r ∧ ar_input_format r = f ∧ ar_input_sample_rate r = sr
    ∧ ar_input_channel_num r = ch ∧ ar_output_format r = f'
    ∧ ar_output_sample_rate r = sr' ∧ ar_output_channel_num r = ch').
Proof.
  unfold AudioResampler_new. destruct swr_alloc as [c|]; [|done]. cbn.
  pose proof (configure_channels c f sr ch f' sr' ch') as Hc.
  pose proof (swr_init_channels (configure c f sr ch f' sr' ch')) as Hi.
  destruct (swr_init _) as [e c']. cbn in Hi.
  destruct (0 <=? e); [|done]. cbn. split_and!; try done.
  unfold resampler_ok. cbn. congruence.
Qed.

(** The output samples a conversion of [n] input samples makes room for. *)
Definition output_room (r : AudioResampler) (n : Z) : Z :=
  (n * ar_output_sample_rate r + ar_input_sample_rate r - 1)
    / ar_input_sample_rate r.

(** A request to resample [n] whole samples that the arithmetic of the code
    can express. *)
Definition resample_request (r : AudioResampler) (input : list Sample)
    (n : Z) : Prop :=
  0 ≤ n ≤ lenZ input ∧ 0 < ar_input_channel_num r
  ∧ 0 < sample_format_bytes (ar_input_format r)
  ∧ is_i32 (n * sample_format_bytes (ar_input_format r)
              * ar_input_channel_num r)
  ∧ 0 ≤ ar_output_sample_rate r ∧ 0 < ar_input_sample_rate r
  ∧ is_i32 (output_room r n).

(** The result of a conversion into [k] output samples. *)
Definition resampled (r : AudioResampler) (n : Z) (res : Z) (out : list Z)
    (r' : AudioResampler) : Prop :=
  resampler_ok r' ∧ r' = ar_set_context r (ar_context r')
  ∧ ∃ k, k ≤ output_room r n
      ∧ lenZ out = Z.max 0 k * layout_channels (ar_output_channel_num r)
      ∧ res = if k <? 0 then k
              else av_samples_get_buffer_size (ar_output_channel_num r) k
                     (ar_output_format r) 0.

Lemma Resample_resampled r input n :
  resampler_ok r → resample_request r input n →
  wp (Resample r input (n * sample_format_bytes (ar_input_format r)
                          * ar_input_channel_num r))
    (λ '(res, out, r'), resampled r n res out r').
Proof.
  intros Hr (Hn & Hch & Hb & Hi & Hos & Hin & Hroom). unfold Resample.
  set (b := sample_format_bytes _) in *.
  rewrite i32_div_ok by (done || nia). cbn [mbind outcome_bind].
  rewrite Z.div_mul by lia. rewrite bytes_per_sample_spec. fold b.
  assert (is_i32 (n * b)) by (unfold_i32; nia).
  rewrite i32_div_ok by (done || nia). cbn [mbind outcome_bind].
  rewrite Z.div_mul by lia.
  rewrite rescale_up_spec by lia. fold (output_room r n).
  rewrite as_i32_id by done.
  rewrite (proj2 (Z.leb_le n (lenZ input))) by lia.
  cbn [require mbind outcome_bind].
  assert (0 ≤ output_room r n) by (apply Z.div_pos; nia).
  destruct (swr_convert _ _ _ _) as [[res out] c] eqn:Hs.
  destruct (swr_convert_spec _ _ _ _ _ _ _ ltac:(done) Hs) as (Hle & Hlen & Hc).
  assert (resampler_ok (ar_set_context r c))
    by (unfold resampler_ok in *; cbn; congruence).
  rewrite Hr in Hlen. unfold resampled.
  destruct (res <? 0) eqn:Hneg; cbn; (split_and!; [done..|]);
    exists res; by rewrite Hneg.
Qed.

(** The output fits the room the rescaling computed. *)
Lemma Resample_spec r input n :
  resampler_ok r → resample_request r input n →
  wp (Resample r input (n * sample_format_bytes (ar_input_format r)
                          * ar_input_channel_num r)) (λ '(res, out, r'),
    resampler_ok r' ∧ r' = ar_set_context r (ar_context r')
    ∧ lenZ out ≤ output_room r n
                   * layout_channels (ar_output_channel_num r)).
Proof.
  intros Hr Hreq. eapply wp_mono; [|by apply Resample_resampled].
  intros [[res out] r'] (? & ? & k & Hk & Hlen & _). split_and!; [done..|].
  assert (0 ≤ output_room r n).
  { destruct Hreq as (? & _ & _ & _ & ? & ? & _). apply Z.div_pos; nia. }
  rewrite Hlen. unfold layout_channels. destruct (_ =? 1); nia.
Qed.

(** Resampling whole samples is safe and stays within the room that
    rounding up computes; it writes the channels of the layout the
    constructor chose, which are two for every channel count but one, while
    the size it returns counts the configured channels: from three channels
    on the two disagree. *)
Theorem resample_result r input n :
  resampler_ok r → resample_request r input n →
  wp (Resample r input (n * sample_format_bytes (ar_input_format r)
                          * ar_input_channel_num r)) (λ '(res, out, r'),
    resampled r n res out r'
    ∧ (3 ≤ ar_output_channel_num r → 0 < lenZ out →
       res = av_samples_get_buffer_size (ar_output_channel_num r)
               (lenZ out / 2) (ar_output_format r) 0)).
Proof.
  intros Hr Hreq. eapply wp_mono; [|by apply Resample_resampled].
  intros [[res out] r'] Hres. split; [done|].
  destruct Hres as (_ & _ & k & Hk & Hlen & ->). intros Hch Hpos.
  unfold layout_channels in Hlen.
  rewrite (proj2 (Z.eqb_neq _ _)) in Hlen by lia.
  assert (0 < k) by lia. rewrite Hlen, Z.max_r, Z.div_mul by lia.
  by rewrite (proj2 (Z.ltb_ge _ _)) by lia.
Qed.
End resampler_lemmas.

(** ** Example: a surround output *)

#[local] Existing Instance demo_ffmpeg.
#[local] Existing Instance demo_spec.

Definition surround_resampler : AudioResampler :=
  MkResampler (H := demo_ffmpeg)
    (configure (H := demo_ffmpeg) [] AV_SAMPLE_FMT_S16 8000 1
       kOutputSampleFormat 8000 6)
    AV_SAMPLE_FMT_S16 8000 1 kOutputSampleFormat 8000 6.

Lemma resample_result_witness :
  wp (Resample surround_resampler [1; 2] (2 * 2 * 1)) (λ '(res, out, r'),
    resampled surround_resampler 2 res out r'
    ∧ (3 ≤ 6 → 0 < lenZ out →
       res = av_samples_get_buffer_size 6 (lenZ out / 2) kOutputSampleFormat 0)).
Proof.
  apply (resample_result (H := demo_ffmpeg) surround_resampler [1; 2] 2).
  - done.
  - unfold resample_request. ground.
Defined.

(** Four samples are written, and the size of 32 aligned samples of six
    channels is returned. *)
Example demo_surround :
  ('(res, out, _) ← Resample surround_resampler [1; 2] 4;
   Ret (res, out)) = Ret (384, [1; 1; 2; 2]).
Proof. reflexivity. Qed.
