(* ===== verification/FileSource.v ===== *)
(** [audio_mixer::AudioFileSource] (src/src/audio_file_source.cpp, .h): a
    decoder and a resampler, read one frame at a time. *)

From Stdlib Require Import SpecFloat.
From stdpp Require Import strings.
From S2P Require Import Prelude.
From S2P Require Import AudioFrame.
From S2P Require Import Api.
From S2P Require Import AudioSource.
From S2P Require Import Ffmpeg.
From S2P Require Import FfmpegReference.
From S2P Require Import FileDecoder.
From S2P Require Import Resampler.

Record AudioFileSource `{FFmpeg} : Type := MkFileSource {
  fs_base : AudioSource;
  fs_ssrc : Z;
  fs_input_sample_rate : Z;
  fs_input_channel_num : Z;
  fs_input_format : AVSampleFormat;
  fs_input_samples : Z;
  fs_output_sample_rate : Z;
  fs_output_channel_num : Z;
  fs_frame_duration_ms : Z;
  fs_report_output_samples : Z;
  fs_real_output_samples : Z;
  fs_input_buffer : list Sample;
  fs_decoder : AudioFileDecoder;
  fs_resampler : AudioResampler
}.
Arguments MkFileSource {_} _ _ _ _ _ _ _ _ _ _ _ _ _ _.

Section file_source.
Context `{FFmpeg, AudioFrameApi}.
Implicit Types (s : AudioFileSource).

(** The constructor. *)
Definition AudioFileSource_new (fuel : nat) (ssrc : Z) (filepath : string)
    (output_sample_rate output_channel_num frame_duration_ms : Z)
    (volume : f32) : outcome AudioFileSource :=
  report ← per_frame output_sample_rate kFrameDurationInMs;
  real ← per_frame output_sample_rate frame_duration_ms;
  decoder ← AudioFileDecoder_new fuel filepath;
  let input_sample_rate := sample_rate decoder in
  let input_channel_num := channel_num decoder in
  let input_format := sample_format decoder in
  input_samples ← per_frame input_sample_rate frame_duration_ms;
  let error := av_samples_alloc_array_and_samples input_channel_num
                 input_samples input_format 0 in
  _ ← RTC_CHECK (0 <=? error) (av_err2str error);
  let input_buffer :=
    replicate (Z.to_nat input_samples) (silence input_format) in
  resampler ← AudioResampler_new input_format input_sample_rate
                input_channel_num kOutputSampleFormat output_sample_rate
                output_channel_num;
  Ret (MkFileSource (MkAudioSource volume) ssrc input_sample_rate
         input_channel_num input_format input_samples output_sample_rate
         output_channel_num frame_duration_ms report real input_buffer
         decoder resampler).

Definition fs_set_read s (buf : list Sample) (d : AudioFileDecoder)
    (r : AudioResampler) : AudioFileSource :=
  MkFileSource (fs_base s) (fs_ssrc s) (fs_input_sample_rate s)
    (fs_input_channel_num s) (fs_input_format s) (fs_input_samples s)
    (fs_output_sample_rate s) (fs_output_channel_num s)
    (fs_frame_duration_ms s) (fs_report_output_samples s)
    (fs_real_output_samples s) buf d r.

(** Writing [src] at the start of an array. *)
Definition overwrite {A} (dst src : list A) : outcome (list A) :=
  if lenZ src <=? lenZ dst then Ret (src ++ dropZ (lenZ src) dst)
  else Undef OutOfBounds.

(** [Read]: the return value and the samples written to the buffer. *)
Definition Read (fuel : nat) s : outcome (Z * list Z * AudioFileSource) :=
  '(consumed, got, decoder) ← Consume fuel (fs_decoder s)
                                (fs_input_samples s);
  input_buffer ← overwrite (fs_input_buffer s) got;
  let s := fs_set_read s input_buffer decoder (fs_resampler s) in
  if negb (consumed =? av_samples_get_buffer_size (fs_input_channel_num s)
                         (fs_input_samples s) (fs_input_format s) 1)
  then Ret (AVERROR_EOF, [], s) else
  '(r, out, resampler) ← Resample (fs_resampler s) (fs_input_buffer s)
                           consumed;
  Ret (r, out, fs_set_read s (fs_input_buffer s) (fs_decoder s) resampler).

(** The format [GetAudioFrameWithInfo] gives to [UpdateFrame]. *)
Definition fs_format s : FrameFormat :=
  MkFrameFormat 0 (to_size_t (fs_report_output_samples s))
    (fs_output_sample_rate s) kNormalSpeech kVadActive
    (to_size_t (fs_output_channel_num s)).

Definition set_frame_data (f : AudioFrame) (d : list Z) : AudioFrame :=
  MkAudioFrame (timestamp_ f) (elapsed_time_ms_ f) (ntp_time_ms_ f)
    (samples_per_channel_ f) (sample_rate_hz_ f) (num_channels_ f)
    (speech_type_ f) (vad_activity_ f) (profile_timestamp_ms_ f) d
    (muted_ f).

Definition fs_GetAudioFrameWithInfo (fuel : nat) s (sample_rate_hz : Z)
    (audio_frame : AudioFrame)
    : outcome (AudioFrameInfo * AudioFrame * AudioFileSource) :=
  if negb (sample_rate_hz =? fs_output_sample_rate s)
  then Ret (kError, audio_frame, s) else
  audio_frame ← UpdateFrame None (fs_format s) audio_frame;
  let audio_frame := mutable_data audio_frame in
  '(read, out, s) ← Read fuel s;
  output ← overwrite (frame_data_ audio_frame) out;
  let audio_frame := set_frame_data audio_frame output in
  if read <? 0 then Ret (kError, audio_frame, s) else
  Ret (kNormal, ApplyVolume (fs_base s) audio_frame, s).

Definition fs_Ssrc s : Z := fs_ssrc s.
Definition fs_PreferredSampleRate s : Z := fs_output_sample_rate s.
Definition input_sample_rate s : Z := fs_input_sample_rate s.
Definition input_channel_num s : Z := fs_input_channel_num s.

Definition fs_UpdateVolume s (volume : f32) : AudioFileSource :=
  MkFileSource (UpdateVolume (fs_base s) volume) (fs_ssrc s)
    (fs_input_sample_rate s) (fs_input_channel_num s) (fs_input_format s)
    (fs_input_samples s) (fs_output_sample_rate s)
    (fs_output_channel_num s) (fs_frame_duration_ms s)
    (fs_report_output_samples s) (fs_real_output_samples s)
    (fs_input_buffer s) (fs_decoder s) (fs_resampler s).
End file_source.

(** ** The invariant of a file source *)

Section file_source_lemmas.
Context `{FFmpegSpec, !FifoReliable, !StableChannels, AudioFrameLaws}.
Implicit Types (s : AudioFileSource) (file : list (AVPacket Payload)).

(** A bound on the channels of the streams the codec opens. *)
Context (max_channels : Z).
Hypothesis channels_range : ∀ c, 0 < ctx_channels c ≤ max_channels.

Lemma channels_bound c : 0 ≤ ctx_channels c ≤ max_channels.
Proof. pose proof (channels_range c). lia. Qed.

(** The parameters for which all arithmetic of a read is defined and a frame
    fits [AudioFrame]. *)
Definition fs_params s : Prop :=
  1 ≤ fs_frame_duration_ms s ≤ kFrameDurationInMs
  ∧ 0 < fs_input_sample_rate s ∧ is_i32 (fs_input_sample_rate s)
  ∧ 0 ≤ fs_output_sample_rate s ∧ is_i32 (fs_output_sample_rate s)
  ∧ fs_input_channel_num s = channel_num (fs_decoder s)
  ∧ 0 ≤ fs_output_channel_num s ∧ is_i32 (fs_output_channel_num s)
  ∧ 0 < fs_input_samples s
  ∧ is_i32 (fs_input_samples s * 8 * max_channels)
  ∧ 0 < sample_format_bytes (fs_input_format s)
  ∧ (frames_share (fs_output_sample_rate s) kFrameDurationInMs + 1)
      * Z.max 2 (fs_output_channel_num s) ≤ kMaxDataSizeSamples.

Definition fs_ok file (out : list Sample) s : Prop :=
  fs_params s
  ∧ fs_input_samples s
      = frames_share (fs_input_sample_rate s) (fs_frame_duration_ms s)
  ∧ fs_report_output_samples s
      = frames_share (fs_output_sample_rate s) kFrameDurationInMs
  ∧ lenZ (fs_input_buffer s) = fs_input_samples s
  ∧ dec_inv file out (fs_decoder s)
  ∧ resampler_ok (fs_resampler s)
  ∧ fs_resampler s = MkResampler (ar_context (fs_resampler s))
      (fs_input_format s) (fs_input_sample_rate s) (fs_input_channel_num s)
      kOutputSampleFormat (fs_output_sample_rate s)
      (fs_output_channel_num s).

(** What a read does to the fields of the source. *)
Definition fs_read_of s s' : Prop :=
  s' = fs_set_read s (fs_input_buffer s') (fs_decoder s') (fs_resampler s').

Lemma bytes_range f : 0 ≤ sample_format_bytes f ≤ 8.
Proof. destruct f; cbn; lia. Qed.

(** Rounding up never asks for more than one sample beyond 10 ms. *)
Lemma output_room_le isr osr ms :
  1 ≤ ms ≤ kFrameDurationInMs → 0 < isr → 0 ≤ osr →
  0 ≤ (frames_share isr ms * osr + isr - 1) / isr
    ≤ frames_share osr kFrameDurationInMs + 1.
Proof.
  unfold kFrameDurationInMs. intros Hms Hi Ho.
  pose proof (frames_share_nonneg isr ms ltac:(lia) ltac:(lia)) as Hn.
  split; [apply Z.div_pos; nia|].
  apply Z.lt_succ_r, Z.div_lt_upper_bound; [done|].
  assert (100 * frames_share isr ms ≤ isr) as H100.
  { unfold frames_share. assert (100 ≤ 1000 / ms) as Hk
      by (apply Z.div_le_lower_bound; lia).
    pose proof (Z.mul_div_le isr (1000 / ms)). nia. }
  set (n := frames_share isr ms) in *.
  assert (osr < 100 * (frames_share osr 10 + 1)) as Ho100.
  { unfold frames_share. change (1000 / 10) with 100. dlia. }
  set (m := frames_share osr 10) in *. nia.
Qed.

(** At rates that are multiples of 100 Hz the room is exactly 10 ms. *)
Lemma output_room_exact isr osr ms :
  1 ≤ ms ≤ kFrameDurationInMs → 0 < isr → 0 ≤ osr → (100 | osr) →
  (frames_share isr ms * osr + isr - 1) / isr
    ≤ frames_share osr kFrameDurationInMs.
Proof.
  unfold kFrameDurationInMs. intros Hms Hi Ho [m ->].
  pose proof (frames_share_nonneg isr ms ltac:(lia) ltac:(lia)) as Hn.
  assert (frames_share (m * 100) 10 = m) as ->
    by (unfold frames_share; by rewrite Z.div_mul).
  apply Z.lt_succ_r, Z.div_lt_upper_bound; [done|].
  assert (100 * frames_share isr ms ≤ isr) as H100.
  { unfold frames_share. assert (100 ≤ 1000 / ms) as Hk
      by (apply Z.div_le_lower_bound; lia).
    pose proof (Z.mul_div_le isr (1000 / ms)). nia. }
  set (n := frames_share isr ms) in *. nia.
Qed.

Lemma fs_channels s :
  fs_params s → 0 < fs_input_channel_num s ≤ max_channels.
Proof. intros (_ & _ & _ & _ & _ & -> & _). apply channels_range. Qed.

Lemma fs_request_ok s :
  fs_params s → request_ok max_channels (fs_input_samples s).
Proof.
  intros Hp. pose proof (fs_channels s Hp).
  destruct Hp as (_ & _ & _ & _ & _ & _ & _ & _ & ? & ? & _).
  unfold request_ok. unfold_i32. nia.
Qed.

(** The bytes of a whole frame, as the size test of [Read] computes them. *)
Definition whole_frame s : Z :=
  fs_input_samples s * sample_format_bytes (fs_input_format s).

Lemma whole_frame_size s :
  fs_params s →
  is_i32 (whole_frame s * fs_input_channel_num s)
  ∧ av_samples_get_buffer_size (fs_input_channel_num s) (fs_input_samples s)
      (fs_input_format s) 1 = whole_frame s * fs_input_channel_num s.
Proof.
  intros Hp. pose proof (fs_channels s Hp) as Hc.
  destruct Hp as (_ & _ & _ & _ & _ & _ & _ & _ & Hn0 & Hi8 & Hb0 & _).
  pose proof (bytes_range (fs_input_format s)) as Hb8. unfold whole_frame.
  set (n := fs_input_samples s) in *. set (c := fs_input_channel_num s) in *.
  set (b := sample_format_bytes (fs_input_format s)) in *.
  assert (is_i32 (n * b * c)) as Hi.
  { unfold_i32. assert (0 ≤ b * c ≤ 8 * max_channels) by nia. nia. }
  split; [done|]. subst b.
  replace (n * _ * c)
    with (c * n * sample_format_bytes (fs_input_format s)) in * by lia.
  apply buffer_size_spec; done || lia.
Qed.

Lemma whole_frame_test s g consumed :
  fs_params s → consumed = g * 2 * fs_input_channel_num s →
  (consumed =? av_samples_get_buffer_size (fs_input_channel_num s)
                 (fs_input_samples s) (fs_input_format s) 1)
    = bool_decide (g * 2 = whole_frame s).
Proof.
  intros Hp ->. destruct (whole_frame_size s Hp) as [_ ->].
  pose proof (fs_channels s Hp).
  apply Bool.eq_iff_eq_true. rewrite bool_decide_eq_true, Z.eqb_eq. nia.
Qed.

(** Resampling a whole frame stays within the frame's array. *)
Lemma Resample_whole file out s buf :
  fs_ok file out s → lenZ buf = fs_input_samples s →
  wp (Resample (fs_resampler s) buf (whole_frame s * fs_input_channel_num s))
    (λ '(r, o, rs'), resampler_ok rs'
      ∧ rs' = ar_set_context (fs_resampler s) (ar_context rs')
      ∧ lenZ o ≤ kMaxDataSizeSamples).
Proof.
  intros (Hp & Hin & _ & _ & _ & Hrok & Hrs) Hbuf.
  pose proof (whole_frame_size s Hp) as [Hi _].
  pose proof (fs_channels s Hp) as Hc0.
  pose proof Hp as (Hms & His & Hi1 & Hos & Hi2 & _ & Hoc & Hi3
    & Hn0 & Hi8 & Hb0 & Hfit).
  pose proof (output_room_le _ _ _ Hms His Hos) as Hroom. rewrite <- Hin in Hroom.
  pose proof (Resample_spec (fs_resampler s) buf (fs_input_samples s) Hrok)
    as Hres.
  unfold resample_request, output_room in Hres. rewrite Hrs in Hres.
  cbn [ar_input_format ar_input_sample_rate ar_input_channel_num
    ar_output_sample_rate ar_output_channel_num] in Hres.
  rewrite Hrs at 1. unfold kMaxDataSizeSamples in *.
  eapply wp_mono; [|apply Hres; split_and!;
    (done || lia || (unfold_i32; nia))].
  intros [[r o] rs'] (? & Heq & Hlen). split_and!; [done| |].
  - rewrite Heq at 1. by rewrite Hrs.
  - unfold layout_channels in Hlen. destruct (_ =? 1); nia.
Qed.

(** What a read returns when it got the samples [got]: the end of the file,
    unless their byte count is that of a whole frame in the input format. *)
Definition read_result s (got : list Sample) (r : Z) (o : list Z)
    (s' : AudioFileSource) : Prop :=
  if decide (lenZ got * 2 = whole_frame s) then
    Resample (fs_resampler s) (fs_input_buffer s')
      (whole_frame s * fs_input_channel_num s) = Ret (r, o, fs_resampler s')
    ∧ lenZ o ≤ kMaxDataSizeSamples
  else r = AVERROR_EOF ∧ o = [].

(** The outcome of a read: some samples [got] left the decoder. *)
Definition read_post file out s
    (x : Z * list Z * AudioFileSource) : Prop :=
  let '(r, o, s') := x in ∃ got,
    fs_ok file (out ++ got) s' ∧ fs_read_of s s'
    ∧ lenZ got ≤ fs_input_samples s
    ∧ fs_input_buffer s' = got ++ dropZ (lenZ got) (fs_input_buffer s)
    ∧ (packets_left (fs_decoder s') ≤ packets_left (fs_decoder s))%nat
    ∧ read_result s got r o s'.

Lemma Read_spec fuel file out s :
  fs_ok file out s → enough_fuel fuel file (fs_decoder s) →
  wpa (Read fuel s) (read_post file out s).
Proof.
  intros Hok Hfuel. pose proof Hok as (Hp & Hin & Hrep & Hbuf & Hd & Hrok & Hrs).
  unfold Read. apply wpa_bind.
  pose proof (Consume_spec max_channels channels_bound _ _ _ _ _ Hd Hfuel
    (fs_request_ok s Hp)) as Hcons.
  destruct (Consume _ _ _) as [[[consumed got] d']| | |] eqn:Hrunc;
    [|done..].
  destruct Hcons as (Hd' & Hgot & Hbytes & _ & Hle).
  apply Consume_channels in Hrunc. cbn [wpa]. rewrite Hrunc in Hbytes.
  pose proof Hp as (_ & _ & _ & _ & _ & Hch & _). rewrite <- Hch in Hbytes.
  assert (fs_params (fs_set_read s (fs_input_buffer s) d' (fs_resampler s)))
    as Hp' by (unfold fs_params in *; cbn; by rewrite Hrunc).
  unfold overwrite. rewrite (proj2 (Z.leb_le _ _)) by lia.
  cbn [mbind outcome_bind].
  set (buf := got ++ dropZ (lenZ got) (fs_input_buffer s)).
  assert (lenZ buf = fs_input_samples s) as Hlen by (subst buf; solve_len).
  cbn [fs_set_read fs_input_channel_num fs_input_samples fs_input_format
    fs_input_buffer fs_resampler fs_decoder].
  rewrite (whole_frame_test s (lenZ got)) by done.
  case_bool_decide as Hwhole; cbn [negb].
  2: { cbn. exists got. unfold read_result. by rewrite decide_False. }
  rewrite Hbytes, Hwhole. apply wpa_bind, wp_wpa.
  destruct (proj1 (wp_exists _ _) (Resample_whole _ _ _ _ Hok Hlen))
    as ([[r o] rs'] & Hrun & Hrok' & Hrs' & Ho).
  rewrite Hrun. cbn. exists got. unfold read_result.
  rewrite decide_True by done. split_and!; try done.
  unfold fs_ok. cbn. split_and!; try done.
  rewrite Hrs'. by rewrite Hrs at 1.
Qed.

(** ** Delivering a frame *)

Lemma fs_format_fits s file out :
  fs_ok file out s → format_fits (fs_format s).
Proof.
  intros (Hp & _ & Hrep & _).
  destruct Hp as (_ & _ & _ & Hos & Hi2 & _ & Hoc & Hi3 & _ & _ & _ & Hfit).
  unfold format_fits, total_samples, fs_format. cbn. rewrite Hrep.
  pose proof (frames_share_nonneg (fs_output_sample_rate s)
    kFrameDurationInMs ltac:(done) Hos) as Hge.
  pose proof (frames_share_le (fs_output_sample_rate s)
    kFrameDurationInMs ltac:(done) Hos) as Hle.
  rewrite !to_size_t_small by (unfold_i32; lia).
  split_and!; [lia|lia|]. nia.
Qed.

(** The outcome of a frame request at the source's rate. *)
Definition frame_post file out s
    (x : AudioFrameInfo * AudioFrame * AudioFileSource) : Prop :=
  let '(i, f, s') := x in ∃ r o,
    read_post file out s (r, o, s') ∧ frame_wf f
    ∧ (i = kError ∧ r < 0
       ∨ i = kNormal ∧ 0 ≤ r ∧ ∃ f0,
           f = ApplyVolume (fs_base s) f0 ∧ format_of f0 = fs_format s
           ∧ muted_ f0 = false ∧ takeZ (lenZ o) (frame_data_ f0) = o).

Lemma read_post_size file out s r o s' :
  read_post file out s (r, o, s') → lenZ o ≤ kMaxDataSizeSamples.
Proof.
  intros (got & _ & _ & _ & _ & _ & Hr). unfold read_result in Hr.
  case_decide; [by destruct Hr|]. destruct Hr as [_ ->]. done.
Qed.

Lemma fs_get_frame fuel file out s f :
  fs_ok file out s → frame_wf f → enough_fuel fuel file (fs_decoder s) →
  wpa (fs_GetAudioFrameWithInfo fuel s (fs_output_sample_rate s) f)
    (frame_post file out s).
Proof.
  intros Hok Hf Hfuel. unfold fs_GetAudioFrameWithInfo.
  rewrite Z.eqb_refl. cbn [negb]. apply wpa_bind.
  eapply wpa_mono; [|apply wp_wpa, UpdateFrame_null;
    [done|by eapply fs_format_fits]].
  intros f1 (Hw1 & Hf1 & _).
  destruct (mutable_data_spec f1 Hw1) as (Hw2 & Hm2 & Hf2 & _).
  apply wpa_bind. eapply wpa_mono; [|by apply Read_spec].
  intros [[r o] s'] Hpost. pose proof (read_post_size _ _ _ _ _ _ Hpost) as Ho.
  unfold overwrite. rewrite (proj2 (Z.leb_le _ _)) by by rewrite Hw2.
  cbn [mbind outcome_bind].
  set (f2 := set_frame_data _ _).
  assert (frame_wf f2) as Hw.
  { unfold frame_wf in *. subst f2. cbn. solve_len. }
  destruct (Z.ltb_spec r 0) as [Hr|Hr]; cbn.
  - exists r, o. split_and!; [done|done|by left].
  - exists r, o. split_and!; [done|by apply ApplyVolume_format|right].
    assert (fs_base s' = fs_base s) as ->.
    { destruct Hpost as (got & _ & Heq & _). by rewrite Heq. }
    split_and!; [done|done|]. exists f2. subst f2. cbn.
    split_and!; [done|by rewrite <- Hf1, <- Hf2|done|by apply takeZ_app].
Qed.

(** ** Construction *)

(** The streams the codec opens, and the parameters of the output. *)
Definition streams_ok (ms : Z) : Prop :=
  ∀ c, 1000 ≤ ctx_sample_rate c * ms
    ∧ is_i32 (10 * ctx_sample_rate c)
    ∧ is_i32 (ctx_sample_rate c * 8 * max_channels)
    ∧ 0 < sample_format_bytes (ctx_sample_fmt c).
Definition output_ok (osr och ms : Z) : Prop :=
  1 ≤ ms ≤ kFrameDurationInMs ∧ 0 ≤ osr ∧ is_i32 osr ∧ 0 ≤ och ∧ is_i32 och
  ∧ (frames_share osr kFrameDurationInMs + 1) * Z.max 2 och
      ≤ kMaxDataSizeSamples.

Lemma frames_share_pos x ms : 1 ≤ ms ≤ 1000 → 1000 ≤ x * ms → 0 < frames_share x ms.
Proof.
  intros Hms Hx. apply Z.div_str_pos. split; [by apply frames_per_second_pos|].
  pose proof (Z.mul_div_le 1000 ms). nia.
Qed.

Lemma AudioFileSource_new_ok fuel ssrc path osr och ms v ctx0 e0 e ctx :
  avformat_open_input path = (e0, Some ctx0) →
  avformat_find_stream_info ctx0 = (e, ctx) →
  (length (fmt_packets ctx) < fuel)%nat →
  streams_ok ms → output_ok osr och ms →
  wpa (AudioFileSource_new fuel ssrc path osr och ms v) (λ s,
    fs_ok (audio_packets (fd_stream_no (fs_decoder s)) (fmt_packets ctx)) [] s
    ∧ fs_ssrc s = ssrc ∧ fs_base s = MkAudioSource v
    ∧ fs_output_sample_rate s = osr
    ∧ (packets_left (fs_decoder s) ≤ S (length (fmt_packets ctx)))%nat).
Proof.
  intros Hopen Hinfo Hfuel Hst (Hms & Ho & Hio & Hc & Hic & Hfit).
  unfold AudioFileSource_new, kFrameDurationInMs in *.
  rewrite !per_frame_ok by (done || lia). cbn [mbind outcome_bind].
  apply wpa_bind. eapply wpa_mono; [|eapply AudioFileDecoder_new_spec; try done].
  2: { intros c. destruct (Hst c) as (? & ? & _). split; [nia|done]. }
  intros d (Hd & _ & Hle & _). unfold sample_rate, sample_format.
  destruct (Hst (fd_codec_context d)) as (Hr1 & Hr2 & Hr3 & Hr4).
  set (isr := ctx_sample_rate (fd_codec_context d)) in *.
  pose proof (frames_share_pos isr ms ltac:(lia) Hr1) as Hpos.
  assert (0 < isr) as Hisr by nia.
  pose proof (frames_share_le isr ms ltac:(lia) ltac:(lia)) as Hshare.
  pose proof (channels_range (fd_codec_context d)) as Hch.
  rewrite per_frame_ok by (unfold_i32; lia). cbn [mbind outcome_bind].
  destruct (0 <=? av_samples_alloc_array_and_samples _ _ _ _); [|done]. cbn.
  apply wpa_bind. eapply wpa_mono; [|apply AudioResampler_new_ok].
  intros r (Hr & Hra & Hrb & Hrc & Hrd & Hre & Hrf). cbn.
  split_and!; [|done|done|done|done].
  unfold fs_ok, fs_params. cbn. unfold kFrameDurationInMs.
  split_and!; try done; try lia.
  - unfold_i32; lia.
  - unfold_i32. split; [nia|].
    assert (frames_share isr ms * 8 * max_channels ≤ isr * 8 * max_channels)
      by nia. lia.
  - rewrite lenZ_replicate. lia.
  - destruct r; cbn in *; congruence.
Qed.

(** ** Properties *)

(** C16: For a 16-bit input format a read takes the next samples of the decoded
    stream: a whole frame of them is what the resampler converts, and fewer
    are reported as the end of the file (and are lost). *)
Theorem read_16bit fuel file out s :
  fs_ok file out s → enough_fuel fuel file (fs_decoder s) →
  sample_format_bytes (fs_input_format s) = 2 →
  wpa (Read fuel s) (λ '(r, o, s'), ∃ got,
    fs_ok file (out ++ got) s' ∧ lenZ got ≤ fs_input_samples s
    ∧ if decide (lenZ got = fs_input_samples s) then
        Resample (fs_resampler s) got
          (fs_input_samples s * 2 * fs_input_channel_num s)
          = Ret (r, o, fs_resampler s')
      else r = AVERROR_EOF ∧ o = []).
Proof.
  intros Hok Hfuel Hb. eapply wpa_mono; [|by apply Read_spec].
  intros [[r o] s'] (got & Hok' & _ & Hle & Hbuf & _ & Hr).
  exists got. split_and!; [done|done|].
  unfold read_result, whole_frame in Hr. rewrite Hb in Hr.
  repeat case_decide; try lia; [|done]. destruct Hr as [Hr _].
  rewrite Hbuf, dropZ_all, app_nil_r in Hr; [done|].
  destruct Hok as (_ & _ & _ & Hlen & _). lia.
Qed.

(** C17: For every other input format a read that gets a whole frame reports
    the end of the file, because [Consume] counts two bytes a sample; for
    formats of four and more bytes every read does, so that a file whose
    decoder produces such a format is never heard. *)
Theorem read_other_formats fuel file out s :
  fs_ok file out s → enough_fuel fuel file (fs_decoder s) →
  sample_format_bytes (fs_input_format s) ≠ 2 →
  wpa (Read fuel s) (λ '(r, o, s'), ∃ got,
    fs_ok file (out ++ got) s' ∧ lenZ got ≤ fs_input_samples s
    ∧ (lenZ got = fs_input_samples s
       ∨ 4 ≤ sample_format_bytes (fs_input_format s) →
         r = AVERROR_EOF ∧ o = [])).
Proof.
  intros Hok Hfuel Hb. eapply wpa_mono; [|by apply Read_spec].
  intros [[r o] s'] (got & Hok' & _ & Hle & _ & _ & Hr).
  exists got. split_and!; [done|done|]. intros Hfull.
  unfold read_result, whole_frame in Hr.
  destruct Hok as ((_ & _ & _ & _ & _ & _ & _ & _ & Hn0 & _) & _).
  pose proof (lenZ_nonneg got).
  rewrite decide_False in Hr; [done|]. nia.
Qed.

(** The samples a read can get without another packet, and the packets of the
    stream that wait: the one held back and those still in the file. *)
Definition available d : list Sample :=
  fifo_contents (fd_fifo d) ++ frames_samples (codec_pending (fd_codec_context d)).
Definition waiting d : list (AVPacket Payload) :=
  held d ++ audio_packets (fd_stream_no d) (fmt_packets (fd_format_context d)).

(** Samples that leave the decoder without another packet. *)
Lemma dec_inv_available file out got d d' :
  dec_inv file out d → dec_inv file (out ++ got) d' →
  codec_accepted (fd_codec_context d') = codec_accepted (fd_codec_context d) →
  got ++ available d' = available d ∧ waiting d' = waiting d.
Proof.
  intros (_ & Hf & Ho) (_ & Hf' & Ho') Ha. split.
  - apply (app_inv_head out). unfold available. rewrite !app_assoc, <- Ho, <- Ho'.
    by rewrite <- !frames_samples_app, !codec_stream, Ha.
  - rewrite Ha, <- Hf in Hf'. by apply app_inv_head in Hf'.
Qed.

(** C24: A file source gives the codec packets until it refuses one, and only
    then asks it for frames, once.  If after that (decoder [d1]) the FIFO and
    the frames of the codec have fewer samples than a frame of 16-bit input, a
    read reports the end of the file and the samples it took are lost, no
    matter how many packets of the stream wait: the codec is given none of
    them. *)
Theorem short_codec_frames_end_playback fuel file out s d1 :
  fs_ok file out s → enough_fuel fuel file (fs_decoder s) →
  sample_format_bytes (fs_input_format s) = 2 →
  FillDecoder fuel (fs_decoder s) = Ret d1 →
  lenZ (available d1) < fs_input_samples s →
  wp (Read fuel s) (λ '(r, o, s'), r = AVERROR_EOF ∧ o = [] ∧ ∃ lost,
    fs_ok file (out ++ lost) s'
    ∧ fifo_contents (fd_fifo (fs_decoder s')) = []
    ∧ lost ++ frames_samples (codec_pending (fd_codec_context (fs_decoder s')))
      = available d1
    ∧ waiting (fs_decoder s') = waiting d1).
Proof.
  intros Hok Hfuel Hb Hfill Hfew.
  pose proof Hok as (Hp & Hin & Hrep & Hbuf & Hd & Hrok & Hrs).
  pose proof (FillDecoder_inv fuel file out _ Hd (proj1 Hfuel)) as Hd1.
  rewrite Hfill in Hd1. cbn [wpa] in Hd1.
  destruct (proj1 (wp_exists _ _) (Consume_filled max_channels channels_bound
    _ _ _ _ _ _ Hd Hfuel (fs_request_ok s Hp) Hfill Hd1))
    as ([[bytes got] d'] & Hrun & (Hd' & Hgot & Hbytes & Hempty & _) & Hacc).
  cbn [snd] in Hacc. destruct Hd1 as (Hd1 & _).
  destruct (dec_inv_available _ _ _ _ _ Hd1 Hd' Hacc) as [Havail Hwait].
  assert (lenZ got < fs_input_samples s) as Hshort.
  { rewrite <- Havail, lenZ_app in Hfew. pose proof (lenZ_nonneg (available d')). lia. }
  pose proof (Consume_channels _ _ _ _ _ _ Hrun) as Hch. rewrite Hch in Hbytes.
  pose proof Hp as (_ & _ & _ & _ & _ & Hci & _). rewrite <- Hci in Hbytes.
  unfold Read. rewrite Hrun. cbn [mbind outcome_bind].
  unfold overwrite. rewrite (proj2 (Z.leb_le _ _)) by lia. cbn [mbind outcome_bind].
  cbn [fs_set_read fs_input_channel_num fs_input_samples fs_input_format
    fs_input_buffer fs_resampler fs_decoder].
  rewrite (whole_frame_test s (lenZ got)) by done.
  rewrite bool_decide_eq_false_2 by (unfold whole_frame; lia).
  cbn [negb wp]. split_and!; [done..|]. exists got. cbn [fs_decoder].
  unfold available in Havail. rewrite (Hempty Hshort) in Havail.
  split_and!; [|by apply Hempty|done|done].
  assert (fs_params (fs_set_read s (fs_input_buffer s) d' (fs_resampler s)))
    as Hp' by (unfold fs_params in *; cbn; by rewrite Hch).
  split_and!; try done. cbn. solve_len.
Qed.

(** C10: A frame request is safe: at another rate it fails and touches
    nothing; at the source's rate it never writes outside the frame, always
    terminates (unless FFmpeg reports an unexpected error), and on success
    the frame starts with the resampled samples after the volume change. *)
Theorem file_source_frame fuel file out s rate f :
  fs_ok file out s → frame_wf f → enough_fuel fuel file (fs_decoder s) →
  wpa (fs_GetAudioFrameWithInfo fuel s rate f) (λ '(i, f', s'),
    if decide (rate = fs_output_sample_rate s) then
      frame_post file out s (i, f', s')
    else i = kError ∧ f' = f ∧ s' = s).
Proof.
  intros Hok Hf Hfuel. case_decide as Hr.
  - subst rate. eapply wpa_mono; [|by apply fs_get_frame].
    by intros [[i f'] s'].
  - unfold fs_GetAudioFrameWithInfo.
    by rewrite (proj2 (Z.eqb_neq _ _)) by done.
Qed.

(** C27: The constructor of a file source yields, unless a check stops it, a
    source that satisfies the invariant and has delivered nothing. *)
Theorem file_source_construction fuel ssrc path osr och ms v ctx0 e0 e ctx :
  avformat_open_input path = (e0, Some ctx0) →
  avformat_find_stream_info ctx0 = (e, ctx) →
  (length (fmt_packets ctx) < fuel)%nat →
  streams_ok ms → output_ok osr och ms →
  wpa (AudioFileSource_new fuel ssrc path osr och ms v) (λ s,
    fs_ok (audio_packets (fd_stream_no (fs_decoder s)) (fmt_packets ctx)) [] s
    ∧ fs_ssrc s = ssrc ∧ fs_output_sample_rate s = osr).
Proof.
  intros. eapply wpa_mono; [|by eapply AudioFileSource_new_ok].
  intros s (? & ? & _ & ? & _). done.
Qed.
End file_source_lemmas.

(** ** Examples *)

(** A source that plays the demonstration file at 300 Hz, three samples every
    10 ms. *)
#[local] Existing Instance ReferenceFrameApi.
#[local] Existing Instance ReferenceFrameLaws.

Definition source_ffmpeg (file : list (AVPacket (list (list Z))))
    (format : AVSampleFormat) (limit : nat) : FFmpeg :=
  ReferenceFFmpeg file format 300 1 limit.
Definition source_spec file format limit
    : @FFmpegSpec (source_ffmpeg file format limit) :=
  ReferenceFFmpegSpec file format 300 1 limit.
Definition source_reliable file format limit
    : @FifoReliable (source_ffmpeg file format limit) :=
  ReferenceFifoReliable file format 300 1 limit.

(** A source at its first read, for a stream with 3 samples per 10 ms. *)
Definition demo_source (file : list (AVPacket (list (list Z))))
    (format : AVSampleFormat) (limit : nat)
    : @AudioFileSource (source_ffmpeg file format limit) :=
  MkFileSource (H := source_ffmpeg file format limit)
    (MkAudioSource (S754_zero false)) 1 300 1 format 3 300 1 10
    3 3 [0; 0; 0]
    (MkFileDecoder (H := source_ffmpeg file format limit) 30 0 file
      (MkRefCodec [] 0) None true [])
    (MkResampler (H := source_ffmpeg file format limit)
      (configure (H := source_ffmpeg file format limit) [] format 300 1
        kOutputSampleFormat 300 1)
      format 300 1 kOutputSampleFormat 300 1).

Section source_examples.
Context (file : list (AVPacket (list (list Z)))).
Context (format : AVSampleFormat) (limit : nat).
#[local] Instance example_ffmpeg : FFmpeg := source_ffmpeg file format limit.
#[local] Instance example_spec : FFmpegSpec := source_spec file format limit.

Lemma demo_source_ok :
  0 < sample_format_bytes format →
  fs_ok 1 (audio_packets 0 file) [] (demo_source file format limit).
Proof.
  intros Hb. split_and!; try done; cbn -[configure]; done || ground.
Qed.

Lemma demo_source_fuel fuel :
  (S (length file) < fuel)%nat →
  (length (ref_decoded (audio_packets 0 file)) < fuel)%nat →
  enough_fuel fuel (audio_packets 0 file)
    (fs_decoder (demo_source file format limit)).
Proof.
  intros Hfile Hlen. split; [cbn; lia|]. intros k [k' Hk]. cbn -[length].
  change (decoded k) with (ref_decoded k). rewrite Hk in Hlen.
  rewrite ref_decoded_app, length_app in Hlen. lia.
Qed.
End source_examples.

Lemma source_channels file format limit :
  ∀ c : @AVCodecContext (source_ffmpeg file format limit), 0 < ctx_channels c ≤ 1.
Proof. cbn. lia. Qed.
Definition source_stable file format limit
    : @StableChannels (source_ffmpeg file format limit) :=
  ReferenceStableChannels file format 300 1 limit.

(** A source of the demonstration file in a given format. *)
Definition demo_ff (format : AVSampleFormat) : FFmpeg :=
  source_ffmpeg demo_file format 2.
Definition demo_ff_spec (format : AVSampleFormat) : @FFmpegSpec (demo_ff format) :=
  source_spec demo_file format 2.
#[local] Existing Instance demo_ff_spec.

Definition demo_packets (format : AVSampleFormat)
    : list (AVPacket (@Payload (demo_ff format))) :=
  @audio_packets (demo_ff format) 0 demo_file.

Example demo_read_16bit :
  (let H := demo_ff AV_SAMPLE_FMT_S16 in
   '(r, o, s) ← Read 10 (demo_source demo_file AV_SAMPLE_FMT_S16 2);
   Ret (r, o)) = Ret (64, [1; 2; 3]).
Proof. vm_compute. reflexivity. Qed.

Lemma read_16bit_witness :
  sample_format_bytes AV_SAMPLE_FMT_S16 = 2
  ∧ wpa (@Read (demo_ff AV_SAMPLE_FMT_S16) 10
           (demo_source demo_file AV_SAMPLE_FMT_S16 2)) (λ '(r, o, s'), ∃ got,
      fs_ok 1 (demo_packets AV_SAMPLE_FMT_S16) ([] ++ got) s' ∧ lenZ got ≤ 3
      ∧ if decide (lenZ got = 3) then
          Resample (fs_resampler (demo_source demo_file AV_SAMPLE_FMT_S16 2))
            got (3 * 2 * 1) = Ret (r, o, fs_resampler s')
        else r = AVERROR_EOF ∧ o = []).
Proof.
  split; [reflexivity|].
  apply (@read_16bit (demo_ff AV_SAMPLE_FMT_S16)
    (demo_ff_spec AV_SAMPLE_FMT_S16)
    (source_reliable demo_file AV_SAMPLE_FMT_S16 2)
    (source_stable demo_file AV_SAMPLE_FMT_S16 2) 1
    (source_channels demo_file AV_SAMPLE_FMT_S16 2) 10 (demo_packets AV_SAMPLE_FMT_S16) []
    (demo_source demo_file AV_SAMPLE_FMT_S16 2)).
  - by apply demo_source_ok.
  - apply demo_source_fuel; apply Nat.ltb_lt; reflexivity.
  - reflexivity.
Defined.

Lemma read_other_formats_witness :
  sample_format_bytes AV_SAMPLE_FMT_FLTP = 4
  ∧ wpa (@Read (demo_ff AV_SAMPLE_FMT_FLTP) 10
           (demo_source demo_file AV_SAMPLE_FMT_FLTP 2)) (λ '(r, o, s'), ∃ got,
      fs_ok 1 (demo_packets AV_SAMPLE_FMT_FLTP) ([] ++ got) s' ∧ lenZ got ≤ 3
      ∧ (lenZ got = 3 ∨ 4 ≤ sample_format_bytes AV_SAMPLE_FMT_FLTP →
         r = AVERROR_EOF ∧ o = [])).
Proof.
  split; [reflexivity|].
  apply (@read_other_formats (demo_ff AV_SAMPLE_FMT_FLTP)
    (demo_ff_spec AV_SAMPLE_FMT_FLTP)
    (source_reliable demo_file AV_SAMPLE_FMT_FLTP 2)
    (source_stable demo_file AV_SAMPLE_FMT_FLTP 2) 1
    (source_channels demo_file AV_SAMPLE_FMT_FLTP 2) 10 (demo_packets AV_SAMPLE_FMT_FLTP) []
    (demo_source demo_file AV_SAMPLE_FMT_FLTP 2)).
  - by apply demo_source_ok.
  - apply demo_source_fuel; apply Nat.ltb_lt; reflexivity.
  - discriminate.
Defined.

Lemma file_source_frame_witness :
  wpa (@fs_GetAudioFrameWithInfo (demo_ff AV_SAMPLE_FMT_S16) _ 10
         (demo_source demo_file AV_SAMPLE_FMT_S16 2) 300 AudioFrame_new)
    (λ '(i, f', s'),
      if decide (300 = 300) then
        frame_post 1 (demo_packets AV_SAMPLE_FMT_S16) []
          (demo_source demo_file AV_SAMPLE_FMT_S16 2) (i, f', s')
      else i = kError ∧ f' = AudioFrame_new
           ∧ s' = demo_source demo_file AV_SAMPLE_FMT_S16 2).
Proof.
  apply (@file_source_frame (demo_ff AV_SAMPLE_FMT_S16)
    (demo_ff_spec AV_SAMPLE_FMT_S16)
    (source_reliable demo_file AV_SAMPLE_FMT_S16 2)
    (source_stable demo_file AV_SAMPLE_FMT_S16 2) _ _ 1
    (source_channels demo_file AV_SAMPLE_FMT_S16 2) 10 (demo_packets AV_SAMPLE_FMT_S16) []
    (demo_source demo_file AV_SAMPLE_FMT_S16 2) 300 AudioFrame_new).
  - by apply demo_source_ok.
  - apply AudioFrame_new_wf.
  - apply demo_source_fuel; apply Nat.ltb_lt; reflexivity.
Defined.

Lemma file_source_construction_witness :
  wpa (@AudioFileSource_new (demo_ff AV_SAMPLE_FMT_S16) 10 7 "morning.wav" 300 1
         10 (S754_zero false)) (λ s,
    fs_ok (H := demo_ff AV_SAMPLE_FMT_S16) 1
      (audio_packets (fd_stream_no (fs_decoder s))
        (fmt_packets (FFmpegSpec := demo_ff_spec AV_SAMPLE_FMT_S16) demo_file))
      [] s
    ∧ fs_ssrc s = 7 ∧ fs_output_sample_rate s = 300).
Proof.
  apply (@file_source_construction (demo_ff AV_SAMPLE_FMT_S16)
    (demo_ff_spec AV_SAMPLE_FMT_S16)
    1
    (source_channels demo_file AV_SAMPLE_FMT_S16 2) 10 7 "morning.wav" 300 1 10
    (S754_zero false) demo_file 0 0 demo_file);
  first [done | cbn; lia | intros c; ground | ground].
Defined.

(** ** Short codec frames *)

(** A stream whose packets decode to one sample each, and a codec that holds
    one frame. *)
Definition short_file : list (AVPacket (list (list Z))) :=
  [MkAVPacket 0 [[1]]; MkAVPacket 0 [[2]]; MkAVPacket 0 [[3]]].

(** The read takes one of the three samples of the frame and drops it; the next
    packet is held by the decoder, and the last one is in the file. *)
Definition short_source := demo_source short_file AV_SAMPLE_FMT_S16 1.
Example short_file_read :
  wp (@Read (source_ffmpeg short_file AV_SAMPLE_FMT_S16 1) 10 short_source)
    (λ '(r, o, s'),
    r = AVERROR_EOF ∧ o = []
    ∧ fd_packet (fs_decoder s') = Some (MkAVPacket 0 [[2]])
    ∧ fd_packet_consumed (fs_decoder s') = false
    ∧ fd_format_context (fs_decoder s') = [MkAVPacket 0 [[3]]]).
Proof. vm_compute. by split_and!. Qed.

Definition short_filled
    : @AudioFileDecoder (source_ffmpeg short_file AV_SAMPLE_FMT_S16 1) :=
  MkFileDecoder (H := source_ffmpeg short_file AV_SAMPLE_FMT_S16 1) 30 0
    [MkAVPacket 0 [[3]]] (MkRefCodec [MkAVPacket 0 [[1]]] 0)
    (Some (MkAVPacket 0 [[2]])) false [].

Lemma short_codec_frames_end_playback_witness :
  let ffmpeg := source_ffmpeg short_file AV_SAMPLE_FMT_S16 1 in
  let spec := source_spec short_file AV_SAMPLE_FMT_S16 1 in
  @waiting ffmpeg spec short_filled = [MkAVPacket 0 [[2]]; MkAVPacket 0 [[3]]]
  ∧ wp (@Read ffmpeg 10 short_source) (λ '(r, o, s'), r = AVERROR_EOF ∧ o = []
      ∧ ∃ lost, fs_ok (H := ffmpeg) (H0 := spec) 1
          (@audio_packets ffmpeg 0 short_file) ([] ++ lost) s'
        ∧ fifo_contents (FFmpegSpec := spec) (fd_fifo (fs_decoder s')) = []
        ∧ lost ++ frames_samples (codec_pending (FFmpegSpec := spec)
                                    (fd_codec_context (fs_decoder s')))
          = @available ffmpeg spec short_filled
        ∧ @waiting ffmpeg spec (fs_decoder s')
          = @waiting ffmpeg spec short_filled).
Proof.
  intros ffmpeg spec. split; [vm_compute; reflexivity|].
  apply (@short_codec_frames_end_playback ffmpeg spec
    (source_reliable short_file AV_SAMPLE_FMT_S16 1)
    (source_stable short_file AV_SAMPLE_FMT_S16 1) 1
    (source_channels short_file AV_SAMPLE_FMT_S16 1) 10
    (@audio_packets ffmpeg 0 short_file) [] short_source short_filled).
  - by apply demo_source_ok.
  - apply demo_source_fuel; apply Nat.ltb_lt; reflexivity.
  - reflexivity.
  - vm_compute. reflexivity.
  - vm_compute. reflexivity.
Defined.
