(* ===== verification/FfmpegHeap.v ===== *)
(** The memory behind the pointers: FFmpeg objects on a heap, the calls through
    pointers to them, and the deleters of src/src/avx_helper.h.

    The values FFmpeg computes are those of the class [FFmpeg]; this file adds
    where they live.  Using a null pointer or one to an object that does not
    exist (any more) is undefined behaviour, so that a use after free or a
    second free of an object never goes unnoticed, and an object nobody freed
    stays in the memory.  The allocator is a parameter: it returns any address
    that is not in use, also one that was freed before. *)

From stdpp Require Import gmap strings.
From S2P Require Import Prelude.
From S2P Require Import Ffmpeg.

Notation address := positive (only parsing).

(** ** The objects and the memory *)

(** A packet and a frame hold a reference to a buffer, if they are not blank:
    the stream index of a packet and the number of samples of a frame come
    with it.  The array of [av_samples_alloc_array_and_samples] holds the
    address of the block of samples in its first element. *)
Inductive object `{FFmpeg} : Type :=
| OFormatContext (c : AVFormatContext)
| OCodecContext (c : AVCodecContext)
| OPacket (contents : option (Z * address))
| OFrame (contents : option (Z * address))
| OPacketBuffer (payload : Payload)
| OFrameBuffer (data : list Sample)
| OAudioFifo (q : AVAudioFifo)
| OSwrContext (c : SwrContext)
| OPlanes (first : option address)
| OSamples (samples : list Sample).

Notation Memory := (gmap address object).

(** "allocates" in the documentation of FFmpeg: an address not in use. *)
Class Allocator `{FFmpeg} := {
  new_address : Memory → address;
  new_address_unused h : h !! new_address h = None
}.

(** The type of the object behind a pointer. *)
Record view `{FFmpeg} (A : Type) : Type := MkView {
  wrap : A → object;
  unwrap : object → option A;
  unwrap_wrap a : unwrap (wrap a) = Some a
}.
Arguments MkView {_ _} _ _ _.
Arguments wrap {_ _} _ _.
Arguments unwrap {_ _} _ _.
Arguments unwrap_wrap {_ _} _ _.

Section views.
Context `{FFmpeg}.

Definition format_context : view AVFormatContext :=
  MkView OFormatContext
    (λ o, match o with OFormatContext c => Some c | _ => None end)
    (λ _, eq_refl).
Definition codec_context : view AVCodecContext :=
  MkView OCodecContext
    (λ o, match o with OCodecContext c => Some c | _ => None end)
    (λ _, eq_refl).
Definition packet : view (option (Z * address)) :=
  MkView OPacket (λ o, match o with OPacket c => Some c | _ => None end)
    (λ _, eq_refl).
Definition frame : view (option (Z * address)) :=
  MkView OFrame (λ o, match o with OFrame c => Some c | _ => None end)
    (λ _, eq_refl).
Definition packet_buffer : view Payload :=
  MkView OPacketBuffer
    (λ o, match o with OPacketBuffer c => Some c | _ => None end)
    (λ _, eq_refl).
Definition frame_buffer : view (list Sample) :=
  MkView OFrameBuffer
    (λ o, match o with OFrameBuffer c => Some c | _ => None end)
    (λ _, eq_refl).
Definition audio_fifo : view AVAudioFifo :=
  MkView OAudioFifo
    (λ o, match o with OAudioFifo c => Some c | _ => None end)
    (λ _, eq_refl).
Definition swr_context : view SwrContext :=
  MkView OSwrContext
    (λ o, match o with OSwrContext c => Some c | _ => None end)
    (λ _, eq_refl).
Definition planes : view (option address) :=
  MkView OPlanes (λ o, match o with OPlanes c => Some c | _ => None end)
    (λ _, eq_refl).
Definition samples : view (list Sample) :=
  MkView OSamples (λ o, match o with OSamples c => Some c | _ => None end)
    (λ _, eq_refl).
End views.

(** ** Programs on the memory *)

Definition Mem `{FFmpeg} (A : Type) : Type := Memory → outcome (A * Memory).

#[export] Instance Mem_ret `{FFmpeg} : MRet Mem := λ A a h, Ret (a, h).
#[export] Instance Mem_bind `{FFmpeg} : MBind Mem := λ A B k m h,
  match m h with
  | Ret (a, h) => k a h
  | Abort s => Abort s
  | Undef u => Undef u
  | NoFuel => NoFuel
  end.

Section programs.
Context `{FFmpeg}.

(** A computation that does not touch the memory. *)
Definition lift {A} (m : outcome A) : Mem A := λ h,
  match m with
  | Ret a => Ret (a, h)
  | Abort s => Abort s
  | Undef u => Undef u
  | NoFuel => NoFuel
  end.

Definition load {A} (v : view A) (p : option address) : Mem A := λ h,
  match p with
  | None => Undef NullPointer
  | Some p =>
      match h !! p ≫= unwrap v with
      | Some a => Ret (a, h)
      | None => Undef DanglingPointer
      end
  end.

(** Changes the memory at an address that [load] has checked. *)
Definition change (p : option address) (o : option object) : Mem unit := λ h,
  Ret (tt, match p with
           | Some p => partial_alter (λ _, o) p h
           | None => h
           end).

Definition store {A} (v : view A) (p : option address) (a : A) : Mem unit :=
  _ ← load v p; change p (Some (wrap v a)).

Definition free_object {A} (v : view A) (p : option address) : Mem unit :=
  _ ← load v p; change p None.

(** A call of a function of FFmpeg on the object behind a pointer. *)
Definition call {A R} (v : view A) (p : option address) (f : A → R * A)
    : Mem R :=
  a ← load v p;
  _ ← store v p (f a).2;
  mret (f a).1.
End programs.

Section ffmpeg_calls.
Context `{Allocator}.

Definition alloc_object {A} (v : view A) (a : A) : Mem (option address) := λ h,
  Ret (Some (new_address h), <[new_address h := wrap v a]> h).

(** A constructor of FFmpeg: "NULL on failure". *)
Definition alloc_if {A} (v : view A) (a : option A) : Mem (option address) :=
  match a with Some a => alloc_object v a | None => mret None end.

(** "Unreference the buffer referenced by the packet and reset the remaining
    packet fields to their default values." *)
Definition unref (v : view (option (Z * address))) {B} (buffer : view B)
    (p : option address) : Mem unit :=
  contents ← load v p;
  match contents with
  | None => mret tt
  | Some (_, b) => _ ← free_object buffer (Some b); store v p None
  end.
Definition mem_av_packet_unref (p : option address) : Mem unit :=
  unref packet packet_buffer p.
Definition mem_av_frame_unref (p : option address) : Mem unit :=
  unref frame frame_buffer p.

(** "Free the packet, if the packet is reference counted, it will be
    unreferenced first." *)
Definition mem_av_packet_free (p : option address) : Mem unit :=
  _ ← mem_av_packet_unref p; free_object packet p.
Definition mem_av_frame_free (p : option address) : Mem unit :=
  _ ← mem_av_frame_unref p; free_object frame p.

(** [av_freep]: "Passing a pointer to a NULL pointer is safe and leads to no
    action." *)
Definition av_freep {A} (v : view A) (p : option address) : Mem unit :=
  match p with None => mret tt | Some _ => free_object v p end.

(** "Return the next frame of a stream": the packet takes a reference to a new
    buffer, whatever it referred to before. *)
Definition mem_av_read_frame (s pkt : option address) : Mem Z :=
  _ ← load packet pkt;
  '(r, p) ← call format_context s av_read_frame;
  if negb (r =? 0) then mret r else
  b ← alloc_object packet_buffer (pkt_payload p);
  _ ← store packet pkt ((λ b, (pkt_stream_index p, b)) <$> b);
  mret r.

(** "Ownership of the packet remains with the caller".  A blank packet would
    flush the decoder; it is not used here. *)
Definition mem_avcodec_send_packet (avctx avpkt : option address) : Mem Z :=
  contents ← load packet avpkt;
  match contents with
  | None => lift (Undef NullPointer)
  | Some (i, b) =>
      payload ← load packet_buffer (Some b);
      call codec_context avctx (λ c, avcodec_send_packet c (MkAVPacket i payload))
  end.

(** "Note that the function will always call av_frame_unref(frame) before
    doing anything else." *)
Definition mem_avcodec_receive_frame (avctx frm : option address) : Mem Z :=
  _ ← mem_av_frame_unref frm;
  '(r, f) ← call codec_context avctx avcodec_receive_frame;
  if negb (r =? 0) then mret r else
  b ← alloc_object frame_buffer (extended_data f);
  _ ← store frame frm ((λ b, (nb_samples f, b)) <$> b);
  mret r.

(** [av_audio_fifo_write(fifo, frame->extended_data, frame->nb_samples)] *)
Definition mem_av_audio_fifo_write (af frm : option address) : Mem Z :=
  contents ← load frame frm;
  match contents with
  | None => lift (Undef NullPointer)
  | Some (n, b) =>
      d ← load frame_buffer (Some b);
      call audio_fifo af (λ q, av_audio_fifo_write q d n)
  end.
End ffmpeg_calls.

(** ** The deleters (src/src/avx_helper.h) *)

Section deleters.
Context `{Allocator}.

Definition AVFormatContextDeleter (context : option address) : Mem unit :=
  match context with
  | Some _ => free_object format_context context
  | None => mret tt
  end.
Definition AVCodecContextDeleter (context : option address) : Mem unit :=
  match context with
  | Some _ => free_object codec_context context
  | None => mret tt
  end.
Definition AVFrameDeleter (frame : option address) : Mem unit :=
  match frame with Some _ => mem_av_frame_free frame | None => mret tt end.
Definition AVPacketDeleter (packet : option address) : Mem unit :=
  match packet with Some _ => mem_av_packet_free packet | None => mret tt end.
Definition SwrContextDeleter (swrContext : option address) : Mem unit :=
  match swrContext with
  | Some _ => free_object swr_context swrContext
  | None => mret tt
  end.
Definition AVAudioFifoDeleter (fifo : option address) : Mem unit :=
  match fifo with Some _ => free_object audio_fifo fifo | None => mret tt end.

(** [std::unique_ptr]: its destructor, and [reset], which stores the new
    pointer before it deletes the old object.  A pointer that owns nothing
    calls no deleter. *)
Definition unique_delete (deleter : option address → Mem unit)
    (p : option address) : Mem unit :=
  match p with Some _ => deleter p | None => mret tt end.
Definition unique_reset (deleter : option address → Mem unit)
    (old p : option address) : Mem (option address) :=
  _ ← unique_delete deleter old; mret p.
End deleters.

Lemma Mem_bind_at `{FFmpeg} {A B} (m : Mem A) (k : A → Mem B) h :
  (m ≫= k) h = '(a, h) ← m h; k a h.
Proof. unfold mbind, Mem_bind. by destruct (m h) as [[??]| | |]. Qed.

(** ** Owned objects *)

(** The memory is the objects [l], each at an address of its own, next to the
    objects [rest] of others. *)
Definition owns `{FFmpeg} (rest : Memory) (l : list (address * object))
    (h : Memory) : Prop :=
  NoDup l.*1 ∧ (∀ p, p ∈ l.*1 → rest !! p = None) ∧ h = list_to_map l ∪ rest.

Section owned.
Context `{FFmpeg}.
Implicit Types (l : list (address * object)) (h rest : Memory).

#[export] Instance owns_perm rest : Proper ((≡ₚ) ==> (=) ==> iff) (owns rest).
Proof.
  assert (∀ l l' h, l ≡ₚ l' → owns rest l h → owns rest l' h) as Himp.
  { intros l l' h Hp (Hnd & Hf & ->). split_and!.
    - by rewrite <- Hp.
    - intros p. rewrite <- Hp. apply Hf.
    - by rewrite (list_to_map_proper l l'). }
  intros l l' Hp h ? <-. split; [by apply Himp|by apply Himp; symmetry].
Qed.

Lemma owns_nil rest h : owns rest [] h ↔ h = rest.
Proof.
  unfold owns. cbn. rewrite (left_id_L ∅ (∪)). split; [by intros (_ & _ & ->)|].
  intros ->. split_and!; [constructor|by intros p ?%elem_of_nil|done].
Qed.

Lemma owns_lookup rest l h p o : owns rest l h → (p, o) ∈ l → h !! p = Some o.
Proof.
  intros (Hnd & _ & ->) Hin. apply lookup_union_Some_l.
  by apply elem_of_list_to_map_1.
Qed.

Lemma owns_cons rest l h p o :
  owns rest ((p, o) :: l) h ↔
  ∃ h', owns rest l h' ∧ h' !! p = None ∧ h = <[p := o]> h'.
Proof.
  unfold owns. cbn. rewrite list.NoDup_cons. split.
  - intros ((Hp & Hnd) & Hf & ->). exists (list_to_map l ∪ rest). split_and!.
    + done.
    + intros q Hq. apply Hf. by right.
    + done.
    + apply lookup_union_None. split; [by apply not_elem_of_list_to_map_1|].
      apply Hf. by left.
    + by rewrite insert_union_l.
  - intros (h' & (Hnd & Hf & ->) & [Hl Hr]%lookup_union_None & ->).
    split_and!; [by apply not_elem_of_list_to_map_2|done|..].
    + intros q [->|Hq]%elem_of_cons; [done|by apply Hf].
    + by rewrite insert_union_l.
Qed.

Lemma owns_store rest l h p o o' :
  owns rest ((p, o) :: l) h → owns rest ((p, o') :: l) (<[p := o']> h).
Proof.
  rewrite !owns_cons. intros (h' & Ho & Hn & ->). exists h'.
  by rewrite insert_insert_eq.
Qed.

Lemma owns_free rest l h p o :
  owns rest ((p, o) :: l) h → owns rest l (delete p h).
Proof.
  rewrite owns_cons. intros (h' & Ho & Hn & ->). by rewrite delete_insert_id.
Qed.
End owned.

(** ** Simulation of a program without memory *)

(** The two outcomes agree, and the results are related. *)
Definition sim {A B} (R : A → B → Prop) (m : outcome A) (n : outcome B)
    : Prop :=
  match m, n with
  | Ret a, Ret b => R a b
  | Abort s, Abort t => s = t
  | Undef _, Undef _ => True
  | NoFuel, NoFuel => True
  | _, _ => False
  end.

Lemma sim_wpa {A B} (R : A → B → Prop) m n P :
  sim R m n → wpa n P → wpa m (λ a, ∃ b, R a b ∧ P b).
Proof. destruct m, n; naive_solver. Qed.

Lemma sim_defined {A B} (R : A → B → Prop) m n :
  sim R m n → defined_behaviour n → defined_behaviour m.
Proof. by destruct m, n. Qed.

(** Started with the objects [l] of its own, the program [m] does what [n]
    does, and leaves the objects that [Q] tells. *)
Definition runs `{FFmpeg} (rest : Memory) (l : list (address * object)) {A B}
    (m : Mem A) (n : outcome B)
    (Q : A → B → list (address * object) → Prop) : Prop :=
  ∀ h, owns rest l h →
    sim (λ '(a, h) b, ∃ l, owns rest l h ∧ Q a b l) (m h) n.

Section rules.
Context `{Allocator}.
Context {A B : Type} (rest : Memory).
Implicit Types (l : list (address * object)).
Implicit Types (Q : A → B → list (address * object) → Prop).

Lemma runs_perm l l' m n Q :
  l ≡ₚ l' → runs rest l' m n Q → runs rest l m n Q.
Proof. intros Hp Hr h Ho. apply Hr. by rewrite <- Hp. Qed.

Lemma runs_mono l (m : Mem A) (n : outcome B) Q Q' :
  (∀ a b l, Q a b l → Q' a b l) → runs rest l m n Q → runs rest l m n Q'.
Proof.
  intros HQ Hr h Ho. specialize (Hr h Ho). unfold sim in *.
  destruct (m h) as [[a h']| | |], n; naive_solver.
Qed.

Lemma runs_ret l a b Q : Q a b l → runs rest l (mret a) (Ret b) Q.
Proof. intros HQ h Ho. cbn. eauto. Qed.

Lemma runs_undef l u v Q : runs rest l (lift (Undef u)) (Undef v) Q.
Proof. done. Qed.

Lemma runs_bind {A' B'} l (m : Mem A') (n : outcome B')
    (k : A' → Mem A) (k' : B' → outcome B) P Q :
  runs rest l m n P →
  (∀ a b l', P a b l' → runs rest l' (k a) (k' b) Q) →
  runs rest l (m ≫= k) (n ≫= k') Q.
Proof.
  intros Hr Hk h Ho. specialize (Hr h Ho). unfold sim in Hr |- *.
  rewrite Mem_bind_at.
  destruct (m h) as [[a h']| | |], n; cbn in *; try done.
  destruct Hr as (l' & Ho' & HP). by apply (Hk _ _ _ HP).
Qed.

Lemma runs_lift {C} l (x : outcome C) (k : C → Mem A) (k' : C → outcome B) Q :
  (∀ c, runs rest l (k c) (k' c) Q) → runs rest l (lift x ≫= k) (x ≫= k') Q.
Proof.
  intros Hk h Ho. rewrite Mem_bind_at. unfold lift.
  destruct x as [c| | |]; cbn; try done. by apply Hk.
Qed.

Lemma runs_load {C} (v : view C) l p a (k : C → Mem A) n Q :
  (p, wrap v a) ∈ l → runs rest l (k a) n Q →
  runs rest l (load v (Some p) ≫= k) n Q.
Proof.
  intros Hin Hk h Ho. rewrite Mem_bind_at. unfold load.
  rewrite (owns_lookup _ _ _ _ _ Ho Hin). cbn. rewrite unwrap_wrap.
  by apply Hk.
Qed.

Lemma runs_store {C} (v : view C) l l' p a a' (k : unit → Mem A) n Q :
  l ≡ₚ (p, wrap v a) :: l' →
  runs rest ((p, wrap v a') :: l') (k tt) n Q →
  runs rest l (store v (Some p) a' ≫= k) n Q.
Proof.
  intros Hp Hk h Ho. rewrite Hp in Ho. rewrite Mem_bind_at. unfold store.
  rewrite Mem_bind_at. unfold load.
  rewrite (owns_lookup _ _ _ _ _ Ho) by by left. cbn. rewrite unwrap_wrap.
  apply Hk. by apply (owns_store _ _ _ _ (wrap v a)).
Qed.

Lemma runs_free {C} (v : view C) l l' p a (k : unit → Mem A) n Q :
  l ≡ₚ (p, wrap v a) :: l' → runs rest l' (k tt) n Q →
  runs rest l (free_object v (Some p) ≫= k) n Q.
Proof.
  intros Hp Hk h Ho. rewrite Hp in Ho. rewrite Mem_bind_at. unfold free_object.
  rewrite Mem_bind_at. unfold load.
  rewrite (owns_lookup _ _ _ _ _ Ho) by by left. cbn. rewrite unwrap_wrap.
  apply Hk. by apply (owns_free _ _ _ _ (wrap v a)).
Qed.

Lemma runs_alloc {C} (v : view C) l a (k : option address → Mem A) n Q :
  (∀ p, runs rest ((p, wrap v a) :: l) (k (Some p)) n Q) →
  runs rest l (alloc_object v a ≫= k) n Q.
Proof.
  intros Hk h Ho. rewrite Mem_bind_at. unfold alloc_object. apply Hk.
  apply owns_cons. exists h. eauto using new_address_unused.
Qed.

Lemma runs_assoc {C C'} l (m : Mem C) (k : C → Mem C') (k' : C' → Mem A) n Q :
  runs rest l (m ≫= λ c, k c ≫= k') n Q → runs rest l ((m ≫= k) ≫= k') n Q.
Proof.
  intros Hr h Ho. specialize (Hr h Ho).
  rewrite !Mem_bind_at in *. by destruct (m h) as [[??]| | |].
Qed.

Lemma runs_skip {C} l (c : C) (k : C → Mem A) n Q :
  runs rest l (k c) n Q → runs rest l (mret c ≫= k) n Q.
Proof. done. Qed.

Lemma runs_call {C R} (v : view C) l l' p a (f : C → R * C)
    (k : R → Mem A) n Q :
  l ≡ₚ (p, wrap v a) :: l' →
  runs rest ((p, wrap v (f a).2) :: l') (k (f a).1) n Q →
  runs rest l (call v (Some p) f ≫= k) n Q.
Proof.
  intros Hp Hk. unfold call.
  apply runs_assoc, (runs_load v _ _ a); [rewrite Hp; by left|].
  apply runs_assoc, (runs_store v _ l' _ a _ _ _ _ Hp). by apply runs_skip.
Qed.
End rules.
