(* ===== verification/FileLifetime.v ===== *)
(** The life of a file source in memory: the constructors, methods and
    destructors of [AudioFileDecoder], [AudioResampler] and [AudioFileSource]
    (src/src/audio_file_decoder.cpp, audio_resampler.cpp,
    audio_file_source.cpp and their headers) with the pointers they keep.

    The definitions of FileDecoder, Resampler and FileSource say what these
    functions compute; the ones here also say which FFmpeg objects they
    create, use and free, as programs on the memory of FfmpegHeap. *)

From Stdlib Require Import SpecFloat.
From stdpp Require Import gmap strings.
From S2P Require Import Prelude.
From S2P Require Import AudioFrame.
From S2P Require Import Api.
From S2P Require Import AudioSource.
From S2P Require Import Ffmpeg.
From S2P Require Import FfmpegReference.
From S2P Require Import FileDecoder.
From S2P Require Import Resampler.
From S2P Require Import FileSource.
From S2P Require Import FfmpegHeap.

(** ** The objects *)

(** A member of type [std::unique_ptr] is the address it owns, if any.  The
    members [decoder_] and [resampler_] of a source, which nothing else points
    to, are the objects themselves. *)
Record decoder_object : Type := MkDecoderObject {
  do_fifo_capacity : Z;
  do_stream_no : Z;
  do_format_context : option address;
  do_codec_context : option address;
  do_packet : option address;
  do_packet_consumed : bool;
  do_frame : option address;
  do_fifo : option address
}.
Definition do_set_consumed (o : decoder_object) (b : bool) : decoder_object :=
  MkDecoderObject (do_fifo_capacity o) (do_stream_no o) (do_format_context o)
    (do_codec_context o) (do_packet o) b (do_frame o) (do_fifo o).

Record resampler_object : Type := MkResamplerObject {
  ro_context : option address;
  ro_input_format : AVSampleFormat;
  ro_input_sample_rate : Z;
  ro_input_channel_num : Z;
  ro_output_format : AVSampleFormat;
  ro_output_sample_rate : Z;
  ro_output_channel_num : Z
}.

Record source_object : Type := MkSourceObject {
  so_base : AudioSource;
  so_ssrc : Z;
  so_input_sample_rate : Z;
  so_input_channel_num : Z;
  so_input_format : AVSampleFormat;
  so_input_samples : Z;
  so_output_sample_rate : Z;
  so_output_channel_num : Z;
  so_frame_duration_ms : Z;
  so_report_output_samples : Z;
  so_real_output_samples : Z;
  so_input_buffer : option address;
  so_decoder : decoder_object;
  so_resampler : resampler_object
}.

(** ** The decoder *)

Section decoder_in_memory.
Context `{Allocator}.
Implicit Types (o : decoder_object).

(** Sending the held packet: the second half of the loop body. *)
Definition mem_send_held o (continue : decoder_object → Mem decoder_object)
    : Mem decoder_object :=
  error ← mem_avcodec_send_packet (do_codec_context o) (do_packet o);
  if error =? 0 then
    _ ← mem_av_packet_unref (do_packet o);
    continue (do_set_consumed o true)
  else if (error =? AVERROR EAGAIN) || (error =? AVERROR_EOF) then mret o
  else lift (Abort (av_err2str error)).

Fixpoint mem_FillDecoder (fuel : nat) o : Mem decoder_object :=
  match fuel with
  | O => lift NoFuel
  | S fuel =>
      if do_packet_consumed o then
        r ← mem_av_read_frame (do_format_context o) (do_packet o);
        if negb (r =? 0) then mret o else
        contents ← load packet (do_packet o);
        if negb (from_option fst 0 contents =? do_stream_no o) then
          _ ← mem_av_packet_unref (do_packet o);
          mem_FillDecoder fuel o
        else mem_send_held (do_set_consumed o false) (mem_FillDecoder fuel)
      else mem_send_held o (mem_FillDecoder fuel)
  end.

Fixpoint mem_FillFifo (fuel : nat) o : Mem unit :=
  match fuel with
  | O => lift NoFuel
  | S fuel =>
      q ← load audio_fifo (do_fifo o);
      if av_audio_fifo_size q <? do_fifo_capacity o then
        r ← mem_avcodec_receive_frame (do_codec_context o) (do_frame o);
        if r =? 0 then
          _ ← mem_av_audio_fifo_write (do_fifo o) (do_frame o);
          _ ← mem_av_frame_unref (do_frame o);
          mem_FillFifo fuel o
        else mret tt
      else mret tt
  end.

(** [av_audio_fifo_read(fifo, buffer, n)]: the samples go to the block whose
    address is the first element of the array [buffer]. *)
Definition mem_av_audio_fifo_read (af buffer : option address) (n : Z)
    : Mem Z :=
  first ← load planes buffer;
  dst ← load samples first;
  '(r, d) ← call audio_fifo af
    (λ q, let '(r, d, q) := av_audio_fifo_read q n in ((r, d), q));
  dst ← lift (overwrite dst d);
  _ ← store samples first dst;
  mret r.

Definition mem_Consume (fuel : nat) o (buffer : option address)
    (n : Z) : Mem (Z * decoder_object) :=
  o ← mem_FillDecoder fuel o;
  _ ← mem_FillFifo fuel o;
  q ← load audio_fifo (do_fifo o);
  let target_samples := Z.min (av_audio_fifo_size q) n in
  actual_samples ← mem_av_audio_fifo_read (do_fifo o) buffer target_samples;
  c ← load codec_context (do_codec_context o);
  bytes ← lift (twice ← i32_mul actual_samples 2;
                i32_mul twice (ctx_channels c));
  mret (bytes, o).

(** [RTC_CHECK(p.get()) << msg] *)
Definition check_address (p : option address) (msg : string) : Mem unit :=
  lift (RTC_CHECK (bool_decide (is_Some p)) msg).

(** The constructor; the members that are not set yet are null pointers. *)
Definition mem_AudioFileDecoder_new (fuel : nat) (filepath : string)
    : Mem decoder_object :=
  p ← alloc_if frame ((λ _, None) <$> av_frame_alloc);
  frame_ ← unique_reset AVFrameDeleter None p;
  _ ← check_address frame_ "av_frame_alloc fail";
  p ← alloc_if packet ((λ _, None) <$> av_packet_alloc);
  packet_ ← unique_reset AVPacketDeleter None p;
  _ ← check_address packet_ "av_packet_alloc fail";
  _ ← load packet packet_;
  p ← alloc_if format_context (avformat_open_input filepath).2;
  let error := (avformat_open_input filepath).1 in
  _ ← lift (RTC_CHECK (0 <=? error) (av_err2str error));
  format_context_ ← unique_reset AVFormatContextDeleter None p;
  error ← call format_context format_context_ avformat_find_stream_info;
  _ ← lift (RTC_CHECK (0 <=? error) (av_err2str error));
  c ← load format_context format_context_;
  let stream_no := av_find_best_stream c in
  _ ← lift (RTC_CHECK (0 <=? stream_no) (av_err2str stream_no));
  codec ← lift (check_ptr (avcodec_find_decoder c stream_no)
                  "avcodec_find_decoder fail");
  p ← alloc_if codec_context (avcodec_alloc_context3 codec);
  codec_context_ ← unique_reset AVCodecContextDeleter None p;
  _ ← check_address codec_context_ "avcodec_alloc_context3 fail";
  error ← call codec_context codec_context_
            (λ k, avcodec_parameters_to_context k c stream_no);
  _ ← lift (RTC_CHECK (0 <=? error) (av_err2str error));
  error ← call codec_context codec_context_ (λ k, avcodec_open2 k codec);
  _ ← lift (RTC_CHECK (0 <=? error) (av_err2str error));
  k ← load codec_context codec_context_;
  fifo_capacity ← lift (ten ← i32_mul 10 (ctx_sample_rate k);
                        per_frame ten kFrameDurationInMs);
  p ← alloc_if audio_fifo
        (av_audio_fifo_alloc (ctx_sample_fmt k) (ctx_channels k) fifo_capacity);
  fifo_ ← unique_reset AVAudioFifoDeleter None p;
  _ ← check_address fifo_ "av_audio_fifo_alloc fail";
  mem_FillDecoder fuel
    (MkDecoderObject fifo_capacity stream_no format_context_ codec_context_
       packet_ true frame_ fifo_).

(** The destructor: the members, the last one declared first. *)
Definition mem_AudioFileDecoder_delete o : Mem unit :=
  _ ← unique_delete AVAudioFifoDeleter (do_fifo o);
  _ ← unique_delete AVFrameDeleter (do_frame o);
  _ ← unique_delete AVPacketDeleter (do_packet o);
  _ ← unique_delete AVCodecContextDeleter (do_codec_context o);
  unique_delete AVFormatContextDeleter (do_format_context o).
End decoder_in_memory.

(** ** The resampler *)

Section resampler_in_memory.
Context `{Allocator}.

(** A call that only changes the object. *)
Definition update {A} (v : view A) (p : option address) (f : A → A) : Mem unit :=
  call v p (λ a, (tt, f a)).

Definition mem_AudioResampler_new
    (input_format : AVSampleFormat) (input_sample_rate input_channel_num : Z)
    (output_format : AVSampleFormat)
    (output_sample_rate output_channel_num : Z) : Mem resampler_object :=
  context ← alloc_if swr_context swr_alloc;
  _ ← check_address context "context_.get()";
  _ ← update swr_context context (λ c,
        av_opt_set_int c "in_channel_layout" (channel_layout input_channel_num));
  _ ← update swr_context context (λ c,
        av_opt_set_int c "in_sample_rate" input_sample_rate);
  _ ← update swr_context context (λ c,
        av_opt_set_sample_fmt c "in_sample_fmt" input_format);
  _ ← update swr_context context (λ c,
        av_opt_set_int c "out_channel_layout"
          (channel_layout output_channel_num));
  _ ← update swr_context context (λ c,
        av_opt_set_int c "out_sample_rate" output_sample_rate);
  _ ← update swr_context context (λ c,
        av_opt_set_sample_fmt c "out_sample_fmt" output_format);
  error ← call swr_context context swr_init;
  _ ← lift (RTC_CHECK (0 <=? error) (av_err2str error));
  mret (MkResamplerObject context input_format input_sample_rate
          input_channel_num output_format output_sample_rate
          output_channel_num).

Definition mem_Resample (o : resampler_object) (input_buffer : option address)
    (input_size : Z) : Mem (Z * list Z) :=
  input_samples ← lift (
    per_channel ← i32_div input_size (ro_input_channel_num o);
    i32_div per_channel (av_get_bytes_per_sample (ro_input_format o)));
  let output_samples :=
    as_i32 (av_rescale_rnd input_samples (ro_output_sample_rate o)
              (ro_input_sample_rate o) AV_ROUND_UP) in
  first ← load planes input_buffer;
  input ← load samples first;
  _ ← lift (require (input_samples <=? lenZ input) OutOfBounds);
  '(real_output_samples, out) ← call swr_context (ro_context o) (λ c,
     let '(r, out, c) := swr_convert c output_samples
                           (takeZ input_samples input) input_samples in
     ((r, out), c));
  if real_output_samples <? 0 then mret (real_output_samples, out)
  else mret (av_samples_get_buffer_size (ro_output_channel_num o)
               real_output_samples (ro_output_format o) 0, out).

Definition mem_AudioResampler_delete (o : resampler_object) : Mem unit :=
  unique_delete SwrContextDeleter (ro_context o).
End resampler_in_memory.

(** ** The source *)

Section source_in_memory.
Context `{Allocator, AudioFrameApi}.
Implicit Types (o : source_object).

(** [av_samples_alloc_array_and_samples(&input_buffer_, ..)]: the array, whose
    first element points to the block of samples, or nothing on failure. *)
Definition mem_av_samples_alloc_array_and_samples
    (nb_channels nb_samples : Z) (sample_fmt : AVSampleFormat) (align : Z)
    : Mem (Z * option address) :=
  let error := av_samples_alloc_array_and_samples nb_channels nb_samples
                 sample_fmt align in
  if error <? 0 then mret (error, None) else
  first ← alloc_object samples
            (replicate (Z.to_nat nb_samples) (silence sample_fmt));
  p ← alloc_object planes first;
  mret (error, p).

Definition mem_AudioFileSource_new (fuel : nat) (ssrc : Z) (filepath : string)
    (output_sample_rate output_channel_num frame_duration_ms : Z)
    (volume : f32) : Mem source_object :=
  report ← lift (per_frame output_sample_rate kFrameDurationInMs);
  real ← lift (per_frame output_sample_rate frame_duration_ms);
  decoder ← mem_AudioFileDecoder_new fuel filepath;
  k ← load codec_context (do_codec_context decoder);
  let input_sample_rate := ctx_sample_rate k in
  let input_channel_num := ctx_channels k in
  let input_format := ctx_sample_fmt k in
  input_samples ← lift (per_frame input_sample_rate frame_duration_ms);
  '(error, input_buffer) ← mem_av_samples_alloc_array_and_samples
      input_channel_num input_samples input_format 0;
  _ ← lift (RTC_CHECK (0 <=? error) (av_err2str error));
  resampler ← mem_AudioResampler_new input_format input_sample_rate
                input_channel_num kOutputSampleFormat output_sample_rate
                output_channel_num;
  mret (MkSourceObject (MkAudioSource volume) ssrc input_sample_rate
          input_channel_num input_format input_samples output_sample_rate
          output_channel_num frame_duration_ms report real input_buffer
          decoder resampler).

Definition so_set_decoder o (d : decoder_object) : source_object :=
  MkSourceObject (so_base o) (so_ssrc o) (so_input_sample_rate o)
    (so_input_channel_num o) (so_input_format o) (so_input_samples o)
    (so_output_sample_rate o) (so_output_channel_num o)
    (so_frame_duration_ms o) (so_report_output_samples o)
    (so_real_output_samples o) (so_input_buffer o) d (so_resampler o).

Definition mem_Read (fuel : nat) o : Mem (Z * list Z * source_object) :=
  '(consumed, decoder) ← mem_Consume fuel (so_decoder o) (so_input_buffer o)
                           (so_input_samples o);
  let o := so_set_decoder o decoder in
  if negb (consumed =? av_samples_get_buffer_size (so_input_channel_num o)
                         (so_input_samples o) (so_input_format o) 1)
  then mret (AVERROR_EOF, [], o) else
  '(r, out) ← mem_Resample (so_resampler o) (so_input_buffer o) consumed;
  mret (r, out, o).

(** The frame is not an FFmpeg object; it is passed as a value. *)
Definition mem_GetAudioFrameWithInfo (fuel : nat) o (sample_rate_hz : Z)
    (audio_frame : AudioFrame)
    : Mem (AudioFrameInfo * AudioFrame * source_object) :=
  if negb (sample_rate_hz =? so_output_sample_rate o)
  then mret (kError, audio_frame, o) else
  audio_frame ← lift (UpdateFrame None
    (MkFrameFormat 0 (to_size_t (so_report_output_samples o))
       (so_output_sample_rate o) kNormalSpeech kVadActive
       (to_size_t (so_output_channel_num o))) audio_frame);
  let audio_frame := mutable_data audio_frame in
  '(read, out, o) ← mem_Read fuel o;
  output ← lift (overwrite (frame_data_ audio_frame) out);
  let audio_frame := set_frame_data audio_frame output in
  if read <? 0 then mret (kError, audio_frame, o) else
  mret (kNormal, ApplyVolume (so_base o) audio_frame, o).

(** The destructor: its body, then [resampler_] and [decoder_]. *)
Definition mem_AudioFileSource_delete o : Mem unit :=
  _ ← match so_input_buffer o with
      | Some _ =>
          first ← load planes (so_input_buffer o);
          _ ← av_freep samples first;
          store planes (so_input_buffer o) None
      | None => mret tt
      end;
  _ ← av_freep planes (so_input_buffer o);
  _ ← mem_AudioResampler_delete (so_resampler o);
  mem_AudioFileDecoder_delete (so_decoder o).

(** A life: construction, any number of frames, destruction. *)
Fixpoint mem_frames (fuel : nat) (requests : list (Z * AudioFrame)) o
    : Mem (list (AudioFrameInfo * AudioFrame) * source_object) :=
  match requests with
  | [] => mret ([], o)
  | (rate, f) :: requests =>
      '(i, f, o) ← mem_GetAudioFrameWithInfo fuel o rate f;
      '(l, o) ← mem_frames fuel requests o;
      mret ((i, f) :: l, o)
  end.

Definition mem_lifetime (fuel : nat) (ssrc : Z) (filepath : string)
    (output_sample_rate output_channel_num frame_duration_ms : Z)
    (volume : f32) (requests : list (Z * AudioFrame))
    : Mem (list (AudioFrameInfo * AudioFrame)) :=
  o ← mem_AudioFileSource_new fuel ssrc filepath output_sample_rate
        output_channel_num frame_duration_ms volume;
  '(l, o) ← mem_frames fuel requests o;
  _ ← mem_AudioFileSource_delete o;
  mret l.
End source_in_memory.

(** The same life without memory. *)
Section life.
Context `{FFmpeg, AudioFrameApi}.

Fixpoint source_frames (fuel : nat) (requests : list (Z * AudioFrame))
    (s : AudioFileSource)
    : outcome (list (AudioFrameInfo * AudioFrame) * AudioFileSource) :=
  match requests with
  | [] => Ret ([], s)
  | (rate, f) :: requests =>
      '(i, f, s) ← fs_GetAudioFrameWithInfo fuel s rate f;
      '(l, s) ← source_frames fuel requests s;
      Ret ((i, f) :: l, s)
  end.

Definition lifetime (fuel : nat) (ssrc : Z) (filepath : string)
    (output_sample_rate output_channel_num frame_duration_ms : Z)
    (volume : f32) (requests : list (Z * AudioFrame))
    : outcome (list (AudioFrameInfo * AudioFrame)) :=
  s ← AudioFileSource_new fuel ssrc filepath output_sample_rate
        output_channel_num frame_duration_ms volume;
  '(l, s) ← source_frames fuel requests s;
  Ret l.
End life.

(** ** The simulation *)

(** The cells behind the pointers of a decoder. *)
Record decoder_addresses : Type := MkDecoderAddresses {
  at_format_context : address;
  at_codec_context : address;
  at_packet : address;
  at_frame : address;
  at_fifo : address
}.

(** Rules for the constructs of this file. *)
Section more_rules.
Context `{Allocator}.
Context (rest : Memory).
Implicit Types (l : list (address * object)).

Lemma overwrite_cases {A} (dst src : list A) :
  (∃ r, overwrite dst src = Ret r) ∨ overwrite dst src = Undef OutOfBounds.
Proof. unfold overwrite. case_match; eauto. Qed.

Lemma i32_mul_cases x y :
  (∃ z, i32_mul x y = Ret z) ∨ i32_mul x y = Undef SignedOverflow.
Proof. unfold i32_mul, i32_ret. case_match; eauto. Qed.

Lemma runs_pure_assoc {A B B' C} l (m : Mem A) (n : outcome B)
    (k : B → outcome B') (k' : B' → outcome C) Q :
  runs rest l m (n ≫= λ b, k b ≫= k') Q → runs rest l m ((n ≫= k) ≫= k') Q.
Proof. by destruct n. Qed.

Lemma runs_lift_bind {A B X Y} l (x : outcome X) (f : X → outcome Y)
    (k : Y → Mem A) (k' : Y → outcome B) Q :
  (∀ c, runs rest l (k c) (k' c) Q) →
  runs rest l (lift (x ≫= f) ≫= k) (x ≫= λ x, f x ≫= k') Q.
Proof. intros Hk. destruct x; try done. by apply (runs_lift rest l (f a)). Qed.

Lemma runs_check_address {A B} l p msg (k : unit → Mem A) (n : outcome B) Q :
  runs rest l (k tt) n Q →
  runs rest l (check_address (Some p) msg ≫= k) n Q.
Proof. done. Qed.

Lemma runs_reset_null {A B} l deleter p (k : option address → Mem A)
    (n : outcome B) Q :
  runs rest l (k p) n Q → runs rest l (unique_reset deleter None p ≫= k) n Q.
Proof. done. Qed.

Lemma runs_pure_eq {A B} l (m : Mem A) (n n' : outcome B) Q :
  n = n' → runs rest l m n' Q → runs rest l m n Q.
Proof. by intros ->. Qed.

Lemma runs_tail {A B} l (m : Mem A) (n : outcome B) Q :
  runs rest l (m ≫= mret) n Q → runs rest l m n Q.
Proof.
  intros Hr h Ho. specialize (Hr h Ho).
  rewrite Mem_bind_at in Hr. by destruct (m h) as [[??]| | |].
Qed.
End more_rules.

(** Finding a cell of an owned list. *)
Ltac find_cell :=
  first [apply list_elem_of_here | apply list_elem_of_further; find_cell].
Ltac pick_cell :=
  first [apply Permutation_refl | etrans; [|apply perm_swap]; apply perm_skip; pick_cell].

(** One call of the program on the left. *)
Ltac mem_step :=
  lazymatch goal with
  | |- runs _ _ (mbind _ (mbind _ _)) _ _ => apply runs_assoc
  | |- runs _ _ (mbind _ (mret _)) _ _ => apply runs_skip
  | |- runs _ _ (mbind _ (load _ _)) _ _ => eapply runs_load; [find_cell|]
  | |- runs _ _ (mbind _ (store _ _ _)) _ _ => eapply runs_store; [pick_cell|]
  | |- runs _ _ (mbind _ (free_object _ _)) _ _ => eapply runs_free; [pick_cell|]
  | |- runs _ _ (mbind _ (call _ _ _)) _ _ => eapply runs_call; [pick_cell|]
  | |- runs _ _ (mbind _ (alloc_object _ _)) _ _ => eapply runs_alloc; intros ?
  | |- runs _ _ (mbind _ (unique_reset _ None _)) _ _ => eapply runs_reset_null
  | |- runs _ _ (mbind _ (check_address (Some _) _)) _ _ =>
      eapply runs_check_address
  | |- runs _ _ (mbind _ (lift (RTC_CHECK ?b _))) (mbind _ (RTC_CHECK ?b _)) _ =>
      apply runs_lift; intros _
  end; cbn.

Section simulation.
Context `{Allocator, AudioFrameApi}.
Context (rest : Memory).
Implicit Types (D : AudioFileDecoder) (l R : list (address * object)).

Definition object_of (a : decoder_addresses) D : decoder_object :=
  MkDecoderObject (fd_fifo_capacity D) (fd_stream_no D)
    (Some (at_format_context a)) (Some (at_codec_context a))
    (Some (at_packet a)) (fd_packet_consumed D) (Some (at_frame a))
    (Some (at_fifo a)).

Definition packet_cells (p b : address) (k : option (AVPacket Payload))
    : list (address * object) :=
  match k with
  | None => [(p, OPacket None)]
  | Some k => [(p, OPacket (Some (pkt_stream_index k, b)));
               (b, OPacketBuffer (pkt_payload k))]
  end.
Definition context_cells (a : decoder_addresses) D : list (address * object) :=
  [(at_format_context a, OFormatContext (fd_format_context D));
   (at_codec_context a, OCodecContext (fd_codec_context D));
   (at_frame a, OFrame None);
   (at_fifo a, OAudioFifo (fd_fifo D))].

(** The cells of a decoder, next to the cells [R].  The packet refers to a
    buffer if and only if it has not been consumed. *)
Definition decoder_cells (a : decoder_addresses) D R l : Prop :=
  fd_packet_consumed D = bool_decide (fd_packet D = None)
  ∧ ∃ b, l ≡ₚ context_cells a D ++ packet_cells (at_packet a) b (fd_packet D)
              ++ R.

Definition same_decoder (a : decoder_addresses) R (o : decoder_object) D l
    : Prop :=
  o = object_of a D ∧ decoder_cells a D R l.

Lemma sim_send_held a D R l k k' b p :
  fd_packet D = Some p → fd_packet_consumed D = false →
  l ≡ₚ context_cells a D ++ packet_cells (at_packet a) b (Some p) ++ R →
  (∀ D l, decoder_cells a D R l →
     runs rest l (k (object_of a D)) (k' D) (same_decoder a R)) →
  runs rest l (mem_send_held (object_of a D) k) (send_held D k')
    (same_decoder a R).
Proof.
  intros Hp Hc Hl Hk. apply (runs_perm _ _ _ _ _ _ Hl).
  unfold mem_send_held, send_held, mem_avcodec_send_packet. rewrite Hp. cbn.
  repeat mem_step. destruct p as [i d]. cbn.
  destruct (avcodec_send_packet _ _) as [e c]. cbn. destruct (e =? 0).
  - unfold mem_av_packet_unref, unref. cbn. repeat mem_step.
    apply (Hk (fd_set_packet (fd_set_codec D c) None true)).
    split; [done|]. exists b. cbn. solve_Permutation.
  - destruct (_ || _); [|done]. apply runs_ret. unfold same_decoder.
    split; [done|]. split; cbn; rewrite ?Hp; [done|].
    exists b. cbn. solve_Permutation.
Qed.

#[local] Arguments send_held : simpl never.
#[local] Arguments mem_send_held : simpl never.
#[local] Arguments mem_AudioFileDecoder_delete : simpl never.

Lemma sim_FillDecoder fuel a D R l :
  decoder_cells a D R l →
  runs rest l (mem_FillDecoder fuel (object_of a D)) (FillDecoder fuel D)
    (same_decoder a R).
Proof.
  revert D l. induction fuel as [|fuel IH]; intros D l [Hc [b Hl]]; [done|].
  cbn. destruct (fd_packet_consumed D) eqn:Hcd.
  - destruct (fd_packet D) as [p|] eqn:Hp; [done|].
    apply (runs_perm _ _ _ _ _ _ Hl). unfold mem_av_read_frame. cbn.
    repeat mem_step. destruct (av_read_frame _) as [[r p] c]. cbn.
    destruct (r =? 0) eqn:Hr; cbn.
    + repeat mem_step. rewrite Hr. cbn. repeat mem_step. destruct (pkt_stream_index p =? fd_stream_no D); cbn.
      * apply (sim_send_held a (fd_set_packet (fd_set_format D c) (Some p) false)
                 _ _ _ _ p0 p); cbn; [done|done|solve_Permutation|].
        intros D' l'. apply IH.
      * unfold mem_av_packet_unref, unref. repeat mem_step.
        assert (object_of a D =
                object_of a (fd_set_packet (fd_set_format D c) None true)) as ->
          by (unfold object_of; cbn; by rewrite Hcd).
        apply IH.
        split; [done|]. exists b. cbn. solve_Permutation.
    + mem_step. rewrite Hr. apply runs_ret. split; [|split]; cbn; rewrite ?Hcd, ?Hp; [done|done|].
      exists b. cbn. solve_Permutation.
  - destruct (fd_packet D) as [p|] eqn:Hp; [|done].
    by apply (sim_send_held _ _ _ _ _ _ b p).
Qed.

(** A FIFO and a frame do not change what the decoder object says. *)
Lemma sim_FillFifo fuel a D R l :
  decoder_cells a D R l →
  runs rest l (mem_FillFifo fuel (object_of a D)) (FillFifo fuel D)
    (λ _ D' l', object_of a D' = object_of a D ∧ decoder_cells a D' R l').
Proof.
  revert D l. induction fuel as [|fuel IH]; intros D l [Hc [b Hl]]; [done|].
  apply (runs_perm _ _ _ _ _ _ Hl). cbn. repeat mem_step.
  destruct (_ <? _); cbn.
  - unfold mem_avcodec_receive_frame, mem_av_frame_unref, unref.
    repeat mem_step. destruct (avcodec_receive_frame _) as [[r f] c]. cbn.
    destruct (r =? 0) eqn:Hr; cbn.
    + repeat mem_step. rewrite Hr. unfold mem_av_audio_fifo_write.
      repeat mem_step. destruct (av_audio_fifo_write _ _ _) as [w q]. cbn.
      apply (IH (fd_set_fifo (fd_set_codec D c) q)).
      split; [done|]. exists b. cbn. solve_Permutation.
    + mem_step. rewrite Hr. apply runs_ret. split; [done|]. split; [done|].
      exists b. cbn. solve_Permutation.
  - apply runs_ret. split; [done|]. split; [done|]. by exists b.
Qed.

(** The planes of [input_buffer_]. *)
Definition buffer_cells (pa sa : address) (buf : list Sample)
    : list (address * object) :=
  [(pa, OPlanes (Some sa)); (sa, OSamples buf)].

Lemma sim_Consume fuel a D pa sa buf R l n :
  decoder_cells a D (buffer_cells pa sa buf ++ R) l →
  runs rest l (mem_Consume fuel (object_of a D) (Some pa) n)
    ('(bytes, got, d) ← Consume fuel D n;
     buf ← overwrite buf got; Ret (bytes, buf, d))
    (λ '(z, o) '(z', buf', D') l',
       z = z' ∧ o = object_of a D'
       ∧ decoder_cells a D' (buffer_cells pa sa buf' ++ R) l').
Proof.
  intros Hl. unfold mem_Consume, Consume. apply runs_pure_assoc.
  eapply runs_bind; [by apply sim_FillDecoder|]. intros ? D1 l1 [-> Hl1].
  apply runs_pure_assoc. eapply runs_bind; [by apply sim_FillFifo|].
  intros _ D2 l2 [<- [Hc2 [b Hl2]]].
  apply (runs_perm _ _ (context_cells a D2 ++ buffer_cells pa sa buf
           ++ packet_cells (at_packet a) b (fd_packet D2) ++ R)).
  { rewrite Hl2. solve_Permutation. }
  cbn. unfold mem_av_audio_fifo_read. repeat mem_step.
  destruct (av_audio_fifo_read _ _) as [[r d] q]. cbn.
  destruct (overwrite_cases buf d) as [[buf' Hb]|Hb]; rewrite Hb; cbn.
  2: { destruct (i32_mul_cases r 2) as [[z ->]| ->]; [cbn|done].
       destruct (i32_mul_cases z (channel_num (fd_set_fifo D2 q)))
         as [[z' ->]| ->]; cbn; by rewrite ?Hb. }
  apply runs_assoc, runs_skip. repeat mem_step.
  destruct (i32_mul r 2) as [twice| | |]; cbn; [|done..].
  destruct (i32_mul twice _) as [bytes| | |]; cbn; [|done..].
  rewrite Hb. apply runs_skip, runs_ret.
  split; [done|]. split; [done|]. split; [done|].
  exists b. cbn. solve_Permutation.
Qed.

Lemma sim_AudioFileDecoder_new fuel path R :
  runs rest R (mem_AudioFileDecoder_new fuel path) (AudioFileDecoder_new fuel path)
    (λ o D l, ∃ a, same_decoder a R o D l).
Proof.
  unfold mem_AudioFileDecoder_new, AudioFileDecoder_new.
  destruct av_frame_alloc as [[]|]; [|done]. cbn.
  repeat mem_step.
  destruct av_packet_alloc as [[]|]; [|done]. cbn.
  repeat mem_step.
  destruct (avformat_open_input path) as [e0 [c0|]]; cbn.
  2: by repeat mem_step.
  repeat mem_step.
  destruct (avformat_find_stream_info c0) as [e c]. cbn.
  repeat mem_step. apply runs_lift; intros codec.
  destruct (avcodec_alloc_context3 codec) as [k0|]; [|done]. cbn.
  repeat mem_step.
  destruct (avcodec_parameters_to_context k0 c _) as [e1 k1]. cbn.
  repeat mem_step. destruct (avcodec_open2 k1 codec) as [e2 k2]. cbn.
  repeat mem_step. apply runs_lift_bind; intros cap.
  destruct (av_audio_fifo_alloc _ _ _) as [q|]; [|done]. cbn.
  repeat mem_step.
  eapply runs_mono; [|eapply (sim_FillDecoder _
    (MkDecoderAddresses p1 p2 p0 p p3)
    (MkFileDecoder cap (av_find_best_stream c) c k2 None true q))].
  - intros o D l Ho. by eexists.
  - split; [done|]. exists 1%positive. cbn. solve_Permutation.
Qed.

Lemma sim_AudioFileDecoder_delete a D R l :
  decoder_cells a D R l →
  runs rest l (mem_AudioFileDecoder_delete (object_of a D)) (Ret tt)
    (λ _ _ l', l' ≡ₚ R).
Proof.
  intros [_ [b Hl]]. apply (runs_perm _ _ _ _ _ _ Hl), runs_tail.
  unfold mem_AudioFileDecoder_delete, mem_av_frame_free. cbn.
  unfold mem_av_frame_free, mem_av_frame_unref, mem_av_packet_free,
    mem_av_packet_unref, unref.
  destruct (fd_packet D); repeat mem_step; by apply runs_ret.
Qed.

(** The resampler. *)
Definition resampler_of (p : address) (r : AudioResampler) : resampler_object :=
  MkResamplerObject (Some p) (ar_input_format r) (ar_input_sample_rate r)
    (ar_input_channel_num r) (ar_output_format r) (ar_output_sample_rate r)
    (ar_output_channel_num r).
Definition resampler_cells (p : address) (r : AudioResampler) :=
  [(p, OSwrContext (ar_context r))].

Lemma sim_AudioResampler_new f sr ch f' sr' ch' R :
  runs rest R (mem_AudioResampler_new f sr ch f' sr' ch')
    (AudioResampler_new f sr ch f' sr' ch')
    (λ o r l, ∃ p, o = resampler_of p r ∧ l ≡ₚ resampler_cells p r ++ R).
Proof.
  unfold mem_AudioResampler_new, AudioResampler_new, update.
  destruct swr_alloc as [c|]; [|done]. cbn. repeat mem_step.
  fold (configure c f sr ch f' sr' ch').
  destruct (swr_init _) as [e c']. cbn. repeat mem_step.
  apply runs_ret. by exists p.
Qed.

Lemma sim_Resample p r pa sa buf size R l :
  l ≡ₚ resampler_cells p r ++ buffer_cells pa sa buf ++ R →
  runs rest l (mem_Resample (resampler_of p r) (Some pa) size)
    (Resample r buf size)
    (λ x '(z, out, r') l', x = (z, out) ∧ resampler_of p r' = resampler_of p r
       ∧ l' ≡ₚ resampler_cells p r' ++ buffer_cells pa sa buf ++ R).
Proof.
  intros Hl. apply (runs_perm _ _ _ _ _ _ Hl).
  unfold mem_Resample, Resample. cbn. apply runs_lift_bind; intros n.
  repeat mem_step. apply runs_lift; intros _. repeat mem_step.
  destruct (swr_convert _ _ _ _) as [[z out] c]. cbn.
  destruct (z <? 0); by apply runs_ret.
Qed.

(** The source. *)
Definition source_of (a : decoder_addresses) (pa p : address)
    (s : AudioFileSource) : source_object :=
  MkSourceObject (fs_base s) (fs_ssrc s) (fs_input_sample_rate s)
    (fs_input_channel_num s) (fs_input_format s) (fs_input_samples s)
    (fs_output_sample_rate s) (fs_output_channel_num s)
    (fs_frame_duration_ms s) (fs_report_output_samples s)
    (fs_real_output_samples s) (Some pa) (object_of a (fs_decoder s))
    (resampler_of p (fs_resampler s)).

Definition source_cells (sa : address) a pa p (s : AudioFileSource) l : Prop :=
  decoder_cells a (fs_decoder s)
    (buffer_cells pa sa (fs_input_buffer s)
     ++ resampler_cells p (fs_resampler s)) l.

(** The object of a source, and the cells it owns. *)
Definition source_rep (o : source_object) (s : AudioFileSource) l : Prop :=
  ∃ sa a pa p, o = source_of a pa p s ∧ source_cells sa a pa p s l.

Lemma sim_AudioFileSource_new fuel ssrc path osr och ms v :
  runs rest [] (mem_AudioFileSource_new fuel ssrc path osr och ms v)
    (AudioFileSource_new fuel ssrc path osr och ms v) source_rep.
Proof.
  unfold mem_AudioFileSource_new, AudioFileSource_new.
  apply runs_lift; intros report. apply runs_lift; intros real.
  eapply runs_bind; [apply sim_AudioFileDecoder_new|].
  intros ? D l [a [-> [Hc [b Hl]]]]. apply (runs_perm _ _ _ _ _ _ Hl). cbn.
  mem_step. apply runs_lift; intros n.
  unfold mem_av_samples_alloc_array_and_samples.
  unfold sample_format, sample_rate, channel_num.
  rewrite Z.ltb_antisym. destruct (0 <=? _) eqn:He; cbn; repeat mem_step;
    rewrite He; [|done].
  apply runs_skip. eapply runs_bind; [apply sim_AudioResampler_new|].
  intros ? r l' [q [-> Hl']]. apply runs_ret. exists p, a, p0, q.
  split; [done|]. split; [done|]. exists b. rewrite Hl'. cbn.
  solve_Permutation.
Qed.

Lemma sim_Read fuel o s l :
  source_rep o s l →
  runs rest l (mem_Read fuel o) (Read fuel s)
    (λ '(r, out, o) '(r', out', s) l', r = r' ∧ out = out' ∧ source_rep o s l').
Proof.
  intros (sa & a & pa & p & -> & Hl). unfold mem_Read, Read.
  apply (runs_pure_eq _ _ _ _ ('(consumed, buf, d) ←
    ('(bytes, got, d) ← Consume fuel (fs_decoder s) (fs_input_samples s);
     buf ← overwrite (fs_input_buffer s) got; Ret (bytes, buf, d));
    let s := fs_set_read s buf d (fs_resampler s) in
    if negb (consumed =? av_samples_get_buffer_size (fs_input_channel_num s)
                         (fs_input_samples s) (fs_input_format s) 1)
    then Ret (AVERROR_EOF, [], s) else
    '(r, out, resampler) ← Resample (fs_resampler s) (fs_input_buffer s)
                             consumed;
    Ret (r, out, fs_set_read s (fs_input_buffer s) (fs_decoder s) resampler))).
  { destruct (Consume _ _ _) as [[[z got] d]| | |]; [cbn|done..].
    by destruct (overwrite _ got). }
  eapply runs_bind; [by apply sim_Consume|].
  intros [z o] [[z' buf'] D'] l' (-> & -> & [Hc [b Hl']]). cbn.
  destruct (z' =? _); cbn.
  2: { apply runs_ret. split; [done|]. split; [done|]. exists sa, a, pa, p.
       split; [done|]. split; [done|]. by exists b. }
  eapply runs_bind; [eapply (sim_Resample p (fs_resampler s) pa sa buf' z'
    (context_cells a D' ++ packet_cells (at_packet a) b (fd_packet D')))|].
  { rewrite Hl'. cbn. solve_Permutation. }
  intros ? [[r out] rs] l'' (-> & Heq & Hl''). apply runs_ret.
  split; [done|]. split; [done|]. exists sa, a, pa, p. split.
  - unfold source_of. cbn. by rewrite Heq.
  - split; [done|]. exists b. cbn. rewrite Hl''. solve_Permutation.
Qed.

Lemma sim_GetAudioFrameWithInfo fuel o s rate f l :
  source_rep o s l →
  runs rest l (mem_GetAudioFrameWithInfo fuel o rate f)
    (fs_GetAudioFrameWithInfo fuel s rate f)
    (λ '(i, f, o) '(i', f', s) l', i = i' ∧ f = f' ∧ source_rep o s l').
Proof.
  intros Hrep. unfold mem_GetAudioFrameWithInfo, fs_GetAudioFrameWithInfo.
  pose proof Hrep as (sa & a & pa & p & -> & Hl). cbn.
  destruct (rate =? _); cbn; [|by apply runs_ret].
  apply runs_lift; intros f1. eapply runs_bind; [by apply sim_Read|].
  intros [[r out] o] [[r' out'] s'] l' (-> & -> & Hrep').
  apply runs_lift; intros output. pose proof Hrep' as (? & ? & ? & ? & -> & _).
  destruct (r' <? 0); by apply runs_ret.
Qed.

Lemma sim_frames fuel requests o s l :
  source_rep o s l →
  runs rest l (mem_frames fuel requests o) (source_frames fuel requests s)
    (λ '(x, o) '(x', s) l', x = x' ∧ source_rep o s l').
Proof.
  revert o s l. induction requests as [|[rate f] requests IH]; intros o s l Hrep.
  { by apply runs_ret. }
  cbn. eapply runs_bind; [by apply sim_GetAudioFrameWithInfo|].
  intros [[i f'] o'] [[? ?] s'] l' (<- & <- & Hrep').
  eapply runs_bind; [by apply IH|].
  intros [x o''] [? s''] l'' [<- Hrep'']. by apply runs_ret.
Qed.

Lemma sim_AudioFileSource_delete o s l :
  source_rep o s l →
  runs rest l (mem_AudioFileSource_delete o) (Ret tt) (λ _ _ l', l' = []).
Proof.
  intros (sa & a & pa & p & -> & [Hc [b Hl]]).
  unfold mem_AudioFileSource_delete, mem_AudioResampler_delete. cbn.
  apply (runs_perm _ _ (buffer_cells pa sa (fs_input_buffer s)
    ++ resampler_cells p (fs_resampler s) ++ context_cells a (fs_decoder s)
    ++ packet_cells (at_packet a) b (fd_packet (fs_decoder s)))).
  { rewrite Hl. cbn. solve_Permutation. }
  cbn. repeat mem_step.
  eapply runs_mono; [|apply (sim_AudioFileDecoder_delete a (fs_decoder s) [])].
  - intros ? ? l'. apply Permutation_nil_r.
  - split; [done|]. exists b. cbn. solve_Permutation.
Qed.

Lemma sim_lifetime fuel ssrc path osr och ms v requests :
  runs rest [] (mem_lifetime fuel ssrc path osr och ms v requests)
    (lifetime fuel ssrc path osr och ms v requests)
    (λ x x' l, x = x' ∧ l = []).
Proof.
  unfold mem_lifetime, lifetime.
  eapply runs_bind; [apply sim_AudioFileSource_new|]. intros o s l Hrep.
  eapply runs_bind; [by apply sim_frames|]. intros [x o'] [? s'] l' [<- Hrep'].
  apply (runs_pure_eq _ _ _ _ (_ ← Ret tt; Ret x)); [done|].
  eapply runs_bind; [by eapply sim_AudioFileSource_delete|].
  intros ? ? ? ->. by apply runs_ret.
Qed.
End simulation.

(** ** Properties *)

Lemma runs_from_nothing `{FFmpeg} {A} (m : Mem A) (n : outcome A) h :
  runs h [] m n (λ x y l, x = y ∧ l = []) →
  sim (λ '(x, h') y, x = y ∧ h' = h) (m h) n.
Proof.
  intros Hr. specialize (Hr h). rewrite owns_nil in Hr. specialize (Hr eq_refl).
  unfold sim in *. destruct (m h) as [[x h']| | |], n; try done.
  destruct Hr as (l & Ho & -> & ->). by apply owns_nil in Ho.
Qed.

Section lifetime.
Context `{Allocator, AudioFrameApi}.

(** C4: The pointers are right: with the objects on the heap, building a
    file source, requesting any frames from it and destroying it gives the
    very answers of the definitions without pointers, undefined behaviour only
    where those have it (so no null or dangling pointer is used, and nothing
    is freed twice or by the function of another type), and every object the
    source created has been freed at the end: the memory is what it was. *)
Theorem lifetime_refines fuel ssrc path osr och ms v requests h :
  sim (λ '(answers, h') answers', answers = answers' ∧ h' = h)
    (mem_lifetime fuel ssrc path osr och ms v requests h)
    (lifetime fuel ssrc path osr och ms v requests).
Proof.
  apply runs_from_nothing, sim_lifetime.
Qed.
End lifetime.

Section lifetime_safety.
Context `{FFmpegSpec, !Allocator, !FifoReliable, !StableChannels, AudioFrameLaws}.
Context (max_channels : Z).
Hypothesis channels_range : ∀ c, 0 < ctx_channels c ≤ max_channels.

Lemma source_frames_ok fuel file out s requests :
  fs_ok max_channels file out s → Forall (λ q, frame_wf q.2) requests →
  enough_fuel fuel file (fs_decoder s) →
  wpa (source_frames fuel requests s) (λ '(l, _), length l = length requests).
Proof.
  revert out s. induction requests as [|[rate f] requests IH];
    intros out s Hok Hf Hfuel; [done|].
  apply list.Forall_cons in Hf as [Hf1 Hf]. cbn [source_frames].
  apply wpa_bind. destruct (decide (rate = fs_output_sample_rate s)) as [->|Hr].
  - eapply wpa_mono; [|apply (fs_get_frame max_channels channels_range _ file out s f); done].
    intros [[i f1] s1] (r & o & (got & Hok1 & Heq & _ & _ & Hle & _) & _).
    apply wpa_bind. eapply wpa_mono; [|apply (IH _ s1 Hok1 Hf)].
    + intros [l s2] Hl. cbn in *. by rewrite Hl.
    + destruct Hfuel. split; [lia|done].
  - unfold fs_GetAudioFrameWithInfo. rewrite (proj2 (Z.eqb_neq _ _)) by done. cbn.
    apply wpa_bind. eapply wpa_mono; [|by apply (IH out s)].
    intros [l s2] Hl. cbn in *. by rewrite Hl.
Qed.

(** C7: A file source is safe for all its life: opened on a stream the codec
    supports, with an output format that fits the frames of the mixer, asked
    for any number of frames at any rates, and destroyed, it runs into no
    undefined behaviour, every call terminates, and no object is leaked,
    unless a failed check stops the program. *)
Theorem lifetime_safe fuel ssrc path osr och ms v requests ctx0 e0 e ctx h :
  avformat_open_input path = (e0, Some ctx0) →
  avformat_find_stream_info ctx0 = (e, ctx) →
  (S (length (fmt_packets ctx)) < fuel)%nat →
  (∀ k, k `sublist_of` fmt_packets ctx → (length (decoded k) < fuel)%nat) →
  streams_ok max_channels ms → output_ok osr och ms →
  Forall (λ q, frame_wf q.2) requests →
  wpa (mem_lifetime fuel ssrc path osr och ms v requests h)
    (λ '(answers, h'), length answers = length requests ∧ h' = h).
Proof.
  intros Hopen Hinfo Hfuel Hdec Hst Hout Hf.
  assert (wpa (lifetime fuel ssrc path osr och ms v requests)
            (λ answers, length answers = length requests)) as Hw.
  { unfold lifetime. apply wpa_bind. eapply wpa_mono;
      [|eapply (AudioFileSource_new_ok max_channels channels_range);
        [done|done|lia|done|done]].
    intros s (Hok & _ & _ & _ & Hleft). apply wpa_bind. eapply wpa_mono;
      [|eapply source_frames_ok; [done|done|split; [lia|]]].
    - by intros [l s'].
    - intros k [k' Hk]. apply Hdec. etrans; [apply (sublist_inserts_r k'); done|].
      rewrite <- Hk. apply sublist_filter. }
  eapply wpa_mono; [|eapply sim_wpa; [|exact Hw]].
  2: apply runs_from_nothing, sim_lifetime.
  intros [x h'] (y & [-> ->] & Hl). done.
Qed.
End lifetime_safety.

(** ** Examples *)

#[local] Existing Instance ReferenceFrameApi.
#[local] Existing Instance ReferenceFrameLaws.

(** An allocator that reuses addresses. *)
Definition first_free `{FFmpeg} : Allocator :=
  {| new_address h := fresh (dom h);
     new_address_unused h := proj1 (not_elem_of_dom h _) (is_fresh _) |}.

Lemma sublist_decoded k file :
  k `sublist_of` file →
  (length (ref_decoded k) <= length (ref_decoded file))%nat.
Proof.
  unfold ref_decoded. rewrite !length_fmap.
  induction 1; cbn; rewrite ?length_app; lia.
Qed.

Definition three_requests : list (Z * AudioFrame) :=
  [(300, AudioFrame_new); (48000, AudioFrame_new); (300, AudioFrame_new)].

Lemma lifetime_safe_witness :
  let FF := demo_ff AV_SAMPLE_FMT_S16 in
  let A := @first_free FF in
  wpa (mem_lifetime 12 7 "morning.wav" 300 1 10 (S754_zero false) three_requests ∅)
    (λ '(answers, h'), length answers = length three_requests ∧ h' = ∅).
Proof.
  intros FF A.
  apply (@lifetime_safe FF (demo_ff_spec AV_SAMPLE_FMT_S16) A
    (source_reliable demo_file AV_SAMPLE_FMT_S16 2)
    (source_stable demo_file AV_SAMPLE_FMT_S16 2) ReferenceFrameApi
    ReferenceFrameLaws 1 (source_channels demo_file AV_SAMPLE_FMT_S16 2)
    12 7 "morning.wav" 300 1 10 (S754_zero false) three_requests demo_file 0 0
    demo_file).
  - done.
  - done.
  - cbn. lia.
  - intros k Hk. apply (Nat.le_lt_trans _ _ _ (sublist_decoded k _ Hk)).
    apply Nat.ltb_lt. reflexivity.
  - intros c. ground.
  - ground.
  - repeat constructor; apply AudioFrame_new_wf.
Defined.

(** What the memory catches: a second free, and a deleter of another type. *)
Section mistakes.
#[local] Existing Instance demo_ff.
#[local] Existing Instance first_free.
Let FF : FFmpeg := demo_ff AV_SAMPLE_FMT_S16.
Let A : Allocator := @first_free FF.

Example second_free :
  (p ← alloc_object packet None; _ ← AVPacketDeleter p; AVPacketDeleter p)
    (∅ : @gmap address _ _ (@object FF)) = Undef DanglingPointer.
Proof. reflexivity. Qed.

Example wrong_deleter :
  (p ← alloc_object packet None; AVFrameDeleter p)
    (∅ : @gmap address _ _ (@object FF)) = Undef DanglingPointer.
Proof. reflexivity. Qed.
End mistakes.
