(* ===== verification/Playback.v ===== *)
(** The sources make progress: with enough requests of the mixer a record
    source (RecordSource.v) hands out every whole frame of what it was given,
    in order; and a file source (FileSource.v) plays no more frames than the
    samples of its file make. *)

From S2P Require Import Prelude.
From S2P Require Import Buffer.
From S2P Require Import AudioFrame.
From S2P Require Import Api.
From S2P Require Import AudioSource.
From S2P Require Import RecordSource.
From S2P Require Import Ffmpeg.
From S2P Require Import FfmpegReference.
From S2P Require Import FileDecoder.
From S2P Require Import Resampler.
From S2P Require Import FileSource.

(** ** On the queue *)

(** What the recorder delivered in a run. *)
Fixpoint recorded_samples (ops : list rs_op) : list Z :=
  match ops with
  | [] => []
  | OpRecord samples size :: ops => takeZ (size / 2) samples ++ recorded_samples ops
  | OpGet _ :: ops => recorded_samples ops
  end.

(** The answers that carry a frame. *)
Definition normal_answers {F} (os : list (option (AudioFrameInfo * F))) : list F :=
  omap (λ o, match o with Some (kNormal, f) => Some f | _ => None end) os.

Lemma normal_answers_cons {F} (o : option (AudioFrameInfo * F)) os :
  normal_answers (o :: os)
    = match o with Some (kNormal, f) => [f] | _ => [] end ++ normal_answers os.
Proof. by destruct o as [[[] f]|]. Qed.

Section queue.
Context (rate real : Z).
Hypothesis real_pos : 0 < real.
Implicit Types (l : list Z) (ops : list rs_op).

Lemma queue_run_app shown l ops ops' :
  queue_run rate real shown l (ops ++ ops')
    = let '(l, os) := queue_run rate real shown l ops in
      let '(l, os') := queue_run rate real shown l ops' in (l, os ++ os').
Proof.
  revert l. induction ops as [|op ops IH]; intros l; cbn [app queue_run].
  { by destruct (queue_run _ _ _ l ops'). }
  destruct (queue_step _ _ _ l op) as [l1 o]. rewrite IH.
  destruct (queue_run _ _ _ l1 ops) as [l2 os].
  by destruct (queue_run _ _ _ l2 ops').
Qed.

(** The queue loses nothing and keeps the order. *)
Lemma queue_run_conserves l ops :
  let '(rest, os) := queue_run rate real real l ops in
  concat (normal_answers os) ++ rest = l ++ recorded_samples ops.
Proof.
  revert l. induction ops as [|op ops IH]; intros l; cbn [queue_run].
  { cbn. by rewrite app_nil_r. }
  destruct op as [samples size|r]; cbn [queue_step recorded_samples].
  - specialize (IH (l ++ takeZ (size / 2) samples)).
    destruct (queue_run _ _ _ _ ops) as [rest os].
    by rewrite normal_answers_cons, <- app_assoc in *.
  - destruct (negb (r =? rate)); [|destruct (lenZ l <? real)];
      [specialize (IH l)|specialize (IH l)|specialize (IH (dropZ real l))];
      destruct (queue_run _ _ _ _ ops) as [rest os];
      rewrite normal_answers_cons; [exact IH|exact IH|].
    rewrite concat_app. cbn [concat]. rewrite app_nil_r.
    by rewrite <- app_assoc, IH, app_assoc, takeZ_dropZ.
Qed.

(** Requests empty the queue down to an incomplete frame. *)
Lemma queue_run_drains n l :
  lenZ l < (Z.of_nat n + 1) * real →
  lenZ (queue_run rate real real l (replicate n (OpGet rate))).1 < real.
Proof.
  revert l. induction n as [|n IH]; intros l Hl; [cbn; lia|].
  cbn [replicate queue_run queue_step]. rewrite Z.eqb_refl. cbn [negb].
  destruct (Z.ltb_spec (lenZ l) real) as [Hlt|Hge].
  - specialize (IH l). destruct (queue_run _ _ _ l _) as [rest os].
    apply IH. nia.
  - specialize (IH (dropZ real l)).
    destruct (queue_run _ _ _ (dropZ real l) _) as [rest os].
    apply IH. rewrite lenZ_dropZ by lia. nia.
Qed.
End queue.

Lemma recorded_samples_length ops :
  Forall rs_op_ok ops → lenZ (recorded_samples ops) = recorded ops.
Proof.
  induction 1 as [|[samples size|r] ops Hop _ IH]; cbn; [done| |done].
  destruct Hop as (? & _ & ?). pose proof (Z.div_pos size 2).
  rewrite lenZ_app, lenZ_takeZ, IH by lia. lia.
Qed.

Lemma recorded_app ops ops' : recorded (ops ++ ops') = recorded ops + recorded ops'.
Proof. induction ops as [|[? ?|?] ops IH]; cbn; lia. Qed.

Lemma recorded_requests n r : recorded (replicate n (OpGet r)) = 0.
Proof. by induction n. Qed.

Lemma recorded_samples_requests ops n r :
  recorded_samples (ops ++ replicate n (OpGet r)) = recorded_samples ops.
Proof.
  induction ops as [|[? ?|?] ops IH]; cbn; [by induction n| |done].
  by rewrite IH.
Qed.

(** ** On the source *)

Section delivery.
Context `{BuildConfig, AudioFrameLaws}.

(** The frames of the answers, before the volume was applied. *)
Lemma normal_answers_frames base F os os' :
  Forall2 (answer_ok base F) os os' →
  ∃ fs, normal_answers os = ApplyVolume base <$> fs
    ∧ (frame_samples <$> fs) = normal_answers os'.
Proof.
  induction 1 as [|o o' os os' Ho _ (fs & Hf & Hs)]; [by exists []|].
  rewrite !normal_answers_cons.
  destruct o as [[i f]|], o' as [[i' l]|]; try done; [|by exists fs].
  destruct Ho as [<- Ho]. destruct i; try by exists fs.
  destruct (Ho eq_refl) as (f0 & -> & _ & Hl). exists (f0 :: fs).
  cbn [app fmap list_fmap]. by rewrite Hf, <- Hs, Hl.
Qed.

(** At a multiple of 100 Hz a frame of the mixer is what the source takes off
    its queue. *)
Lemma whole_frames sr ch :
  (100 | sr) → 0 < ch * sr →
  frames_share sr kFrameDurationInMs * ch = frames_share (ch * sr) kFrameDurationInMs
  ∧ 0 < frames_share (ch * sr) kFrameDurationInMs.
Proof.
  intros [q ->] Hpos. unfold frames_share. change (1000 / kFrameDurationInMs) with 100.
  rewrite Z.mul_assoc, !Z.div_mul by done. lia.
Qed.

(** C5: Everything recorded is played.  Whatever a record source with 10 ms
    frames of a rate that is a multiple of 100 Hz has been through, as many
    further requests as there are whole frames in what was recorded make it
    hand out, in all, frames whose samples are what was recorded, in order and
    without a gap or a repetition; only an incomplete frame stays behind. *)
Theorem recorded_samples_delivered ssrc sr ch v f ops n :
  let real := frames_share (ch * sr) kFrameDurationInMs in
  valid_timing sr ch kFrameDurationInMs → (100 | sr) → 0 < ch * sr →
  frame_wf f → Forall rs_op_ok ops →
  3 * recorded ops ≤ alloc_limit → recorded ops < u64_modulus →
  recorded ops / real ≤ Z.of_nat n →
  wp (s ← AudioRecordSource_new ssrc sr ch kFrameDurationInMs v;
      rs_run f s (ops ++ replicate n (OpGet sr))) (λ r, ∃ fs rest,
    normal_answers r.2 = ApplyVolume (MkAudioSource v) <$> fs
    ∧ concat (frame_samples <$> fs) ++ rest = recorded_samples ops
    ∧ holds (rs_buffer r.1) rest ∧ lenZ rest < real).
Proof.
  intros real Ht Hdiv Hpos Hf Hops Hlim Hu Hn.
  destruct (whole_frames sr ch Hdiv Hpos) as [Hreal Hrp]. fold real in Hreal, Hrp.
  eapply wp_mono; [|apply (record_source_runs_queue _ _ _ _ _ (ops ++ replicate n (OpGet sr)));
    rewrite ?recorded_app, ?recorded_requests, ?Z.add_0_r, ?Hreal; try done].
  2: { apply Forall_app. split; [done|]. by apply Forall_replicate. }
  intros r (Hb & Ha & _). rewrite Hreal in Hb, Ha. fold real in Hb, Ha.
  pose proof (queue_run_conserves sr real [] (ops ++ replicate n (OpGet sr))) as Hc.
  pose proof (queue_run_app sr real real [] ops (replicate n (OpGet sr))) as Happ.
  pose proof (queue_run_conserves sr real [] ops) as Hc0.
  destruct (queue_run sr real real [] ops) as [l os0] eqn:E0.
  pose proof (queue_run_drains sr real Hrp n l) as Hdr.
  destruct (queue_run sr real real l _) as [l1 os1] eqn:E1. rewrite Happ in *.
  rewrite recorded_samples_requests in Hc. cbn [fst snd app] in *.
  destruct (normal_answers_frames _ _ _ _ Ha) as (fs & Hfs & Hsm).
  exists fs, l1. rewrite Hsm. split_and!; [done|done|done|].
  apply Hdr. pose proof (recorded_samples_length _ Hops) as Hlen.
  rewrite <- Hc0, lenZ_app in Hlen.
  pose proof (lenZ_nonneg (concat (normal_answers os0))).
  pose proof (Z.mul_succ_div_gt (recorded ops) real). nia.
Qed.
End delivery.

(** ** File sources *)

(** [n] requests of the mixer at the rate of the source, each given the frame
    the last one left. *)
Fixpoint fs_play `{FFmpeg, AudioFrameApi} (fuel n : nat) (f : AudioFrame)
    (s : AudioFileSource) : outcome (list AudioFrameInfo * AudioFileSource) :=
  match n with
  | O => Ret ([], s)
  | S n =>
      '(i, f, s) ← fs_GetAudioFrameWithInfo fuel s (fs_output_sample_rate s) f;
      '(ans, s) ← fs_play fuel n f s; Ret (i :: ans, s)
  end.

(** The number of frames that were played. *)
Fixpoint normals (ans : list AudioFrameInfo) : Z :=
  match ans with
  | [] => 0
  | kNormal :: ans => 1 + normals ans
  | _ :: ans => normals ans
  end.

Section playback.
Context `{FFmpegSpec, !FifoReliable, !StableChannels, AudioFrameLaws}.
Implicit Types (s : AudioFileSource) (file : list (AVPacket Payload)).
Context (max_channels : Z).
Hypothesis channels_range : ∀ c, 0 < ctx_channels c ≤ max_channels.

(** No part of the file decodes to more than [t] samples. *)
Definition decodes_to_at_most (t : Z) file : Prop :=
  ∀ k, k `prefix_of` file → lenZ (frames_samples (decoded k)) ≤ t.

Lemma fs_ok_delivered file out s t :
  fs_ok max_channels file out s → decodes_to_at_most t file → lenZ out ≤ t.
Proof.
  intros (_ & _ & _ & _ & Hd & _) Ht.
  specialize (Ht _ (dec_inv_accepted _ _ _ Hd)).
  destruct Hd as (_ & _ & Ho). rewrite <- codec_stream, frames_samples_app, Ho in Ht.
  rewrite !lenZ_app in Ht.
  pose proof (lenZ_nonneg (fifo_contents (fd_fifo (fs_decoder s)))).
  pose proof (lenZ_nonneg (frames_samples (codec_pending (fd_codec_context (fs_decoder s))))).
  lia.
Qed.

Lemma fs_play_counts fuel n file out f s :
  fs_ok max_channels file out s → frame_wf f → enough_fuel fuel file (fs_decoder s) →
  wpa (fs_play fuel n f s) (λ '(ans, s'), ∃ out',
    fs_ok max_channels file (out ++ out') s' ∧ whole_frame s' = whole_frame s
    ∧ length ans = n ∧ (kError ∉ ans → normals ans = Z.of_nat n)
    ∧ normals ans * whole_frame s ≤ 2 * lenZ out').
Proof.
  revert out f s. induction n as [|n IH]; intros out f s Hok Hf Hfuel; cbn [fs_play].
  { cbn. exists []. rewrite app_nil_r. done. }
  apply wpa_bind. eapply wpa_mono;
    [|apply (fs_get_frame max_channels channels_range _ file out s f); done].
  intros [[i f1] s1] (r & o & (got & Hok1 & Heq & Hgot & _ & Hle & Hr) & Hf1 & Hi).
  assert (Hfuel1 : enough_fuel fuel file (fs_decoder s1)).
  { destruct Hfuel. split; [lia|done]. }
  assert (Hwf : whole_frame s1 = whole_frame s) by (unfold whole_frame; by rewrite Heq).
  apply wpa_bind. eapply wpa_mono; [|apply (IH _ f1 s1 Hok1 Hf1 Hfuel1)].
  intros [ans s2] (out' & Hok2 & Hwf2 & Hlen & Hall & Hcount). cbn [wpa].
  exists (got ++ out'). rewrite app_assoc, Hwf2, lenZ_app. rewrite Hwf in Hcount.
  pose proof (lenZ_nonneg got). split_and!; [done|done|cbn; by rewrite Hlen|..].
  - intros Hno. apply not_elem_of_cons in Hno as [Hi0 Hno]. specialize (Hall Hno).
    destruct Hi as [[-> _]|[-> _]]; [done|]. cbn [normals]. lia.
  - destruct Hi as [[-> _]|(-> & Hr0 & _)]; cbn [normals]; [lia|].
    unfold read_result in Hr. case_decide as Hw; [lia|].
    destruct Hr as [-> _]. rewrite AVERROR_EOF_value in Hr0. lia.
Qed.

(** C13: Playback comes to its end.  However many frames the mixer asks a file
    source for, the ones it plays are no more than the samples of the file
    make; so with more requests than that one of them is answered with an
    error (unless FFmpeg reports an unexpected error first, which stops the
    program). *)
Theorem playback_ends fuel n file out f s t :
  fs_ok max_channels file out s → frame_wf f → enough_fuel fuel file (fs_decoder s) →
  decodes_to_at_most t file →
  wpa (fs_play fuel n f s) (λ '(ans, _),
    length ans = n ∧ normals ans * whole_frame s ≤ 2 * (t - lenZ out)
    ∧ (2 * (t - lenZ out) < Z.of_nat n * whole_frame s → kError ∈ ans)).
Proof.
  intros Hok Hf Hfuel Ht. eapply wpa_mono; [|by eapply fs_play_counts].
  intros [ans s'] (out' & Hok' & _ & Hlen & Hall & Hcount).
  pose proof (fs_ok_delivered _ _ _ _ Hok' Ht) as Hout. rewrite lenZ_app in Hout.
  split_and!; [done|lia|]. intros Hn.
  destruct (decide (kError ∈ ans)) as [|Hno]; [done|].
  specialize (Hall Hno). rewrite Hall in Hcount. lia.
Qed.
End playback.

(** ** Examples *)

#[local] Existing Instance ReleaseBuild.
#[local] Existing Instance ReferenceFrameApi.
#[local] Existing Instance ReferenceFrameLaws.

Definition drained_ops : list rs_op :=
  [OpRecord [11; 12; 13; 14] 8; OpGet 300; OpRecord [15; 16; 17] 6; OpGet 48000].

Lemma recorded_samples_delivered_witness :
  wp (s ← AudioRecordSource_new 7 300 1 kFrameDurationInMs f32_1;
      rs_run demo_frame s (drained_ops ++ replicate 3 (OpGet 300))) (λ r, ∃ fs rest,
    normal_answers r.2 = ApplyVolume (MkAudioSource f32_1) <$> fs
    ∧ concat (frame_samples <$> fs) ++ rest = [11; 12; 13; 14; 15; 16; 17]
    ∧ holds (rs_buffer r.1) rest
    ∧ lenZ rest < frames_share (1 * 300) kFrameDurationInMs).
Proof.
  apply (recorded_samples_delivered 7 300 1 f32_1 demo_frame drained_ops 3).
  - ground.
  - by exists 3.
  - lia.
  - ground.
  - repeat constructor; ground.
  - ground.
  - ground.
  - ground.
Defined.

Lemma demo_decodes format :
  decodes_to_at_most (H := demo_ff format) (H0 := demo_ff_spec format) 9
    (demo_packets format).
Proof.
  intros k [k' Hk]. change (lenZ (frames_samples (ref_decoded k)) ≤ 9).
  assert (lenZ (frames_samples (ref_decoded (demo_packets format))) ≤ 9) as Ht
    by (apply Z.leb_le; reflexivity).
  rewrite Hk, ref_decoded_app, frames_samples_app, lenZ_app in Ht.
  pose proof (lenZ_nonneg (frames_samples (ref_decoded k'))). lia.
Qed.

Lemma playback_ends_witness :
  wpa (@fs_play (demo_ff AV_SAMPLE_FMT_S16) _ 10 7 AudioFrame_new
         (demo_source demo_file AV_SAMPLE_FMT_S16 2))
    (λ '(ans, _), length ans = 7%nat ∧ normals ans * 6 ≤ 2 * (9 - 0)
      ∧ (2 * (9 - 0) < 7 * 6 → kError ∈ ans)).
Proof.
  apply (@playback_ends (demo_ff AV_SAMPLE_FMT_S16) (demo_ff_spec AV_SAMPLE_FMT_S16)
    (source_reliable demo_file AV_SAMPLE_FMT_S16 2)
    (source_stable demo_file AV_SAMPLE_FMT_S16 2) _ _ 1
    (source_channels demo_file AV_SAMPLE_FMT_S16 2) 10 7 (demo_packets AV_SAMPLE_FMT_S16) []
    AudioFrame_new (demo_source demo_file AV_SAMPLE_FMT_S16 2) 9).
  - by apply demo_source_ok.
  - apply AudioFrame_new_wf.
  - apply demo_source_fuel; apply Nat.ltb_lt; reflexivity.
  - apply demo_decodes.
Defined.
