(* ===== verification/StdMap.v ===== *)
(** [std::map] with integer keys, as the mixer uses it: a list of entries in
    increasing key order, and its view as a finite map. *)

From stdpp Require Import gmap sorting.
From S2P Require Import Prelude.

Section std_map.
Context {V : Type}.
Implicit Types (m : list (Z * V)).

(** [find] *)
Fixpoint std_find (k : Z) m : option V :=
  match m with
  | [] => None
  | (k', v) :: m => if k =? k' then Some v else std_find k m
  end.

(** [insert] and [emplace]: an existing entry is kept, and the flag tells
    whether the new one was inserted. *)
Fixpoint std_insert (k : Z) (v : V) m : bool * list (Z * V) :=
  match m with
  | [] => (true, [(k, v)])
  | (k', v') :: m' =>
      if k <? k' then (true, (k, v) :: m)
      else if k =? k' then (false, m)
      else let '(b, m') := std_insert k v m' in (b, (k', v') :: m')
  end.

(** [erase] at an iterator. *)
Fixpoint std_erase (k : Z) m : list (Z * V) :=
  match m with
  | [] => []
  | (k', v) :: m => if k =? k' then m else (k', v) :: std_erase k m
  end.

Definition std_sorted m : Prop := StronglySorted Z.lt (fst <$> m).
Definition std_map_view m : gmap Z V := list_to_map m.

Lemma std_sorted_cons k v m :
  std_sorted ((k, v) :: m) ↔ Forall (λ e, k < e.1) m ∧ std_sorted m.
Proof.
  unfold std_sorted. cbn. split.
  - intros [? Hall]%StronglySorted_inv. by rewrite Forall_fmap in Hall.
  - intros [? ?]. constructor; [done|]. by rewrite Forall_fmap.
Qed.

Lemma std_find_above k m : Forall (λ e, k < e.1) m → std_find k m = None.
Proof.
  induction 1 as [|[k' v] m Hlt _ IH]; cbn in *; [done|].
  by rewrite (proj2 (Z.eqb_neq _ _)) by lia.
Qed.

Lemma std_find_view k m : std_map_view m !! k = std_find k m.
Proof.
  unfold std_map_view. induction m as [|[k' v] m IH]; cbn; [done|].
  destruct (Z.eqb_spec k k') as [->|]; [by rewrite lookup_insert_eq|].
  by rewrite lookup_insert_ne by congruence.
Qed.

(** Insertion by cases on the presence of the key. *)
Lemma std_insert_present k v m :
  std_sorted m → is_Some (std_find k m) → std_insert k v m = (false, m).
Proof.
  induction m as [|[k' v'] m IH]; intros Hm [w Hw]; [done|].
  cbn in *. apply std_sorted_cons in Hm as [Hall Hm].
  destruct (Z.eqb_spec k k') as [->|Hne]; [by rewrite Z.ltb_irrefl|].
  destruct (Z.ltb_spec k k').
  - rewrite std_find_above in Hw; [done|].
    eapply Forall_impl; [|exact Hall]. cbn. lia.
  - by rewrite IH by done.
Qed.

Lemma std_insert_absent k v m :
  std_find k m = None →
  ∃ m1 m2, m = m1 ++ m2 ∧ std_insert k v m = (true, m1 ++ (k, v) :: m2).
Proof.
  induction m as [|[k' v'] m IH]; intros Hf; cbn in *; [by exists [], []|].
  destruct (k <? k'); [by exists [], ((k', v') :: m)|].
  destruct (k =? k'); [done|].
  destruct (IH Hf) as (m1 & m2 & -> & ->). by exists ((k', v') :: m1), m2.
Qed.

Lemma std_insert_bound k v m x :
  x < k → Forall (λ e, x < e.1) m →
  Forall (λ e, x < e.1) (std_insert k v m).2.
Proof.
  intros Hx. induction 1 as [|[k' v'] m Hlt Hm IH]; cbn; [by constructor|].
  destruct (k <? k'); [by repeat constructor|].
  destruct (k =? k'); [by constructor|].
  destruct (std_insert k v m). by constructor.
Qed.

Lemma std_insert_sorted k v m : std_sorted m → std_sorted (std_insert k v m).2.
Proof.
  induction m as [|[k' v'] m IH]; intros Hm; cbn; [by repeat constructor|].
  pose proof Hm as [Hall Hm']%std_sorted_cons.
  destruct (Z.ltb_spec k k') as [Hlt|Hge]; cbn.
  { apply std_sorted_cons. split; [|done]. constructor; [done|].
    eapply Forall_impl; [|exact Hall]. cbn. lia. }
  destruct (Z.eqb_spec k k'); [done|].
  pose proof (std_insert_bound k v m k' ltac:(lia) Hall) as Hb.
  specialize (IH Hm'). destruct (std_insert k v m). by apply std_sorted_cons.
Qed.

Lemma std_erase_subset k m : std_erase k m ⊆ m.
Proof.
  induction m as [|[k' v] m IH]; cbn; [done|].
  destruct (_ =? _); set_solver.
Qed.

Lemma std_erase_sorted k m : std_sorted m → std_sorted (std_erase k m).
Proof.
  induction m as [|[k' v] m IH]; intros Hm; cbn; [done|].
  pose proof Hm as [Hall Hm']%std_sorted_cons.
  destruct (_ =? _); [done|]. apply std_sorted_cons. split; [|by apply IH].
  rewrite Forall_forall in *. intros e. rewrite <- !list_elem_of_In in *.
  intros He. apply Hall, list_elem_of_In. by apply (std_erase_subset k m).
Qed.

(** An entry that is found can be split off. *)
Lemma std_find_split k v m :
  std_find k m = Some v →
  ∃ m1 m2, m = m1 ++ (k, v) :: m2 ∧ std_erase k m = m1 ++ m2.
Proof.
  induction m as [|[k' v'] m IH]; cbn; [done|].
  destruct (Z.eqb_spec k k') as [->|Hne]; [intros [= ->]; by exists [], m|].
  intros Hf. destruct (IH Hf) as (m1 & m2 & -> & ->).
  by exists ((k', v') :: m1), m2.
Qed.

Lemma std_find_elem k v m :
  std_sorted m → std_find k m = Some v ↔ (k, v) ∈ m.
Proof.
  induction m as [|[k' v'] m IH]; intros Hm; cbn; [set_solver|].
  apply std_sorted_cons in Hm as [Hall Hm]. rewrite elem_of_cons, <- IH by done.
  destruct (Z.eqb_spec k k') as [->|Hne]; [|naive_solver].
  rewrite std_find_above by done. naive_solver.
Qed.

(** The two updates on the finite-map view. *)
Lemma std_insert_view k v m :
  std_sorted m →
  std_map_view (std_insert k v m).2
    = match std_find k m with
      | Some _ => std_map_view m
      | None => <[k := v]> (std_map_view m)
      end.
Proof.
  intros Hm. destruct (std_find k m) as [w|] eqn:Hf.
  { by rewrite std_insert_present by eauto. }
  unfold std_map_view. clear Hm. induction m as [|[k' v'] m IH]; cbn in *; [done|].
  destruct (k <? k'); [done|]. destruct (Z.eqb_spec k k'); [done|].
  specialize (IH Hf). destruct (std_insert k v m). cbn in *.
  rewrite IH. by rewrite insert_insert_ne by congruence.
Qed.

Lemma std_erase_view k m :
  std_sorted m → std_map_view (std_erase k m) = delete k (std_map_view m).
Proof.
  unfold std_map_view. induction m as [|[k' v] m IH]; intros Hm; cbn.
  { by rewrite delete_empty. }
  apply std_sorted_cons in Hm as [Hall Hm].
  destruct (Z.eqb_spec k k') as [->|Hne].
  - rewrite delete_insert_id; [done|].
    change (list_to_map m) with (std_map_view m).
    by rewrite std_find_view, std_find_above.
  - cbn. by rewrite IH, delete_insert_ne by (done || congruence).
Qed.

Lemma std_find_erase k k' m :
  std_sorted m →
  std_find k' (std_erase k m) = if decide (k' = k) then None else std_find k' m.
Proof.
  intros Hm. rewrite <- !std_find_view, std_erase_view by done.
  case_decide; [subst; by rewrite lookup_delete_eq|].
  by rewrite lookup_delete_ne by congruence.
Qed.

Lemma std_find_insert k v k' m :
  std_sorted m → std_find k m = None →
  std_find k' (std_insert k v m).2
    = if decide (k' = k) then Some v else std_find k' m.
Proof.
  intros Hm Hf. rewrite <- !std_find_view, std_insert_view, Hf by done.
  case_decide; [subst; by rewrite lookup_insert_eq|].
  by rewrite lookup_insert_ne by congruence.
Qed.
End std_map.

#[global] Arguments std_map_view : simpl never.
