(* ===== verification/WebRtc.v ===== *)
(** [webrtc::AudioMixer] (libs/webrtc/include/api/audio/audio_mixer.h) and
    [webrtc::AudioMixerImpl] (modules/audio_mixer/audio_mixer_impl.h).

    Only the headers are part of the repository.  The mixer and its functions
    are the fields of the class [WebRtcMixer]; what the headers document about
    them is the class [WebRtcMixerLaws]; [ReferenceMixer] is an instance. *)

From stdpp Require Import sets.
From S2P Require Import Prelude.
From S2P Require Import AudioFrame.
From S2P Require Import Api.

(** [AudioProcessing::NativeRate] (modules/audio_processing/include) *)
Definition kSampleRate8kHz : Z := 8000.
Definition kSampleRate16kHz : Z := 16000.
Definition kSampleRate32kHz : Z := 32000.
Definition kSampleRate48kHz : Z := 48000.
Definition NativeRate : list Z :=
  [kSampleRate8kHz; kSampleRate16kHz; kSampleRate32kHz; kSampleRate48kHz].

(** The virtual functions of [AudioMixer::Source], called through a pointer
    (a location) in a world of objects [W]. *)
Record SourceCallbacks (W : Type) : Type := MkCallbacks {
  cb_GetAudioFrameWithInfo :
    nat → Z → AudioFrame → W → outcome (AudioFrameInfo * AudioFrame * W);
  cb_Ssrc : nat → W → outcome Z;
  cb_PreferredSampleRate : nat → W → outcome Z
}.
Arguments MkCallbacks {W} _ _ _.
Arguments cb_GetAudioFrameWithInfo {W} _ _ _ _ _.
Arguments cb_Ssrc {W} _ _ _.
Arguments cb_PreferredSampleRate {W} _ _ _.

Class WebRtcMixer := {
  MixerImpl : Type;
  (** [AudioMixerImpl::Create()] *)
  mixer_Create : MixerImpl;
  mixer_AddSource : nat → MixerImpl → bool * MixerImpl;
  mixer_RemoveSource : nat → MixerImpl → MixerImpl;
  mixer_Mix {W : Type} :
    SourceCallbacks W → Z → AudioFrame → MixerImpl → W
    → outcome (AudioFrame * MixerImpl * W)
}.

(** The source at [l] answers every call at a native rate and keeps [I]. *)
Definition source_answers {W} (cb : SourceCallbacks W) (I : W → Prop)
    (l : nat) : Prop :=
  ∀ w, I w →
    wpa (cb_Ssrc cb l w) (λ _, True)
    ∧ wpa (cb_PreferredSampleRate cb l w) (λ _, True)
    ∧ ∀ rate f, rate ∈ NativeRate → frame_wf f →
        wpa (cb_GetAudioFrameWithInfo cb l rate f w)
          (λ '(_, f', w'), frame_wf f' ∧ I w').

(** Every call through [l] has undefined behaviour [u]. *)
Definition source_undefined {W} (cb : SourceCallbacks W) (u : undefined)
    (l : nat) (w : W) : Prop :=
  cb_Ssrc cb l w = Undef u ∧ cb_PreferredSampleRate cb l w = Undef u
  ∧ ∀ rate f, cb_GetAudioFrameWithInfo cb l rate f w = Undef u.

(** The number of channels [Mix] supports. *)
Definition mixable_channels (n : Z) : Prop := 1 ≤ n ≤ 2.

Class WebRtcMixerLaws `{WebRtcMixer} := {
  (** the sources added and not removed *)
  registered : MixerImpl → list nat;
  create_registered : registered mixer_Create = [];
  (** "Returns true if adding was successful. A source is never added
      twice." *)
  add_registered l m :
    l ∉ registered m →
    (mixer_AddSource l m).1 = true
    ∧ registered (mixer_AddSource l m).2 ≡ₚ l :: registered m;
  (** "Removal is never attempted if a source has not been successfully
      added" *)
  remove_registered l m :
    l ∈ registered m → l :: registered (mixer_RemoveSource l m) ≡ₚ registered m;
  (** "Performs mixing by asking registered audio sources for audio.  The
      mixing rate is one of the rates listed in NativeRate." *)
  mix_spec {W} (cb : SourceCallbacks W) (I : W → Prop) n f m w :
    mixable_channels n → frame_wf f → I w →
    (∀ l, l ∈ registered m → source_answers cb I l) →
    wpa (mixer_Mix cb n f m w) (λ '(f', m', w'),
      frame_wf f' ∧ registered m' = registered m ∧ I w');
  (** every registered source is asked *)
  mix_asks {W} (cb : SourceCallbacks W) (I : W → Prop) u l n f m w :
    mixable_channels n → frame_wf f → I w → l ∈ registered m →
    (∀ w, I w → source_undefined cb u l w) →
    (∀ l', l' ∈ registered m → l' ≠ l →
       source_answers cb I l' ∨ ∀ w, I w → source_undefined cb u l' w) →
    mixer_Mix cb n f m w = Undef u ∨ ∃ s, mixer_Mix cb n f m w = Abort s
}.

(** ** A mixer that satisfies the laws *)

Section reference.
Context `{AudioFrameLaws}.

(** "the least native rate greater or equal to the preferred sample rates;
    kDefaultFrequency if there is none" *)
Definition CalculateOutputRate (rates : list Z) : Z :=
  match rates with
  | [] => 48000
  | _ =>
      let top := fold_right Z.max 0 rates in
      if top <=? 8000 then 8000 else if top <=? 16000 then 16000
      else if top <=? 32000 then 32000 else 48000
  end.

Lemma CalculateOutputRate_native rates : CalculateOutputRate rates ∈ NativeRate.
Proof.
  unfold CalculateOutputRate, NativeRate, kSampleRate8kHz, kSampleRate16kHz,
    kSampleRate32kHz, kSampleRate48kHz.
  destruct rates; [set_solver|]. repeat case_match; set_solver.
Qed.

Fixpoint ask_rates {W} (cb : SourceCallbacks W) (m : list nat) (w : W)
    : outcome (list Z) :=
  match m with
  | [] => Ret []
  | l :: m =>
      r ← cb_PreferredSampleRate cb l w; rs ← ask_rates cb m w; Ret (r :: rs)
  end.

(** The frames of the sources that returned [kNormal]; each source is given
    a new frame. *)
Fixpoint ask_frames {W} (cb : SourceCallbacks W) (rate : Z) (m : list nat)
    (w : W) : outcome (list AudioFrame * W) :=
  match m with
  | [] => Ret ([], w)
  | l :: m =>
      '(i, f, w) ← cb_GetAudioFrameWithInfo cb l rate AudioFrame_new w;
      '(fs, w) ← ask_frames cb rate m w;
      Ret (if decide (i = kNormal) then f :: fs else fs, w)
  end.

(** The saturated sum of the samples. *)
Definition combine (n : Z) (fs : list AudioFrame) : list Z :=
  fold_right (λ f acc, zip_with (λ x y, i16_saturate (x + y))
                         (takeZ n (frame_data f)) acc)
    (replicate (Z.to_nat n) 0) fs.

Definition ref_Mix {W} (cb : SourceCallbacks W) (n : Z) (f : AudioFrame)
    (m : list nat) (w : W) : outcome (AudioFrame * list nat * W) :=
  rates ← ask_rates cb m w;
  let rate := CalculateOutputRate rates in
  '(fs, w) ← ask_frames cb rate m w;
  let F := MkFrameFormat 0 (rate / 100) rate kNormalSpeech kVadActive n in
  f ← UpdateFrame (Some (combine (total_samples F) fs)) F f;
  Ret (f, m, w).

Fixpoint remove_first (l : nat) (m : list nat) : list nat :=
  match m with
  | [] => []
  | l' :: m => if decide (l' = l) then m else l' :: remove_first l m
  end.

Lemma remove_first_spec l m : l ∈ m → l :: remove_first l m ≡ₚ m.
Proof.
  induction m as [|l' m IH]; cbn; [by intros ?%elem_of_nil|].
  case_decide as Hl; [by subst|]. intros [|Hm]%elem_of_cons; [congruence|].
  etrans; [apply Permutation_swap|]. by rewrite IH.
Qed.

#[local] Instance ReferenceMixer : WebRtcMixer := {
  MixerImpl := list nat;
  mixer_Create := [];
  mixer_AddSource l m := (true, m ++ [l]);
  mixer_RemoveSource l m := remove_first l m;
  mixer_Mix W cb n f m w := ref_Mix cb n f m w
}.

Lemma combine_length n fs :
  0 ≤ n ≤ kMaxDataSizeSamples → Forall frame_wf fs → lenZ (combine n fs) = n.
Proof.
  intros Hn. induction 1 as [|f fs Hf _ IH]; cbn.
  { rewrite lenZ_replicate. lia. }
  fold (combine n fs). unfold lenZ in *. rewrite length_zip_with.
  pose proof (lenZ_takeZ n (frame_data f) ltac:(lia)) as Ht.
  rewrite frame_data_length in Ht by done. unfold lenZ in Ht. lia.
Qed.

Lemma ask_rates_ok {W} (cb : SourceCallbacks W) (I : W → Prop) m w :
  I w → (∀ l, l ∈ m → source_answers cb I l) →
  wpa (ask_rates cb m w) (λ _, True).
Proof.
  intros Hw. induction m as [|l m IH]; intros Hm; cbn; [done|].
  destruct (Hm l ltac:(left) w Hw) as (_ & Hr & _).
  apply wpa_bind. eapply wpa_mono; [|exact Hr]. intros r _.
  apply wpa_bind. eapply wpa_mono; [|apply IH; intros; apply Hm; by right].
  done.
Qed.

Lemma ask_frames_ok {W} (cb : SourceCallbacks W) (I : W → Prop) rate m w :
  I w → rate ∈ NativeRate → (∀ l, l ∈ m → source_answers cb I l) →
  wpa (ask_frames cb rate m w) (λ '(fs, w'), Forall frame_wf fs ∧ I w').
Proof.
  intros Hw Hrate. revert w Hw. induction m as [|l m IH]; intros w Hw Hm; cbn.
  { by split. }
  destruct (Hm l ltac:(left) w Hw) as (_ & _ & Hf).
  apply wpa_bind. eapply wpa_mono; [|apply Hf; [done|apply AudioFrame_new_wf]].
  intros [[i f] w'] [Hwf Hw']. apply wpa_bind.
  eapply wpa_mono; [|apply IH; [done|intros; apply Hm; by right]].
  intros [fs w''] [Hfs Hw'']. cbn. case_decide; (split; [|done]); [|done].
  by constructor.
Qed.

Lemma ref_Mix_spec {W} (cb : SourceCallbacks W) (I : W → Prop) n f m w :
  mixable_channels n → frame_wf f → I w →
  (∀ l, l ∈ m → source_answers cb I l) →
  wpa (ref_Mix cb n f m w) (λ '(f', m', w'), frame_wf f' ∧ m' = m ∧ I w').
Proof.
  intros Hn Hf Hw Hm. unfold ref_Mix, mixable_channels in *. apply wpa_bind.
  eapply wpa_mono; [|by eapply ask_rates_ok]. intros rates _.
  pose proof (CalculateOutputRate_native rates) as Hr.
  set (rate := CalculateOutputRate rates) in *. cbn zeta.
  apply wpa_bind. eapply wpa_mono; [|by apply ask_frames_ok].
  intros [fs w'] [Hfs Hw']. apply wpa_bind.
  set (F := MkFrameFormat _ _ _ _ _ _).
  assert (0 ≤ rate / 100 ≤ 480) as Hr100.
  { clearbody rate. unfold NativeRate in Hr. repeat
      (apply elem_of_cons in Hr as [->|Hr]; [by vm_compute; split; discriminate|]).
    by apply elem_of_nil in Hr. }
  assert (format_fits F) as HF.
  { unfold format_fits, total_samples, kMaxDataSizeSamples. cbn. nia. }
  eapply wpa_mono; [|apply wp_wpa, UpdateFrame_data; [done|exact HF|]].
  - intros f' (? & _). by cbn.
  - apply combine_length; [|done]. destruct HF as (? & ? & ?).
    unfold total_samples in *. nia.
Qed.

Lemma ref_Mix_asks {W} (cb : SourceCallbacks W) (I : W → Prop) u l n f m w :
  I w → l ∈ m →
  (∀ w, I w → source_undefined cb u l w) →
  (∀ l', l' ∈ m → l' ≠ l →
     source_answers cb I l' ∨ ∀ w, I w → source_undefined cb u l' w) →
  ref_Mix cb n f m w = Undef u ∨ ∃ s, ref_Mix cb n f m w = Abort s.
Proof.
  intros Hw Hl Hu Hm.
  assert (ask_rates cb m w = Undef u ∨ ∃ s, ask_rates cb m w = Abort s) as Ha.
  2: { unfold ref_Mix. destruct Ha as [->|[s ->]]; [by left|right; by exists s]. }
  induction m as [|l' m IH]; [by apply elem_of_nil in Hl|]. cbn.
  destruct (decide (l' = l)) as [->|Hne].
  { destruct (Hu w Hw) as (_ & -> & _). by left. }
  destruct (Hm l' ltac:(left) Hne) as [Ha|Ha].
  2: { destruct (Ha w Hw) as (_ & -> & _). by left. }
  destruct (Ha w Hw) as (_ & Hr & _).
  destruct (cb_PreferredSampleRate cb l' w); [|by right; eexists|done..].
  cbn. destruct IH as [->|[s ->]]; [|by intros; apply Hm; [right|]|by left|
    by right; eexists]. by apply elem_of_cons in Hl as [->|].
Qed.

#[local] Program Instance ReferenceMixerLaws : WebRtcMixerLaws := {
  registered m := m
}.
Next Obligation. done. Qed.
Next Obligation.
  intros l m _. split; [done|]. cbn. by rewrite Permutation_app_comm.
Qed.
Next Obligation. apply remove_first_spec. Qed.
Next Obligation. intros W cb I n f m w. apply ref_Mix_spec. Qed.
Next Obligation. intros W cb I u l n f m w _ _. apply ref_Mix_asks. Qed.
End reference.
