(* ===== verification/Heap.v ===== *)
(** The objects of the mixer: sources owned by [std::shared_ptr], and the
    virtual calls through pointers to them.

    A location is never reused, so that a call through a pointer to a freed
    object is recognised as such. *)

From stdpp Require Import gmap.
From S2P Require Import Prelude.
From S2P Require Import Buffer.
From S2P Require Import AudioFrame.
From S2P Require Import Api.
From S2P Require Import AudioSource.
From S2P Require Import RecordSource.
From S2P Require Import Ffmpeg.
From S2P Require Import FileDecoder.
From S2P Require Import FileSource.
From S2P Require Import WebRtc.

(** The two subclasses of [AudioSource]. *)
Inductive SourceObj `{FFmpeg} : Type :=
| RecordObj (s : AudioRecordSource)
| FileObj (s : AudioFileSource).

(** Each object with the number of [shared_ptr]s that own it. *)
Record heap `{FFmpeg} : Type := MkHeap {
  objects : gmap nat (nat * SourceObj);
  next_loc : nat
}.
Arguments MkHeap {_} _ _.

Section heap.
Context `{FFmpeg}.
Implicit Types (h : heap) (l : nat) (o : SourceObj).

Definition empty_heap : heap := MkHeap ∅ 0.

(** [std::make_shared] *)
Definition make_shared o h : nat * heap :=
  (next_loc h,
   MkHeap (<[next_loc h := (1%nat, o)]> (objects h)) (S (next_loc h))).

(** Copying and destroying a [shared_ptr]. *)
Definition shared_copy l h : heap :=
  MkHeap (alter (λ '(n, o), (S n, o)) l (objects h)) (next_loc h).
Definition shared_release l h : heap :=
  match objects h !! l with
  | Some (S (S n), o) => MkHeap (<[l := (S n, o)]> (objects h)) (next_loc h)
  | _ => MkHeap (delete l (objects h)) (next_loc h)
  end.

(** Reading and writing the object a pointer points to. *)
Definition deref l h : outcome SourceObj :=
  match objects h !! l with
  | Some (_, o) => Ret o
  | None => Undef DanglingPointer
  end.
Definition assign l o h : heap :=
  MkHeap (alter (λ '(n, _), (n, o)) l (objects h)) (next_loc h).

Definition obj_Ssrc o : Z :=
  match o with RecordObj s => rs_Ssrc s | FileObj s => fs_Ssrc s end.
Definition obj_PreferredSampleRate o : Z :=
  match o with
  | RecordObj s => rs_PreferredSampleRate s
  | FileObj s => fs_PreferredSampleRate s
  end.
Definition obj_volume o : f32 :=
  match o with
  | RecordObj s => volume_ (rs_base s)
  | FileObj s => volume_ (fs_base s)
  end.
Definition is_record o : bool :=
  match o with RecordObj _ => true | FileObj _ => false end.
Definition obj_UpdateVolume (volume : f32) o : SourceObj :=
  match o with
  | RecordObj s => RecordObj (rs_UpdateVolume s volume)
  | FileObj s => FileObj (fs_UpdateVolume s volume)
  end.

Context `{BuildConfig, AudioFrameApi}.

Definition obj_GetAudioFrameWithInfo (fuel : nat) o (rate : Z)
    (f : AudioFrame) : outcome (AudioFrameInfo * AudioFrame * SourceObj) :=
  match o with
  | RecordObj s =>
      '(i, f, s) ← rs_GetAudioFrameWithInfo s rate f; Ret (i, f, RecordObj s)
  | FileObj s =>
      '(i, f, s) ← fs_GetAudioFrameWithInfo fuel s rate f;
      Ret (i, f, FileObj s)
  end.

(** The virtual calls, through a pointer. *)
Definition callbacks (fuel : nat) : SourceCallbacks heap := {|
  cb_GetAudioFrameWithInfo l rate f h :=
    o ← deref l h;
    '(i, f, o) ← obj_GetAudioFrameWithInfo fuel o rate f;
    Ret (i, f, assign l o h);
  cb_Ssrc l h := o ← deref l h; Ret (obj_Ssrc o);
  cb_PreferredSampleRate l h := o ← deref l h; Ret (obj_PreferredSampleRate o)
|}.

(** An object as [DoAddSource] makes it. *)
Definition made_for (source : MixerSource) o : Prop :=
  obj_Ssrc o = ms_ssrc source ∧ obj_volume o = ms_volume source
  ∧ is_record o = (ms_type source =? TYPE_RECORD).

(** *** Lemmas *)

Lemma objects_assign l o h l' :
  objects (assign l o h) !! l'
    = if decide (l' = l) then (λ p, (p.1, o)) <$> objects h !! l
      else objects h !! l'.
Proof.
  unfold assign. cbn. case_decide as Hl.
  - subst. rewrite lookup_alter_eq. by destruct (objects h !! l) as [[? ?]|].
  - by rewrite lookup_alter_ne.
Qed.

Lemma objects_copy l h l' :
  objects (shared_copy l h) !! l'
    = if decide (l' = l) then (λ p, (S p.1, p.2)) <$> objects h !! l
      else objects h !! l'.
Proof.
  unfold shared_copy. cbn. case_decide as Hl.
  - subst. rewrite lookup_alter_eq. by destruct (objects h !! l) as [[? ?]|].
  - by rewrite lookup_alter_ne.
Qed.

Lemma objects_release l n o h l' :
  objects h !! l = Some (S n, o) →
  objects (shared_release l h) !! l'
    = if decide (l' = l) then
        match n with O => None | S _ => Some (n, o) end
      else objects h !! l'.
Proof.
  intros Hl. unfold shared_release. rewrite Hl.
  destruct n; cbn; case_decide; subst;
    rewrite ?lookup_delete_eq, ?lookup_delete_ne, ?lookup_insert_eq,
      ?lookup_insert_ne by done; done.
Qed.

Lemma objects_make o h l :
  objects (make_shared o h).2 !! l
    = if decide (l = next_loc h) then Some (1%nat, o) else objects h !! l.
Proof.
  cbn. case_decide; subst; [by rewrite lookup_insert_eq|].
  by rewrite lookup_insert_ne.
Qed.

Lemma deref_ok l n o h : objects h !! l = Some (n, o) → deref l h = Ret o.
Proof. unfold deref. by intros ->. Qed.

Lemma deref_dangling l h :
  objects h !! l = None → deref l h = Undef DanglingPointer.
Proof. unfold deref. by intros ->. Qed.

Lemma dangling_undefined fuel l h :
  objects h !! l = None → source_undefined (callbacks fuel) DanglingPointer l h.
Proof. intros Hl. split_and!; intros; cbn; by rewrite deref_dangling. Qed.

Lemma assign_id l n o h : objects h !! l = Some (n, o) → assign l o h = h.
Proof.
  intros Hl. destruct h as [os k]. unfold assign. cbn in *. f_equal.
  apply map_eq. intros l'. destruct (decide (l' = l)) as [->|].
  - rewrite lookup_alter_eq, Hl. done.
  - by rewrite lookup_alter_ne.
Qed.
End heap.
