(* ===== verification/Mixer.v ===== *)
(** [audio_mixer::AudioMixer] (src/src/audio_mixer.cpp, .h): the map from SSRC
    to source, the WebRTC mixer the sources are registered with, and the frame
    the result is mixed into. *)

From stdpp Require Import gmap.
From S2P Require Import Prelude.
From S2P Require Import Buffer.
From S2P Require Import AudioFrame.
From S2P Require Import Api.
From S2P Require Import AudioSource.
From S2P Require Import RecordSource.
From S2P Require Import Ffmpeg.
From S2P Require Import FfmpegReference.
From S2P Require Import FileDecoder.
From S2P Require Import Resampler.
From S2P Require Import FileSource.
From S2P Require Import StdMap.
From S2P Require Import WebRtc.
From S2P Require Import Heap.

Record AudioMixer `{WebRtcMixer} : Type := MkAudioMixer {
  mixer_ : MixerImpl;
  sources_ : list (Z * nat);
  mixed_frame_ : AudioFrame;
  output_sample_rate_ : Z;
  output_channel_num_ : Z;
  frame_duration_ms_ : Z;
  report_output_samples_ : Z;
  real_output_samples_ : Z
}.
Arguments MkAudioMixer {_} _ _ _ _ _ _ _ _.

(** The bytes of 16-bit samples in memory, low byte first. *)
Definition sample_bytes (x : Z) : list Z := [x mod 256; (x / 256) mod 256].
Definition samples_bytes (l : list Z) : list Z := concat (sample_bytes <$> l).

Section mixer.
Context `{FFmpeg, BuildConfig, AudioFrameApi, WebRtcMixer}.
Implicit Types (am : AudioMixer) (h : heap) (source : MixerSource).

Definition am_set_sources am (m : list (Z * nat)) : AudioMixer :=
  MkAudioMixer (mixer_ am) m (mixed_frame_ am) (output_sample_rate_ am)
    (output_channel_num_ am) (frame_duration_ms_ am)
    (report_output_samples_ am) (real_output_samples_ am).
Definition am_set_mixer am (x : MixerImpl) (f : AudioFrame) : AudioMixer :=
  MkAudioMixer x (sources_ am) f (output_sample_rate_ am)
    (output_channel_num_ am) (frame_duration_ms_ am)
    (report_output_samples_ am) (real_output_samples_ am).

(** [sources_.insert(pair)] and [sources_.emplace(pair)]: the pair owns the
    object too, and hands its ownership to the map if it is inserted. *)
Definition emplace_shared (ssrc : Z) (l : nat) am h : AudioMixer * heap :=
  let h := shared_copy l h in
  let '(inserted, sources) := std_insert ssrc l (sources_ am) in
  (am_set_sources am sources, if inserted then h else shared_release l h).

(** [DoAddSource]; the caller owns the returned pointer. *)
Definition DoAddSource (fuel : nat) am h source
    : outcome (nat * AudioMixer * heap) :=
  if ms_type source =? TYPE_RECORD then
    _ ← RTC_CHECK (ms_sample_rate source =? output_sample_rate_ am)
          "record source must have the same sample rate as output";
    _ ← RTC_CHECK (ms_channel_num source =? output_channel_num_ am)
          "record source must have the same channels as output";
    s ← AudioRecordSource_new (ms_ssrc source) (output_sample_rate_ am)
          (output_channel_num_ am) (frame_duration_ms_ am) (ms_volume source);
    let '(record_source, h) := make_shared (RecordObj s) h in
    let '(am, h) := emplace_shared (ms_ssrc source) record_source am h in
    Ret (record_source, am, h)
  else
    s ← AudioFileSource_new fuel (ms_ssrc source) (ms_path source)
          (output_sample_rate_ am) (output_channel_num_ am)
          (frame_duration_ms_ am) (ms_volume source);
    let '(file_source, h) := make_shared (FileObj s) h in
    let '(am, h) := emplace_shared (ms_ssrc source) file_source am h in
    Ret (file_source, am, h).

(** [for (auto& source : config.sources) DoAddSource(source);] *)
Fixpoint add_sources (fuel : nat) am h (l : list MixerSource)
    : outcome (AudioMixer * heap) :=
  match l with
  | [] => Ret (am, h)
  | source :: l =>
      '(p, am, h) ← DoAddSource fuel am h source;
      add_sources fuel am (shared_release p h) l
  end.

(** The loops over [sources_] of the constructor and the destructor. *)
Definition register_all (m : list (Z * nat)) (x : MixerImpl) : MixerImpl :=
  fold_left (λ x item, (mixer_AddSource item.2 x).2) m x.
Definition unregister_all (m : list (Z * nat)) (x : MixerImpl) : MixerImpl :=
  fold_left (λ x item, mixer_RemoveSource item.2 x) m x.

Definition mixed_format am : FrameFormat :=
  MkFrameFormat 0 (to_size_t (report_output_samples_ am))
    (output_sample_rate_ am) kUndefined kVadUnknown
    (to_size_t (output_channel_num_ am)).

(** The constructor. *)
Definition AudioMixer_new (fuel : nat) (config : MixerConfig)
    : outcome (AudioMixer * heap) :=
  _ ← RTC_CHECK (mc_frame_duration_ms config <=? kFrameDurationInMs)
        "frame duration too long";
  report ← per_frame (mc_output_sample_rate config) kFrameDurationInMs;
  real ← per_frame (mc_output_sample_rate config)
           (mc_frame_duration_ms config);
  '(am, h) ← add_sources fuel
    (MkAudioMixer mixer_Create [] AudioFrame_new
       (mc_output_sample_rate config) (mc_output_channel_num config)
       (mc_frame_duration_ms config) report real)
    empty_heap (mc_sources config);
  let am := am_set_mixer am (register_all (sources_ am) (mixer_ am))
              (mixed_frame_ am) in
  frame ← UpdateFrame None (mixed_format am) (mixed_frame_ am);
  Ret (am_set_mixer am (mixer_ am) frame, h).

(** The destructor: what is left of the WebRTC mixer and of the objects. *)
Definition AudioMixer_delete am h : MixerImpl * heap :=
  (unregister_all (sources_ am) (mixer_ am),
   fold_left (λ h item, shared_release item.2 h) (sources_ am) h).

Definition am_UpdateVolume am h (ssrc : Z) (volume : f32) : outcome heap :=
  match std_find ssrc (sources_ am) with
  | Some l => o ← deref l h; Ret (assign l (obj_UpdateVolume volume o) h)
  | None => Ret h
  end.

Definition AddSource (fuel : nat) am h source
    : outcome (bool * AudioMixer * heap) :=
  '(audio_source, am, h) ← DoAddSource fuel am h source;
  let '(_, x) := mixer_AddSource audio_source (mixer_ am) in
  Ret (true, am_set_mixer am x (mixed_frame_ am),
       shared_release audio_source h).

Definition RemoveSource am h (ssrc : Z) : bool * AudioMixer * heap :=
  match std_find ssrc (sources_ am) with
  | Some l =>
      let am := am_set_mixer am (mixer_RemoveSource l (mixer_ am))
                  (mixed_frame_ am) in
      (true, am_set_sources am (std_erase ssrc (sources_ am)),
       shared_release l h)
  | None => (false, am, h)
  end.

(** [Mix(output_buffer)], where [room] bytes are writable at the buffer: the
    return value and the bytes written. *)
Definition Mix (fuel : nat) am h (room : Z)
    : outcome (Z * list Z * AudioMixer * heap) :=
  '(frame, x, h) ← mixer_Mix (callbacks fuel)
    (to_size_t (output_channel_num_ am)) (mixed_frame_ am) (mixer_ am) h;
  let am := am_set_mixer am x frame in
  let size := av_samples_get_buffer_size (output_channel_num_ am)
                (real_output_samples_ am) kOutputSampleFormat 1 in
  let bytes := samples_bytes (frame_data frame) in
  _ ← require ((to_size_t size <=? lenZ bytes) && (to_size_t size <=? room))
        OutOfBounds;
  Ret (size, takeZ (to_size_t size) bytes, am, h).

Definition AddRecordedData am h (ssrc : Z) (samples : list Z) (size : Z)
    : outcome heap :=
  match std_find ssrc (sources_ am) with
  | Some l =>
      o ← deref l h;
      match o with
      | RecordObj s =>
          s ← OnAudioRecorded s samples size; Ret (assign l (RecordObj s) h)
      | FileObj _ => Undef BadDowncast
      end
  | None => Ret h
  end.
End mixer.
