(* ===== verification/MixerInvariant.v ===== *)
(** The invariant of the mixer: every entry of [sources_] owns one live
    source of the mixer's parameters, exactly these sources are registered
    with the WebRTC mixer, and no other object exists. *)

From stdpp Require Import gmap.
From S2P Require Import Prelude.
From S2P Require Import Buffer.
From S2P Require Import AudioFrame.
From S2P Require Import Api.
From S2P Require Import AudioSource.
From S2P Require Import RecordSource.
From S2P Require Import Ffmpeg.
From S2P Require Import FfmpegReference.
From S2P Require Import FileDecoder.
From S2P Require Import Resampler.
From S2P Require Import FileSource.
From S2P Require Import StdMap.
From S2P Require Import WebRtc.
From S2P Require Import Heap.
From S2P Require Import Mixer.

(** ** Sources of the mixer *)

Section source_objects.
Context `{FFmpegSpec, !FifoReliable, !StableChannels}.
Context `{BuildConfig, AudioFrameLaws}.
Context (max_channels : Z).
Hypothesis channels_range : ∀ c, 0 < ctx_channels c ≤ max_channels.
Hypothesis address_space : alloc_limit < 2 ^ 63.
Context (fuel : nat).

(** The files the decoder opens have fewer packets and frames than the
    fuel, and parameters the frame arithmetic is defined for. *)
Definition library_ok (ms : Z) : Prop :=
  streams_ok max_channels ms
  ∧ (∀ path e, avformat_open_input path = (e, None) → e < 0)
  ∧ ∀ path e0 c0 e c,
      avformat_open_input path = (e0, Some c0) →
      avformat_find_stream_info c0 = (e, c) →
      (S (length (fmt_packets c)) < fuel)%nat
      ∧ ∀ no k, k `prefix_of` audio_packets no (fmt_packets c) →
          (length (decoded k) < fuel)%nat.

(** A record source with the queue [l], and a block the allocator gave. *)
Definition rs_live (s : AudioRecordSource) (l : list Z) : Prop :=
  rs_queue s l ∧ capacity_ (rs_buffer s) * 2 ≤ Z.max 0 alloc_limit.

(** A source of a mixer with these output parameters.  Record sources need
    10 ms frames: shorter ones read past the recorded samples. *)
Definition object_ok (osr och ms : Z) (o : SourceObj) : Prop :=
  match o with
  | RecordObj s =>
      rs_sample_rate s = osr ∧ rs_channel_num s = och
      ∧ rs_frame_duration_ms s = ms ∧ ms = kFrameDurationInMs
      ∧ ∃ l, rs_live s l
  | FileObj s =>
      fs_output_sample_rate s = osr
      ∧ ∃ file out, fs_ok max_channels file out s
          ∧ enough_fuel fuel file (fs_decoder s)
  end.

(** The parameters of a mixer for which everything is defined. *)
Definition params_ok (osr och ms : Z) : Prop :=
  output_ok osr och ms ∧ 100 ≤ osr ∧ 1000 ≤ osr * ms ∧ mixable_channels och.

Lemma params_timing osr och ms :
  params_ok osr och ms → ms = kFrameDurationInMs → valid_timing osr och ms.
Proof.
  unfold params_ok, output_ok, mixable_channels, valid_timing.
  unfold kFrameDurationInMs, kMaxDataSizeSamples.
  intros ((Hms & Ho & Hio & Hc & Hic & Hfit) & Hosr & _ & Hch) ->.
  pose proof (frames_share_nonneg osr 10 ltac:(lia) Ho) as Hn.
  assert (osr < 100 * (frames_share osr 10 + 1)).
  { unfold frames_share. change (1000 / 10) with 100. dlia. }
  rewrite Z.max_l in Hfit by lia. unfold_i32. split_and!; nia.
Qed.

Lemma OnAudioRecorded_safe s l samples size :
  rs_live s l → is_i32 size → size / 2 ≤ lenZ samples →
  wpa (OnAudioRecorded s samples size) (λ s', ∃ l',
    rs_live s' l' ∧ s' = rs_set_buffer s (rs_buffer s')).
Proof.
  intros [Hq Hcap] Hi Hlen.
  destruct (rs_queue_capacity _ _ Hq) as [Hc0 Hl]. pose proof (lenZ_nonneg l).
  destruct (Z.lt_ge_cases size 0) as [Hneg|Hpos].
  { by rewrite (OnAudioRecorded_negative_aux _ _ _ _ Hq) by (done || lia). }
  set (n := lenZ l + size / 2).
  assert (0 ≤ size / 2 < 2 ^ 30) as Hs2 by (unfold_i32; dlia).
  assert (can_grow 2 (rs_buffer s) n true
    ∨ ¬ can_grow 2 (rs_buffer s) n true) as [Hg|Hg].
  { unfold can_grow. destruct (Z.le_gt_cases n (capacity_ (rs_buffer s)));
      [by left; left|].
    destruct (Z.le_gt_cases (grown (rs_buffer s) n true * 2) alloc_limit);
      [by left; right|right; lia]. }
  - apply wp_wpa. eapply wp_mono; [|eapply OnAudioRecorded_queue; try done].
    + intros s' (Hq' & Hc' & Hs'). eexists. split; [|done]. split; [done|].
      rewrite Hc'. fold n. unfold can_grow, grown in *.
      destruct (Z.leb_spec n (capacity_ (rs_buffer s))); [done|lia].
    + unfold u64_modulus. lia.
  - unfold OnAudioRecorded, AppendData.
    destruct Hq as (_ & _ & _ & Hb). rewrite wf_dcheck by apply Hb.
    pose proof (holds_size _ _ Hb) as Hsz.
    rewrite to_size_t_half by done. cbn [mbind outcome_bind].
    rewrite Hsz, to_size_t_small by (unfold is_size_t, u64_modulus; lia).
    by rewrite (EnsureCapacity_bad_alloc 0 2) by (apply Hb || done).
Qed.

(** ** Polling a source *)

Lemma rs_poll s l rate f :
  rs_live s l → rs_frame_duration_ms s = kFrameDurationInMs →
  100 ≤ rs_sample_rate s → 1 ≤ rs_channel_num s → frame_wf f →
  wpa (rs_GetAudioFrameWithInfo s rate f) (λ '(_, f', s'),
    frame_wf f' ∧ s' = rs_set_buffer s (rs_buffer s')
    ∧ (rate ≠ rs_sample_rate s → f' = f ∧ s' = s)
    ∧ ∃ l', rs_live s' l').
Proof.
  intros [Hq Hcap] Hms Hsr Hch Hf.
  destruct (decide (rate = rs_sample_rate s)) as [->|Hne].
  2: { rewrite rs_get_error by done. cbn. split_and!; [done| |done|].
       - apply rs_set_buffer_id.
       - by exists l. }
  destruct (Z.lt_ge_cases (lenZ l) (rs_real_buffer_num_elements s)) as [Hlt|Hge].
  { rewrite (rs_get_muted _ _ _ Hq) by done. cbn. split_and!; [done| |done|].
    - apply rs_set_buffer_id.
    - by exists l. }
  pose proof (rs_10ms_enough _ _ Hq Hms) as Hten.
  destruct (rs_format_total _ _ Hq) as [_ Htot].
  assert (0 < total_samples (rs_format s)) as Hpos.
  { rewrite Htot. assert (0 < frames_share (rs_sample_rate s) kFrameDurationInMs)
      by (apply Z.div_str_pos; vm_compute (1000 / _); lia). nia. }
  apply wp_wpa. eapply wp_mono; [|apply (rs_get_frame s l); [done|done|lia|lia]].
  intros [[i f'] s'] (_ & Hq' & Hs' & Hc' & f0 & -> & Hw & _).
  split_and!; [by apply ApplyVolume_format|done|done|].
  eexists. split; [done|]. by rewrite Hc'.
Qed.

Lemma fs_poll file out s rate f :
  fs_ok max_channels file out s → enough_fuel fuel file (fs_decoder s) →
  frame_wf f →
  wpa (fs_GetAudioFrameWithInfo fuel s rate f) (λ '(_, f', s'),
    frame_wf f' ∧ (rate ≠ fs_output_sample_rate s → f' = f ∧ s' = s)
    ∧ fs_ssrc s' = fs_ssrc s
    ∧ fs_output_sample_rate s' = fs_output_sample_rate s
    ∧ ∃ out', fs_ok max_channels file out' s'
        ∧ enough_fuel fuel file (fs_decoder s')).
Proof.
  intros Hok Hfuel Hf.
  destruct (decide (rate = fs_output_sample_rate s)) as [->|Hne].
  2: { unfold fs_GetAudioFrameWithInfo.
       rewrite (proj2 (Z.eqb_neq _ _)) by done. cbn.
       split_and!; [done|done|done|done|by exists out]. }
  eapply wpa_mono; [|by apply fs_get_frame].
  intros [[i f'] s'] (r & o & (got & Hok' & Hrd & _ & _ & Hle & _) & Hw & _).
  split_and!; [done|done|by rewrite Hrd|by rewrite Hrd|].
  exists (out ++ got). split; [done|].
  destruct Hfuel. split; [lia|done].
Qed.

Lemma object_poll osr och ms o rate f :
  params_ok osr och ms → object_ok osr och ms o → frame_wf f →
  wpa (obj_GetAudioFrameWithInfo fuel o rate f) (λ '(_, f', o'),
    frame_wf f' ∧ object_ok osr och ms o' ∧ obj_Ssrc o' = obj_Ssrc o
    ∧ (rate ≠ osr → o' = o)).
Proof.
  intros (_ & Hosr & _ & Hch) Ho Hf. unfold mixable_channels in Hch.
  destruct o as [s|s]; cbn [object_ok obj_GetAudioFrameWithInfo] in *.
  - destruct Ho as (Hsr & Hc & Hd & Hms & l & Hl).
    apply wpa_bind. eapply wpa_mono; [|eapply (rs_poll s l); (done || lia)].
    intros [[i f'] s'] (Hw & Hs' & Hne & l' & Hl'). cbn.
    rewrite Hs'. split_and!; try done.
    + exists l'. by rewrite <- Hs'.
    + intros Hr. rewrite <- Hs'. destruct Hne as [_ ->]; [congruence|done].
  - destruct Ho as (Hsr & file & out & Hok & Hfuel).
    apply wpa_bind. eapply wpa_mono; [|by eapply fs_poll].
    intros [[i f'] s'] (Hw & Hne & Hss & Hrr & out' & Hok' & Hfuel'). cbn.
    split_and!; [done|congruence|by exists file, out'|done|].
    intros Hr. destruct Hne as [_ ->]; [congruence|done].
Qed.

Lemma object_volume osr och ms v o :
  object_ok osr och ms o → object_ok osr och ms (obj_UpdateVolume v o).
Proof. by destruct o. Qed.

(** ** Making a source *)

Lemma new_record_source osr och ms ssrc v :
  params_ok osr och ms → ms = kFrameDurationInMs →
  wp (AudioRecordSource_new ssrc osr och ms v) (λ s,
    object_ok osr och ms (RecordObj s) ∧ obj_Ssrc (RecordObj s) = ssrc
    ∧ obj_volume (RecordObj s) = v).
Proof.
  intros Hp Hms.
  eapply wp_mono; [|apply rs_new_queue; by apply params_timing].
  intros s (Hq & Hv & Hss & Hsr & Hc & Hd & Hcap). cbn. rewrite Hv.
  split_and!; [done..| |done|done].
  exists []. split; [done|]. rewrite Hcap. lia.
Qed.

Lemma missing_file ssrc path osr och ms v e :
  output_ok osr och ms → avformat_open_input path = (e, None) → e < 0 →
  wpa (AudioFileSource_new fuel ssrc path osr och ms v) (λ _, False).
Proof.
  intros (Hms & Ho & Hio & _) Hopen He.
  unfold AudioFileSource_new, kFrameDurationInMs in *.
  rewrite !per_frame_ok by (done || lia). cbn [mbind outcome_bind].
  unfold AudioFileDecoder_new.
  destruct av_frame_alloc; [|done]. destruct av_packet_alloc; [|done].
  rewrite Hopen. cbn. by rewrite (proj2 (Z.leb_gt _ _)) by done.
Qed.

Lemma new_file_source osr och ms ssrc path v :
  params_ok osr och ms → library_ok ms →
  wpa (AudioFileSource_new fuel ssrc path osr och ms v) (λ s,
    object_ok osr och ms (FileObj s) ∧ obj_Ssrc (FileObj s) = ssrc
    ∧ obj_volume (FileObj s) = v).
Proof.
  intros (Hout & _) (Hst & Hnone & Hlib).
  destruct (avformat_open_input path) as [e0 [c0|]] eqn:Hopen.
  2: { eapply wpa_mono; [|eapply missing_file; by eauto]. done. }
  destruct (avformat_find_stream_info c0) as [e c] eqn:Hinfo.
  destruct (Hlib _ _ _ _ _ Hopen Hinfo) as [Hlen Hdec].
  eapply wpa_mono; [|eapply AudioFileSource_new_ok; (done || lia || idtac)].
  intros s (Hok & Hss & Hv & Hsr & Hle). cbn. rewrite Hv.
  split; [|done]. split; [done|].
  eexists _, _. split; [done|]. split; [lia|]. apply Hdec.
Qed.
End source_objects.

(** ** Ownership *)

Section mixer_invariant.
Context `{FFmpegSpec, !FifoReliable, !StableChannels}.
Context `{BuildConfig, AudioFrameLaws, WebRtcMixerLaws}.
Context (max_channels : Z).
Hypothesis channels_range : ∀ c, 0 < ctx_channels c ≤ max_channels.
Hypothesis address_space : alloc_limit < 2 ^ 63.
Context (fuel : nat).
Implicit Types (am : AudioMixer) (h : heap).

Definition am_object am (o : SourceObj) : Prop :=
  object_ok max_channels fuel (output_sample_rate_ am)
    (output_channel_num_ am) (frame_duration_ms_ am) o.
Definition am_params am : Prop :=
  params_ok (output_sample_rate_ am) (output_channel_num_ am)
    (frame_duration_ms_ am).

(** The entry owns a live object, which carries its key. *)
Definition entry_ok am h (e : Z * nat) : Prop :=
  ∃ o, objects h !! e.2 = Some (1%nat, o) ∧ obj_Ssrc o = e.1
    ∧ am_object am o.

Definition locations am : list nat := (sources_ am).*2.

Definition owned am h : Prop :=
  std_sorted (sources_ am) ∧ NoDup (locations am)
  ∧ Forall (entry_ok am h) (sources_ am)
  ∧ ∀ l, is_Some (objects h !! l) → l ∈ locations am ∧ (l < next_loc h)%nat.

Definition am_inv am h : Prop :=
  am_params am
  ∧ report_output_samples_ am
      = frames_share (output_sample_rate_ am) kFrameDurationInMs
  ∧ real_output_samples_ am
      = frames_share (output_sample_rate_ am) (frame_duration_ms_ am)
  ∧ frame_wf (mixed_frame_ am)
  ∧ owned am h
  ∧ registered (mixer_ am) ≡ₚ locations am.

(** Record sources need 10 ms frames. *)
Definition source_ok am (source : MixerSource) : Prop :=
  ms_type source = TYPE_RECORD → frame_duration_ms_ am = kFrameDurationInMs.

Lemma Forall_elem {A} (P : A → Prop) l x : Forall P l → x ∈ l → P x.
Proof. rewrite Forall_forall, list_elem_of_In. eauto. Qed.

Lemma Forall_intro {A} (P : A → Prop) l : (∀ x, x ∈ l → P x) → Forall P l.
Proof.
  intros Hp. apply Forall_forall. intros x Hx.
  by apply Hp, list_elem_of_In.
Qed.

Lemma owned_fresh am h : owned am h → objects h !! next_loc h = None.
Proof.
  intros (_ & _ & _ & Hdom).
  destruct (objects h !! next_loc h) eqn:Hl; [|done].
  destruct (Hdom (next_loc h)); [by eexists|lia].
Qed.

Lemma owned_location am h l :
  owned am h → l ∈ locations am →
  ∃ o, objects h !! l = Some (1%nat, o) ∧ am_object am o
    ∧ std_find (obj_Ssrc o) (sources_ am) = Some l.
Proof.
  intros (Hs & _ & Hall & _) Hl. unfold locations in Hl.
  apply list_elem_of_fmap in Hl as ([k l'] & -> & He).
  destruct (Forall_elem _ _ _ Hall He) as (o & Ho & Hk & Hok). cbn in *.
  exists o. split_and!; [done|done|]. rewrite Hk. by apply std_find_elem.
Qed.

Lemma owned_found am h k l :
  owned am h → std_find k (sources_ am) = Some l →
  ∃ o, objects h !! l = Some (1%nat, o) ∧ am_object am o ∧ obj_Ssrc o = k
    ∧ l ∈ locations am.
Proof.
  intros (Hs & _ & Hall & _) Hf. apply std_find_elem in Hf; [|done].
  destruct (Forall_elem _ _ _ Hall Hf) as (o & Ho & Hk & Hok). cbn in *.
  exists o. split_and!; try done. unfold locations.
  by apply (list_elem_of_fmap_2 snd _ (k, l)).
Qed.

(** Two heaps with the same objects. *)
Lemma owned_same am h h' :
  owned am h → (∀ l, objects h' !! l = objects h !! l) →
  (next_loc h ≤ next_loc h')%nat → owned am h'.
Proof.
  intros (Hs & Hn & Hall & Hdom) Heq Hle. split_and!; [done|done| |].
  - eapply Forall_impl; [|exact Hall]. intros e (o & Ho & Hk & Hok).
    exists o. by rewrite Heq.
  - intros l. rewrite Heq. intros Hl. destruct (Hdom l Hl). split; [done|lia].
Qed.

(** Rewriting the object of an entry. *)
Lemma owned_assign am h l o o' :
  owned am h → objects h !! l = Some (1%nat, o) →
  am_object am o' → obj_Ssrc o' = obj_Ssrc o → owned am (assign l o' h).
Proof.
  intros (Hs & Hn & Hall & Hdom) Hl Hok Hk. split_and!; [done|done| |].
  - eapply Forall_impl; [|exact Hall]. intros e (o2 & Ho2 & Hk2 & Hok2).
    unfold entry_ok. rewrite objects_assign. case_decide as He.
    + rewrite Hl. cbn. exists o'. split_and!; [done| |done].
      rewrite Hk. rewrite He, Hl in Ho2. congruence.
    + by exists o2.
  - intros l'. rewrite objects_assign. case_decide as He.
    + subst. rewrite Hl. intros _. apply Hdom. by eexists.
    + apply Hdom.
Qed.

(** *** Adding a source *)

(** A new object and its entry. *)
Definition placed am h (ssrc : Z) (o : SourceObj) : nat * AudioMixer * heap :=
  let '(p, h) := make_shared o h in
  let '(am, h) := emplace_shared ssrc p am h in (p, am, h).

Lemma DoAddSource_placed am h source :
  am_params am → library_ok max_channels fuel (frame_duration_ms_ am) →
  source_ok am source →
  wpa (DoAddSource fuel am h source) (λ r, ∃ o,
    am_object am o ∧ made_for source o
    ∧ r = placed am h (ms_ssrc source) o).
Proof.
  intros Hp Hlib Hsrc. unfold DoAddSource, placed, made_for.
  destruct (Z.eqb_spec (ms_type source) TYPE_RECORD) as [Hr|Hr].
  - destruct (_ =? output_sample_rate_ am); [|by cbn].
    destruct (_ =? output_channel_num_ am); [|by cbn].
    cbn [RTC_CHECK mbind outcome_bind]. apply wpa_bind, wp_wpa.
    eapply wp_mono; [|eapply (new_record_source max_channels fuel); [done|by apply Hsrc]].
    intros s (Hok & Hss & Hv). cbn -[emplace_shared shared_copy].
    destruct (emplace_shared _ _ _ _) eqn:He. exists (RecordObj s).
    rewrite He. by split_and!.
  - apply wpa_bind.
    eapply wpa_mono; [|by eapply new_file_source].
    intros s (Hok & Hss & Hv). cbn -[emplace_shared shared_copy].
    destruct (emplace_shared _ _ _ _) eqn:He. exists (FileObj s).
    rewrite He. by split_and!.
Qed.

Lemma am_set_sources_id am : am_set_sources am (sources_ am) = am.
Proof. by destruct am. Qed.

(** With the key in use, the entry stays and the new object has one owner,
    the caller. *)
Lemma placed_present am h ssrc o l0 :
  owned am h → std_find ssrc (sources_ am) = Some l0 →
  ∃ h', placed am h ssrc o = (next_loc h, am, h')
    ∧ next_loc h' = S (next_loc h)
    ∧ objects (shared_release (next_loc h) h') !! next_loc h = None
    ∧ ∀ l, objects (shared_release (next_loc h) h') !! l = objects h !! l.
Proof.
  intros Hown Hf. pose proof (owned_fresh _ _ Hown) as Hfr.
  destruct Hown as (Hs & _). unfold placed, emplace_shared.
  cbn -[shared_copy shared_release].
  rewrite std_insert_present by eauto. rewrite am_set_sources_id.
  set (h1 := MkHeap _ _). set (h2 := shared_copy (next_loc h) h1).
  assert (objects h2 !! next_loc h = Some (2%nat, o)) as Hb2.
  { subst h2. rewrite objects_copy, decide_True by done. subst h1. cbn.
    by rewrite lookup_insert_eq. }
  set (h3 := shared_release (next_loc h) h2).
  assert (objects h3 !! next_loc h = Some (1%nat, o)) as Hb3.
  { subst h3. rewrite (objects_release _ _ _ _ _ Hb2). by rewrite decide_True. }
  assert (∀ l, objects (shared_release (next_loc h) h3) !! l = objects h !! l)
    as Hrest.
  { intros l. rewrite (objects_release _ _ _ _ _ Hb3). case_decide as Hl.
    { by rewrite Hl, Hfr. }
    subst h3 h2. rewrite (objects_release _ _ _ _ _ Hb2), decide_False by done.
    rewrite objects_copy, decide_False by done. subst h1. cbn.
    by rewrite lookup_insert_ne. }
  exists h3. split_and!; [done| |by rewrite Hrest|done].
  subst h3 h2 h1. unfold shared_release. by case_match; repeat case_match.
Qed.

(** With the key free, the object is owned by the caller and the map. *)
Lemma placed_absent am h ssrc o :
  owned am h → std_find ssrc (sources_ am) = None →
  ∃ h', placed am h ssrc o
      = (next_loc h,
         am_set_sources am (std_insert ssrc (next_loc h) (sources_ am)).2, h')
    ∧ next_loc (shared_release (next_loc h) h') = S (next_loc h)
    ∧ ∀ l, objects (shared_release (next_loc h) h') !! l
        = if decide (l = next_loc h) then Some (1%nat, o)
          else objects h !! l.
Proof.
  intros Hown Hf. unfold placed, emplace_shared.
  cbn -[shared_copy shared_release].
  destruct (std_insert_absent ssrc (next_loc h) _ Hf) as (m1 & m2 & _ & ->).
  set (h1 := MkHeap _ _). set (h2 := shared_copy (next_loc h) h1).
  assert (objects h2 !! next_loc h = Some (2%nat, o)) as Hb2.
  { subst h2. rewrite objects_copy, decide_True by done. subst h1. cbn.
    by rewrite lookup_insert_eq. }
  exists h2. split_and!; [done| |].
  - unfold shared_release. by rewrite Hb2.
  - intros l. rewrite (objects_release _ _ _ _ _ Hb2). case_decide; [done|].
    subst h2. rewrite objects_copy, decide_False by done. subst h1. cbn.
    by rewrite lookup_insert_ne.
Qed.

Lemma owned_insert am h h' ssrc o :
  owned am h → am_object am o → obj_Ssrc o = ssrc →
  std_find ssrc (sources_ am) = None →
  next_loc h' = S (next_loc h) →
  (∀ l, objects h' !! l
     = if decide (l = next_loc h) then Some (1%nat, o) else objects h !! l) →
  owned (am_set_sources am (std_insert ssrc (next_loc h) (sources_ am)).2) h'
  ∧ (std_insert ssrc (next_loc h) (sources_ am)).2.*2
      ≡ₚ next_loc h :: locations am.
Proof.
  intros Hown Hok Hk Hf Hn Hobj. pose proof (owned_fresh _ _ Hown) as Hfr.
  destruct Hown as (Hs & Hnd & Hall & Hdom).
  pose proof (std_insert_sorted ssrc (next_loc h) _ Hs) as Hs'.
  destruct (std_insert_absent ssrc (next_loc h) _ Hf) as (m1 & m2 & Hm & Hi).
  rewrite Hi in *. cbn [snd] in *.
  assert ((m1 ++ (ssrc, next_loc h) :: m2).*2 ≡ₚ next_loc h :: locations am)
    as Hperm.
  { unfold locations. rewrite Hm, !fmap_app. cbn.
    by rewrite Permutation_middle. }
  assert (next_loc h ∉ locations am) as Hnew.
  { unfold locations. intros ([k l'] & Hl & He)%list_elem_of_fmap. cbn in Hl.
    destruct (Forall_elem _ _ _ Hall He) as (o' & Ho' & _). cbn in *.
    congruence. }
  split; [|done]. split_and!.
  - done.
  - unfold locations. cbn. rewrite Hperm. by constructor.
  - cbn. assert (∀ e, e ∈ sources_ am → entry_ok am h' e) as He.
    { intros e He. destruct (Forall_elem _ _ _ Hall He) as (o' & Ho' & ?).
      exists o'. rewrite Hobj, decide_False; [done|]. congruence. }
    apply Forall_intro. intros e.
    rewrite elem_of_app, elem_of_cons. intros [He1|[->|He2]].
    + apply He. rewrite Hm, elem_of_app. by left.
    + exists o. cbn. rewrite Hobj, decide_True by done. done.
    + apply He. rewrite Hm, elem_of_app. by right.
  - intros l. rewrite Hobj, Hn. unfold locations. cbn. rewrite Hperm.
    case_decide as Hl; [subst; split; [by left|lia]|].
    intros Hs2. destruct (Hdom l Hs2). split; [by right|lia].
Qed.
End mixer_invariant.
