(* ===== verification/MixerOperations.v ===== *)
(** Each operation of the mixer preserves the invariant, and what it does to
    the sources. *)

From stdpp Require Import gmap.
From S2P Require Import Prelude.
From S2P Require Import Buffer.
From S2P Require Import AudioFrame.
From S2P Require Import Api.
From S2P Require Import AudioSource.
From S2P Require Import RecordSource.
From S2P Require Import Ffmpeg.
From S2P Require Import FfmpegReference.
From S2P Require Import FileDecoder.
From S2P Require Import Resampler.
From S2P Require Import FileSource.
From S2P Require Import StdMap.
From S2P Require Import WebRtc.
From S2P Require Import Heap.
From S2P Require Import Mixer.
From S2P Require Import MixerInvariant.

(** ** Bytes *)

Lemma samples_bytes_take n l :
  0 ≤ n → takeZ (2 * n) (samples_bytes l) = samples_bytes (takeZ n l).
Proof.
  intros Hn. unfold takeZ. rewrite Z2Nat.inj_mul by lia.
  change (Z.to_nat 2) with 2%nat. generalize (Z.to_nat n). clear n Hn.
  induction l as [|x l IH]; intros [|n]; cbn; [done..|].
  replace (n + S (n + 0))%nat with (S (2 * n)) by lia. cbn.
  unfold samples_bytes in IH. by rewrite <- IH.
Qed.

Lemma samples_bytes_length l : lenZ (samples_bytes l) = 2 * lenZ l.
Proof.
  induction l as [|x l IH]; [done|]. unfold samples_bytes in *. cbn.
  rewrite !lenZ_cons, IH. lia.
Qed.

Section operations.
Context `{FFmpegSpec, !FifoReliable, !StableChannels}.
Context `{BuildConfig, AudioFrameLaws, WebRtcMixerLaws}.
Context (max_channels : Z).
Hypothesis channels_range : ∀ c, 0 < ctx_channels c ≤ max_channels.
Hypothesis address_space : alloc_limit < 2 ^ 63.
Context (fuel : nat).
Implicit Types (am : AudioMixer) (h : heap).

Notation am_object := (am_object max_channels fuel).
Notation owned := (owned max_channels fuel).
Notation am_inv := (am_inv max_channels fuel).
Notation library := (library_ok max_channels fuel).

(** *** The loops over the map *)

Lemma register_all_spec m x :
  NoDup (m.*2 ++ registered x) →
  registered (register_all m x) ≡ₚ m.*2 ++ registered x.
Proof.
  revert x. induction m as [|[k l] m IH]; intros x Hnd; [done|].
  cbn in *. apply list.NoDup_cons in Hnd as [Hl Hnd].
  destruct (add_registered l x) as [_ Hadd]; [set_solver|].
  unfold register_all in *. cbn. rewrite IH.
  - rewrite Hadd. by rewrite Permutation_middle.
  - rewrite Hadd, <- Permutation_middle. by constructor.
Qed.

Lemma unregister_all_spec m x k :
  registered x ≡ₚ m.*2 ++ k → registered (unregister_all m x) ≡ₚ k.
Proof.
  revert x. induction m as [|[i l] m IH]; intros x Hx; [done|].
  cbn in *. apply IH. apply (Permutation_cons_inv (a := l)).
  rewrite <- Hx. apply remove_registered. rewrite Hx. by left.
Qed.

(** The first source of a list with a given SSRC. *)
Definition first_source (ssrc : Z) (l : list MixerSource)
    : option MixerSource :=
  List.find (λ s, ms_ssrc s =? ssrc) l.

(** Each key of the new map: an entry that was there is untouched, a new one
    holds the object made for the first source with that SSRC. *)
Definition first_wins am h (l : list MixerSource) am' h' : Prop :=
  ∀ ssrc, match std_find ssrc (sources_ am), first_source ssrc l with
  | Some p, _ =>
      std_find ssrc (sources_ am') = Some p
      ∧ objects h' !! p = objects h !! p
  | None, Some source =>
      ∃ p o, std_find ssrc (sources_ am') = Some p
        ∧ objects h' !! p = Some (1%nat, o) ∧ made_for source o
  | None, None => std_find ssrc (sources_ am') = None
  end.

(** Adding one source and dropping the returned pointer. *)
Lemma add_one am h source o :
  owned am h → am_object am o → made_for source o →
  let '(p, am', h') := placed am h (ms_ssrc source) o in
  owned am' (shared_release p h') ∧ am' = am_set_sources am (sources_ am')
  ∧ first_wins am h [source] am' (shared_release p h').
Proof.
  intros Hown Hok Hmade. pose proof Hmade as (Hk & _).
  pose proof Hown as (Hs & _).
  unfold first_wins, first_source, List.find.
  destruct (std_find (ms_ssrc source) (sources_ am)) as [l0|] eqn:Hf.
  - destruct (placed_present _ _ _ _ _ o _ Hown Hf) as (h' & -> & Hn & _ & Hobj).
    assert (next_loc (shared_release (next_loc h) h') = next_loc h') as Hnr
      by (unfold shared_release; by repeat case_match).
    split_and!; [eapply owned_same; [done|done|lia]|by rewrite am_set_sources_id|].
    intros ssrc.
    destruct (std_find ssrc (sources_ am)) eqn:Hf'; [by rewrite Hobj|].
    destruct (Z.eqb_spec (ms_ssrc source) ssrc); [congruence|done].
  - destruct (placed_absent _ _ _ _ _ o Hown Hf) as (h' & -> & Hn & Hobj).
    destruct (owned_insert _ _ _ _ _ _ _ Hown Hok Hk Hf Hn Hobj) as [Hown' _].
    split_and!; [done|done|]. cbn. intros ssrc.
    rewrite std_find_insert by done. pose proof (owned_fresh _ _ _ _ Hown) as Hfr.
    destruct (std_find ssrc (sources_ am)) as [p|] eqn:Hf'.
    + destruct (owned_found _ _ _ _ _ _ Hown Hf') as (o' & Ho' & _).
      rewrite decide_False by congruence. split; [done|].
      rewrite Hobj, decide_False; [done|congruence].
    + destruct (Z.eqb_spec (ms_ssrc source) ssrc) as [<-|Hne].
      * rewrite decide_True by done. exists (next_loc h), o.
        by rewrite Hobj, decide_True by done.
      * by rewrite decide_False by congruence.
Qed.

Lemma first_wins_cons am h source am1 h1 l am2 h2 :
  owned am h → owned am1 h1 →
  first_wins am h [source] am1 h1 → first_wins am1 h1 l am2 h2 →
  first_wins am h (source :: l) am2 h2.
Proof.
  intros Hown Hown1 Hf1 Hf2 ssrc. specialize (Hf1 ssrc). specialize (Hf2 ssrc).
  unfold first_source in *. cbn in *.
  destruct (std_find ssrc (sources_ am)) as [p|].
  - destruct Hf1 as [Hf1 Ho1]. rewrite Hf1 in Hf2. destruct Hf2 as [Hf2 Ho2].
    split; [done|congruence].
  - destruct (ms_ssrc source =? ssrc).
    + destruct Hf1 as (p & o & Hp & Ho & Hm). rewrite Hp in Hf2.
      destruct Hf2 as [Hf2 Ho2]. exists p, o. split_and!; [done|congruence|done].
    + by rewrite Hf1 in Hf2.
Qed.

Lemma add_sources_spec am h l :
  owned am h → am_params am → library (frame_duration_ms_ am) →
  Forall (source_ok am) l →
  wpa (add_sources fuel am h l) (λ '(am', h'),
    owned am' h' ∧ am' = am_set_sources am (sources_ am')
    ∧ first_wins am h l am' h').
Proof.
  intros Hown Hp Hlib Hl. revert am h Hown Hp Hlib Hl.
  induction l as [|source l IH]; intros am h Hown Hp Hlib Hl; cbn.
  { split_and!; [done|by rewrite am_set_sources_id|].
    intros ssrc. cbn. by destruct (std_find ssrc _). }
  apply Forall_cons_1 in Hl as [Hsrc Hl].
  apply wpa_bind. eapply wpa_mono; [|by eapply DoAddSource_placed].
  intros r (o & Hok & Hmade & ->).
  pose proof (add_one _ _ _ _ Hown Hok Hmade) as Hone.
  destruct (placed am h (ms_ssrc source) o) as [[p am1] h1].
  destruct Hone as (Hown1 & Heq & Hfw).
  eapply wpa_mono; [|apply IH; [exact Hown1|by rewrite Heq..|]].
  - intros [am2 h2] (Hown2 & Heq2 & Hfw2). split_and!; [done| |].
    + rewrite Heq2, Heq. done.
    + by apply (first_wins_cons am h source am1 (shared_release p h1)).
  - eapply Forall_impl; [|exact Hl]. intros s. by rewrite Heq.
Qed.

(** *** Construction *)

Lemma mixed_format_fits am :
  am_params am →
  report_output_samples_ am
    = frames_share (output_sample_rate_ am) kFrameDurationInMs →
  format_fits (mixed_format am)
  ∧ report_output_samples_ am * output_channel_num_ am ≤ kMaxDataSizeSamples
  ∧ 0 ≤ report_output_samples_ am.
Proof.
  intros ((Hms & Ho & Hio & Hc & Hic & Hfit) & _ & _ & Hch) Hrep.
  unfold mixable_channels in Hch. rewrite Z.max_l in Hfit by lia.
  pose proof (frames_share_nonneg (output_sample_rate_ am)
    kFrameDurationInMs ltac:(done) Ho) as Hge.
  pose proof (frames_share_le (output_sample_rate_ am)
    kFrameDurationInMs ltac:(done) Ho) as Hle.
  unfold format_fits, total_samples, mixed_format. cbn.
  rewrite <- Hrep in *.
  rewrite !to_size_t_small by (unfold_i32; lia). split_and!; nia.
Qed.

Lemma AudioMixer_new_spec config :
  params_ok (mc_output_sample_rate config) (mc_output_channel_num config)
    (mc_frame_duration_ms config) →
  library (mc_frame_duration_ms config) →
  Forall (λ s, ms_type s = TYPE_RECORD →
    mc_frame_duration_ms config = kFrameDurationInMs) (mc_sources config) →
  wpa (AudioMixer_new fuel config) (λ '(am, h), am_inv am h
    ∧ (∀ ssrc, match first_source ssrc (mc_sources config) with
      | Some source => ∃ p o, std_find ssrc (sources_ am) = Some p
          ∧ deref p h = Ret o ∧ made_for source o
      | None => std_find ssrc (sources_ am) = None
      end)
    ∧ output_sample_rate_ am = mc_output_sample_rate config
    ∧ output_channel_num_ am = mc_output_channel_num config
    ∧ frame_duration_ms_ am = mc_frame_duration_ms config).
Proof.
  intros Hp Hlib Hsrc. unfold AudioMixer_new.
  pose proof Hp as ((Hms & Ho & Hio & _) & _). unfold kFrameDurationInMs in *.
  rewrite (proj2 (Z.leb_le _ 10)) by lia. cbn [RTC_CHECK mbind outcome_bind].
  rewrite !per_frame_ok by (done || lia). cbn [mbind outcome_bind].
  set (am0 := MkAudioMixer _ _ _ _ _ _ _ _).
  assert (owned am0 empty_heap) as Hown0.
  { split_and!; [constructor|constructor|constructor|].
    intros l [x Hx]. cbn in Hx. by rewrite lookup_empty in Hx. }
  apply wpa_bind. eapply wpa_mono; [|by apply add_sources_spec].
  intros [am1 h1] (Hown & Heq & Hfw). cbn zeta.
  set (am2 := am_set_mixer am1 _ _).
  assert (am_params am2 ∧ report_output_samples_ am2
      = frames_share (output_sample_rate_ am2) kFrameDurationInMs
    ∧ real_output_samples_ am2 = frames_share (output_sample_rate_ am2)
        (frame_duration_ms_ am2)
    ∧ mixed_frame_ am2 = AudioFrame_new) as (Hp2 & Hr2 & Hl2 & Hf2)
    by (subst am2; by rewrite Heq).
  destruct (mixed_format_fits _ Hp2 Hr2) as [Hfit _].
  apply wpa_bind. eapply wpa_mono; [|apply wp_wpa, UpdateFrame_null;
    [rewrite Hf2; apply AudioFrame_new_wf|exact Hfit]].
  intros f (Hf & _). cbn [wpa].
  split; [split_and!; try done|split; [|subst am2; cbn; by rewrite Heq]].
  - cbn. rewrite register_all_spec.
    + assert (mixer_ am1 = mixer_Create) as -> by by rewrite Heq.
      by rewrite create_registered, app_nil_r.
    + assert (mixer_ am1 = mixer_Create) as -> by by rewrite Heq.
      rewrite create_registered, app_nil_r. by destruct Hown as (_ & ? & _).
  - intros ssrc. specialize (Hfw ssrc). cbn in *.
    destruct (first_source ssrc _); [|done].
    destruct Hfw as (q & o & Hq & Hobj & Hm). exists q, o.
    split_and!; [done|by eapply deref_ok|done].
Qed.

(** *** Adding a source *)

Lemma AddSource_fresh am h source :
  am_inv am h → library (frame_duration_ms_ am) → source_ok am source →
  std_find (ms_ssrc source) (sources_ am) = None →
  wpa (AddSource fuel am h source) (λ '(b, am', h'),
    b = true ∧ am_inv am' h' ∧ ∃ o, made_for source o
    ∧ std_map_view (sources_ am')
        = <[ms_ssrc source := next_loc h]> (std_map_view (sources_ am))
    ∧ objects h' = <[next_loc h := (1%nat, o)]> (objects h)).
Proof.
  intros (Hp & Hrep & Hreal & Hf & Hown & Hreg) Hlib Hsrc Hnew.
  unfold AddSource. apply wpa_bind.
  eapply wpa_mono; [|by eapply DoAddSource_placed].
  intros r (o & Hok & Hmade & ->). pose proof Hmade as (Hk & _).
  destruct (placed_absent _ _ _ _ _ o Hown Hnew) as (h' & -> & Hn & Hobj).
  destruct (owned_insert _ _ _ _ _ _ _ Hown Hok Hk Hnew Hn Hobj)
    as [Hown' Hperm].
  set (am1 := am_set_sources am _) in *.
  destruct (add_registered (next_loc h) (mixer_ am)) as [_ Hadd].
  { rewrite Hreg. intros Hin.
    destruct (owned_location _ _ _ _ _ Hown Hin) as (o' & Ho' & _).
    by rewrite (owned_fresh _ _ _ _ Hown) in Ho'. }
  change (mixer_ am1) with (mixer_ am).
  destruct (mixer_AddSource _ _) as [b x]. cbn in Hadd |- *.
  split_and!; [done| |].
  - split_and!; try done. cbn. rewrite Hadd, Hreg. unfold locations.
    cbn. by rewrite Hperm.
  - exists o. split_and!; [done| |].
    + destruct Hown as (Hs & _). subst am1. cbn.
      by rewrite std_insert_view, Hnew by done.
    + apply map_eq. intros l. rewrite Hobj. case_decide as Hl.
      * by rewrite Hl, lookup_insert_eq.
      * by rewrite lookup_insert_ne.
Qed.

(** With the SSRC in use, the map keeps its entry, and the WebRTC mixer gets
    a pointer to an object that is freed before [AddSource] returns. *)
Lemma AddSource_duplicate am h source :
  am_inv am h → library (frame_duration_ms_ am) → source_ok am source →
  is_Some (std_find (ms_ssrc source) (sources_ am)) →
  wpa (AddSource fuel am h source) (λ '(b, am', h'),
    b = true ∧ sources_ am' = sources_ am
    ∧ owned am' h' ∧ am_params am' ∧ frame_wf (mixed_frame_ am')
    ∧ objects h' !! next_loc h = None
    ∧ registered (mixer_ am') ≡ₚ next_loc h :: locations am').
Proof.
  intros (Hp & Hrep & Hreal & Hf & Hown & Hreg) Hlib Hsrc [l0 Hl0].
  unfold AddSource. apply wpa_bind.
  eapply wpa_mono; [|by eapply DoAddSource_placed].
  intros r (o & Hok & Hmade & ->).
  destruct (placed_present _ _ _ _ _ o _ Hown Hl0) as (h' & -> & Hn & Hnone & Hobj).
  destruct (add_registered (next_loc h) (mixer_ am)) as [_ Hadd].
  { rewrite Hreg. intros Hin.
    destruct (owned_location _ _ _ _ _ Hown Hin) as (o' & Ho' & _).
    by rewrite (owned_fresh _ _ _ _ Hown) in Ho'. }
  destruct (mixer_AddSource _ _) as [b x]. cbn in Hadd |- *.
  split_and!; try done; [|by rewrite Hadd, Hreg].
  eapply owned_same; [done|done|].
  unfold shared_release. repeat case_match; cbn; lia.
Qed.

(** *** Removing a source *)

Lemma RemoveSource_spec am h ssrc :
  am_inv am h →
  let '(b, am', h') := RemoveSource am h ssrc in
  am_inv am' h'
  ∧ b = bool_decide (is_Some (std_find ssrc (sources_ am)))
  ∧ std_map_view (sources_ am') = delete ssrc (std_map_view (sources_ am))
  ∧ ∀ l, objects h' !! l
      = if decide (std_find ssrc (sources_ am) = Some l) then None
        else objects h !! l.
Proof.
  intros Hinv. pose proof Hinv as (Hp & Hrep & Hreal & Hf & Hown & Hreg).
  pose proof Hown as (Hs & Hnd & Hall & Hdom). unfold RemoveSource.
  destruct (std_find ssrc (sources_ am)) as [l|] eqn:Hl.
  2: { split_and!; [done|done| |].
       - by rewrite delete_id by by rewrite std_find_view.
       - intros l. by rewrite decide_False. }
  destruct (owned_found _ _ _ _ _ _ Hown Hl) as (o & Ho & Hok & Hk & Hin).
  pose proof (objects_release l 0 o h) as Hobj.
  assert (∀ l', objects (shared_release l h) !! l'
    = if decide (l' = l) then None else objects h !! l') as Hobj' by eauto.
  destruct (std_find_split _ _ _ Hl) as (m1 & m2 & Hm & He).
  assert (locations am ≡ₚ l :: (std_erase ssrc (sources_ am)).*2) as Hperm.
  { unfold locations. rewrite He, Hm, !fmap_app. cbn.
    by rewrite Permutation_middle. }
  assert (l ∉ (std_erase ssrc (sources_ am)).*2
    ∧ NoDup (std_erase ssrc (sources_ am)).*2) as [Hl1 Hnd1].
  { apply list.NoDup_cons. by rewrite <- Hperm. }
  split_and!; [|done|by apply std_erase_view|].
  2: { intros l'. rewrite Hobj'. by repeat case_decide; simplify_eq. }
  split_and!; [done..| |].
  - split_and!; [by apply std_erase_sorted|done| |].
    + apply Forall_intro. intros e He2. cbn in He2.
      destruct (Forall_elem _ _ _ Hall (std_erase_subset _ _ _ He2))
        as (o2 & Ho2 & Hk2 & Hok2).
      exists o2. rewrite Hobj', decide_False; [done|].
      intros Heq. apply Hl1. rewrite <- Heq. by apply list_elem_of_fmap_2.
    + intros l'. rewrite Hobj'. case_decide as Hne; [by intros [? ?]|].
      intros Hl'. destruct (Hdom l' Hl') as [Hin' Hlt].
      rewrite Hperm in Hin'. apply elem_of_cons in Hin' as [|Hin']; [done|].
      split; [done|]. unfold shared_release. by rewrite Ho.
  - cbn. apply (Permutation_cons_inv (a := l)).
    rewrite remove_registered by by rewrite Hreg. by rewrite Hreg, Hperm.
Qed.

(** *** Volume and recorded data *)

Lemma UpdateVolume_spec am h ssrc v :
  am_inv am h →
  wp (am_UpdateVolume am h ssrc v) (λ h', am_inv am h'
    ∧ ∀ l, objects h' !! l
        = if decide (std_find ssrc (sources_ am) = Some l)
          then (λ p, (p.1, obj_UpdateVolume v p.2)) <$> objects h !! l
          else objects h !! l).
Proof.
  intros (Hp & Hrep & Hreal & Hf & Hown & Hreg). unfold am_UpdateVolume.
  destruct (std_find ssrc (sources_ am)) as [l|] eqn:Hl.
  2: { cbn. split; [by split_and!|]. intros l. by rewrite decide_False. }
  destruct (owned_found _ _ _ _ _ _ Hown Hl) as (o & Ho & Hok & Hk & Hin).
  rewrite (deref_ok _ _ _ _ Ho). cbn [mbind outcome_bind wp]. split.
  - split_and!; try done. eapply owned_assign; [done..| |by destruct o].
    by apply object_volume.
  - intros l'. rewrite objects_assign.
    repeat case_decide; simplify_eq; [|done]. by rewrite Ho.
Qed.

Lemma AddRecordedData_spec am h ssrc samples size :
  am_inv am h → is_i32 size → size / 2 ≤ lenZ samples →
  (∀ l s, std_find ssrc (sources_ am) = Some l → deref l h ≠ Ret (FileObj s)) →
  wpa (AddRecordedData am h ssrc samples size) (λ h', am_inv am h').
Proof.
  intros (Hp & Hrep & Hreal & Hf & Hown & Hreg) Hi Hlen Hrec.
  unfold AddRecordedData.
  destruct (std_find ssrc (sources_ am)) as [l|] eqn:Hl; [|by split_and!].
  destruct (owned_found _ _ _ _ _ _ Hown Hl) as (o & Ho & Hok & Hk & Hin).
  rewrite (deref_ok _ _ _ _ Ho). cbn [mbind outcome_bind].
  destruct o as [s|s]; [|by destruct (Hrec l s); [|eapply deref_ok]].
  destruct Hok as (Hsr & Hc & Hd & Hms & q & Hq). apply wpa_bind.
  eapply wpa_mono; [|by eapply OnAudioRecorded_safe].
  intros s' (q' & Hq' & Hs'). split_and!; try done.
  eapply owned_assign; [done..| |].
  - rewrite Hs'. cbn. split_and!; [done..|]. exists q'. by rewrite <- Hs'.
  - by rewrite Hs'.
Qed.

(** *** Mixing *)

(** A registered source can be asked in every state that satisfies the
    invariant; nothing is freed or brought back to life by that. *)
Lemma owned_answers am l (dead : nat → Prop) :
  am_params am → l ∈ locations am →
  source_answers (callbacks fuel)
    (λ h, owned am h ∧ ∀ p, dead p → objects h !! p = None) l.
Proof.
  intros Hp Hl h [Hown Hdead].
  destruct (owned_location _ _ _ _ _ Hown Hl) as (o & Ho & Hok & Hf).
  cbn [callbacks cb_Ssrc cb_PreferredSampleRate cb_GetAudioFrameWithInfo].
  rewrite (deref_ok _ _ _ _ Ho). cbn [mbind outcome_bind].
  split_and!; [done|done|]. intros rate f _ Hwf.
  apply wpa_bind. eapply wpa_mono; [|by eapply object_poll].
  intros [[i f'] o'] (Hw & Hok' & Hk & _). cbn [wpa].
  split_and!; [done|by eapply owned_assign|].
  intros p Hdp. rewrite objects_assign.
  specialize (Hdead p Hdp). case_decide; [congruence|done].
Qed.

Lemma mixed_channels am :
  am_params am →
  to_size_t (output_channel_num_ am) = output_channel_num_ am
  ∧ mixable_channels (output_channel_num_ am).
Proof.
  intros (_ & _ & _ & Hc). split; [|done]. unfold mixable_channels in Hc.
  apply to_size_t_small. unfold_i32. lia.
Qed.

(** The bytes of a mixed frame. *)
Definition mixed_bytes am : Z :=
  output_channel_num_ am * real_output_samples_ am * 2.

Lemma mixed_bytes_bound am h :
  am_inv am h →
  0 < output_channel_num_ am * real_output_samples_ am ≤ kMaxDataSizeSamples
  ∧ av_samples_get_buffer_size (output_channel_num_ am)
      (real_output_samples_ am) kOutputSampleFormat 1 = mixed_bytes am.
Proof.
  intros (Hp & Hrep & Hreal & _). destruct (mixed_format_fits _ Hp Hrep) as (_ & Hmax & Hr0).
  destruct Hp as ((Hms & Ho & Hio & _) & Ho100 & Ho1000 & Hc).
  unfold mixable_channels, kFrameDurationInMs in *.
  pose proof (frames_share_pos (output_sample_rate_ am)
    (frame_duration_ms_ am) ltac:(lia) Ho1000) as Hpos.
  pose proof (frames_share_mono (output_sample_rate_ am)
    (frame_duration_ms_ am) 10 Ho ltac:(lia) ltac:(lia)) as Hmono.
  rewrite <- Hreal in Hpos. rewrite <- Hreal, <- Hrep in Hmono.
  assert (0 < output_channel_num_ am * real_output_samples_ am
            ≤ kMaxDataSizeSamples) as Hb by nia.
  split; [done|]. unfold kMaxDataSizeSamples in Hb.
  apply buffer_size_spec; [lia|lia| |done]. unfold_i32. cbn. lia.
Qed.

Lemma Mix_spec am h room :
  am_inv am h → mixed_bytes am ≤ room →
  wpa (Mix fuel am h room) (λ '(size, bytes, am', h'),
    am_inv am' h' ∧ sources_ am' = sources_ am ∧ size = mixed_bytes am
    ∧ bytes = samples_bytes (takeZ (output_channel_num_ am
                 * real_output_samples_ am) (frame_data (mixed_frame_ am')))).
Proof.
  intros Hinv Hroom. destruct (mixed_bytes_bound _ _ Hinv) as [Hb Hsize].
  pose proof Hinv as (Hp & Hrep & Hreal & Hf & Hown & Hreg).
  destruct (mixed_channels _ Hp) as [Hcs Hch].
  unfold Mix. rewrite Hcs. apply wpa_bind.
  eapply wpa_mono; [|apply (mix_spec _ (λ h, owned am h
    ∧ ∀ p, False → objects h !! p = None)); [done..|]].
  2: { intros l Hl. apply (owned_answers _ _ (λ _, False)); [done|].
       by rewrite <- Hreg. }
  intros [[f x] h'] (Hf' & Hreg' & Hown' & _).
  cbn [am_set_mixer output_channel_num_ real_output_samples_].
  rewrite Hsize. unfold mixed_bytes in *.
  rewrite to_size_t_small by (unfold_i32; unfold kMaxDataSizeSamples in *; lia).
  rewrite (proj2 (Z.leb_le _ (lenZ _)))
    by (rewrite samples_bytes_length, frame_data_length by done; lia).
  rewrite (proj2 (Z.leb_le _ _)) by done. cbn [andb require mbind outcome_bind wpa].
  split_and!; try done; [split_and!; try done; cbn; by rewrite Hreg'|]. cbn.
  rewrite <- samples_bytes_take by lia. f_equal. lia.
Qed.

(** A mixer whose output rate is not a native one leaves its sources
    alone. *)
Lemma Mix_non_native am h room :
  am_inv am h → mixed_bytes am ≤ room →
  output_sample_rate_ am ∉ NativeRate →
  wpa (Mix fuel am h room) (λ '(_, _, _, h'), h' = h).
Proof.
  intros Hinv Hroom Hrate. destruct (mixed_bytes_bound _ _ Hinv) as [Hb Hsize].
  pose proof Hinv as (Hp & Hrep & Hreal & Hf & Hown & Hreg).
  destruct (mixed_channels _ Hp) as [Hcs Hch].
  unfold Mix. rewrite Hcs. apply wpa_bind.
  eapply wpa_mono; [|apply (mix_spec _ (λ h', h' = h)); [done..|]].
  2: { intros l Hl h' ->. rewrite Hreg in Hl.
       destruct (owned_location _ _ _ _ _ Hown Hl) as (o & Ho & Hok & _).
       cbn. rewrite (deref_ok _ _ _ _ Ho). cbn [mbind outcome_bind].
       split_and!; [done|done|]. intros rate f Hr Hwf.
       apply wpa_bind. eapply wpa_mono; [|by eapply object_poll].
       intros [[i f'] o'] (Hw & _ & _ & Hsame). cbn. split; [done|].
       rewrite Hsame by (by intros ->). by eapply assign_id. }
  intros [[f x] h'] (Hf' & Hreg' & ->).
  cbn [am_set_mixer output_channel_num_ real_output_samples_].
  rewrite Hsize. unfold mixed_bytes in *.
  rewrite to_size_t_small by (unfold_i32; unfold kMaxDataSizeSamples in *; lia).
  rewrite (proj2 (Z.leb_le _ (lenZ _)))
    by (rewrite samples_bytes_length, frame_data_length by done; lia).
  by rewrite (proj2 (Z.leb_le _ _)).
Qed.

(** *** Destruction *)

Lemma release_all_spec (m : list (Z * nat)) h :
  NoDup m.*2 → (∀ l, l ∈ m.*2 → ∃ o, objects h !! l = Some (1%nat, o)) →
  ∀ l, objects (fold_left (λ h item, shared_release item.2 h) m h) !! l
    = if decide (l ∈ m.*2) then None else objects h !! l.
Proof.
  revert h. induction m as [|[k l0] m IH]; intros h Hnd Hm l; cbn in *.
  { by rewrite decide_False by by apply not_elem_of_nil. }
  apply list.NoDup_cons in Hnd as [Hl0 Hnd].
  destruct (Hm l0 ltac:(left)) as [o Ho].
  rewrite IH; [|done|].
  - rewrite (objects_release _ _ _ _ _ Ho).
    repeat case_decide; subst; set_solver.
  - intros l' Hl'. destruct (Hm l' ltac:(by right)) as [o' Ho'].
    exists o'. rewrite (objects_release _ _ _ _ _ Ho).
    by rewrite decide_False by congruence.
Qed.

Lemma AudioMixer_delete_spec am h :
  am_inv am h →
  registered (AudioMixer_delete am h).1 = []
  ∧ objects (AudioMixer_delete am h).2 = ∅.
Proof.
  intros (_ & _ & _ & _ & Hown & Hreg).
  pose proof Hown as (Hs & Hnd & Hall & Hdom). split.
  - apply Permutation_nil_r. unfold AudioMixer_delete. cbn.
    apply unregister_all_spec. by rewrite Hreg, app_nil_r.
  - apply map_eq. intros l. unfold AudioMixer_delete. cbn [snd].
    rewrite release_all_spec; [|done|].
    + rewrite lookup_empty. case_decide as Hl; [done|].
      destruct (objects h !! l) eqn:Ho; [|done].
      destruct (Hdom l); [by eexists|done].
    + intros l' Hl'.
      destruct (owned_location _ _ _ _ _ Hown Hl') as (o & Ho & _). eauto.
Qed.
End operations.
