(* ===== verification/MixerProperties.v ===== *)
(** What the mixer guarantees, and where it does not. *)

From Stdlib Require Import SpecFloat.
From stdpp Require Import gmap.
From S2P Require Import Prelude.
From S2P Require Import Buffer.
From S2P Require Import AudioFrame.
From S2P Require Import Api.
From S2P Require Import AudioSource.
From S2P Require Import RecordSource.
From S2P Require Import Ffmpeg.
From S2P Require Import FfmpegReference.
From S2P Require Import FileDecoder.
From S2P Require Import Resampler.
From S2P Require Import FileSource.
From S2P Require Import StdMap.
From S2P Require Import WebRtc.
From S2P Require Import Heap.
From S2P Require Import Mixer.
From S2P Require Import MixerInvariant.
From S2P Require Import MixerOperations.

(** ** Runs of the mixer *)

(** The calls a client makes. *)
Inductive mixer_op : Type :=
| OpAddSource (source : MixerSource)
| OpRemoveSource (ssrc : Z)
| OpUpdateVolume (ssrc : Z) (volume : f32)
| OpAddRecordedData (ssrc : Z) (samples : list Z) (size : Z)
| OpMix (room : Z).

Section mixer_runs.
Context `{FFmpegSpec, !FifoReliable, !StableChannels}.
Context `{BuildConfig, AudioFrameLaws, WebRtcMixerLaws}.
Context (max_channels : Z) (fuel : nat).
Implicit Types (am : AudioMixer) (h : heap).

Definition mixer_step am h (op : mixer_op) : outcome (AudioMixer * heap) :=
  match op with
  | OpAddSource source =>
      '(_, am, h) ← AddSource fuel am h source; Ret (am, h)
  | OpRemoveSource ssrc =>
      let '(_, am, h) := RemoveSource am h ssrc in Ret (am, h)
  | OpUpdateVolume ssrc volume =>
      h ← am_UpdateVolume am h ssrc volume; Ret (am, h)
  | OpAddRecordedData ssrc samples size =>
      h ← AddRecordedData am h ssrc samples size; Ret (am, h)
  | OpMix room =>
      '(_, _, am, h) ← Mix fuel am h room; Ret (am, h)
  end.

(** How the client must use the mixer: SSRCs of new sources are free,
    recorded data goes to record sources and is as long as it says, and the
    output buffer has [MAX_BUF_SIZE] bytes. *)
Definition op_ok am h (op : mixer_op) : Prop :=
  match op with
  | OpAddSource source =>
      source_ok am source ∧ std_find (ms_ssrc source) (sources_ am) = None
  | OpRemoveSource _ | OpUpdateVolume _ _ => True
  | OpAddRecordedData ssrc samples size =>
      is_i32 size ∧ size / 2 ≤ lenZ samples
      ∧ ∀ l s, std_find ssrc (sources_ am) = Some l →
          deref l h ≠ Ret (FileObj s)
  | OpMix room => MAX_BUF_SIZE ≤ room
  end.

(** The states of a mixer that is made from [config] and used like that. *)
Inductive reachable (config : MixerConfig) : AudioMixer → heap → Prop :=
| reachable_new am h :
    AudioMixer_new fuel config = Ret (am, h) → reachable config am h
| reachable_step am h op am' h' :
    reachable config am h → op_ok am h op →
    mixer_step am h op = Ret (am', h') → reachable config am' h'.

(** A configuration of a mixer. *)
Definition config_ok (config : MixerConfig) : Prop :=
  params_ok (mc_output_sample_rate config) (mc_output_channel_num config)
    (mc_frame_duration_ms config)
  ∧ library_ok max_channels fuel (mc_frame_duration_ms config)
  ∧ Forall (λ s, ms_type s = TYPE_RECORD →
      mc_frame_duration_ms config = kFrameDurationInMs) (mc_sources config).

Hypothesis channels_range : ∀ c, 0 < ctx_channels c ≤ max_channels.
Hypothesis address_space : alloc_limit < 2 ^ 63.

Notation am_inv := (am_inv max_channels fuel).
Notation library := (library_ok max_channels fuel).

(** The parameters never change. *)
Definition same_params am am' : Prop :=
  output_sample_rate_ am' = output_sample_rate_ am
  ∧ output_channel_num_ am' = output_channel_num_ am
  ∧ frame_duration_ms_ am' = frame_duration_ms_ am.

Lemma AddSource_params am h source b am' h' :
  AddSource fuel am h source = Ret (b, am', h') → same_params am am'.
Proof.
  unfold AddSource, DoAddSource, emplace_shared. destruct (_ =? _).
  - destruct (_ =? output_sample_rate_ am); [|done].
    destruct (_ =? output_channel_num_ am); [|done]. cbn.
    destruct (AudioRecordSource_new _ _ _ _ _); [|done..]. cbn.
    destruct (std_insert _ _ _) as [[] ?]; cbn;
      destruct (mixer_AddSource _ _); by intros [= _ <- _].
  - destruct (AudioFileSource_new _ _ _ _ _ _ _); [|done..]. cbn.
    destruct (std_insert _ _ _) as [[] ?]; cbn;
      destruct (mixer_AddSource _ _); by intros [= _ <- _].
Qed.

Lemma room_enough am h : am_inv am h → mixed_bytes am ≤ MAX_BUF_SIZE.
Proof.
  intros Hinv. destruct (mixed_bytes_bound _ _ _ _ Hinv) as [Hb _].
  unfold mixed_bytes, MAX_BUF_SIZE, kMaxDataSizeSamples in *. lia.
Qed.

Lemma Mix_params am h room n b am' h' :
  Mix fuel am h room = Ret (n, b, am', h') → same_params am am'.
Proof.
  unfold Mix. destruct (mixer_Mix _ _ _ _ _) as [[[f x] h1]| | |]; [|done..].
  cbn. destruct (_ && _); [|done]. by intros [= _ _ <- _].
Qed.

Lemma mixer_step_spec am h op :
  am_inv am h → library (frame_duration_ms_ am) → op_ok am h op →
  wpa (mixer_step am h op) (λ '(am', h'), am_inv am' h' ∧ same_params am am').
Proof.
  intros Hinv Hlib Hop.
  destruct op as [source|ssrc|ssrc v|ssrc samples size|room]; cbn in *.
  - destruct Hop as [Hsrc Hnew].
    pose proof (AddSource_fresh _ channels_range _ _ _ _ Hinv Hlib Hsrc Hnew)
      as Hadd.
    destruct (AddSource fuel am h source) as [[[b am'] h']| | |] eqn:Hrun;
      [|done..].
    apply AddSource_params in Hrun. by destruct Hadd as (_ & Hinv' & _).
  - pose proof (RemoveSource_spec _ _ _ _ ssrc Hinv) as Hrem.
    unfold RemoveSource in *. destruct (std_find _ _); cbn in *; by destruct Hrem.
  - apply wpa_bind, wp_wpa. eapply wp_mono; [|by eapply UpdateVolume_spec].
    intros h' [Hinv' _]. done.
  - apply wpa_bind. destruct Hop as (? & ? & ?).
    eapply wpa_mono; [|by eapply AddRecordedData_spec]. done.
  - pose proof (room_enough _ _ Hinv) as Hr.
    pose proof (Mix_spec _ channels_range _ _ _ room Hinv ltac:(lia)) as Hmix.
    destruct (Mix fuel am h room) as [[[[n b] am'] h']| | |] eqn:Hrun; [|done..].
    apply Mix_params in Hrun. by destruct Hmix as (Hinv' & _).
Qed.

(** C1: Every state a client that keeps the following rules can reach by making
    a mixer, and adding, removing, scaling, feeding and mixing sources,
    satisfies the invariant (each registered source is alive and owned by
    exactly one entry, and nothing else is), and from every such state every
    further call that keeps them is free of undefined behaviour, terminates and
    preserves it, unless a failed check or allocation or an unexpected error of
    FFmpeg stops the process.  The rules ([config_ok], [op_ok]): valid parameters
    (frames of 1 to 10 ms that fit an AudioFrame, a supported number of
    channels) and streams for which no arithmetic overflows, with enough fuel
    for their packets and frames; record sources only with frames of 10 ms;
    only free SSRCs are added; recorded data is never addressed to a file
    source and is as long as its size says; and the output has room for
    [MAX_BUF_SIZE] bytes. *)
Theorem reachable_safe config am h :
  config_ok config → reachable config am h →
  am_inv am h
  ∧ ∀ op, op_ok am h op →
      wpa (mixer_step am h op) (λ '(am', h'), am_inv am' h').
Proof.
  intros (Hp & Hlib & Hsrc) Hr.
  assert (am_inv am h ∧ frame_duration_ms_ am = mc_frame_duration_ms config)
    as [Hinv Hms].
  { induction Hr as [am h Hnew|am h op am' h' _ [Hinv Hms] Hop Hstep].
    - pose proof (AudioMixer_new_spec _ channels_range address_space _ config Hp Hlib Hsrc) as Hw.
      rewrite Hnew in Hw. by destruct Hw as (Hinv & _ & _ & _ & Hms).
    - rewrite <- Hms in Hlib.
      pose proof (mixer_step_spec _ _ _ Hinv Hlib Hop) as Hw.
      rewrite Hstep in Hw. destruct Hw as (Hinv' & _ & _ & Hms').
      split; [done|congruence]. }
  split; [done|]. intros op Hop. rewrite <- Hms in Hlib.
  eapply wpa_mono; [|by apply mixer_step_spec].
  intros [am' h'] [? _]. done.
Qed.

(** C12: A mixer made from a valid configuration satisfies the invariant, and
    of several configured sources with one SSRC the first wins: the map holds
    the object made for it (its SSRC, its kind, its volume), and no other
    SSRC. *)
Theorem mixer_construction config :
  config_ok config →
  wpa (AudioMixer_new fuel config) (λ '(am, h), am_inv am h
    ∧ ∀ ssrc, match first_source ssrc (mc_sources config) with
      | Some source => ∃ p o, std_find ssrc (sources_ am) = Some p
          ∧ deref p h = Ret o ∧ made_for source o
      | None => std_find ssrc (sources_ am) = None
      end).
Proof.
  intros (Hp & Hlib & Hsrc).
  eapply wpa_mono; [|by apply AudioMixer_new_spec].
  intros [am h] (? & ? & _). done.
Qed.

(** C19: Adding a source whose SSRC is free returns true, preserves the
    invariant, and changes the map and the objects by exactly one new entry,
    which holds the object made for the source. *)
Theorem add_source_fresh am h source :
  am_inv am h → library (frame_duration_ms_ am) → source_ok am source →
  std_find (ms_ssrc source) (sources_ am) = None →
  wpa (AddSource fuel am h source) (λ '(b, am', h'),
    b = true ∧ am_inv am' h' ∧ ∃ o, made_for source o
    ∧ std_map_view (sources_ am')
        = <[ms_ssrc source := next_loc h]> (std_map_view (sources_ am))
    ∧ objects h' = <[next_loc h := (1%nat, o)]> (objects h)).
Proof. apply AddSource_fresh, channels_range. Qed.

(** C6: Adding a source whose SSRC is in use also returns true, although the
    map keeps the old entry; the new source is destroyed while the WebRTC
    mixer holds a pointer to it, so that the next [Mix] calls a destroyed
    object (unless a check on another source stops the process first). *)
Theorem duplicate_source_dangles am h source :
  am_inv am h → library (frame_duration_ms_ am) → source_ok am source →
  is_Some (std_find (ms_ssrc source) (sources_ am)) →
  wpa (AddSource fuel am h source) (λ '(b, am', h'),
    b = true ∧ sources_ am' = sources_ am
    ∧ ∀ room, Mix fuel am' h' room = Undef DanglingPointer
              ∨ ∃ s, Mix fuel am' h' room = Abort s).
Proof.
  intros Hinv Hlib Hsrc Hdup.
  eapply wpa_mono; [|by apply AddSource_duplicate].
  intros [[b am'] h'] (-> & Hs & Hown & Hp & Hf & Hnone & Hreg).
  split_and!; [done|done|]. intros room.
  destruct (mixed_channels _ Hp) as [Hcs Hch].
  unfold Mix. rewrite Hcs.
  destruct (mix_asks (callbacks fuel)
    (λ w, owned max_channels fuel am' w
          ∧ ∀ p, p = next_loc h → objects w !! p = None)
    DanglingPointer (next_loc h) (output_channel_num_ am') (mixed_frame_ am')
    (mixer_ am') h') as [->|[m ->]];
    [done|done| | | | |by left|right; by exists m].
  - split; [done|]. by intros p ->.
  - rewrite Hreg. by left.
  - intros w [_ Hdead]. by apply dangling_undefined, Hdead.
  - intros l Hl Hne. left. rewrite Hreg in Hl.
    apply elem_of_cons in Hl as [|Hl]; [done|]. by apply owned_answers.
Qed.

(** C20: Removing an SSRC returns whether it was in the map; the entry is
    gone, its object is destroyed and no longer registered, and everything
    else is as before. *)
Theorem remove_source am h ssrc :
  am_inv am h →
  let '(b, am', h') := RemoveSource am h ssrc in
  am_inv am' h'
  ∧ b = bool_decide (is_Some (std_find ssrc (sources_ am)))
  ∧ std_map_view (sources_ am') = delete ssrc (std_map_view (sources_ am))
  ∧ ∀ l, objects h' !! l
      = if decide (std_find ssrc (sources_ am) = Some l) then None
        else objects h !! l.
Proof. apply RemoveSource_spec. Qed.

(** Adding a source with a free SSRC and removing it again restores the
    map and the objects. *)
Theorem add_remove_roundtrip am h source :
  am_inv am h → library (frame_duration_ms_ am) → source_ok am source →
  std_find (ms_ssrc source) (sources_ am) = None →
  wpa ('(_, am', h') ← AddSource fuel am h source;
       Ret (RemoveSource am' h' (ms_ssrc source))) (λ '(b, am', h'),
    b = true ∧ am_inv am' h'
    ∧ std_map_view (sources_ am') = std_map_view (sources_ am)
    ∧ objects h' = objects h).
Proof.
  intros Hinv Hlib Hsrc Hnew. apply wpa_bind.
  eapply wpa_mono; [|by apply AddSource_fresh].
  intros [[b am'] h'] (_ & Hinv' & o & _ & Hview & Hobj). cbn [wpa].
  pose proof (RemoveSource_spec _ _ _ _ (ms_ssrc source) Hinv') as Hrem.
  destruct (RemoveSource am' h' (ms_ssrc source)) as [[b2 am2] h2].
  destruct Hrem as (Hinv2 & -> & Hview2 & Hobj2).
  assert (std_find (ms_ssrc source) (sources_ am') = Some (next_loc h)) as Hf.
  { by rewrite <- std_find_view, Hview, lookup_insert_eq. }
  split_and!; [by rewrite Hf|done| |].
  - rewrite Hview2, Hview, delete_insert_id; [done|].
    by rewrite std_find_view.
  - destruct Hinv as (_ & _ & _ & _ & Hown & _).
    apply map_eq. intros l. rewrite Hobj2, Hf, Hobj.
    destruct (decide (l = next_loc h)) as [->|Hne].
    + by rewrite decide_True, (owned_fresh _ _ _ _ Hown) by done.
    + by rewrite decide_False, lookup_insert_ne by congruence.
Qed.

(** A volume change affects the volume of the source with that SSRC, if
    there is one, and nothing else. *)
Theorem update_volume am h ssrc v :
  am_inv am h →
  wp (am_UpdateVolume am h ssrc v) (λ h', am_inv am h'
    ∧ ∀ l, objects h' !! l
        = if decide (std_find ssrc (sources_ am) = Some l)
          then (λ p, (p.1, obj_UpdateVolume v p.2)) <$> objects h !! l
          else objects h !! l).
Proof. apply UpdateVolume_spec. Qed.

(** Recorded data sent to the SSRC of a file source makes
    [AddRecordedData] use the file source as a record source. *)
Theorem recorded_data_to_file_source am h ssrc l s samples size :
  std_find ssrc (sources_ am) = Some l → deref l h = Ret (FileObj s) →
  AddRecordedData am h ssrc samples size = Undef BadDowncast.
Proof. intros Hf Hd. unfold AddRecordedData. by rewrite Hf, Hd. Qed.

(** C11: A mix writes and returns exactly the bytes of one frame of the
    configured duration, never more than [MAX_BUF_SIZE]: the first samples
    of the mixed frame, low byte first; the buffer has to be that big. *)
Theorem mix_output am h room :
  am_inv am h → mixed_bytes am ≤ room →
  mixed_bytes am ≤ MAX_BUF_SIZE
  ∧ wpa (Mix fuel am h room) (λ '(size, bytes, am', h'),
      am_inv am' h' ∧ sources_ am' = sources_ am
      ∧ size = mixed_bytes am ∧ lenZ bytes = size
      ∧ bytes = samples_bytes (takeZ (output_channel_num_ am
                   * real_output_samples_ am) (frame_data (mixed_frame_ am')))).
Proof.
  intros Hinv Hroom. split; [by eapply room_enough|].
  destruct (mixed_bytes_bound _ _ _ _ Hinv) as [Hb _].
  eapply wpa_mono; [|by eapply Mix_spec].
  intros [[[n b] am'] h'] (Hinv' & Hs & -> & ->). split_and!; try done.
  destruct Hinv' as (_ & _ & _ & Hf & _).
  rewrite samples_bytes_length, lenZ_takeZ, frame_data_length by (done || lia).
  unfold mixed_bytes. lia.
Qed.

(** C22: A mixer whose output rate is not one of the native rates of the
    WebRTC mixer never takes anything from its sources: each of them is
    asked for another rate, refuses, and a mix leaves all sources as they
    are. *)
Theorem non_native_rate_plays_nothing am h room :
  am_inv am h → mixed_bytes am ≤ room →
  output_sample_rate_ am ∉ NativeRate →
  wpa (Mix fuel am h room) (λ '(_, _, _, h'), h' = h).
Proof. by eapply Mix_non_native. Qed.

(** Destroying the mixer unregisters every source and destroys every
    object. *)
Theorem destructor_releases_all am h :
  am_inv am h →
  registered (AudioMixer_delete am h).1 = []
  ∧ objects (AudioMixer_delete am h).2 = ∅.
Proof. by eapply AudioMixer_delete_spec. Qed.
End mixer_runs.

(** ** Rejected parameters *)

Section rejected.
Context `{FFmpeg, BuildConfig, AudioFrameApi, WebRtcMixer}.

(** A frame duration of zero, or below -1000 ms, passes the check of the
    constructor, which then divides by zero. *)
Theorem bad_duration_divides_by_zero fuel config :
  is_i32 (mc_output_sample_rate config) →
  0 ≤ mc_output_sample_rate config →
  is_i32 (mc_frame_duration_ms config) →
  mc_frame_duration_ms config = 0 ∨ mc_frame_duration_ms config < -1000 →
  AudioMixer_new fuel config = Undef DivisionByZero.
Proof.
  intros Ho1 Ho2 Hi Hms. unfold AudioMixer_new, kFrameDurationInMs.
  rewrite (proj2 (Z.leb_le _ 10)) by lia. cbn [RTC_CHECK mbind outcome_bind].
  rewrite (per_frame_ok _ 10) by (done || lia). cbn [mbind outcome_bind].
  by rewrite (per_frame_div_zero _ _ Hi) by (destruct Hms; auto).
Qed.

(** A duration above 10 ms is rejected before anything is made. *)
Theorem long_duration_aborts fuel config :
  kFrameDurationInMs < mc_frame_duration_ms config →
  AudioMixer_new fuel config = Abort "frame duration too long".
Proof.
  intros Hms. unfold AudioMixer_new.
  by rewrite (proj2 (Z.leb_gt _ _)) by done.
Qed.

(** A record source whose rate or channel count is not that of the
    output is rejected before anything is made. *)
Theorem record_mismatch_aborts fuel am h source :
  ms_type source = TYPE_RECORD →
  ms_sample_rate source ≠ output_sample_rate_ am
  ∨ ms_channel_num source ≠ output_channel_num_ am →
  ∃ msg, AddSource fuel am h source = Abort msg.
Proof.
  intros Ht Hne. unfold AddSource, DoAddSource. rewrite Ht, Z.eqb_refl.
  destruct (Z.eqb_spec (ms_sample_rate source) (output_sample_rate_ am));
    [|by eexists].
  destruct (Z.eqb_spec (ms_channel_num source) (output_channel_num_ am));
    [|by eexists].
  by destruct Hne.
Qed.
End rejected.

(** The number of samples of a frame, computed with two truncating
    divisions, is the exact one at every native rate for every duration up to
    10 ms except 6 ms and 7 ms. *)
Theorem frame_samples_exact :
  Forall (λ ms, Forall (λ rate, per_frame rate ms = Ret (rate * ms / 1000))
                  NativeRate ↔ ms ≠ 6 ∧ ms ≠ 7)
    [1; 2; 3; 4; 5; 6; 7; 8; 9; 10].
Proof.
  assert (∀ ms, Forall (λ rate, per_frame rate ms = Ret (rate * ms / 1000))
                  NativeRate ↔ forallb (λ rate, bool_decide
                    (per_frame rate ms = Ret (rate * ms / 1000))) NativeRate = true)
    as Hdec.
  { intros ms. rewrite forallb_forall, Forall_forall.
    split; intros Hall x Hx; specialize (Hall x Hx);
      by rewrite ?bool_decide_eq_true in *. }
  repeat (apply list.Forall_cons; split;
    [rewrite Hdec; vm_compute; intuition congruence|]).
  constructor.
Qed.

(** ** Examples: a mixer at 8 kHz with one record source *)

#[local] Existing Instance demo_ffmpeg.
#[local] Existing Instance demo_spec.
#[local] Existing Instance demo_reliable.
#[local] Existing Instance DebugBuild.
#[local] Existing Instance ReferenceMixer.
#[local] Existing Instance ReferenceMixerLaws.

Definition demo_stable : @StableChannels demo_ffmpeg :=
  ReferenceStableChannels demo_file AV_SAMPLE_FMT_S16 8000 1 2.
#[local] Existing Instance demo_stable.

Definition f32_one : f32 := S754_finite false 8388608 (-23).

(** A recorded source, a file, and a second one with its SSRC. *)
Definition demo_record_source : MixerSource :=
  MkMixerSource TYPE_RECORD 1 f32_one "" 8000 1.
Definition demo_file_source : MixerSource :=
  MkMixerSource TYPE_FILE 2 f32_one "morning.wav" 0 0.
Definition demo_duplicate : MixerSource :=
  MkMixerSource TYPE_RECORD 1 f32_one "" 8000 1.
Definition demo_config : MixerConfig :=
  MkMixerConfig [demo_record_source; demo_file_source; demo_duplicate] 8000 1 10.

Definition demo_record : AudioRecordSource :=
  MkRecordSource (MkAudioSource f32_one) 1 8000 1 10 80 80
    (MkBufferT 0 0 None).
Definition demo_mixer : AudioMixer :=
  MkAudioMixer (H := ReferenceMixer) [0%nat] [(1, 0%nat)] AudioFrame_new
    8000 1 10 80 80.
Definition demo_heap : heap :=
  MkHeap {[ 0%nat := (1%nat, RecordObj demo_record) ]} 1.

Lemma demo_range : ∀ c : @AVCodecContext demo_ffmpeg, 0 < ctx_channels c ≤ 1.
Proof. cbn. lia. Qed.

Lemma demo_params : params_ok 8000 1 10.
Proof. unfold params_ok, output_ok, mixable_channels. ground. Qed.

Lemma filter_frames no (l : list (AVPacket (list (list Z)))) :
  (length (ref_decoded (filter (λ p, pkt_stream_index p = no) l))
    ≤ length (ref_decoded l))%nat.
Proof.
  unfold ref_decoded. rewrite !length_fmap. induction l as [|p l IH]; [done|].
  rewrite filter_cons. case_decide; cbn; rewrite !length_app; lia.
Qed.

Lemma demo_frames no :
  (length (decoded (audio_packets no
     (fmt_packets (demo_file : @AVFormatContext demo_ffmpeg)))) ≤ 5)%nat.
Proof. exact (filter_frames no demo_file). Qed.

Lemma demo_library : library_ok (H := demo_ffmpeg) 1 10 10.
Proof.
  split_and!.
  - intros c. ground.
  - done.
  - intros path e0 c0 e c [= <- <-] [= <- <-]. split; [cbn; lia|].
    intros no k [k' Hk]. pose proof (demo_frames no) as Hle. rewrite Hk in Hle.
    change (decoded (k ++ k')) with (ref_decoded (k ++ k')) in Hle.
    change (decoded k) with (ref_decoded k).
    rewrite ref_decoded_app, length_app in Hle.
    eapply Nat.le_lt_trans; [etrans; [apply Nat.le_add_r|exact Hle]|].
    apply Nat.ltb_lt. reflexivity.
Qed.

Lemma demo_config_ok : config_ok 1 10 demo_config.
Proof. split; [exact demo_params|split; [exact demo_library|by repeat constructor]]. Qed.

Lemma demo_owned : owned 1 10 demo_mixer demo_heap.
Proof.
  split_and!; [repeat constructor|apply list.NoDup_singleton| |].
  - constructor; [|constructor]. exists (RecordObj demo_record).
    do 2 (split; [done|]). do 4 (split; [done|]). exists []. split; [|ground].
    split_and!; try done; ground.
  - intros l. cbn. intros [x Hx].
    apply lookup_singleton_Some in Hx as [<- _]. split; [by left|lia].
Qed.

Lemma demo_inv : am_inv 1 10 demo_mixer demo_heap.
Proof.
  split; [exact demo_params|]. do 3 (split; [done|]).
  split; [exact demo_owned|done].
Qed.

Lemma demo_makes : wp (AudioMixer_new 10 demo_config) (λ _, True).
Proof. vm_compute. exact I. Qed.

Lemma reachable_safe_witness :
  ∃ am h, AudioMixer_new 10 demo_config = Ret (am, h)
    ∧ am_inv 1 10 am h
    ∧ ∀ op, op_ok am h op →
        wpa (mixer_step 10 am h op) (λ '(am', h'), am_inv 1 10 am' h').
Proof.
  destruct (proj1 (wp_exists _ _) demo_makes) as ([am h] & Hnew & _).
  exists am, h. split; [exact Hnew|].
  apply (reachable_safe 1 10 demo_range ltac:(done) demo_config am h
    demo_config_ok).
  by constructor.
Defined.

Lemma mixer_construction_witness :
  wpa (AudioMixer_new 10 demo_config) (λ '(am, h), am_inv 1 10 am h
    ∧ ∀ ssrc, match first_source ssrc (mc_sources demo_config) with
      | Some source => ∃ p o, std_find ssrc (sources_ am) = Some p
          ∧ deref p h = Ret o ∧ made_for source o
      | None => std_find ssrc (sources_ am) = None
      end).
Proof.
  apply (mixer_construction 1 10 demo_range ltac:(done) demo_config
    demo_config_ok).
Defined.

Lemma add_source_fresh_witness :
  wpa (AddSource 10 demo_mixer demo_heap demo_file_source) (λ '(b, am', h'),
    b = true ∧ am_inv 1 10 am' h' ∧ ∃ o, made_for demo_file_source o
    ∧ std_map_view (sources_ am') = <[2 := 1%nat]> (std_map_view [(1, 0%nat)])
    ∧ objects h' = <[1%nat := (1%nat, o)]> (objects demo_heap)).
Proof.
  apply (add_source_fresh 1 10 demo_range demo_mixer demo_heap demo_file_source
    demo_inv demo_library); done.
Defined.

Lemma duplicate_source_dangles_witness :
  wpa (AddSource 10 demo_mixer demo_heap demo_duplicate) (λ '(b, am', h'),
    b = true ∧ sources_ am' = sources_ demo_mixer
    ∧ ∀ room, Mix 10 am' h' room = Undef DanglingPointer
              ∨ ∃ s, Mix 10 am' h' room = Abort s).
Proof.
  apply (duplicate_source_dangles 1 10 demo_range demo_mixer demo_heap
    demo_duplicate demo_inv demo_library); [done|by eexists].
Defined.

(** The reference libraries do run into it. *)
Example demo_dangling :
  match ('(_, am, h) ← AddSource 10 demo_mixer demo_heap demo_duplicate;
         Mix 10 am h MAX_BUF_SIZE) with
  | Undef DanglingPointer => true
  | _ => false
  end = true.
Proof. vm_compute. reflexivity. Qed.

Lemma remove_source_witness :
  let '(b, am', h') := RemoveSource demo_mixer demo_heap 1 in
  am_inv 1 10 am' h'
  ∧ b = bool_decide (is_Some (std_find 1 (sources_ demo_mixer)))
  ∧ std_map_view (sources_ am') = delete 1 (std_map_view (sources_ demo_mixer))
  ∧ ∀ l, objects h' !! l
      = if decide (std_find 1 (sources_ demo_mixer) = Some l) then None
        else objects demo_heap !! l.
Proof. apply (remove_source 1 10 demo_mixer demo_heap 1 demo_inv). Defined.

Lemma add_remove_roundtrip_witness :
  wpa ('(_, am', h') ← AddSource 10 demo_mixer demo_heap demo_file_source;
       Ret (RemoveSource am' h' 2)) (λ '(b, am', h'),
    b = true ∧ am_inv 1 10 am' h'
    ∧ std_map_view (sources_ am') = std_map_view (sources_ demo_mixer)
    ∧ objects h' = objects demo_heap).
Proof.
  apply (add_remove_roundtrip 1 10 demo_range demo_mixer demo_heap
    demo_file_source demo_inv demo_library); done.
Defined.

Lemma update_volume_witness :
  wp (am_UpdateVolume demo_mixer demo_heap 1 (S754_zero false)) (λ h',
    am_inv 1 10 demo_mixer h'
    ∧ ∀ l, objects h' !! l
        = if decide (std_find 1 (sources_ demo_mixer) = Some l)
          then (λ p, (p.1, obj_UpdateVolume (S754_zero false) p.2))
                 <$> objects demo_heap !! l
          else objects demo_heap !! l).
Proof.
  apply (update_volume 1 10 demo_mixer demo_heap 1 (S754_zero false) demo_inv).
Defined.

Lemma recorded_data_to_file_source_witness :
  let am := am_set_sources demo_mixer [(2, 0%nat)] in
  let h := MkHeap {[ 0%nat := (1%nat,
             FileObj (demo_source demo_file AV_SAMPLE_FMT_S16 2)) ]} 1 in
  @AddRecordedData (demo_ff AV_SAMPLE_FMT_S16) _ _ am h 2 [1; 2] 4
    = Undef BadDowncast.
Proof.
  apply (@recorded_data_to_file_source (demo_ff AV_SAMPLE_FMT_S16)) with
    (l := 0%nat) (s := demo_source demo_file AV_SAMPLE_FMT_S16 2); reflexivity.
Defined.

Lemma mix_output_witness :
  mixed_bytes demo_mixer ≤ MAX_BUF_SIZE
  ∧ wpa (Mix 10 demo_mixer demo_heap 160) (λ '(size, bytes, am', h'),
      am_inv 1 10 am' h' ∧ sources_ am' = sources_ demo_mixer
      ∧ size = mixed_bytes demo_mixer ∧ lenZ bytes = size
      ∧ bytes = samples_bytes (takeZ (output_channel_num_ demo_mixer
                   * real_output_samples_ demo_mixer)
                   (frame_data (mixed_frame_ am')))).
Proof.
  apply (mix_output 1 10 demo_range demo_mixer demo_heap 160 demo_inv). ground.
Defined.

(** A mixer at 44.1 kHz. *)
Definition cd_record : AudioRecordSource :=
  MkRecordSource (MkAudioSource f32_one) 1 44100 1 10 441 441
    (MkBufferT 0 0 None).
Definition cd_mixer : AudioMixer :=
  MkAudioMixer (H := ReferenceMixer) [0%nat] [(1, 0%nat)] AudioFrame_new
    44100 1 10 441 441.
Definition cd_heap : heap := MkHeap {[ 0%nat := (1%nat, RecordObj cd_record) ]} 1.

Lemma cd_inv : am_inv 1 10 cd_mixer cd_heap.
Proof.
  split; [unfold am_params, params_ok, output_ok, mixable_channels; ground|].
  do 3 (split; [done|]). split; [|done].
  split_and!; [repeat constructor|apply list.NoDup_singleton| |].
  - constructor; [|constructor]. exists (RecordObj cd_record).
    do 2 (split; [done|]). do 4 (split; [done|]). exists []. split; [|ground].
    split_and!; try done; ground.
  - intros l. cbn. intros [x Hx].
    apply lookup_singleton_Some in Hx as [<- _]. split; [by left|lia].
Qed.

Lemma non_native_rate_plays_nothing_witness :
  wpa (Mix 10 cd_mixer cd_heap 882) (λ '(_, _, _, h'), h' = cd_heap).
Proof.
  apply (non_native_rate_plays_nothing 1 10 demo_range cd_mixer cd_heap 882
    cd_inv); [ground|].
  rewrite list_elem_of_In. intros Hin. vm_compute in Hin. intuition discriminate.
Defined.

Lemma destructor_releases_all_witness :
  registered (AudioMixer_delete demo_mixer demo_heap).1 = []
  ∧ objects (AudioMixer_delete demo_mixer demo_heap).2 = ∅.
Proof. apply (destructor_releases_all 1 10 demo_range ltac:(done) demo_mixer demo_heap
  demo_inv). Defined.

Lemma bad_duration_divides_by_zero_witness :
  AudioMixer_new 10 (MkMixerConfig [] 48000 2 0) = Undef DivisionByZero.
Proof. apply bad_duration_divides_by_zero; ground. Defined.

Lemma long_duration_aborts_witness :
  AudioMixer_new 10 (MkMixerConfig [] 48000 2 20)
    = Abort "frame duration too long".
Proof. apply long_duration_aborts. ground. Defined.

Lemma record_mismatch_aborts_witness :
  ∃ msg, AddSource 10 demo_mixer demo_heap
    (MkMixerSource TYPE_RECORD 5 f32_one "" 16000 1) = Abort msg.
Proof. apply record_mismatch_aborts; [reflexivity|left; ground]. Defined.
