(* ===== verification/Jni.v ===== *)
(** The Java Native Interface as far as the native functions of
    android_project/AudioMixer/src/main/jni/audio_mixer_jni.cpp use it, and the
    bytes of samples in a Java array.

    The virtual machine is not part of the repository: its state and functions
    are the fields of the class [JNI], what their specification promises is
    the class [JNISpec].  A [jbyte] is given by its bit pattern, 0 to 255.
    [GetByteArrayElements] is modelled as returning a copy, which the
    specification permits; the contents come back with
    [ReleaseByteArrayElements] and mode 0. *)

From stdpp Require Import gmap strings.
From S2P Require Import Prelude.
From S2P Require Import Ffmpeg.
From S2P Require Import Mixer.

(** ** The functions *)

Class JNI := {
  JVM : Type;
  jbyteArray : Type;
  jstring : Type;
  jbyteArray_eq_dec :: EqDecision jbyteArray;
  jstring_eq_dec :: EqDecision jstring;
  (** null if the elements cannot be obtained *)
  GetByteArrayElements : jbyteArray → JVM → option (list Z) * JVM;
  (** the elements with their final contents; mode 0: copy back and free *)
  ReleaseByteArrayElements : jbyteArray → list Z → JVM → JVM;
  GetStringUTFChars : jstring → JVM → option string * JVM;
  ReleaseStringUTFChars : jstring → JVM → JVM
}.

(** The views: the contents of arrays and strings, and how often their
    elements have been obtained and not been released. *)
Class JNISpec `{JNI} := {
  array_of : JVM → jbyteArray → list Z;
  string_of : JVM → jstring → string;
  array_holds : JVM → jbyteArray → nat;
  string_holds : JVM → jstring → nat;

  get_elements_spec a j e j' :
    GetByteArrayElements a j = (e, j') →
    (∀ b, array_of j' b = array_of j b) ∧ (∀ t, string_of j' t = string_of j t)
    ∧ (∀ t, string_holds j' t = string_holds j t)
    ∧ match e with
      | Some l => l = array_of j a
          ∧ ∀ b, array_holds j' b
                 = (array_holds j b + if decide (b = a) then 1 else 0)%nat
      | None => ∀ b, array_holds j' b = array_holds j b
      end;
  release_elements_spec a l j :
    (0 < array_holds j a)%nat → lenZ l = lenZ (array_of j a) →
    let j' := ReleaseByteArrayElements a l j in
    (∀ b, array_of j' b = if decide (b = a) then l else array_of j b)
    ∧ (∀ t, string_of j' t = string_of j t)
    ∧ (∀ t, string_holds j' t = string_holds j t)
    ∧ (∀ b, array_holds j' b
            = (array_holds j b - if decide (b = a) then 1 else 0)%nat);
  get_string_spec t j e j' :
    GetStringUTFChars t j = (e, j') →
    (∀ b, array_of j' b = array_of j b) ∧ (∀ u, string_of j' u = string_of j u)
    ∧ (∀ b, array_holds j' b = array_holds j b)
    ∧ match e with
      | Some s => s = string_of j t
          ∧ ∀ u, string_holds j' u
                 = (string_holds j u + if decide (u = t) then 1 else 0)%nat
      | None => ∀ u, string_holds j' u = string_holds j u
      end;
  release_string_spec t j :
    (0 < string_holds j t)%nat →
    let j' := ReleaseStringUTFChars t j in
    (∀ b, array_of j' b = array_of j b) ∧ (∀ u, string_of j' u = string_of j u)
    ∧ (∀ b, array_holds j' b = array_holds j b)
    ∧ (∀ u, string_holds j' u
            = (string_holds j u - if decide (u = t) then 1 else 0)%nat)
}.

(** What the JNI calls of a native function amount to, if it releases all it
    obtains: the arrays in [A] may have new contents of the same length. *)
Definition vm_effect `{JNISpec} (A : jbyteArray → Prop) (j j' : JVM) : Prop :=
  (∀ b, ¬ A b → array_of j' b = array_of j b)
  ∧ (∀ b, lenZ (array_of j' b) = lenZ (array_of j b))
  ∧ (∀ t, string_of j' t = string_of j t)
  ∧ (∀ b, array_holds j' b = array_holds j b)
  ∧ (∀ t, string_holds j' t = string_holds j t).

Section vm_effect.
Context `{JNISpec}.
Implicit Types (A B : jbyteArray → Prop) (j : JVM).

Lemma vm_effect_refl A j : vm_effect A j j.
Proof. by split_and!. Qed.

Lemma vm_effect_trans A j1 j2 j3 :
  vm_effect A j1 j2 → vm_effect A j2 j3 → vm_effect A j1 j3.
Proof.
  intros (Ha & Hl & Hs & Hh & Ht) (Ha' & Hl' & Hs' & Hh' & Ht').
  split_and!; intros;
    [rewrite Ha', Ha|rewrite Hl', Hl|rewrite Hs', Hs|rewrite Hh', Hh|rewrite Ht', Ht];
    done.
Qed.

Lemma vm_effect_mono A B j1 j2 :
  (∀ b, A b → B b) → vm_effect A j1 j2 → vm_effect B j1 j2.
Proof.
  intros HAB (Ha & Hrest). split; [|done]. intros b Hb. apply Ha. naive_solver.
Qed.
End vm_effect.

(** ** Samples in memory *)

(** libavutil/samplefmt.h: the formats with one plane for each channel. *)
Definition planar (f : AVSampleFormat) : bool :=
  match f with
  | AV_SAMPLE_FMT_U8P | AV_SAMPLE_FMT_S16P | AV_SAMPLE_FMT_S32P
  | AV_SAMPLE_FMT_FLTP | AV_SAMPLE_FMT_DBLP | AV_SAMPLE_FMT_S64P => true
  | _ => false
  end.

(** The bytes of a sample of [c] channels, one channel after the other. *)
Class SampleMemory `{FFmpeg} := {
  sample_to_bytes : AVSampleFormat → Z → Sample → list Z;
  sample_of_bytes : AVSampleFormat → Z → list Z → Sample;
  sample_to_bytes_length f c x :
    0 ≤ c → lenZ (sample_to_bytes f c x) = c * sample_format_bytes f
}.

Section sample_memory.
Context `{SampleMemory}.

(** The whole samples in [l]. *)
Definition samples_in (f : AVSampleFormat) (c : Z) (l : list Z) : list Sample :=
  let size := c * sample_format_bytes f in
  (λ i, sample_of_bytes f c (takeZ size (dropZ (Z.of_nat i * size) l)))
    <$> seq 0 (Z.to_nat (lenZ l / size)).

Lemma samples_in_length f c l :
  0 ≤ c → lenZ (samples_in f c l) = lenZ l / (c * sample_format_bytes f).
Proof.
  intros Hc. unfold samples_in, lenZ.
  rewrite length_fmap, length_seq, Z2Nat.id; [done|].
  destruct (decide (c * sample_format_bytes f = 0)) as [->|Hne];
    [by rewrite Zdiv_0_r|].
  apply Z.div_pos; [lia|]. destruct f; cbn in *; lia.
Qed.

Definition samples_to_bytes (f : AVSampleFormat) (c : Z) (l : list Sample)
    : list Z := concat (sample_to_bytes f c <$> l).

Lemma samples_to_bytes_length f c l :
  0 ≤ c → lenZ (samples_to_bytes f c l) = lenZ l * (c * sample_format_bytes f).
Proof.
  intros Hc. induction l as [|x l IH]; [done|]. unfold samples_to_bytes in *.
  cbn [fmap list_fmap concat]. rewrite lenZ_app, IH, sample_to_bytes_length by done.
  rewrite lenZ_cons. lia.
Qed.

(** The samples as the planes of their format: one for each channel, with the
    bytes of that channel, or a single one. *)
Definition plane_bytes (f : AVSampleFormat) (c : Z) (l : list Sample) (i : nat)
    : list Z :=
  let size := sample_format_bytes f in
  concat ((λ x, takeZ size (dropZ (Z.of_nat i * size) (sample_to_bytes f c x)))
          <$> l).
Definition sample_planes (f : AVSampleFormat) (c : Z) (l : list Sample)
    : list (list Z) :=
  if planar f then plane_bytes f c l <$> seq 0 (Z.to_nat c)
  else [samples_to_bytes f c l].

(** One channel is one plane, whatever the format. *)
Lemma sample_planes_one f c l :
  0 < c → planar f && (1 <? c) = false →
  sample_planes f c l = [samples_to_bytes f c l].
Proof.
  unfold sample_planes. destruct (planar f); [|done]. cbn [andb].
  intros Hc Hone%Z.ltb_ge. assert (c = 1) as -> by lia.
  change (seq 0 (Z.to_nat 1)) with [0%nat]. cbn [fmap list_fmap]. f_equal.
  unfold plane_bytes, samples_to_bytes. f_equal. apply list_fmap_ext.
  intros _ x _. cbn [Z.of_nat Z.mul]. rewrite dropZ_0.
  apply takeZ_all. rewrite sample_to_bytes_length; lia.
Qed.

Lemma sample_planes_more f c l :
  planar f && (1 <? c) = true →
  ∃ src src' planes, sample_planes f c l = src :: src' :: planes.
Proof.
  unfold sample_planes. destruct (planar f); [|done]. intros Hc%Z.ltb_lt.
  destruct (Z.to_nat c) as [|[|n]] eqn:Hn; [lia|lia|]. cbn. eauto.
Qed.
End sample_memory.

(** Reading 16-bit samples, low byte first; an odd byte at the end is no
    sample. *)
Fixpoint bytes_samples (l : list Z) : list Z :=
  match l with
  | low :: high :: l =>
      ((low + 256 * high + 2 ^ 15) mod 2 ^ 16 - 2 ^ 15) :: bytes_samples l
  | _ => []
  end.

Lemma bytes_samples_bytes l :
  Forall (λ x, - 2 ^ 15 ≤ x < 2 ^ 15) l → bytes_samples (samples_bytes l) = l.
Proof.
  induction 1 as [|x l Hx Hl IH]; [done|].
  change (samples_bytes (x :: l)) with (sample_bytes x ++ samples_bytes l).
  cbn [sample_bytes app bytes_samples]. rewrite IH. f_equal. dlia.
Qed.

(** ** A small virtual machine *)

(** Arrays and strings are named by numbers and by themselves; obtaining the
    elements of an array that does not exist fails. *)
Record RefVm : Type := MkRefVm {
  vm_arrays : gmap nat (list Z);
  vm_array_holds : gmap nat nat;
  vm_string_holds : gmap string nat
}.

Definition held {K} `{Countable K} (m : gmap K nat) (k : K) : nat :=
  default 0%nat (m !! k).
Definition hold {K} `{Countable K} (f : nat → nat) (k : K) (m : gmap K nat)
    : gmap K nat := <[k := f (held m k)]> m.

Lemma held_hold {K} `{Countable K} f (m : gmap K nat) k k' :
  held (hold f k m) k' = if decide (k' = k) then f (held m k) else held m k'.
Proof.
  unfold held at 1, hold. case_decide as Hk.
  - subst. by rewrite lookup_insert_eq.
  - by rewrite lookup_insert_ne.
Qed.

#[local] Instance ReferenceJni : JNI := {
  JVM := RefVm;
  jbyteArray := nat;
  jstring := string;
  GetByteArrayElements a j :=
    match vm_arrays j !! a with
    | Some l => (Some l, MkRefVm (vm_arrays j) (hold S a (vm_array_holds j))
                           (vm_string_holds j))
    | None => (None, j)
    end;
  ReleaseByteArrayElements a l j :=
    MkRefVm (<[a := l]> (vm_arrays j)) (hold pred a (vm_array_holds j))
      (vm_string_holds j);
  GetStringUTFChars t j :=
    (Some t, MkRefVm (vm_arrays j) (vm_array_holds j)
               (hold S t (vm_string_holds j)));
  ReleaseStringUTFChars t j :=
    MkRefVm (vm_arrays j) (vm_array_holds j)
      (hold pred t (vm_string_holds j))
}.

#[local] Program Instance ReferenceJniSpec : JNISpec := {
  array_of j a := default [] (vm_arrays j !! a);
  string_of j t := t;
  array_holds j a := held (vm_array_holds j) a;
  string_holds j t := held (vm_string_holds j) t
}.
Next Obligation.
  cbn. intros a j e j'. destruct (vm_arrays j !! a) as [l|] eqn:Hl;
    intros [= <- <-]; split_and!; try done.
  intros b. cbn. rewrite held_hold. case_decide; [by subst; lia|lia].
Qed.
Next Obligation.
  cbn. intros a l j Hheld Hlen. split_and!; try done.
  - intros b. case_decide as Hb; [subst; by rewrite lookup_insert_eq|].
    by rewrite lookup_insert_ne.
  - intros b. rewrite held_hold. case_decide; [subst; lia|lia].
Qed.
Next Obligation.
  cbn. intros t j e j' [= <- <-]. split_and!; try done.
  intros u. cbn. rewrite held_hold. case_decide; [by subst; lia|lia].
Qed.
Next Obligation.
  cbn. intros t j Hheld. split_and!; try done.
  intros u. rewrite held_hold. case_decide; [subst; lia|lia].
Qed.
