(* ===== verification/JniGlue.v ===== *)
(** The native functions of the Android library
    (android_project/AudioMixer/src/main/jni/audio_mixer_jni.cpp,
    generated_src/jni/NativeAudioMixerApi.cpp): what Java code can do with the
    classes of src/src.

    Java holds the addresses of C++ objects as [jlong] handles.  An address is
    never used twice in the model, so that a handle of a deleted object is
    recognised.  A session is a list of calls, made one at a time. *)

From stdpp Require Import gmap strings.
From S2P Require Import Prelude.
From S2P Require Import Buffer.
From S2P Require Import AudioFrame.
From S2P Require Import Api.
From S2P Require Import AudioSource.
From S2P Require Import Ffmpeg.
From S2P Require Import FfmpegReference.
From S2P Require Import FileDecoder.
From S2P Require Import Resampler.
From S2P Require Import FileSource.
From S2P Require Import WebRtc.
From S2P Require Import Heap.
From S2P Require Import Mixer.
From S2P Require Import MixerOperations.
From S2P Require Import Jni.

(** Whether [assert] is compiled in. *)
Class AssertConfig := { assert_is_on : bool }.

(** ** The objects Java holds handles of *)

Inductive native_object `{FFmpeg, WebRtcMixer} : Type :=
| ResamplerObject (r : AudioResampler)
| DecoderObject (d : AudioFileDecoder)
| SourceObject (s : AudioFileSource)
(** the [CppProxyHandle] of a mixer, with the objects of the mixer *)
| MixerHandle (am : AudioMixer) (h : heap).

(** [remains]: what destroyed mixers left of their WebRTC mixer and objects. *)
Record process `{JNI, FFmpeg, WebRtcMixer} : Type := MkProcess {
  jvm : JVM;
  natives : gmap Z native_object;
  next_address : Z;
  remains : list (MixerImpl * heap)
}.
Arguments MkProcess {_ _ _} _ _ _ _.

Section jni_glue.
Context `{JNI, FFmpeg, !SampleMemory, BuildConfig, AudioFrameApi, WebRtcMixer,
  AssertConfig}.
Implicit Types (w : process) (handle : Z) (a : jbyteArray) (o : native_object).

Definition set_jvm w (j : JVM) : process :=
  MkProcess j (natives w) (next_address w) (remains w).
Definition set_native w handle o : process :=
  MkProcess (jvm w) (<[handle := o]> (natives w)) (next_address w) (remains w).

(** [new], whose result [toJ] converts to a handle. *)
Definition new_object o w : outcome (Z * process) :=
  Ret (next_address w,
       MkProcess (jvm w) (<[next_address w := o]> (natives w))
         (next_address w + 1) (remains w)).

(** [fromJ(type, handle)], dereferenced. *)
Definition fromJ {A} (as_type : native_object → option A) handle w
    : outcome A :=
  match natives w !! handle with
  | Some o => match as_type o with
              | Some x => Ret x | None => Undef BadDowncast
              end
  | None => Undef (if handle =? 0 then NullPointer else DanglingPointer)
  end.
Definition as_resampler o := match o with ResamplerObject r => Some r | _ => None end.
Definition as_decoder o := match o with DecoderObject d => Some d | _ => None end.
Definition as_source o := match o with SourceObject s => Some s | _ => None end.
Definition as_mixer o := match o with MixerHandle am h => Some (am, h) | _ => None end.

(** [delete fromJ(type, handle)]; deleting a null pointer does nothing. *)
Definition delete_object {A} (as_type : native_object → option A) handle w
    : outcome (Z * process) :=
  if handle =? 0 then Ret (0, w) else
  _ ← fromJ as_type handle w;
  Ret (0, MkProcess (jvm w) (delete handle (natives w)) (next_address w)
            (remains w)).

Definition GetElements a w : option (list Z) * process :=
  let '(e, j) := GetByteArrayElements a (jvm w) in (e, set_jvm w j).
(** Releasing null elements is outside the specification of JNI. *)
Definition ReleaseElements a (e : option (list Z)) w : outcome process :=
  match e with
  | Some l => Ret (set_jvm w (ReleaseByteArrayElements a l (jvm w)))
  | None => Undef NullPointer
  end.

(** The bytes at a pointer, and writing some of them. *)
Definition bytes_at (e : option (list Z)) : list Z := default [] e.
Definition store_bytes (e : option (list Z)) (src : list Z)
    : outcome (option (list Z)) :=
  match e with
  | Some l => l ← overwrite l src; Ret (Some l)
  | None => if src is [] then Ret None else Undef NullPointer
  end.

(** *** AudioResampler *)

Definition AudioResampler_nativeInit (input_sample_rate input_channel_num
    output_sample_rate output_channel_num : Z) w : outcome (Z * process) :=
  r ← AudioResampler_new kOutputSampleFormat input_sample_rate
        input_channel_num kOutputSampleFormat output_sample_rate
        output_channel_num;
  new_object (ResamplerObject r) w.

(** The samples the resampler can read through a pointer to one plane. *)
Definition readable_samples (r : AudioResampler) (l : list Z) : list Sample :=
  let channels := layout_channels (ar_input_channel_num r) in
  if planar (ar_input_format r) && (1 <? channels) then []
  else samples_in (ar_input_format r) channels l.

Definition AudioResampler_nativeResample handle (inputBuffer_ : jbyteArray)
    (inputSize : Z) (outputBuffer_ : jbyteArray) w : outcome (Z * process) :=
  let '(inputBuffer, w) := GetElements inputBuffer_ w in
  let '(outputBuffer, w) := GetElements outputBuffer_ w in
  r ← fromJ as_resampler handle w;
  '(resampled, out, r) ← Resample r (readable_samples r (bytes_at inputBuffer))
                           inputSize;
  outputBuffer ← store_bytes outputBuffer (samples_bytes out);
  let w := set_native w handle (ResamplerObject r) in
  w ← ReleaseElements inputBuffer_ inputBuffer w;
  w ← ReleaseElements outputBuffer_ outputBuffer w;
  Ret (resampled, w).

Definition AudioResampler_nativeDestroy handle w : outcome (Z * process) :=
  delete_object as_resampler handle w.

(** *** AudioFileDecoder *)

(** [const char* filepath = env->GetStringUTFChars(..); std::string path(filepath);] *)
Definition GetPath (filepath_ : jstring) w : outcome (string * process) :=
  let '(filepath, j) := GetStringUTFChars filepath_ (jvm w) in
  match filepath with
  | Some path => Ret (path, set_jvm w j)
  | None => Undef NullPointer
  end.
Definition ReleasePath (filepath_ : jstring) w : process :=
  set_jvm w (ReleaseStringUTFChars filepath_ (jvm w)).

Definition AudioFileDecoder_nativeInit (fuel : nat) (filepath_ : jstring) w
    : outcome (Z * process) :=
  '(path, w) ← GetPath filepath_ w;
  d ← AudioFileDecoder_new fuel path;
  '(handle, w) ← new_object (DecoderObject d) w;
  Ret (handle, ReleasePath filepath_ w).

Definition AudioFileDecoder_nativeGetSampleRate handle w
    : outcome (Z * process) :=
  d ← fromJ as_decoder handle w; Ret (sample_rate d, w).
Definition AudioFileDecoder_nativeGetChannelNum handle w
    : outcome (Z * process) :=
  d ← fromJ as_decoder handle w; Ret (channel_num d, w).

(** [av_audio_fifo_read(.., void** data, ..)] copies the samples of plane [i] to
    [data[i]], for every plane of the format; it returns before it looks at
    [data] when there are no samples. *)
Fixpoint store_planes (planes : list (list Z)) (data : list (option (list Z)))
    : outcome (list (option (list Z))) :=
  match planes, data with
  | [], _ => Ret data
  | _ :: _, [] => Undef OutOfBounds
  | src :: planes, plane :: data =>
      plane ← store_bytes plane src;
      data ← store_planes planes data; Ret (plane :: data)
  end.

(** Storing samples through [reinterpret_cast<void**>(&buffer)], an array of a
    single plane pointer. *)
Definition store_samples (f : AVSampleFormat) (channels : Z)
    (buffer : option (list Z)) (l : list Sample)
    : outcome (option (list Z)) :=
  match l with
  | [] => Ret buffer
  | _ :: _ =>
      data ← store_planes (sample_planes f channels l) [buffer];
      Ret (default buffer (head data))
  end.

Definition AudioFileDecoder_nativeConsume (fuel : nat) handle
    (buffer_ : jbyteArray) (samples : Z) w : outcome (Z * process) :=
  let '(buffer, w) := GetElements buffer_ w in
  decoder ← fromJ as_decoder handle w;
  '(consumed, got, decoder) ← Consume fuel decoder samples;
  buffer ← store_samples (sample_format decoder) (channel_num decoder) buffer
             got;
  let w := set_native w handle (DecoderObject decoder) in
  w ← ReleaseElements buffer_ buffer w;
  Ret (consumed, w).

Definition AudioFileDecoder_nativeDestroy handle w : outcome (Z * process) :=
  delete_object as_decoder handle w.

(** *** AudioFileSource *)

Definition AudioFileSource_nativeInit (fuel : nat) (filepath_ : jstring)
    (outputSampleRate outputChannelNum frameDurationMs : Z) w
    : outcome (Z * process) :=
  '(path, w) ← GetPath filepath_ w;
  source ← AudioFileSource_new fuel 0 path outputSampleRate outputChannelNum
             frameDurationMs f32_1;
  '(handle, w) ← new_object (SourceObject source) w;
  Ret (handle, ReleasePath filepath_ w).

Definition AudioFileSource_nativeGetInputSampleRate handle w
    : outcome (Z * process) :=
  source ← fromJ as_source handle w; Ret (input_sample_rate source, w).
Definition AudioFileSource_nativeGetInputChannelNum handle w
    : outcome (Z * process) :=
  source ← fromJ as_source handle w; Ret (input_channel_num source, w).

Definition AudioFileSource_nativeRead (fuel : nat) handle
    (buffer_ : jbyteArray) w : outcome (Z * process) :=
  let '(buffer, w) := GetElements buffer_ w in
  source ← fromJ as_source handle w;
  '(read, out, source) ← Read fuel source;
  buffer ← store_bytes buffer (samples_bytes out);
  let w := set_native w handle (SourceObject source) in
  w ← ReleaseElements buffer_ buffer w;
  Ret (read, w).

Definition AudioFileSource_nativeDestroy handle w : outcome (Z * process) :=
  delete_object as_source handle w.

(** *** AudioMixer *)

(** [djinni::objectFromHandleAddress] (djinni_support.hpp) *)
Definition objectFromHandleAddress handle w : outcome (AudioMixer * heap) :=
  _ ← (if assert_is_on then RTC_CHECK (negb (handle =? 0)) "handle" else Ret tt);
  _ ← (if assert_is_on then RTC_CHECK (4096 <? handle) "handle > 4096"
       else Ret tt);
  fromJ as_mixer handle w.

Definition AudioMixer_nativeMix (fuel : nat) handle (buffer_ : jbyteArray) w
    : outcome (Z * process) :=
  let '(buffer, w) := GetElements buffer_ w in
  '(am, h) ← objectFromHandleAddress handle w;
  '(size, out, am, h) ← Mix fuel am h (lenZ (bytes_at buffer));
  buffer ← store_bytes buffer out;
  let w := set_native w handle (MixerHandle am h) in
  w ← ReleaseElements buffer_ buffer w;
  Ret (size, w).

Definition AudioMixer_nativeAddRecordedData handle (j_ssrc : Z)
    (data_ : jbyteArray) (size : Z) w : outcome (Z * process) :=
  let '(data, w) := GetElements data_ w in
  '(am, h) ← objectFromHandleAddress handle w;
  h ← AddRecordedData am h j_ssrc (bytes_samples (bytes_at data)) size;
  let w := set_native w handle (MixerHandle am h) in
  w ← ReleaseElements data_ data w;
  Ret (0, w).

(** The functions of [AudioMixerApi.CppProxy], for converted arguments.  They
    turn a C++ exception, which only a failed allocation throws here, into a
    Java exception; the model does not distinguish that from the end of the
    process.  A new mixer gets a new proxy, that is a new handle, unless its
    address is still in the cache of proxies (see ProxyCache). *)
Definition CppProxy_create (fuel : nat) (config : MixerConfig) w
    : outcome (Z * process) :=
  '(am, h) ← AudioMixer_new fuel config;
  new_object (MixerHandle am h) w.

(** Deleting the handle gives up the only [shared_ptr] to the mixer. *)
Definition CppProxy_nativeDestroy handle w : outcome (Z * process) :=
  if handle =? 0 then Ret (0, w) else
  '(am, h) ← fromJ as_mixer handle w;
  Ret (0, MkProcess (jvm w) (delete handle (natives w)) (next_address w)
            (AudioMixer_delete am h :: remains w)).

Definition CppProxy_updateVolume handle (ssrc : Z) (volume : f32) w
    : outcome (Z * process) :=
  '(am, h) ← objectFromHandleAddress handle w;
  h ← am_UpdateVolume am h ssrc volume;
  Ret (0, set_native w handle (MixerHandle am h)).

Definition CppProxy_addSource (fuel : nat) handle (source : MixerSource) w
    : outcome (Z * process) :=
  '(am, h) ← objectFromHandleAddress handle w;
  '(r, am, h) ← AddSource fuel am h source;
  Ret (Z.b2z r, set_native w handle (MixerHandle am h)).

Definition CppProxy_removeSource handle (ssrc : Z) w : outcome (Z * process) :=
  '(am, h) ← objectFromHandleAddress handle w;
  let '(r, am, h) := RemoveSource am h ssrc in
  Ret (Z.b2z r, set_native w handle (MixerHandle am h)).
End jni_glue.

(** ** Sessions *)

Inductive native_call `{JNI} : Type :=
| ResamplerInit (input_rate input_channels output_rate output_channels : Z)
| ResamplerResample (handle : Z) (input : jbyteArray) (size : Z)
    (output : jbyteArray)
| ResamplerDestroy (handle : Z)
| DecoderInit (path : jstring)
| DecoderGetSampleRate (handle : Z)
| DecoderGetChannelNum (handle : Z)
| DecoderConsume (handle : Z) (buffer : jbyteArray) (samples : Z)
| DecoderDestroy (handle : Z)
| SourceInit (path : jstring) (rate channels ms : Z)
| SourceGetInputSampleRate (handle : Z)
| SourceGetInputChannelNum (handle : Z)
| SourceRead (handle : Z) (buffer : jbyteArray)
| SourceDestroy (handle : Z)
| MixerCreate (config : MixerConfig)
| MixerMix (handle : Z) (buffer : jbyteArray)
| MixerAddRecordedData (handle ssrc : Z) (data : jbyteArray) (size : Z)
| MixerUpdateVolume (handle ssrc : Z) (volume : f32)
| MixerAddSource (handle : Z) (source : MixerSource)
| MixerRemoveSource (handle ssrc : Z)
| MixerDestroy (handle : Z).

Section sessions.
Context `{JNI, FFmpeg, !SampleMemory, BuildConfig, AudioFrameApi, WebRtcMixer,
  AssertConfig}.

Definition native (fuel : nat) (c : native_call) (w : process)
    : outcome (Z * process) :=
  match c with
  | ResamplerInit ir ic or oc => AudioResampler_nativeInit ir ic or oc w
  | ResamplerResample p i n o => AudioResampler_nativeResample p i n o w
  | ResamplerDestroy p => AudioResampler_nativeDestroy p w
  | DecoderInit s => AudioFileDecoder_nativeInit fuel s w
  | DecoderGetSampleRate p => AudioFileDecoder_nativeGetSampleRate p w
  | DecoderGetChannelNum p => AudioFileDecoder_nativeGetChannelNum p w
  | DecoderConsume p b n => AudioFileDecoder_nativeConsume fuel p b n w
  | DecoderDestroy p => AudioFileDecoder_nativeDestroy p w
  | SourceInit s r c ms => AudioFileSource_nativeInit fuel s r c ms w
  | SourceGetInputSampleRate p => AudioFileSource_nativeGetInputSampleRate p w
  | SourceGetInputChannelNum p => AudioFileSource_nativeGetInputChannelNum p w
  | SourceRead p b => AudioFileSource_nativeRead fuel p b w
  | SourceDestroy p => AudioFileSource_nativeDestroy p w
  | MixerCreate config => CppProxy_create fuel config w
  | MixerMix p b => AudioMixer_nativeMix fuel p b w
  | MixerAddRecordedData p ssrc d n => AudioMixer_nativeAddRecordedData p ssrc d n w
  | MixerUpdateVolume p ssrc v => CppProxy_updateVolume p ssrc v w
  | MixerAddSource p source => CppProxy_addSource fuel p source w
  | MixerRemoveSource p ssrc => CppProxy_removeSource p ssrc w
  | MixerDestroy p => CppProxy_nativeDestroy p w
  end.

Fixpoint session (fuel : nat) (calls : list native_call) (w : process)
    : outcome (list Z * process) :=
  match calls with
  | [] => Ret ([], w)
  | c :: calls =>
      '(r, w) ← native fuel c w;
      '(l, w) ← session fuel calls w;
      Ret (r :: l, w)
  end.
End sessions.

(** ** What a session does to the virtual machine and to the handles *)

(** What a call does with handles: the abstract view of a session. *)
Inductive call_kind : Type := Creates | Uses (handle : Z) | Deletes (handle : Z).

Definition kind_of `{JNI} (c : native_call) : call_kind :=
  match c with
  | ResamplerInit _ _ _ _ | DecoderInit _ | SourceInit _ _ _ _ | MixerCreate _ =>
      Creates
  | ResamplerDestroy p | DecoderDestroy p | SourceDestroy p | MixerDestroy p =>
      Deletes p
  | ResamplerResample p _ _ _ | DecoderGetSampleRate p | DecoderGetChannelNum p
  | DecoderConsume p _ _ | SourceGetInputSampleRate p
  | SourceGetInputChannelNum p | SourceRead p _ | MixerMix p _
  | MixerAddRecordedData p _ _ _ | MixerUpdateVolume p _ _
  | MixerAddSource p _ | MixerRemoveSource p _ => Uses p
  end.

(** The arrays a call writes to. *)
Definition writes `{JNI} (c : native_call) (b : jbyteArray) : Prop :=
  match c with
  | ResamplerResample _ _ _ a | DecoderConsume _ a _ | SourceRead _ a
  | MixerMix _ a => b = a
  | _ => False
  end.

(** The life of handles: a new one was not live, only live ones are used or
    deleted; deleting null does nothing. *)
Definition handle_step (k : call_kind) (r : Z) (live : gset Z)
    : option (gset Z) :=
  match k with
  | Creates => if decide (r ∈ live) then None else Some ({[r]} ∪ live)
  | Uses p => if decide (p ∈ live) then Some live else None
  | Deletes p =>
      if p =? 0 then Some live
      else if decide (p ∈ live) then Some (live ∖ {[p]}) else None
  end.
Fixpoint handle_run (calls : list (call_kind * Z)) (live : gset Z)
    : option (gset Z) :=
  match calls with
  | [] => Some live
  | (k, r) :: calls =>
      match handle_step k r live with
      | Some live => handle_run calls live
      | None => None
      end
  end.

(** The handles of a call other than a creation. *)
Definition handle_of (k : call_kind) : option Z :=
  match k with Creates => None | Uses p | Deletes p => Some p end.

Section session_lemmas.
Context `{JNISpec, FFmpeg, !SampleMemory, BuildConfig, AudioFrameApi,
  WebRtcMixer, AssertConfig}.
Implicit Types (w : process) (handle r : Z) (a b : jbyteArray) (c : native_call).

(** Addresses are handed out in order. *)
Definition process_ok w : Prop :=
  4096 < next_address w
  ∧ ∀ p, p ∈ dom (natives w) → 4096 < p < next_address w.

Definition native_post c w r w' : Prop :=
  vm_effect (writes c) (jvm w) (jvm w')
  ∧ handle_step (kind_of c) r (dom (natives w)) = Some (dom (natives w'))
  ∧ (∀ p, handle_of (kind_of c) ≠ Some p → p < next_address w →
      natives w' !! p = natives w !! p)
  ∧ next_address w ≤ next_address w' ∧ process_ok w'.

Lemma get_release_array a l l' j j1 :
  GetByteArrayElements a j = (Some l, j1) → lenZ l' = lenZ l →
  vm_effect (λ b, b = a) j (ReleaseByteArrayElements a l' j1)
  ∧ array_of (ReleaseByteArrayElements a l' j1) a = l'.
Proof.
  intros Hget Hlen.
  destruct (get_elements_spec _ _ _ _ Hget) as (Ha & Ht & Hth & -> & Hh).
  destruct (release_elements_spec a l' j1) as (Ha' & Ht' & Hth' & Hh').
  { rewrite Hh, decide_True by done. lia. }
  { by rewrite Ha. }
  split; [split_and!|].
  - intros b Hb. by rewrite Ha', decide_False, Ha.
  - intros b. rewrite Ha'. case_decide; [by subst|by rewrite Ha].
  - intros t. by rewrite Ht', Ht.
  - intros b. rewrite Hh', Hh. case_decide; lia.
  - intros t. by rewrite Hth', Hth.
  - by rewrite Ha', decide_True.
Qed.

(** Releasing the elements as they were. *)
Lemma get_release_same a l j j1 :
  GetByteArrayElements a j = (Some l, j1) →
  vm_effect (λ _, False) j (ReleaseByteArrayElements a l j1).
Proof.
  intros Hget. destruct (get_release_array a l l j j1 Hget eq_refl)
    as ((Hx & Hlen & Ht & Hh & Hth) & Ha).
  split_and!; [|done..]. intros b _. destruct (decide (b = a)) as [->|Hb]; [|by apply Hx].
  rewrite Ha. by destruct (get_elements_spec _ _ _ _ Hget) as (_ & _ & _ & -> & _).
Qed.

(** The same for two arrays, the first of which is only read. *)
Lemma get_release_arrays a b l m m' j j1 j2 :
  GetByteArrayElements a j = (Some l, j1) →
  GetByteArrayElements b j1 = (Some m, j2) → lenZ m' = lenZ m →
  vm_effect (λ x, x = b) j
    (ReleaseByteArrayElements b m' (ReleaseByteArrayElements a l j2)).
Proof.
  intros Hget Hget2 Hlen.
  destruct (get_elements_spec _ _ _ _ Hget) as (Ha & Ht & Hth & -> & Hh).
  destruct (get_elements_spec _ _ _ _ Hget2) as (Ha2 & Ht2 & Hth2 & -> & Hh2).
  destruct (release_elements_spec a (array_of j a) j2) as (Ha3 & Ht3 & Hth3 & Hh3).
  { rewrite Hh2, Hh, (decide_True (P := a = a)) by done. lia. }
  { by rewrite Ha2, Ha. }
  set (j3 := ReleaseByteArrayElements a _ j2) in *.
  assert (∀ x, array_of j3 x = array_of j x) as Hsame.
  { intros x. rewrite Ha3. case_decide; [by subst|]. by rewrite Ha2, Ha. }
  destruct (release_elements_spec b m' j3) as (Ha4 & Ht4 & Hth4 & Hh4).
  { rewrite Hh3, Hh2, Hh, (decide_True (P := b = b)) by done.
    case_decide; lia. }
  { by rewrite Hsame, Hlen, Ha. }
  split_and!.
  - intros x Hx. by rewrite Ha4, decide_False, Hsame.
  - intros x. rewrite Ha4. case_decide; [|by rewrite Hsame].
    subst. by rewrite Hlen, Ha.
  - intros t. by rewrite Ht4, Ht3, Ht2, Ht.
  - intros x. rewrite Hh4, Hh3, Hh2, Hh. repeat case_decide; lia.
  - intros t. by rewrite Hth4, Hth3, Hth2, Hth.
Qed.

Lemma get_release_path t s j j1 :
  GetStringUTFChars t j = (Some s, j1) →
  vm_effect (λ _, False) j (ReleaseStringUTFChars t j1).
Proof.
  intros Hget.
  destruct (get_string_spec _ _ _ _ Hget) as (Ha & Ht & Hah & -> & Hh).
  destruct (release_string_spec t j1) as (Ha' & Ht' & Hah' & Hh').
  { rewrite Hh, decide_True by done. lia. }
  split_and!; intros; rewrite ?Ha', ?Ha, ?Ht', ?Ht, ?Hah', ?Hah; [done..|].
  rewrite Hh', Hh. case_decide; lia.
Qed.

Lemma store_bytes_length e src e' :
  store_bytes e src = Ret e' →
  match e' with
  | Some l' => ∃ l, e = Some l ∧ lenZ l' = lenZ l
                 ∧ l' = src ++ dropZ (lenZ src) l
  | None => e = None
  end.
Proof.
  unfold store_bytes, overwrite. destruct e as [l|].
  - destruct (Z.leb_spec (lenZ src) (lenZ l)); cbn; intros [= <-].
    exists l. split_and!; [done| |done]. solve_len.
  - by destruct src; intros [= <-].
Qed.

Lemma fromJ_live {A} (f : native_object → option A) p w x :
  fromJ f p w = Ret x → p ∈ dom (natives w).
Proof.
  unfold fromJ. rewrite elem_of_dom. by destruct (natives w !! p) eqn:E.
Qed.

Lemma objectFromHandleAddress_live p w x :
  objectFromHandleAddress p w = Ret x → p ∈ dom (natives w).
Proof.
  unfold objectFromHandleAddress. rewrite bind_Ret. intros (_ & _ & Hx).
  apply bind_Ret in Hx as (_ & _ & Hx). by eapply fromJ_live.
Qed.

(** What the kinds of calls leave behind. *)
Lemma created_post c w o j :
  kind_of c = Creates → process_ok w → vm_effect (writes c) (jvm w) j →
  native_post c w (next_address w)
    (MkProcess j (<[next_address w := o]> (natives w)) (next_address w + 1)
       (remains w)).
Proof.
  intros Hk [Hnext Hw] Hj. unfold native_post. rewrite Hk. cbn.
  split_and!; [done| | |lia|split; cbn; [lia|]].
  - rewrite dom_insert_L, decide_False; [done|]. intros Hin.
    specialize (Hw _ Hin). lia.
  - intros p _ Hp. apply lookup_insert_ne. lia.
  - intros p. rewrite dom_insert_L, elem_of_union, elem_of_singleton.
    intros [->|Hp]; [lia|]. specialize (Hw _ Hp). lia.
Qed.

Lemma read_post c p r w :
  kind_of c = Uses p → process_ok w → p ∈ dom (natives w) →
  native_post c w r w.
Proof.
  intros Hk Hw Hp. unfold native_post. rewrite Hk. cbn. rewrite decide_True by done.
  split_and!; [apply vm_effect_refl|done..].
Qed.

Lemma used_post c p r w o j :
  kind_of c = Uses p → process_ok w → p ∈ dom (natives w) →
  vm_effect (writes c) (jvm w) j →
  native_post c w r
    (MkProcess j (<[p := o]> (natives w)) (next_address w) (remains w)).
Proof.
  intros Hk [Hnext Hw] Hp Hj. unfold native_post, process_ok. rewrite Hk. cbn.
  assert ({[p]} ∪ dom (natives w) = dom (natives w)) as Hdom by set_solver.
  rewrite dom_insert_L, Hdom, decide_True by done.
  split_and!; [done|done| |done|done|done].
  intros q Hq _. apply lookup_insert_ne. congruence.
Qed.

Lemma deleted_post c p w l :
  kind_of c = Deletes p → process_ok w → p ∈ dom (natives w) →
  native_post c w 0
    (MkProcess (jvm w) (delete p (natives w)) (next_address w) l).
Proof.
  intros Hk [Hnext Hw] Hp. unfold native_post, process_ok. rewrite Hk. cbn.
  pose proof (Hw _ Hp) as Hrange. rewrite (proj2 (Z.eqb_neq p 0)) by lia.
  rewrite dom_delete_L, decide_True by done.
  split_and!; [apply vm_effect_refl|done| |done|done|].
  - intros q Hq _. apply lookup_delete_ne. congruence.
  - intros q. rewrite elem_of_difference. intros [Hq _]. by apply Hw.
Qed.

Lemma deleted_null_post c w :
  kind_of c = Deletes 0 → process_ok w → native_post c w 0 w.
Proof.
  intros Hk Hw. unfold native_post. rewrite Hk. cbn.
  split_and!; [apply vm_effect_refl|done..].
Qed.

Lemma delete_object_post {A} (f : native_object → option A) c p w r w' :
  kind_of c = Deletes p → process_ok w →
  delete_object f p w = Ret (r, w') → native_post c w r w'.
Proof.
  unfold delete_object. intros Hk Hw. destruct (Z.eqb_spec p 0) as [->|Hp].
  - intros [= <- <-]. by apply deleted_null_post.
  - rewrite bind_Ret. intros (x & Hx & [= <- <-]).
    eapply deleted_post; [done..|]. by eapply fromJ_live.
Qed.

(** A call that obtains the elements of one array. *)
Lemma elements_post c p a e w1 e' w2 o r w :
  kind_of c = Uses p → process_ok w → GetElements a w = (e, w1) →
  p ∈ dom (natives w1) →
  (∀ l', e' = Some l' → ∃ l, e = Some l ∧ lenZ l' = lenZ l
    ∧ (l' = l ∨ ∀ b, b = a → writes c b)) →
  ReleaseElements a e' (set_native w1 p o) = Ret w2 →
  native_post c w r w2.
Proof.
  intros Hk Hw Hget Hp He Hrel. unfold GetElements in Hget.
  destruct (GetByteArrayElements a (jvm w)) as [e0 j1] eqn:Hj.
  injection Hget as -> <-. destruct e' as [l'|]; [|done]. injection Hrel as <-.
  destruct (He l' eq_refl) as (l & -> & Hlen & Hor).
  unfold set_native, set_jvm. cbn. apply used_post; [done..|].
  destruct Hor as [->|Hwr].
  - by eapply vm_effect_mono; [|by apply get_release_same].
  - by eapply vm_effect_mono; [|by eapply get_release_array].
Qed.

(** A call that obtains a path and makes an object. *)
Lemma path_post c t s w1 o w :
  kind_of c = Creates → process_ok w → GetPath t w = Ret (s, w1) →
  ∀ r w2, new_object o w1 = Ret (r, w2) → native_post c w r (ReleasePath t w2).
Proof.
  intros Hk Hw Hpath r w2 [= <- <-]. unfold GetPath in Hpath.
  destruct (GetStringUTFChars t (jvm w)) as [[s'|] j1] eqn:Hj; [|done].
  injection Hpath as <- <-. unfold ReleasePath, set_jvm. cbn.
  apply created_post; [done..|].
  by eapply vm_effect_mono; [|by eapply get_release_path].
Qed.

Ltac ret_inv :=
  repeat match goal with
  | x : (_ * _)%type |- _ => destruct x; cbn beta iota in *
  | Hb : (_ ≫= _) = Ret _ |- _ => apply bind_Ret in Hb as (? & ? & Hb)
  | Hb : (let '(_, _) := ?m in _) = Ret _ |- _ =>
      let Hm := fresh "Hm" in destruct m eqn:Hm
  | Hb : Ret _ = Ret _ |- _ => injection Hb as <- <-
  end.

Lemma store_bytes_post e src e' c a :
  store_bytes e src = Ret e' → (∀ b, b = a → writes c b) →
  ∀ l', e' = Some l' → ∃ l, e = Some l ∧ lenZ l' = lenZ l
    ∧ (l' = l ∨ ∀ b, b = a → writes c b).
Proof.
  intros Hs Hc l' ->. destruct (store_bytes_length _ _ _ Hs) as (l & -> & Hl & _).
  exists l. naive_solver.
Qed.

Lemma store_nothing e : store_bytes e [] = Ret e.
Proof.
  unfold store_bytes, overwrite. destruct e as [l|]; [|done].
  rewrite (proj2 (Z.leb_le _ _)) by apply lenZ_nonneg. done.
Qed.

(** Storing in one plane pointer stores the bytes of one plane. *)
Lemma store_samples_bytes f n e l e' :
  store_samples f n e l = Ret e' → ∃ src, store_bytes e src = Ret e'.
Proof.
  unfold store_samples. destruct l as [|x l].
  { intros [= <-]. exists []. apply store_nothing. }
  destruct (sample_planes f n (x :: l)) as [|src planes].
  { intros [= <-]. exists []. apply store_nothing. }
  cbn [store_planes]. rewrite bind_Ret. intros (data & Hdata & [= <-]).
  apply bind_Ret in Hdata as (e1 & He1 & Hdata).
  apply bind_Ret in Hdata as (rest & _ & [= <-]). by exists src.
Qed.

Lemma GetElements_natives a w e w1 :
  GetElements a w = (e, w1) → natives w1 = natives w.
Proof.
  unfold GetElements. destruct (GetByteArrayElements a _). by intros [= <- <-].
Qed.

Lemma resample_post p a n b w r w' :
  process_ok w → AudioResampler_nativeResample p a n b w = Ret (r, w') →
  native_post (ResamplerResample p a n b) w r w'.
Proof.
  unfold AudioResampler_nativeResample, GetElements. intros Hw Hrun.
  destruct (GetByteArrayElements a (jvm w)) as [e1 j1] eqn:Ha. cbn in Hrun.
  destruct (GetByteArrayElements b j1) as [e2 j2] eqn:Hb.
  apply bind_Ret in Hrun as (rs & Hj & Hrun).
  apply bind_Ret in Hrun as ([[res out] rs'] & _ & Hrun).
  apply bind_Ret in Hrun as (e2' & Hst & Hrun).
  apply bind_Ret in Hrun as (w1 & Hr1 & Hrun).
  apply bind_Ret in Hrun as (w2 & Hr2 & Hrun). injection Hrun as <- <-.
  destruct e1 as [l|]; [|done]. injection Hr1 as <-.
  destruct e2' as [m'|]; [|done]. injection Hr2 as <-.
  destruct (store_bytes_length _ _ _ Hst) as (m & -> & Hm & _).
  unfold set_native, set_jvm. cbn. apply used_post; [done|done| |].
  - by apply fromJ_live in Hj.
  - by eapply vm_effect_mono; [|by eapply get_release_arrays].
Qed.

Lemma new_object_post c w o r w' :
  kind_of c = Creates → process_ok w → new_object o w = Ret (r, w') →
  native_post c w r w'.
Proof.
  intros Hk Hw [= <- <-]. apply created_post; [done..|]. apply vm_effect_refl.
Qed.

Lemma set_native_post c p r w o :
  kind_of c = Uses p → process_ok w → p ∈ dom (natives w) →
  native_post c w r (set_native w p o).
Proof.
  intros Hk Hw Hp. apply used_post; [done..|]. apply vm_effect_refl.
Qed.

Lemma destroy_mixer_post p w r w' :
  process_ok w → CppProxy_nativeDestroy p w = Ret (r, w') →
  native_post (MixerDestroy p) w r w'.
Proof.
  unfold CppProxy_nativeDestroy. intros Hw Hrun.
  destruct (Z.eqb_spec p 0) as [->|Hp]; ret_inv.
  - by apply deleted_null_post.
  - apply deleted_post; [done..|]. by eapply fromJ_live.
Qed.

Ltac live :=
  first [by eapply fromJ_live|by eapply objectFromHandleAddress_live].

(** Every call of a native function that returns. *)
Lemma native_ok fuel c w r w' :
  process_ok w → native fuel c w = Ret (r, w') → native_post c w r w'.
Proof.
  intros Hw.
  destruct c as [ir ic oR oc|p a n b|p|path|p|p|p a n|p|path sr ch ms|p|p|p a
    |p|config|p a|p ssrc a n|p ssrc v|p source|p ssrc|p]; cbn [native];
    [unfold AudioResampler_nativeInit|apply resample_post|
    by eapply delete_object_post|unfold AudioFileDecoder_nativeInit|
    unfold AudioFileDecoder_nativeGetSampleRate|
    unfold AudioFileDecoder_nativeGetChannelNum|
    unfold AudioFileDecoder_nativeConsume|by eapply delete_object_post|
    unfold AudioFileSource_nativeInit|
    unfold AudioFileSource_nativeGetInputSampleRate|
    unfold AudioFileSource_nativeGetInputChannelNum|
    unfold AudioFileSource_nativeRead|by eapply delete_object_post|
    unfold CppProxy_create|unfold AudioMixer_nativeMix|
    unfold AudioMixer_nativeAddRecordedData|unfold CppProxy_updateVolume|
    unfold CppProxy_addSource|unfold CppProxy_removeSource|
    by apply destroy_mixer_post]; try done; intros Hrun; ret_inv.
  - by eapply new_object_post.
  - by eapply path_post.
  - eapply read_post; [done..|live].
  - eapply read_post; [done..|live].
  - eapply elements_post; [done..|live| |done].
    edestruct store_samples_bytes as [src Hsrc]; [done|].
    by eapply store_bytes_post.
  - by eapply path_post.
  - eapply read_post; [done..|live].
  - eapply read_post; [done..|live].
  - eapply elements_post; [done..|live|by eapply store_bytes_post|done].
  - by eapply new_object_post.
  - eapply elements_post; [done..|live|by eapply store_bytes_post|done].
  - eapply elements_post; [done..|live|intros l' ->; eauto|done].
  - apply set_native_post; [done..|live].
  - apply set_native_post; [done..|live].
  - apply set_native_post; [done..|live].
Qed.

(** C14: Whatever a session of native calls does, if it returns, every array and
    string it obtained from the virtual machine has been released, no array
    changed but those passed to be written to, each of which kept its length;
    every call used a live handle and every new handle was unused; and no
    object changed without a call on its handle. *)
Theorem session_frame fuel calls w rs w' :
  process_ok w → session fuel calls w = Ret (rs, w') →
  vm_effect (λ b, ∃ c, c ∈ calls ∧ writes c b) (jvm w) (jvm w')
  ∧ handle_run (zip (kind_of <$> calls) rs) (dom (natives w))
      = Some (dom (natives w'))
  ∧ length rs = length calls
  ∧ (∀ p, p < next_address w →
      (∀ c, c ∈ calls → handle_of (kind_of c) ≠ Some p) →
      natives w' !! p = natives w !! p).
Proof.
  revert w rs. induction calls as [|c calls IH]; intros w rs Hw Hrun.
  { injection Hrun as <- <-. split_and!; [apply vm_effect_refl|done..]. }
  cbn [session] in Hrun. apply bind_Ret in Hrun as ([r w1] & Hc & Hrun).
  apply bind_Ret in Hrun as ([l w2] & Hl & [= <- <-]).
  destruct (native_ok _ _ _ _ _ Hw Hc) as (Hvm & Hh & Hobj & Hle & Hw1).
  destruct (IH _ _ Hw1 Hl) as (Hvm' & Hh' & Hlen & Hobj').
  split_and!.
  - eapply vm_effect_trans; eapply vm_effect_mono; try done.
    + intros b Hb. exists c. split; [apply list_elem_of_here|done].
    + intros b (c' & Hin & Hb). exists c'. split; [by apply list_elem_of_further|done].
  - cbn. by rewrite Hh.
  - cbn. by rewrite Hlen.
  - intros p Hp Hcalls. rewrite Hobj'; [apply Hobj; [|done]|lia|].
    + apply Hcalls, list_elem_of_here.
    + intros c' Hin. by apply Hcalls, list_elem_of_further.
Qed.
End session_lemmas.

(** ** The Java classes on top of the native functions *)

Section java_classes.
Context `{JNISpec, FFmpeg, !SampleMemory, BuildConfig, AudioFrameApi,
  WebRtcMixer, AssertConfig}.
Implicit Types (w : process) (p r : Z) (a : jbyteArray).

Lemma fromJ_ok {A} (f : native_object → option A) p w o x :
  natives w !! p = Some o → f o = Some x → fromJ f p w = Ret x.
Proof. intros Hp Hf. unfold fromJ. by rewrite Hp, Hf. Qed.

(** Samples that are stored in one plane. *)
Lemma store_samples_one_plane f c e l :
  0 < c → l = [] ∨ planar f && (1 <? c) = false →
  store_samples f c e l = store_bytes e (samples_to_bytes f c l).
Proof.
  intros Hc Hor. unfold store_samples. destruct l as [|x l]; [by rewrite store_nothing|].
  destruct Hor as [|Hp]; [done|].
  rewrite sample_planes_one by done. cbn [store_planes].
  by destruct (store_bytes e _).
Qed.

(** The second plane pointer is not there. *)
Lemma store_samples_planes f c m l :
  l ≠ [] → planar f && (1 <? c) = true →
  store_samples f c (Some m) l = Undef OutOfBounds.
Proof.
  intros Hl Hp. unfold store_samples. destruct l as [|x l]; [done|].
  destruct (sample_planes_more f c (x :: l) Hp) as (src & src' & planes & ->).
  cbn [store_planes]. unfold store_bytes, overwrite. by destruct (_ <=? _).
Qed.

(** The end of a call that writes [src] to an array. *)
Lemma store_and_release a l j p o r w src :
  GetByteArrayElements a (jvm w) = (Some l, j) →
  lenZ src ≤ lenZ (array_of (jvm w) a) → ∃ w',
    (buffer ← store_bytes (Some l) src;
     w ← ReleaseElements a buffer (set_native (set_jvm w j) p o); Ret (r, w))
      = Ret (r, w')
    ∧ natives w' = <[p := o]> (natives w)
    ∧ array_of (jvm w') a = src ++ dropZ (lenZ src) (array_of (jvm w) a).
Proof.
  intros Hget Hle.
  destruct (get_elements_spec _ _ _ _ Hget) as (_ & _ & _ & -> & _).
  unfold store_bytes, overwrite. rewrite (proj2 (Z.leb_le _ _)) by done.
  eexists. split_and!; [done..|]. eapply get_release_array; [done|]. solve_len.
Qed.

(** A read whose result is known. *)
Lemma native_read_exact fuel p a w s r o s' :
  natives w !! p = Some (SourceObject s) →
  is_Some (GetByteArrayElements a (jvm w)).1 →
  lenZ (array_of (jvm w) a) = MAX_BUF_SIZE → Read fuel s = Ret (r, o, s') →
  let call := AudioFileSource_nativeRead fuel p a w in
  if decide (2 * lenZ o ≤ MAX_BUF_SIZE)
  then ∃ w', call = Ret (r, w')
    ∧ natives w' = <[p := SourceObject s']> (natives w)
    ∧ array_of (jvm w') a
        = samples_bytes o ++ dropZ (2 * lenZ o) (array_of (jvm w) a)
  else call = Undef OutOfBounds.
Proof.
  intros Hp [l Hl] Hlen Hrun. unfold AudioFileSource_nativeRead, GetElements.
  destruct (GetByteArrayElements a (jvm w)) as [e j] eqn:Hget. cbn in Hl. subst e.
  rewrite (fromJ_ok _ _ _ _ s) by done. cbn [mbind outcome_bind].
  rewrite Hrun. cbn [mbind outcome_bind]. pose proof (samples_bytes_length o) as Hbytes.
  case_decide as Hfits.
  - destruct (store_and_release a l j p (SourceObject s') r w (samples_bytes o))
      as (w' & Hw' & Hn & Ha); [done|lia|].
    exists w'. by rewrite <- Hbytes.
  - destruct (get_elements_spec _ _ _ _ Hget) as (_ & _ & _ & -> & _).
    unfold store_bytes, overwrite. rewrite (proj2 (Z.leb_gt _ _)); [done|lia].
Qed.

(** C23: [AudioFileDecoder.consume] of the Java class: its array has two bytes for
    each of the [n] samples of a channel, and the native function passes a
    pointer to one plane pointer.  Storing what the decoder hands out is within
    bounds exactly if it is nothing, or if the format has one plane and the
    bytes of a channel of the samples handed out are at most [2 * n]: then the
    array starts with the samples and the rest of it is as it was.  So every
    call that hands out samples of a planar format with more than one channel
    is undefined; and of a format of one plane and more than two bytes, a call
    that hands out all [n] samples is undefined, but a short one (at the end of
    the file) whose bytes fit is not. *)
Theorem java_decoder_consume fuel p a w d n bytes got d' :
  natives w !! p = Some (DecoderObject d) →
  Consume fuel d n = Ret (bytes, got, d') →
  is_Some (GetByteArrayElements a (jvm w)).1 → 0 < channel_num d' →
  lenZ (array_of (jvm w) a) = n * channel_num d' * SAMPLE_SIZE →
  let f := sample_format d' in
  let call := AudioFileDecoder_nativeConsume fuel p a n w in
  if decide (got = [] ∨ (planar f && (1 <? channel_num d')) = false
             ∧ lenZ got * sample_format_bytes f ≤ n * 2)
  then ∃ w', call = Ret (bytes, w')
       ∧ natives w' = <[p := DecoderObject d']> (natives w)
       ∧ let stored := samples_to_bytes f (channel_num d') got in
         array_of (jvm w') a
           = stored ++ dropZ (lenZ stored) (array_of (jvm w) a)
  else call = Undef OutOfBounds.
Proof.
  intros Hp Hrun [l Hl] Hc Hlen f. unfold AudioFileDecoder_nativeConsume, GetElements.
  destruct (GetByteArrayElements a (jvm w)) as [e j] eqn:Hget. cbn in Hl. subst e.
  rewrite (fromJ_ok _ _ _ _ d) by done. cbn [mbind outcome_bind].
  rewrite Hrun. cbn [mbind outcome_bind].
  fold f. pose proof (samples_to_bytes_length f (channel_num d') got) as Hbytes.
  unfold SAMPLE_SIZE in Hlen. case_decide as Hfits.
  - assert (lenZ (samples_to_bytes f (channel_num d') got)
      ≤ lenZ (array_of (jvm w) a)) as Hroom.
    { rewrite Hbytes by lia. destruct Hfits as [->|[_ ?]]; [|nia].
      pose proof (lenZ_nonneg (array_of (jvm w) a)). by unfold lenZ at 1. }
    destruct (store_and_release a l j p (DecoderObject d') bytes w _ Hget Hroom)
      as (w' & Hw' & Hn & Ha).
    exists w'. split_and!; [|done|done]. rewrite <- Hw'.
    rewrite store_samples_one_plane; [done|done|naive_solver].
  - destruct (planar f && _) eqn:Hplanes.
    { rewrite store_samples_planes; [done|naive_solver|done]. }
    rewrite store_samples_one_plane by auto.
    destruct (get_elements_spec _ _ _ _ Hget) as (_ & _ & _ & -> & _).
    unfold store_bytes, overwrite. rewrite (proj2 (Z.leb_gt _ _)); [done|].
    rewrite Hbytes by lia.
    assert (n * 2 < lenZ got * sample_format_bytes f) by (apply Z.nle_gt; naive_solver). nia.
Qed.
End java_classes.

Section java_source.
Context `{JNISpec, FFmpegSpec, !FifoReliable, !StableChannels, !SampleMemory,
  AudioFrameLaws, BuildConfig, WebRtcMixer, AssertConfig}.
Context (max_channels : Z).
Hypothesis channels_range : ∀ c, 0 < ctx_channels c ≤ max_channels.
Implicit Types (w : process) (p r : Z) (a : jbyteArray).

(** C15: [AudioFileSource.read] of the Java class: its array has [MAX_BUF_SIZE]
    bytes whatever the frames are.  A read whose samples (two bytes each) fit
    stores them at the start of the array, leaves the rest as it was and gives
    the result of [Read]; one whose samples do not fit writes beyond the array.
    They always fit for a source that satisfies [fs_ok], which the constructor
    establishes for frames of 1 to 10 ms, parameters for which the arithmetic
    does not overflow, and an output of which 10 ms and one more sample of each
    channel (of two channels at least) are [kMaxDataSizeSamples] samples or
    fewer: with enough fuel, such a read stops at a decoding error or returns,
    never leaves the array, and delivers the next samples of the file. *)
Theorem java_source_read fuel p a w s :
  natives w !! p = Some (SourceObject s) →
  is_Some (GetByteArrayElements a (jvm w)).1 →
  lenZ (array_of (jvm w) a) = MAX_BUF_SIZE →
  let call := AudioFileSource_nativeRead fuel p a w in
  let stored s' o w' :=
    natives w' = <[p := SourceObject s']> (natives w)
    ∧ array_of (jvm w') a
        = samples_bytes o ++ dropZ (2 * lenZ o) (array_of (jvm w) a) in
  (∀ r o s', Read fuel s = Ret (r, o, s') →
     if decide (2 * lenZ o ≤ MAX_BUF_SIZE)
     then ∃ w', call = Ret (r, w') ∧ stored s' o w'
     else call = Undef OutOfBounds)
  ∧ (∀ file out, fs_ok max_channels file out s →
     enough_fuel fuel file (fs_decoder s) →
     wpa call (λ '(r, w'), ∃ got s' o, stored s' o w'
       ∧ fs_ok max_channels file (out ++ got) s' ∧ read_result s got r o s')).
Proof.
  intros Hp Hget Hlen call stored.
  assert (∀ r o s', Read fuel s = Ret (r, o, s') →
     if decide (2 * lenZ o ≤ MAX_BUF_SIZE)
     then ∃ w', call = Ret (r, w') ∧ stored s' o w'
     else call = Undef OutOfBounds) as Hexact
    by (intros r o s' Hrun; by eapply native_read_exact).
  split; [exact Hexact|]. intros file out Hs Hfuel.
  pose proof (Read_spec max_channels channels_range _ _ _ _ Hs Hfuel) as Hread.
  destruct (Read fuel s) as [[[r o] s']| | |] eqn:Hrun; [| |done..].
  - pose proof (read_post_size _ _ _ _ _ _ _ Hread) as Ho.
    specialize (Hexact _ _ _ eq_refl).
    rewrite decide_True in Hexact by (unfold MAX_BUF_SIZE, kMaxDataSizeSamples in *; lia).
    destruct Hexact as (w' & -> & Hw'). destruct Hread as (got & Hs' & _ & _ & _ & _ & Hres).
    by exists got, s', o.
  - unfold call, AudioFileSource_nativeRead, GetElements.
    destruct (GetByteArrayElements a (jvm w)) as [e j].
    rewrite (fromJ_ok _ _ _ _ s) by done. cbn [mbind outcome_bind]. by rewrite Hrun.
Qed.

End java_source.

(** ** Examples *)

#[local] Existing Instances ReferenceJni ReferenceJniSpec ReferenceMixer.
#[local] Existing Instances ReferenceFrameApi ReferenceFrameLaws DebugBuild.
#[local] Instance assertions : AssertConfig := {| assert_is_on := true |}.

(** Samples of the reference library in memory: every channel has the value of
    the sample, low byte first. *)
Definition value_bytes (f : AVSampleFormat) (x : Z) : list Z :=
  (λ i, (x / 256 ^ Z.of_nat i) mod 256)
    <$> seq 0 (Z.to_nat (sample_format_bytes f)).
Definition bytes_value (f : AVSampleFormat) (l : list Z) : Z :=
  let m := 256 ^ sample_format_bytes f in
  (foldr (λ b r, b + 256 * r) 0 (takeZ (sample_format_bytes f) l) + m / 2) mod m
    - m / 2.

Lemma value_bytes_length f c x :
  0 ≤ c → lenZ (concat (replicate (Z.to_nat c) (value_bytes f x)))
          = c * sample_format_bytes f.
Proof.
  intros Hc. rewrite <- (Z2Nat.id c Hc) at 2. clear Hc.
  assert (lenZ (value_bytes f x) = sample_format_bytes f) as Hx.
  { unfold value_bytes, lenZ. rewrite length_fmap, length_seq.
    apply Z2Nat.id. by destruct f. }
  induction (Z.to_nat c) as [|n IH]; [done|].
  cbn [replicate concat]. rewrite lenZ_app, IH, Hx. lia.
Qed.

Definition reference_memory file format rate channels limit
    : @SampleMemory (ReferenceFFmpeg file format rate channels limit) :=
  @Build_SampleMemory (ReferenceFFmpeg file format rate channels limit)
    (λ f c (x : Z), concat (replicate (Z.to_nat c) (value_bytes f x)))
    (λ f c l, bytes_value f l : Z) value_bytes_length.
#[local] Existing Instance demo_ff_spec.
#[local] Instance demo_memory format : @SampleMemory (demo_ff format) :=
  reference_memory demo_file format 300 1 2.

(** A process with two arrays, of the size the Java classes give them. *)
Definition demo_vm (size : nat) : RefVm :=
  MkRefVm {[ 0%nat := replicate size 0; 1%nat := replicate 12 7 ]} ∅ ∅.
Definition demo_process (format : AVSampleFormat)
    : @process ReferenceJni (demo_ff format) ReferenceMixer :=
  MkProcess (demo_vm 20) ∅ 8192 [].

(** A file is played and converted, and everything is deleted. *)
Definition demo_calls : list (@native_call ReferenceJni) :=
  [SourceInit "a.mp3" 300 1 10; ResamplerInit 300 1 300 1; SourceRead 8192 0%nat;
   ResamplerResample 8193 0%nat 6 1%nat; SourceGetInputSampleRate 8192;
   SourceDestroy 8192; ResamplerDestroy 8193; ResamplerDestroy 0].

Definition array_after {format}
    (w : @process ReferenceJni (demo_ff format) ReferenceMixer) (a : nat)
    : option (list Z) := vm_arrays (@jvm ReferenceJni _ _ w : RefVm) !! a.

Example demo_session_result :
  ('(rs, w) ← session 10 demo_calls (demo_process AV_SAMPLE_FMT_S16);
   Ret (rs, array_after w 0%nat, array_after w 1%nat))
  = Ret ([8192; 8193; 64; 64; 300; 0; 0; 0],
         Some ([1; 0; 2; 0; 3; 0] ++ replicate 14 0),
         Some ([1; 0; 2; 0; 3; 0] ++ replicate 6 7)).
Proof. vm_compute. reflexivity. Qed.

Example deleted_handle_is_caught :
  ('(rs, _) ← session 10
     [SourceInit "a.mp3" 300 1 10; SourceDestroy 8192; SourceRead 8192 0%nat]
     (demo_process AV_SAMPLE_FMT_S16); Ret rs) = Undef DanglingPointer.
Proof. vm_compute. reflexivity. Qed.

Definition returns {A} (m : outcome A) : bool :=
  match m with Ret _ => true | _ => false end.

Lemma session_frame_witness :
  process_ok (demo_process AV_SAMPLE_FMT_S16)
  ∧ ∃ rs w', session 10 demo_calls (demo_process AV_SAMPLE_FMT_S16) = Ret (rs, w')
    ∧ array_holds (jvm w') 0%nat = 0%nat
    ∧ handle_run (zip (kind_of <$> demo_calls) rs)
        (dom (natives (demo_process AV_SAMPLE_FMT_S16)))
      = Some (dom (natives w')).
Proof.
  assert (process_ok (demo_process AV_SAMPLE_FMT_S16)) as Hw.
  { split; [reflexivity|]. intros p. cbn. rewrite dom_empty_L. set_solver. }
  split; [exact Hw|].
  assert (returns (session 10 demo_calls (demo_process AV_SAMPLE_FMT_S16)) = true)
    as Hret by (vm_compute; reflexivity).
  destruct (session 10 demo_calls (demo_process AV_SAMPLE_FMT_S16))
    as [[rs w']| | |] eqn:Hrun; [|discriminate Hret..].
  exists rs, w'. destruct (session_frame 10 demo_calls
    (demo_process AV_SAMPLE_FMT_S16) rs w' Hw Hrun)
    as ((_ & _ & _ & Hh & _) & Hrun' & _).
  split; [reflexivity|]. split; [|exact Hrun']. rewrite Hh. reflexivity.
Defined.

(** A process with one object and one array. *)
Definition one_object `{FF : FFmpeg} (o : @native_object FF ReferenceMixer)
    (size : nat) : @process ReferenceJni FF ReferenceMixer :=
  MkProcess (demo_vm size) {[ 8192 := o ]} 8193 [].

Lemma java_source_read_witness :
  let s := demo_source demo_file AV_SAMPLE_FMT_S16 2 in
  let w := one_object (SourceObject s) 7680 in
  lenZ (array_of (jvm w) 0%nat) = MAX_BUF_SIZE
  ∧ wpa (AudioFileSource_nativeRead 10 8192 0%nat w) (λ '(r, w'), ∃ got s' o,
      (natives w' = <[8192 := SourceObject s']> (natives w)
       ∧ array_of (jvm w') 0%nat
           = samples_bytes o ++ dropZ (2 * lenZ o) (array_of (jvm w) 0%nat))
      ∧ fs_ok 1 (demo_packets AV_SAMPLE_FMT_S16) ([] ++ got) s'
      ∧ read_result s got r o s').
Proof.
  intros s w. split; [vm_compute; reflexivity|].
  assert (is_Some (GetByteArrayElements (0%nat : @jbyteArray ReferenceJni) (jvm w)).1)
    as Hget by by eexists.
  assert (lenZ (array_of (jvm w) (0%nat : @jbyteArray ReferenceJni)) = MAX_BUF_SIZE)
    as Hlen by (vm_compute; reflexivity).
  destruct (java_source_read (H := ReferenceJni) (H1 := demo_ff AV_SAMPLE_FMT_S16)
    (H2 := demo_ff_spec AV_SAMPLE_FMT_S16)
    (H3 := source_reliable demo_file AV_SAMPLE_FMT_S16 2)
    (H4 := source_stable demo_file AV_SAMPLE_FMT_S16 2) 1
    (source_channels demo_file AV_SAMPLE_FMT_S16 2) 10 8192 0%nat w s
    eq_refl Hget Hlen) as [_ Hread].
  clearbody w. apply (Hread (demo_packets AV_SAMPLE_FMT_S16) []).
  - by apply demo_source_ok.
  - apply demo_source_fuel; apply Nat.ltb_lt; reflexivity.
Defined.

(** A stereo file at 48 kHz, played in frames of 100 ms: the Java class accepts
    the duration, and the first read has 9600 samples for an array of 3840.
    With frames of 40 ms they just fit. *)
Definition long_file : list (AVPacket (list (list Z))) :=
  [MkAVPacket 0 [replicate 4800 1]].
#[local] Instance long_ff : FFmpeg :=
  ReferenceFFmpeg long_file AV_SAMPLE_FMT_S16 48000 2 2.
#[local] Instance long_memory : @SampleMemory long_ff :=
  reference_memory long_file AV_SAMPLE_FMT_S16 48000 2 2.
Definition long_frame_calls (ms : Z) : list (@native_call ReferenceJni) :=
  [SourceInit "a.mp3" 48000 2 ms; SourceRead 8192 0%nat].
Definition long_process : @process ReferenceJni long_ff ReferenceMixer :=
  MkProcess (demo_vm 7680) ∅ 8192 [].

Example long_frames_overrun :
  ('(rs, _) ← session 10 (long_frame_calls 100) long_process; Ret rs)
    = Undef OutOfBounds
  ∧ ('(rs, _) ← session 10 (long_frame_calls 40) long_process; Ret rs)
    = Ret [8192; 7680].
Proof. vm_compute. by split. Qed.

(** A stereo stream of planar samples, as the MP3 and AAC decoders give it. *)
#[local] Instance stereo_ff : FFmpeg :=
  ReferenceFFmpeg demo_file AV_SAMPLE_FMT_FLTP 300 2 2.
#[local] Instance stereo_memory : @SampleMemory stereo_ff :=
  reference_memory demo_file AV_SAMPLE_FMT_FLTP 300 2 2.
Definition stereo_decoder : @AudioFileDecoder stereo_ff :=
  MkFileDecoder (H := stereo_ff) 30 0 demo_file (MkRefCodec [] 0) None true [].

Lemma java_decoder_consume_witness :
  let w := one_object (DecoderObject stereo_decoder) 8 in
  ('(_, got, d) ← Consume 10 stereo_decoder 2;
   Ret (lenZ got, sample_format d, channel_num d))
    = Ret (2, AV_SAMPLE_FMT_FLTP, 2)
  ∧ AudioFileDecoder_nativeConsume 10 8192 0%nat 2 w = Undef OutOfBounds.
Proof.
  intros w.
  assert (('(_, got, d) ← Consume 10 stereo_decoder 2;
    Ret (lenZ got, sample_format d, channel_num d))
      = Ret (2, AV_SAMPLE_FMT_FLTP, 2)) as Hrun by (vm_compute; reflexivity).
  split; [exact Hrun|].
  destruct (Consume 10 stereo_decoder 2) as [[[bytes got] d']| | |] eqn:Hc;
    [|discriminate Hrun..]. cbn [mbind outcome_bind] in Hrun.
  injection Hrun as Hgot.
  pose proof (java_decoder_consume 10 8192 0%nat w stereo_decoder 2 bytes got d'
    eq_refl Hc (ex_intro _ _ eq_refl)) as Hcall.
  specialize (Hcall eq_refl eq_refl).
  rewrite decide_False in Hcall; [exact Hcall|].
  intros [Hnil|[Hp _]]; [by rewrite Hnil in Hgot|discriminate Hp].
Defined.
