(* ===== verification/JavaMixer.v ===== *)
(** The Java class AudioMixer (android_project/AudioMixer/src/main/java) on top
    of the native functions: a mixer is made, used through its handle with an
    array of [MAX_BUF_SIZE] bytes, and every call is safe, as it is for a
    client of the C++ class. *)

From stdpp Require Import gmap strings.
From S2P Require Import Prelude.
From S2P Require Import Buffer.
From S2P Require Import AudioFrame.
From S2P Require Import Api.
From S2P Require Import AudioSource.
From S2P Require Import Ffmpeg.
From S2P Require Import FfmpegReference.
From S2P Require Import FileDecoder.
From S2P Require Import FileSource.
From S2P Require Import StdMap.
From S2P Require Import WebRtc.
From S2P Require Import Heap.
From S2P Require Import Mixer.
From S2P Require Import MixerInvariant.
From S2P Require Import MixerOperations.
From S2P Require Import MixerProperties.
From S2P Require Import Jni.
From S2P Require Import JniGlue.

(** ** The methods *)

(** The methods of the class, but for [destroy]. *)
Inductive java_op `{JNI} : Type :=
| JavaMix
| JavaAddRecordedData (ssrc : Z) (data : jbyteArray) (size : Z)
| JavaUpdateVolume (ssrc : Z) (volume : f32)
| JavaAddSource (source : MixerSource)
| JavaRemoveSource (ssrc : Z).

(** The native call a method makes, for the handle and the array of the
    object. *)
Definition java_call `{JNI} (p : Z) (buffer : jbyteArray) (op : java_op)
    : native_call :=
  match op with
  | JavaMix => MixerMix p buffer
  | JavaAddRecordedData ssrc data size => MixerAddRecordedData p ssrc data size
  | JavaUpdateVolume ssrc volume => MixerUpdateVolume p ssrc volume
  | JavaAddSource source => MixerAddSource p source
  | JavaRemoveSource ssrc => MixerRemoveSource p ssrc
  end.

Section java_mixer.
Context `{JNISpec, FFmpegSpec, !FifoReliable, !StableChannels, !SampleMemory}.
Context `{BuildConfig, AudioFrameLaws, WebRtcMixerLaws, AssertConfig}.
Context (max_channels : Z) (fuel : nat).
Implicit Types (w : process) (p r : Z) (am : AudioMixer) (h : heap)
  (a buffer : jbyteArray) (op : java_op).

(** What the mixer at the other end is asked to do. *)
Definition mixer_op_of w op : mixer_op :=
  match op with
  | JavaMix => OpMix MAX_BUF_SIZE
  | JavaAddRecordedData ssrc data size =>
      OpAddRecordedData ssrc (bytes_samples (array_of (jvm w) data)) size
  | JavaUpdateVolume ssrc volume => OpUpdateVolume ssrc volume
  | JavaAddSource source => OpAddSource source
  | JavaRemoveSource ssrc => OpRemoveSource ssrc
  end.

(** The array a method hands to the native function. *)
Definition java_array buffer op : option jbyteArray :=
  match op with
  | JavaMix => Some buffer
  | JavaAddRecordedData _ data _ => Some data
  | _ => None
  end.

(** How Java code must use an object: as a C++ client uses the mixer, with
    arrays whose elements the virtual machine can provide. *)
Definition java_op_ok p buffer w op : Prop :=
  (∀ a, java_array buffer op = Some a →
    is_Some (GetByteArrayElements a (jvm w)).1)
  ∧ ∀ am h, natives w !! p = Some (MixerHandle am h) →
      op_ok am h (mixer_op_of w op).

Inductive java_reachable (config : MixerConfig) (p : Z) buffer : process → Prop :=
| java_create w w' :
    process_ok w → lenZ (array_of (jvm w) buffer) = MAX_BUF_SIZE →
    CppProxy_create fuel config w = Ret (p, w') →
    java_reachable config p buffer w'
| java_step w op r w' :
    java_reachable config p buffer w → java_op_ok p buffer w op →
    native fuel (java_call p buffer op) w = Ret (r, w') →
    java_reachable config p buffer w'.

Hypothesis channels_range : ∀ c, 0 < ctx_channels c ≤ max_channels.
Hypothesis address_space : alloc_limit < 2 ^ 63.

(** The object of a Java mixer. *)
Definition java_mixer_inv (ms p : Z) buffer w : Prop :=
  4096 < p ∧ lenZ (array_of (jvm w) buffer) = MAX_BUF_SIZE
  ∧ ∃ am h, natives w !! p = Some (MixerHandle am h)
      ∧ am_inv max_channels fuel am h ∧ frame_duration_ms_ am = ms.

Lemma objectFromHandleAddress_ok p w am h :
  4096 < p → natives w !! p = Some (MixerHandle am h) →
  objectFromHandleAddress p w = Ret (am, h).
Proof.
  intros Hp Hw. unfold objectFromHandleAddress, RTC_CHECK.
  rewrite (proj2 (Z.eqb_neq p 0)), (proj2 (Z.ltb_lt 4096 p)) by lia.
  rewrite (fromJ_ok _ _ _ _ (am, h)) by done. by destruct assert_is_on.
Qed.

(** The object after a call that made [am'] and [h'] of the mixer. *)
Lemma java_mixer_set ms p buffer w am h am' h' w' :
  java_mixer_inv ms p buffer w → natives w !! p = Some (MixerHandle am h) →
  am_inv max_channels fuel am' h' → same_params am am' →
  natives w' = <[p := MixerHandle am' h']> (natives w) →
  lenZ (array_of (jvm w') buffer) = lenZ (array_of (jvm w) buffer) →
  java_mixer_inv ms p buffer w'.
Proof.
  intros (Hp & Hl & am0 & h0 & Hw & Hinv & Hms) Hw' Hinv' (_ & _ & Hms') Hn Hlen.
  split_and!; [done|lia|]. exists am', h'. rewrite Hn, lookup_insert_eq.
  split_and!; [done|done|]. rewrite Hw in Hw'. by simplify_eq/=.
Qed.

(** [Mix] with the number of bytes it writes. *)
Lemma mix_bytes am h room :
  am_inv max_channels fuel am h → MAX_BUF_SIZE ≤ room →
  wpa (Mix fuel am h room) (λ '(size, bytes, am', h'),
    am_inv max_channels fuel am' h' ∧ size = mixed_bytes am
    ∧ lenZ bytes = mixed_bytes am
    ∧ bytes = samples_bytes (takeZ (output_channel_num_ am
                 * real_output_samples_ am) (frame_data (mixed_frame_ am')))).
Proof.
  intros Hinv Hroom. pose proof (room_enough max_channels fuel am h Hinv) as Hle.
  destruct (mixed_bytes_bound _ _ _ _ Hinv) as [Hb _].
  eapply wpa_mono; [|apply (Mix_spec _ channels_range _ _ _ room Hinv); lia].
  intros [[[n b] am'] h'] (Hinv' & _ & -> & ->). split_and!; try done.
  destruct Hinv' as (_ & _ & _ & Hf & _).
  rewrite samples_bytes_length, lenZ_takeZ, frame_data_length by (done || lia).
  unfold mixed_bytes. lia.
Qed.

(** What [mix] returns and leaves in the array. *)
Definition java_mixed p buffer w r w' : Prop :=
  ∃ am h am' h', natives w !! p = Some (MixerHandle am h)
  ∧ natives w' !! p = Some (MixerHandle am' h') ∧ r = mixed_bytes am
  ∧ array_of (jvm w') buffer
    = samples_bytes (takeZ (output_channel_num_ am * real_output_samples_ am)
                       (frame_data (mixed_frame_ am')))
      ++ dropZ r (array_of (jvm w) buffer).

Lemma java_mix_ok ms p buffer w :
  java_mixer_inv ms p buffer w → java_op_ok p buffer w JavaMix →
  wpa (AudioMixer_nativeMix fuel p buffer w) (λ '(r, w'),
    java_mixer_inv ms p buffer w' ∧ java_mixed p buffer w r w').
Proof.
  intros Hj [Hget _]. pose proof Hj as (Hp & Hl & am & h & Hw & Hinv & Hms).
  destruct (Hget _ eq_refl) as [l Hl']. unfold AudioMixer_nativeMix, GetElements.
  destruct (GetByteArrayElements buffer (jvm w)) as [e j] eqn:Hg. cbn in Hl'. subst e.
  rewrite (objectFromHandleAddress_ok p _ am h) by done. cbn [mbind outcome_bind].
  destruct (get_elements_spec _ _ _ _ Hg) as (_ & _ & _ & Hel & _).
  pose proof (mix_bytes am h (lenZ l) Hinv ltac:(rewrite Hel, Hl; done)) as Hmix.
  destruct (Mix fuel am h _) as [[[[size out] am'] h']| | |] eqn:Hrun; [|done..].
  destruct Hmix as (Hinv' & -> & Hlen & Hout). cbn [mbind outcome_bind].
  pose proof (room_enough max_channels fuel am h Hinv) as Hroom.
  destruct (store_and_release buffer l j p (MixerHandle am' h') (mixed_bytes am) w out)
    as (w' & -> & Hn & Ha); [done|lia|].
  cbn [wpa]. split.
  - eapply java_mixer_set; [done..|by eapply Mix_params|done|].
    rewrite Ha. solve_len.
  - exists am, h, am', h'. rewrite Hn, lookup_insert_eq, Ha, Hlen, Hout.
    by split_and!.
Qed.

(** A step of the mixer, as the native functions take it apart. *)
Lemma mixer_step_at ms p buffer w op am h :
  java_mixer_inv ms p buffer w → library_ok max_channels fuel ms →
  java_op_ok p buffer w op → natives w !! p = Some (MixerHandle am h) →
  wpa (mixer_step fuel am h (mixer_op_of w op)) (λ '(am', h'),
    am_inv max_channels fuel am' h' ∧ same_params am am').
Proof.
  intros (_ & _ & am0 & h0 & Hw & Hinv & Hms) Hlib [_ Hop] Hw'.
  rewrite Hw in Hw'. injection Hw' as <- <-. rewrite <- Hms in Hlib.
  apply (mixer_step_spec _ _ channels_range); [done..|by apply Hop].
Qed.

Lemma java_record_ok ms p buffer w ssrc data size :
  java_mixer_inv ms p buffer w → library_ok max_channels fuel ms →
  let op := JavaAddRecordedData ssrc data size in
  java_op_ok p buffer w op →
  wpa (AudioMixer_nativeAddRecordedData p ssrc data size w) (λ '(r, w'),
    java_mixer_inv ms p buffer w').
Proof.
  intros Hj Hlib op Hop. pose proof Hj as (Hp & Hl & am & h & Hw & Hinv & Hms).
  destruct (proj1 Hop _ eq_refl) as [l Hl'].
  pose proof (mixer_step_at ms p buffer w op am h Hj Hlib Hop Hw) as Hstep.
  unfold AudioMixer_nativeAddRecordedData, GetElements.
  destruct (GetByteArrayElements data (jvm w)) as [e j] eqn:Hg. cbn in Hl'. subst e.
  rewrite (objectFromHandleAddress_ok p _ am h) by done. cbn [mbind outcome_bind].
  destruct (get_elements_spec _ _ _ _ Hg) as (_ & _ & _ & Hel & _).
  cbn [op mixer_op_of mixer_step] in Hstep. cbn [bytes_at default from_option].
  change (bytes_at (Some l)) with l. rewrite Hel.
  destruct (AddRecordedData _ _ _ _ _) as [h'| | |]; [|done..].
  destruct Hstep as [Hinv' Hsame]. cbn [mbind outcome_bind ReleaseElements wpa].
  eapply java_mixer_set; [done..| |].
  - done.
  - rewrite <- Hel. destruct (get_release_same _ _ _ _ Hg) as (_ & Hlen & _).
    by apply Hlen.
Qed.

(** Any method but [mix]. *)
Lemma java_call_ok ms p buffer w op :
  java_mixer_inv ms p buffer w → library_ok max_channels fuel ms →
  java_op_ok p buffer w op →
  wpa (native fuel (java_call p buffer op) w) (λ '(r, w'),
    java_mixer_inv ms p buffer w').
Proof.
  intros Hj Hlib Hop. pose proof Hj as (Hp & Hl & am & h & Hw & Hinv & Hms).
  pose proof (mixer_step_at ms p buffer w op am h Hj Hlib Hop Hw) as Hstep.
  destruct op as [|ssrc data size|ssrc v|source|ssrc]; cbn [java_call native].
  - eapply wpa_mono; [|by apply java_mix_ok]. by intros [r w'] [? _].
  - by apply java_record_ok.
  - unfold CppProxy_updateVolume.
    rewrite (objectFromHandleAddress_ok p _ am h) by done. cbn in *.
    destruct (am_UpdateVolume _ _ _ _); [|done..]. destruct Hstep.
    by eapply java_mixer_set.
  - unfold CppProxy_addSource.
    rewrite (objectFromHandleAddress_ok p _ am h) by done. cbn in *.
    destruct (AddSource _ _ _ _) as [[[b am'] h']| | |]; [|done..].
    destruct Hstep. by eapply java_mixer_set.
  - unfold CppProxy_removeSource.
    rewrite (objectFromHandleAddress_ok p _ am h) by done. cbn in *.
    destruct (RemoveSource _ _ _) as [[b am'] h']. destruct Hstep.
    by eapply java_mixer_set.
Qed.

(** C8: A mixer made by the Java class from a valid configuration stays safe
    until it is destroyed: in every state its methods [mix], [addRecordedData],
    [updateVolume], [addSource] and [removeSource] can reach by calls that keep
    the rules of [java_op_ok], every further such call is free of undefined
    behaviour and terminates, unless a failed check or allocation or an
    unexpected error of FFmpeg stops the process; and a [mix] fills the array
    of [MAX_BUF_SIZE] bytes with one frame of the mix and returns its size.
    The rules: only free SSRCs are added, record sources only with frames of
    10 ms, recorded data is never addressed to a file source and its size is
    within its array, and the virtual machine provides the elements of the
    arrays. *)
Theorem java_mixer_safe config p buffer w :
  config_ok max_channels fuel config → java_reachable config p buffer w →
  let inv := java_mixer_inv (mc_frame_duration_ms config) p buffer in
  inv w
  ∧ (∀ op, java_op_ok p buffer w op →
      wpa (native fuel (java_call p buffer op) w) (λ '(r, w'), inv w'))
  ∧ (java_op_ok p buffer w JavaMix →
      wpa (AudioMixer_nativeMix fuel p buffer w) (λ '(r, w'),
        java_mixed p buffer w r w')).
Proof.
  intros Hconfig Hr inv. pose proof Hconfig as (Hp & Hlib & Hsrc).
  assert (inv w) as Hinv.
  { induction Hr as [w w' [Hnext _] Hl Hnew|w op r w' _ IH Hop Hrun].
    - unfold CppProxy_create in Hnew.
      pose proof (AudioMixer_new_spec _ channels_range address_space _ config Hp
        Hlib Hsrc) as Hw.
      destruct (AudioMixer_new fuel config) as [[am h]| | |]; [|done..].
      injection Hnew as <- <-. split_and!; [done|done|].
      exists am, h. cbn. rewrite lookup_insert_eq.
      by destruct Hw as (Hinv & _ & _ & _ & Hms).
    - pose proof (java_call_ok _ _ _ _ _ IH Hlib Hop) as Hw. by rewrite Hrun in Hw. }
  split_and!; [done|by intros; apply java_call_ok|].
  intros Hop. eapply wpa_mono; [|by eapply java_mix_ok].
  by intros [r w'] [_ ?].
Qed.
End java_mixer.

(** ** Example *)

#[local] Existing Instances demo_ffmpeg demo_spec demo_reliable demo_stable.
#[local] Existing Instances DebugBuild ReferenceFrameApi ReferenceFrameLaws.
#[local] Existing Instances ReferenceMixer ReferenceMixerLaws.
#[local] Existing Instances ReferenceJni ReferenceJniSpec assertions.
#[local] Instance java_memory : SampleMemory :=
  reference_memory demo_file AV_SAMPLE_FMT_S16 8000 1 2.

Definition java_start : process := MkProcess (demo_vm 7680) ∅ 8192 [].

Definition java_buffer : @jbyteArray ReferenceJni := 0%nat.

Lemma java_created :
  wp (CppProxy_create 10 demo_config java_start) (λ '(p, _), p = 8192).
Proof. vm_compute. reflexivity. Qed.

Lemma java_mixer_safe_witness :
  ∃ w, CppProxy_create 10 demo_config java_start = Ret (8192, w)
    ∧ java_mixer_inv 1 10 10 8192 java_buffer w
    ∧ (∀ op : java_op, java_op_ok 8192 java_buffer w op →
        wpa (native 10 (java_call 8192 java_buffer op) w) (λ '(r, w'),
          java_mixer_inv 1 10 10 8192 java_buffer w'))
    ∧ (java_op_ok 8192 java_buffer w JavaMix →
        wpa (AudioMixer_nativeMix 10 8192 java_buffer w) (λ '(r, w'),
          java_mixed 8192 java_buffer w r w')).
Proof.
  destruct (proj1 (wp_exists _ _) java_created) as ([p w] & Hnew & Hp).
  cbn in Hp. subst p. exists w. split; [exact Hnew|].
  apply (java_mixer_safe 1 10 demo_range ltac:(done) demo_config 8192 java_buffer w
    demo_config_ok).
  apply (java_create 10 demo_config 8192 java_buffer java_start w).
  - split; [reflexivity|]. intros p. cbn. rewrite dom_empty_L. set_solver.
  - vm_compute. reflexivity.
  - exact Hnew.
Defined.
