(* ===== verification/ProxyCache.v ===== *)
(** [djinni::ProxyCache] (djinni/support-lib/proxy_cache_interface.hpp,
    proxy_cache_impl.hpp): the cache through which an object that crosses the
    language border a second time gets the proxy it already has.

    The cache refers to proxies weakly.  When the last strong reference to a
    proxy is gone, the weak one expires at once, but the destructor of the
    [Handle] the proxy owns runs later, and the object can cross the border
    again in between.  The operations of the cache hold its mutex, so an
    execution is a sequence of steps; the other language's collector drops
    proxies and runs destructors between any two of them. *)

From stdpp Require Import gmap.
From S2P Require Import Prelude.

(** ** The cache *)

Section proxy_cache.
(** The keys: the type of an object and its address. *)
Context `{Countable K}.

(** [m_mapping]: the weak references.  The rest is outside of the cache: the
    proxies with strong references, the handles that exist, with the object
    each one owns, and the number of the next proxy. *)
Record ProxyCache : Type := MkProxyCache {
  m_mapping : gmap K nat;
  strong : gset nat;
  proxy_handles : gmap nat K;
  next_proxy : nat
}.
Implicit Types (c : ProxyCache) (k : K) (p : nat).

Definition ProxyCache_empty : ProxyCache := MkProxyCache ∅ ∅ ∅ 0.

Definition set_mapping c (m : gmap K nat) : ProxyCache :=
  MkProxyCache m (strong c) (proxy_handles c) (next_proxy c).

(** [upgrade_weak] and [is_expired] *)
Definition upgrade_weak p c : option nat :=
  if decide (p ∈ strong c) then Some p else None.
Definition is_expired p c : bool := bool_decide (p ∉ strong c).

(** [alloc(impl)]: a new proxy with a new handle. *)
Definition alloc_proxy k c : nat * ProxyCache :=
  (next_proxy c,
   MkProxyCache (m_mapping c) ({[next_proxy c]} ∪ strong c)
     (<[next_proxy c := k]> (proxy_handles c)) (S (next_proxy c))).

(** [emplace] of an unordered map keeps an entry that exists. *)
Definition map_emplace k p (m : gmap K nat) : gmap K nat :=
  match m !! k with Some _ => m | None => <[k := p]> m end.

(** [Pimpl::get] *)
Definition proxy_alloc k c : nat * ProxyCache :=
  let '(p, c) := alloc_proxy k c in
  (p, set_mapping c (map_emplace k p (m_mapping c))).
Definition proxy_get k c : nat * ProxyCache :=
  match m_mapping c !! k with
  | Some weak =>
      match upgrade_weak weak c with
      | Some existing_proxy => (existing_proxy, c)
      | None => proxy_alloc k (set_mapping c (delete k (m_mapping c)))
      end
  | None => proxy_alloc k c
  end.

(** [Pimpl::remove] *)
Definition proxy_remove k c : ProxyCache :=
  match m_mapping c !! k with
  | Some weak =>
      if is_expired weak c then set_mapping c (delete k (m_mapping c)) else c
  | None => c
  end.

(** [~Handle] of a proxy: cleans up, then gives up the object. *)
Definition Handle_delete p c : ProxyCache :=
  match proxy_handles c !! p with
  | Some k =>
      let c := proxy_remove k c in
      MkProxyCache (m_mapping c) (strong c) (delete p (proxy_handles c))
        (next_proxy c)
  | None => c
  end.

(** The last strong reference to a proxy goes away. *)
Definition drop_proxy p c : ProxyCache :=
  MkProxyCache (m_mapping c) (strong c ∖ {[p]}) (proxy_handles c)
    (next_proxy c).

(** ** Executions *)

Inductive proxy_event : Type :=
| EvGet (k : K) (p : nat)
| EvDrop (p : nat)
| EvDestroy (p : nat).

(** A proxy is dropped once, and its handle is destroyed after that. *)
Inductive cache_step : ProxyCache → proxy_event → ProxyCache → Prop :=
| step_get c k p c' :
    proxy_get k c = (p, c') → cache_step c (EvGet k p) c'
| step_drop c p :
    p ∈ strong c → cache_step c (EvDrop p) (drop_proxy p c)
| step_destroy c p :
    p ∉ strong c → p ∈ dom (proxy_handles c) →
    cache_step c (EvDestroy p) (Handle_delete p c).

(** ** What a cache promises *)

(** The proxies in use, one for each object at most, and the proxies that
    existed. *)
Record proxies : Type := MkProxies { in_use : gmap K nat; existed : gset nat }.

Inductive proxies_step : proxies → proxy_event → proxies → Prop :=
| same_proxy m old k p :
    m !! k = Some p → proxies_step (MkProxies m old) (EvGet k p) (MkProxies m old)
| fresh_proxy m old k p :
    m !! k = None → p ∉ old →
    proxies_step (MkProxies m old) (EvGet k p)
      (MkProxies (<[k := p]> m) ({[p]} ∪ old))
| unused_proxy m old k p :
    m !! k = Some p →
    proxies_step (MkProxies m old) (EvDrop p) (MkProxies (delete k m) old)
| destroyed_proxy m old p :
    (∀ k, m !! k ≠ Some p) →
    proxies_step (MkProxies m old) (EvDestroy p) (MkProxies m old).

(** Sequences of steps. *)
Inductive steps {S} (R : S → proxy_event → S → Prop)
    : S → list proxy_event → S → Prop :=
| steps_nil s : steps R s [] s
| steps_cons s e s' l s'' :
    R s e s' → steps R s' l s'' → steps R s (e :: l) s''.
End proxy_cache.
Arguments ProxyCache K {_ _}.
Arguments ProxyCache_empty {K _ _}.
Arguments proxy_event K : clear implicits.

(** ** The cache keeps its promise *)

Section proxy_cache_lemmas.
Context `{Countable K}.
Implicit Types (c : ProxyCache K) (s : proxies (K := K)) (k : K) (p : nat).

(** An entry is that of a handle; the proxies in use are the entries that are
    not expired. *)
Record cache_ok c s : Prop := {
  entry_handle k p :
    m_mapping c !! k = Some p → proxy_handles c !! p = Some k;
  in_use_entry k p :
    in_use s !! k = Some p ↔ m_mapping c !! k = Some p ∧ p ∈ strong c;
  strong_in_use p : p ∈ strong c → ∃ k, in_use s !! k = Some p;
  handle_existed p : p ∈ dom (proxy_handles c) → p ∈ existed s;
  existed_before p : p ∈ existed s → (p < next_proxy c)%nat
}.

Lemma cache_ok_empty : cache_ok ProxyCache_empty (MkProxies ∅ ∅).
Proof.
  split; cbn; try set_solver; intros k p; rewrite ?lookup_empty; naive_solver.
Qed.

Lemma strong_handle c s p :
  cache_ok c s → p ∈ strong c →
  ∃ k, proxy_handles c !! p = Some k ∧ m_mapping c !! k = Some p.
Proof.
  intros Hc Hp. destruct (strong_in_use _ _ Hc _ Hp) as [k Hk].
  apply (in_use_entry _ _ Hc) in Hk as [Hk _]. exists k.
  split; [by apply (entry_handle _ _ Hc)|done].
Qed.

(** Erasing an entry that is expired. *)
Lemma erase_expired_ok c s k p :
  cache_ok c s → m_mapping c !! k = Some p → p ∉ strong c →
  cache_ok (set_mapping c (delete k (m_mapping c))) s.
Proof.
  intros Hc Hk Hp. destruct Hc as [He Hi Hs Hh Hx]. split; cbn; try done.
  - intros k' p' Hd. apply lookup_delete_Some in Hd as [_ Hd]. by apply He.
  - intros k' p'. rewrite Hi, lookup_delete_Some. naive_solver.
Qed.

(** A new proxy for an object without an entry. *)
Lemma proxy_alloc_ok c s k p c' :
  cache_ok c s → m_mapping c !! k = None → proxy_alloc k c = (p, c') →
  ∃ s', proxies_step s (EvGet k p) s' ∧ cache_ok c' s'.
Proof.
  intros Hc Hk [= <- <-]. unfold map_emplace. rewrite Hk.
  pose proof (existed_before _ _ Hc) as Hx. destruct s as [m old]. cbn in Hx.
  assert (next_proxy c ∉ strong c) as Hfresh.
  { intros Hp. destruct (strong_handle _ _ _ Hc Hp) as (k' & Hk' & _).
    apply elem_of_dom_2, (handle_existed _ _ Hc), Hx in Hk'. lia. }
  destruct Hc as [He Hi Hs Hh _]. cbn in Hi, Hs, Hh.
  eexists. split.
  { apply fresh_proxy.
    - destruct (m !! k) as [q|] eqn:Hm; [|done].
      apply Hi in Hm as [Hm _]. congruence.
    - intros Hin. apply Hx in Hin. lia. }
  split; cbn; unfold set_mapping; cbn.
  - intros k' q. rewrite lookup_insert_Some. intros [[-> <-]|[Hne Hq]].
    + apply lookup_insert_eq.
    + apply He in Hq. rewrite lookup_insert_ne; [done|]. intros <-.
      apply elem_of_dom_2, Hh, Hx in Hq. lia.
  - intros k' q. rewrite !lookup_insert_Some, Hi, elem_of_union, elem_of_singleton.
    split; [naive_solver|]. intros [[[-> <-]|[Hne Hq]] Hst]; [by left|right].
    destruct Hst as [->|Hst]; [|done].
    apply He, elem_of_dom_2, Hh, Hx in Hq. lia.
  - intros q. rewrite elem_of_union, elem_of_singleton. intros [->|Hq].
    + exists k. apply lookup_insert_eq.
    + destruct (Hs _ Hq) as [k' Hk']. exists k'.
      rewrite lookup_insert_ne; [done|]. intros <-. apply Hi in Hk' as [? _].
      congruence.
  - intros q. rewrite dom_insert_L. set_solver.
  - intros q. rewrite elem_of_union, elem_of_singleton.
    intros [->|Hq]; [lia|]. specialize (Hx _ Hq). lia.
Qed.

Lemma get_ok c s k p c' :
  cache_ok c s → proxy_get k c = (p, c') →
  ∃ s', proxies_step s (EvGet k p) s' ∧ cache_ok c' s'.
Proof.
  intros Hc. unfold proxy_get, upgrade_weak.
  destruct (m_mapping c !! k) as [q|] eqn:Hk; [|by apply proxy_alloc_ok].
  case_decide as Hq.
  - intros [= <- <-]. exists s. split; [|done]. destruct s as [m old].
    apply same_proxy. by apply (in_use_entry _ _ Hc).
  - apply proxy_alloc_ok; [by eapply erase_expired_ok|]. apply lookup_delete_eq.
Qed.

Lemma proxy_drop_ok c s p :
  cache_ok c s → p ∈ strong c →
  ∃ s', proxies_step s (EvDrop p) s' ∧ cache_ok (drop_proxy p c) s'.
Proof.
  intros Hc Hp. destruct (strong_handle _ _ _ Hc Hp) as (k & Hk & Hm).
  destruct Hc as [He Hi Hs Hh Hx]. destruct s as [m old]. cbn in *.
  eexists. split; [apply (unused_proxy _ _ k), Hi; done|].
  split; cbn; try done.
  - intros k' q. rewrite lookup_delete_Some, Hi, elem_of_difference,
      elem_of_singleton. split; [|naive_solver].
    intros (Hne & Hq & Hst). split_and!; [done|done|]. intros ->.
    apply He in Hq. congruence.
  - intros q. rewrite elem_of_difference, elem_of_singleton. intros [Hq Hne].
    destruct (Hs _ Hq) as [k' Hk']. exists k'.
    rewrite lookup_delete_ne; [done|]. intros <-. apply Hi in Hk' as [? _].
    congruence.
Qed.

Lemma remove_ok c s k : cache_ok c s → cache_ok (proxy_remove k c) s.
Proof.
  intros Hc. unfold proxy_remove, is_expired.
  destruct (m_mapping c !! k) as [q|] eqn:Hk; [|done].
  case_bool_decide; [by eapply erase_expired_ok|done].
Qed.

(** After [remove] there is no expired entry for the object. *)
Lemma remove_no_expired c k p :
  m_mapping (proxy_remove k c) !! k = Some p → p ∈ strong c.
Proof.
  unfold proxy_remove, is_expired.
  destruct (m_mapping c !! k) as [q|] eqn:Hk; [|congruence].
  case_bool_decide as Hq; cbn.
  - by rewrite lookup_delete_eq.
  - rewrite Hk. intros [= <-]. destruct (decide (q ∈ strong c)); naive_solver.
Qed.

Lemma destroy_ok c s p :
  cache_ok c s → p ∉ strong c → p ∈ dom (proxy_handles c) →
  ∃ s', proxies_step s (EvDestroy p) s' ∧ cache_ok (Handle_delete p c) s'.
Proof.
  intros Hc Hp [k Hk]%elem_of_dom. exists s. split.
  { destruct s as [m old]. apply destroyed_proxy. intros k' Hk'.
    by apply (in_use_entry _ _ Hc) in Hk' as [_ ?]. }
  unfold Handle_delete. rewrite Hk.
  pose proof (remove_no_expired c k) as Hno.
  pose proof (remove_ok c s k Hc) as Hc'.
  assert (proxy_handles (proxy_remove k c) = proxy_handles c
    ∧ strong (proxy_remove k c) = strong c) as [Hh' Hs'].
  { unfold proxy_remove. by repeat case_match. }
  destruct Hc' as [He Hi Hs Hh Hx]. rewrite Hh', Hs' in *.
  split; cbn; rewrite ?Hs', ?Hh'; try done.
  - intros k' q Hq. rewrite lookup_delete_ne; [by apply He|].
    intros <-. pose proof (He _ _ Hq) as Hkk. rewrite Hk in Hkk.
    injection Hkk as <-. by apply Hp, Hno.
  - intros q. rewrite dom_delete_L. set_solver.
Qed.

Lemma step_ok c e c' s :
  cache_ok c s → cache_step c e c' →
  ∃ s', proxies_step s e s' ∧ cache_ok c' s'.
Proof.
  intros Hc. destruct 1; [by eapply get_ok|by apply proxy_drop_ok|by apply destroy_ok].
Qed.

Lemma steps_ok c l c' s :
  cache_ok c s → steps cache_step c l c' →
  ∃ s', steps proxies_step s l s' ∧ cache_ok c' s'.
Proof.
  intros Hc Hl. revert s Hc. induction Hl as [c|c e c1 l c2 He Hl IH]; intros s Hc.
  - exists s. split; [constructor|done].
  - destruct (step_ok _ _ _ _ Hc He) as (s1 & Hs1 & Hc1).
    destruct (IH _ Hc1) as (s2 & Hs2 & Hc2). exists s2.
    split; [by econstructor|done].
Qed.

(** C37: However gets, the end of references and the destructors of handles
    interleave, the cache hands out proxies as promised: the one in use if the
    object has one, and a proxy that never existed otherwise; and when all
    handles are destroyed the cache holds no entry. *)
Theorem proxy_cache_refines l c :
  steps cache_step (ProxyCache_empty (K := K)) l c →
  ∃ s, steps proxies_step (MkProxies ∅ ∅) l s
    ∧ (∀ k p, in_use s !! k = Some p ↔
         m_mapping c !! k = Some p ∧ p ∈ strong c)
    ∧ (proxy_handles c = ∅ → m_mapping c = ∅).
Proof.
  intros Hl. destruct (steps_ok _ _ _ _ cache_ok_empty Hl) as (s & Hs & Hc).
  exists s. split_and!; [done|apply (in_use_entry _ _ Hc)|].
  intros Hh. apply map_eq. intros k. rewrite lookup_empty.
  destruct (m_mapping c !! k) as [p|] eqn:Hk; [|done].
  apply (entry_handle _ _ Hc) in Hk. by rewrite Hh in Hk.
Qed.

(** C28: A handle must not be destroyed while its proxy is in use, as the Java
    class AudioMixer does in [destroy]: the entry of the proxy stays.  The
    object is freed, and another one at its address gets the old proxy, whose
    handle is gone. *)
Theorem early_destroy_keeps_entry l c k p :
  steps cache_step ProxyCache_empty l c →
  m_mapping c !! k = Some p → p ∈ strong c →
  let c' := Handle_delete p c in
  proxy_handles c !! p = Some k ∧ proxy_handles c' !! p = None
  ∧ proxy_get k c' = (p, c').
Proof.
  intros Hl Hk Hp. destruct (steps_ok _ _ _ _ cache_ok_empty Hl) as (s & _ & Hc).
  pose proof (entry_handle _ _ Hc _ _ Hk) as Hh.
  unfold Handle_delete, proxy_remove, is_expired. rewrite Hh, Hk.
  rewrite bool_decide_eq_false_2 by naive_solver. cbn.
  split_and!; [done|apply lookup_delete_eq|].
  unfold proxy_get, upgrade_weak. cbn. by rewrite Hk, decide_True.
Qed.
End proxy_cache_lemmas.

(** ** Example *)

(** The object 7 crosses the border again before the handle of its first proxy
    is destroyed: it gets a second proxy, which the destructor leaves alone. *)
Definition late_destructor : list (proxy_event Z) :=
  [EvGet 7 0; EvDrop 0; EvGet 7 1; EvDestroy 0; EvGet 7 1; EvDrop 1;
   EvDestroy 1].

Lemma late_destructor_runs :
  steps cache_step ProxyCache_empty late_destructor (MkProxyCache ∅ ∅ ∅ 2).
Proof.
  unfold late_destructor.
  repeat (eapply steps_cons;
    [first [by apply step_get
           |apply step_drop; by refine (bool_decide_unpack _ _)
           |apply step_destroy; by refine (bool_decide_unpack _ _)]|]).
  apply steps_nil.
Qed.

Lemma proxy_cache_refines_witness :
  steps cache_step ProxyCache_empty late_destructor (MkProxyCache ∅ ∅ ∅ 2)
  ∧ ∃ s, steps proxies_step (MkProxies ∅ ∅) late_destructor s
    ∧ (∀ k p, in_use s !! k = Some p ↔ (∅ : gmap Z nat) !! k = Some p
         ∧ p ∈ (∅ : gset nat))
    ∧ ((∅ : gmap nat Z) = ∅ → (∅ : gmap Z nat) = ∅).
Proof.
  split; [exact late_destructor_runs|].
  apply (proxy_cache_refines late_destructor (MkProxyCache ∅ ∅ ∅ 2)).
  exact late_destructor_runs.
Defined.

Lemma early_destroy_keeps_entry_witness :
  let c := (proxy_get 7 ProxyCache_empty).2 in
  steps cache_step ProxyCache_empty [EvGet 7 0%nat] c
  ∧ proxy_handles c !! 0%nat = Some 7
  ∧ proxy_handles (Handle_delete 0 c) !! 0%nat = None
  ∧ proxy_get 7 (Handle_delete 0 c) = (0%nat, Handle_delete 0 c).
Proof.
  intros c.
  assert (steps cache_step ProxyCache_empty [EvGet 7 0%nat] c) as Hc.
  { eapply steps_cons; [by apply step_get|apply steps_nil]. }
  split; [exact Hc|].
  apply (early_destroy_keeps_entry [EvGet 7 0%nat] c 7 0%nat Hc).
  - reflexivity.
  - by refine (bool_decide_unpack _ _).
Defined.
