(* ===== verification/IosMixer.v ===== *)
(** The Objective-C classes of the iOS library (ios_project/objc/PYAAudioMixer.mm,
    PYAAudioBuffer.mm, generated_src/objc/PYAAudioMixerApi+Private.mm): a mixer,
    the proxy of the C++ mixer it owns, and the buffer it mixes into.

    Objects live by automatic reference counting: an object is deallocated when
    the last strong reference to it, of the client or of a member of another
    object, goes away; its own members are released then.  The handle of a proxy
    is destroyed with the proxy and not before, which is the discipline the
    cache of proxies needs (see ProxyCache). *)

From stdpp Require Import gmap gmultiset strings.
From S2P Require Import Prelude.
From S2P Require Import Buffer.
From S2P Require Import AudioFrame.
From S2P Require Import Api.
From S2P Require Import AudioSource.
From S2P Require Import Ffmpeg.
From S2P Require Import FfmpegReference.
From S2P Require Import FileDecoder.
From S2P Require Import FileSource.
From S2P Require Import StdMap.
From S2P Require Import WebRtc.
From S2P Require Import Heap.
From S2P Require Import Mixer.
From S2P Require Import MixerInvariant.
From S2P Require Import MixerOperations.
From S2P Require Import MixerProperties.
From S2P Require Import Jni.
From S2P Require Import JniGlue.
From S2P Require Import JavaMixer.

(** ** Objects *)

(** References and pointers are numbers, 0 for [nil] and [NULL].  A
    [PYAAudioMixer] is a [PYAAudioMixerApi] too, but the handle it inherits is
    never assigned: it passes the messages on to [_nativeMixer]. *)
Inductive ns_object `{FFmpeg, WebRtcMixer} : Type :=
| PYAAudioMixer (_nativeMixer _buffer : Z)
(** [_cppRefHandle]: the C++ mixer, with its objects *)
| PYAAudioMixerApi (am : AudioMixer) (h : heap)
| PYAAudioBuffer (_data _size : Z).

(** The objects, with their counts of strong references, the blocks [malloc]
    gave out, and what destroyed C++ mixers left. *)
Record ios `{FFmpeg, WebRtcMixer} : Type := MkIos {
  ns_objects : gmap Z (ns_object * nat);
  next_id : Z;
  blocks : gmap Z (list Z);
  destroyed : list (MixerImpl * heap)
}.
Arguments MkIos {_ _} _ _ _ _.

Section ios_library.
Context `{FFmpeg, !SampleMemory, BuildConfig, AudioFrameApi, WebRtcMixer}.
Implicit Types (w : ios) (o : ns_object) (self id p ssrc : Z).

Definition ios_empty : ios := MkIos ∅ 1 ∅ [].

Definition set_objects w (m : gmap Z (ns_object * nat)) : ios :=
  MkIos m (next_id w) (blocks w) (destroyed w).
Definition set_blocks w (m : gmap Z (list Z)) : ios :=
  MkIos (ns_objects w) (next_id w) m (destroyed w).
Definition add_destroyed w (x : MixerImpl * heap) : ios :=
  MkIos (ns_objects w) (next_id w) (blocks w) (x :: destroyed w).

(** [alloc]: the reference of the result is the first one. *)
Definition ns_alloc o w : Z * ios :=
  (next_id w,
   MkIos (<[next_id w := (o, 1%nat)]> (ns_objects w)) (next_id w + 1) (blocks w)
     (destroyed w)).

(** The object a message goes to, and its members after the message. *)
Definition ns_object_at id w : outcome (ns_object * nat) :=
  match ns_objects w !! id with
  | Some x => Ret x
  | None => Undef (if id =? 0 then NullPointer else DanglingPointer)
  end.
Definition ns_set id o w : ios :=
  match ns_objects w !! id with
  | Some (_, n) => set_objects w (<[id := (o, n)]> (ns_objects w))
  | None => w
  end.

(** *** malloc and free *)

(** What [malloc] answers: an address, or 0, and the bytes of the block. *)
Definition malloc (answer : Z * list Z) w : Z * ios :=
  let '(p, junk) := answer in
  if p =? 0 then (0, w) else (p, set_blocks w (<[p := junk]> (blocks w))).
Definition malloc_ok (size : Z) (answer : Z * list Z) w : Prop :=
  let '(p, junk) := answer in
  p = 0 ∨ (blocks w !! p = None ∧ lenZ junk = size).
Definition free p w : outcome ios :=
  match blocks w !! p with
  | Some _ => Ret (set_blocks w (delete p (blocks w)))
  | None => Undef DanglingPointer
  end.

(** The bytes a pointer points to. *)
Definition block_at p w : outcome (option (list Z)) :=
  if p =? 0 then Ret None else
  match blocks w !! p with
  | Some l => Ret (Some l)
  | None => Undef DanglingPointer
  end.
Definition set_block p (b : option (list Z)) w : ios :=
  match b with
  | Some l => set_blocks w (<[p := l]> (blocks w))
  | None => w
  end.

(** *** References *)

Definition objc_retain id w : outcome (Z * ios) :=
  if id =? 0 then Ret (0, w) else
  '(o, n) ← ns_object_at id w;
  Ret (id, set_objects w (<[id := (o, S n)]> (ns_objects w))).

(** [-dealloc] of [PYAAudioBuffer] *)
Definition PYAAudioBuffer_dealloc (_data : Z) w : outcome ios :=
  if negb (_data =? 0) then free _data w else Ret w.

(** The last release deallocates; the members of the object are released then
    ([depth] bounds the chain of owners). *)
Fixpoint release_chain (depth : nat) id w : outcome ios :=
  match depth with
  | O => NoFuel
  | S depth =>
      if id =? 0 then Ret w else
      '(o, n) ← ns_object_at id w;
      if (1 <? n)%nat
      then Ret (set_objects w (<[id := (o, Nat.pred n)]> (ns_objects w)))
      else
        let w := set_objects w (delete id (ns_objects w)) in
        match o with
        | PYAAudioMixer _nativeMixer _buffer =>
            w ← release_chain depth _nativeMixer w;
            release_chain depth _buffer w
        | PYAAudioMixerApi am h => Ret (add_destroyed w (AudioMixer_delete am h))
        | PYAAudioBuffer _data _ => PYAAudioBuffer_dealloc _data w
        end
  end.
Definition objc_release id w : outcome ios := release_chain 2 id w.

(** *** PYAAudioMixerApi *)

(** [AudioMixerApi::fromCpp] makes a proxy, [initWithCpp] assigns its handle. *)
Definition PYAAudioMixerApi_create (fuel : nat) (config : MixerConfig) w
    : outcome (Z * ios) :=
  '(am, h) ← AudioMixer_new fuel config;
  Ret (ns_alloc (PYAAudioMixerApi am h) w).

(** [_cppRefHandle.get()], dereferenced. *)
Definition cppRef id w : outcome (AudioMixer * heap) :=
  '(o, _) ← ns_object_at id w;
  match o with
  | PYAAudioMixerApi am h => Ret (am, h)
  | PYAAudioMixer _ _ => Undef NullPointer
  | PYAAudioBuffer _ _ => Abort "unrecognized selector"
  end.

Definition PYAAudioMixerApi_updateVolume self ssrc (volume : f32) w
    : outcome (Z * ios) :=
  '(am, h) ← cppRef self w;
  h ← am_UpdateVolume am h ssrc volume;
  Ret (0, ns_set self (PYAAudioMixerApi am h) w).

Definition PYAAudioMixerApi_addSource (fuel : nat) self (source : MixerSource) w
    : outcome (Z * ios) :=
  '(am, h) ← cppRef self w;
  '(r, am, h) ← AddSource fuel am h source;
  Ret (Z.b2z r, ns_set self (PYAAudioMixerApi am h) w).

Definition PYAAudioMixerApi_removeSource self ssrc w : outcome (Z * ios) :=
  '(am, h) ← cppRef self w;
  let '(r, am, h) := RemoveSource am h ssrc in
  Ret (Z.b2z r, ns_set self (PYAAudioMixerApi am h) w).

(** The address of the C++ mixer: the model uses the reference of the proxy
    that owns it.  The handle of a [PYAAudioMixer] itself is empty, and a
    message to [nil] answers 0. *)
Definition PYAAudioMixerApi_nativeMixer self w : outcome Z :=
  if self =? 0 then Ret 0 else
  '(o, _) ← ns_object_at self w;
  match o with
  | PYAAudioMixerApi _ _ => Ret self
  | PYAAudioMixer _ _ => Ret 0
  | PYAAudioBuffer _ _ => Abort "unrecognized selector"
  end.

(** *** PYAAudioBuffer *)

Definition PYAAudioBuffer_init (answer : Z * list Z) w : Z * ios :=
  let '(_data, w) := malloc answer w in ns_alloc (PYAAudioBuffer _data 0) w.

(** The properties, as far as they are used: [data] is only read. *)
Definition buffer_at id w : outcome (Z * Z) :=
  '(o, _) ← ns_object_at id w;
  match o with
  | PYAAudioBuffer _data _size => Ret (_data, _size)
  | _ => Abort "unrecognized selector"
  end.
Definition PYAAudioBuffer_setSize self (size : Z) w : outcome ios :=
  '(_data, _) ← buffer_at self w;
  Ret (ns_set self (PYAAudioBuffer _data size) w).

(** *** PYAAudioMixer *)

Definition PYAAudioMixer_initWithConfig (fuel : nat) (config : MixerConfig)
    (answer : Z * list Z) w : outcome (Z * ios) :=
  let '(self, w) := ns_alloc (PYAAudioMixer 0 0) w in
  '(_nativeMixer, w) ← PYAAudioMixerApi_create fuel config w;
  let w := ns_set self (PYAAudioMixer _nativeMixer 0) w in
  let '(_buffer, w) := PYAAudioBuffer_init answer w in
  Ret (self, ns_set self (PYAAudioMixer _nativeMixer _buffer) w).

(** The members of the receiver. *)
Definition mixer_members self w : outcome (Z * Z) :=
  '(o, _) ← ns_object_at self w;
  match o with
  | PYAAudioMixer _nativeMixer _buffer => Ret (_nativeMixer, _buffer)
  | _ => Abort "unrecognized selector"
  end.

(** A message the class overrides: [PYAAudioMixer] passes it on. *)
Definition receiver self w : outcome Z :=
  '(o, _) ← ns_object_at self w;
  match o with
  | PYAAudioMixer _nativeMixer _ => Ret _nativeMixer
  | PYAAudioMixerApi _ _ => Ret self
  | PYAAudioBuffer _ _ => Abort "unrecognized selector"
  end.
Definition PYAAudioMixer_updateVolume self ssrc (volume : f32) w
    : outcome (Z * ios) :=
  api ← receiver self w; PYAAudioMixerApi_updateVolume api ssrc volume w.
Definition PYAAudioMixer_addSource (fuel : nat) self (source : MixerSource) w
    : outcome (Z * ios) :=
  api ← receiver self w; PYAAudioMixerApi_addSource fuel api source w.
Definition PYAAudioMixer_removeSource self ssrc w : outcome (Z * ios) :=
  api ← receiver self w; PYAAudioMixerApi_removeSource api ssrc w.

(** The result of [mix] and [addRecordedData] is a reference of the caller. *)
Definition PYAAudioMixer_mix (fuel : nat) self w : outcome (Z * ios) :=
  '(_nativeMixer, _buffer) ← mixer_members self w;
  nativeMixer ← PYAAudioMixerApi_nativeMixer _nativeMixer w;
  w ← (if nativeMixer =? 0 then Ret w else
       '(am, h) ← cppRef nativeMixer w;
       '(data, _) ← buffer_at _buffer w;
       block ← block_at data w;
       '(size, out, am, h) ← Mix fuel am h (lenZ (bytes_at block));
       block ← store_bytes block out;
       let w := ns_set nativeMixer (PYAAudioMixerApi am h) (set_block data block w) in
       PYAAudioBuffer_setSize _buffer size w);
  objc_retain _buffer w.

Definition PYAAudioMixer_addRecordedData self ssrc (data : list Z) (size : Z) w
    : outcome (Z * ios) :=
  '(_nativeMixer, _buffer) ← mixer_members self w;
  nativeMixer ← PYAAudioMixerApi_nativeMixer _nativeMixer w;
  w ← (if nativeMixer =? 0 then Ret w else
       '(am, h) ← cppRef nativeMixer w;
       h ← AddRecordedData am h ssrc (bytes_samples data) size;
       Ret (ns_set nativeMixer (PYAAudioMixerApi am h) w));
  objc_retain _buffer w.
End ios_library.

(** ** Clients *)

(** What a client can do: make objects, send messages, and keep or give up
    strong references. *)
Inductive ios_call : Type :=
| IosInit (config : MixerConfig) (answer : Z * list Z)
| IosCreate (config : MixerConfig)
| IosUpdateVolume (id ssrc : Z) (volume : f32)
| IosAddSource (id : Z) (source : MixerSource)
| IosRemoveSource (id ssrc : Z)
| IosMix (id : Z)
| IosAddRecordedData (id ssrc : Z) (data : list Z) (size : Z)
| IosSetSize (id size : Z)
| IosRetain (id : Z)
| IosRelease (id : Z).

Section ios_clients.
Context `{FFmpegSpec, !FifoReliable, !StableChannels, !SampleMemory}.
Context `{BuildConfig, AudioFrameLaws, WebRtcMixerLaws}.
Context (max_channels : Z) (fuel : nat).
Implicit Types (w : ios) (o : ns_object) (id p ssrc : Z) (c : ios_call)
  (am : AudioMixer) (h : heap) (held : gmultiset Z) (f : Z → nat).

Definition ios_run c w : outcome (Z * ios) :=
  match c with
  | IosInit config answer => PYAAudioMixer_initWithConfig fuel config answer w
  | IosCreate config => PYAAudioMixerApi_create fuel config w
  | IosUpdateVolume id ssrc volume => PYAAudioMixer_updateVolume id ssrc volume w
  | IosAddSource id source => PYAAudioMixer_addSource fuel id source w
  | IosRemoveSource id ssrc => PYAAudioMixer_removeSource id ssrc w
  | IosMix id => PYAAudioMixer_mix fuel id w
  | IosAddRecordedData id ssrc data size =>
      PYAAudioMixer_addRecordedData id ssrc data size w
  | IosSetSize id size => w ← PYAAudioBuffer_setSize id size w; Ret (0, w)
  | IosRetain id => objc_retain id w
  | IosRelease id => w ← objc_release id w; Ret (0, w)
  end.

(** The strong references of the client after a call with the result [r]. *)
Definition held_after c (r : Z) held : gmultiset Z :=
  match c with
  | IosInit _ _ | IosCreate _ | IosMix _ | IosAddRecordedData _ _ _ _
  | IosRetain _ => held ⊎ {[+ r +]}
  | IosRelease id => held ∖ {[+ id +]}
  | IosUpdateVolume _ _ _ | IosAddSource _ _ | IosRemoveSource _ _
  | IosSetSize _ _ => held
  end.

(** The proxy that serves an object. *)
Definition served_by id w api : Prop :=
  ∃ n, (∃ b, ns_objects w !! id = Some (PYAAudioMixer api b, n))
       ∨ api = id ∧ ∃ am h, ns_objects w !! id = Some (PYAAudioMixerApi am h, n).
Definition mixer_at id w (api buffer : Z) : Prop :=
  ∃ n, ns_objects w !! id = Some (PYAAudioMixer api buffer, n).
Definition op_fits api w (op : mixer_op) : Prop :=
  ∀ am h n, ns_objects w !! api = Some (PYAAudioMixerApi am h, n) → op_ok am h op.

(** How a client must use the library: it uses objects it has references of,
    mixers as a C++ client does; [malloc] answers with a new block, or fails,
    and then [mix] is not called. *)
Definition call_ok held w c : Prop :=
  match c with
  | IosInit config answer =>
      config_ok max_channels fuel config ∧ malloc_ok MAX_BUF_SIZE answer w
  | IosCreate config => config_ok max_channels fuel config
  | IosUpdateVolume id ssrc volume =>
      id ∈ held ∧ ∃ api, served_by id w api ∧ op_fits api w (OpUpdateVolume ssrc volume)
  | IosAddSource id source =>
      id ∈ held ∧ ∃ api, served_by id w api ∧ op_fits api w (OpAddSource source)
  | IosRemoveSource id ssrc =>
      id ∈ held ∧ ∃ api, served_by id w api ∧ op_fits api w (OpRemoveSource ssrc)
  | IosMix id =>
      id ∈ held ∧ ∃ api buffer data size n, mixer_at id w api buffer
        ∧ ns_objects w !! buffer = Some (PYAAudioBuffer data size, n) ∧ data ≠ 0
  | IosAddRecordedData id ssrc data size =>
      id ∈ held ∧ ∃ api buffer, mixer_at id w api buffer
        ∧ op_fits api w (OpAddRecordedData ssrc (bytes_samples data) size)
  | IosSetSize id _ =>
      id ∈ held ∧ ∃ data size n,
        ns_objects w !! id = Some (PYAAudioBuffer data size, n)
  | IosRetain id | IosRelease id => id ∈ held
  end.

Inductive ios_reachable : gmultiset Z → ios → Prop :=
| ios_start : ios_reachable ∅ ios_empty
| ios_step held w c r w' :
    ios_reachable held w → call_ok held w c → ios_run c w = Ret (r, w') →
    ios_reachable (held_after c r held) w'.

(** ** Invariant *)

(** An object of each class, and what its members refer to: a mixer is made
    together with the two objects it owns. *)
Definition is_mixer (m : gmap Z (ns_object * nat)) id : bool :=
  match m !! id with Some (PYAAudioMixer _ _, _) => true | _ => false end.
Definition member_refs (m : gmap Z (ns_object * nat)) id : nat :=
  (Nat.b2n (is_mixer m (id - 1)) + Nat.b2n (is_mixer m (id - 2)))%nat.

Definition is_api o : Prop := match o with PYAAudioMixerApi _ _ => True | _ => False end.
Definition is_buffer o : Prop := match o with PYAAudioBuffer _ _ => True | _ => False end.

(** An object of the map [m] at [id]. *)
Definition ns_object_ok (m : gmap Z (ns_object * nat)) (b : gmap Z (list Z)) id o
    : Prop :=
  match o with
  | PYAAudioMixer api buffer =>
      api = id + 1 ∧ buffer = id + 2
      ∧ (∀ o n, m !! api = Some (o, n) → is_api o)
      ∧ (∀ o n, m !! buffer = Some (o, n) → is_buffer o)
  | PYAAudioMixerApi am h =>
      am_inv max_channels fuel am h
      ∧ library_ok max_channels fuel (frame_duration_ms_ am)
  | PYAAudioBuffer data _ =>
      data = 0 ∨ ∃ l, b !! data = Some l ∧ lenZ l = MAX_BUF_SIZE
  end.

Record ios_ok w : Prop := {
  ids_used id x : ns_objects w !! id = Some x → 0 < id < next_id w;
  ids_positive : 0 < next_id w;
  objects_ok id o n :
    ns_objects w !! id = Some (o, n) → ns_object_ok (ns_objects w) (blocks w) id o;
  block_not_null : blocks w !! 0 = None;
  block_owner p l :
    blocks w !! p = Some l →
    ∃ id size n, ns_objects w !! id = Some (PYAAudioBuffer p size, n);
  block_owner_unique p id1 id2 s1 s2 n1 n2 :
    p ≠ 0 → ns_objects w !! id1 = Some (PYAAudioBuffer p s1, n1) →
    ns_objects w !! id2 = Some (PYAAudioBuffer p s2, n2) → id1 = id2;
  destroyed_empty :
    Forall (λ '(x, h), registered x = [] ∧ objects h = ∅) (destroyed w)
}.

(** [f] counts the strong references to each object. *)
Definition counted w f : Prop :=
  ∀ id, match ns_objects w !! id with
        | Some (_, n) => n = f id ∧ (0 < n)%nat
        | None => f id = 0%nat
        end.
Definition refs held w id : nat :=
  (multiplicity id held + member_refs (ns_objects w) id)%nat.
Definition ios_inv held w : Prop := ios_ok w ∧ counted w (refs held w).
End ios_clients.

Section ios_proofs.
Context `{FFmpegSpec, !FifoReliable, !StableChannels, !SampleMemory}.
Context `{BuildConfig, AudioFrameLaws, WebRtcMixerLaws}.
Context (max_channels : Z) (fuel : nat).
Implicit Types (w : ios) (o : ns_object) (id p ssrc : Z) (c : ios_call)
  (am : AudioMixer) (h : heap) (held : gmultiset Z) (f : Z → nat)
  (m : gmap Z (ns_object * nat)).
Hypothesis channels_range : ∀ x, 0 < ctx_channels x ≤ max_channels.
Hypothesis address_space : alloc_limit < 2 ^ 63.
Notation ios_ok := (ios_ok max_channels fuel).
Notation ns_object_ok := (ns_object_ok max_channels fuel).
Notation ios_inv := (ios_inv max_channels fuel).

(** ** Objects change their members, not their class *)

Definition same_shape o o' : Prop :=
  match o, o' with
  | PYAAudioMixer a b, PYAAudioMixer a' b' => a = a' ∧ b = b'
  | PYAAudioMixerApi _ _, PYAAudioMixerApi _ _ => True
  | PYAAudioBuffer p _, PYAAudioBuffer p' _ => p = p'
  | _, _ => False
  end.

Lemma ns_shape_refl o : same_shape o o.
Proof. by destruct o. Qed.

Lemma same_shape_api o o' : same_shape o o' → is_api o → is_api o'.
Proof. by destruct o, o'. Qed.
Lemma same_shape_buffer o o' : same_shape o o' → is_buffer o → is_buffer o'.
Proof. by destruct o, o'. Qed.

Lemma is_mixer_insert m id o0 n0 o n :
  m !! id = Some (o0, n0) → same_shape o0 o →
  ∀ x, is_mixer (<[id := (o, n)]> m) x = is_mixer m x.
Proof.
  intros Hm Hs x. unfold is_mixer. destruct (decide (id = x)) as [<-|].
  - rewrite lookup_insert_eq, Hm. by destruct o0, o.
  - by rewrite lookup_insert_ne.
Qed.

Lemma object_ok_insert m b id o0 n0 o n x ox :
  m !! id = Some (o0, n0) → same_shape o0 o →
  ns_object_ok m b x ox → ns_object_ok (<[id := (o, n)]> m) b x ox.
Proof.
  intros Hm Hs. destruct ox as [api buffer|am h|p s]; cbn; [|done..].
  intros (Ha & Hb & Hapi & Hbuf). split_and!; [done..| |].
  - intros o' n'. rewrite lookup_insert_Some. intros [[<- [= <- <-]]|[_ ?]].
    + by eapply same_shape_api, Hapi.
    + by eapply Hapi.
  - intros o' n'. rewrite lookup_insert_Some. intros [[<- [= <- <-]]|[_ ?]].
    + by eapply same_shape_buffer, Hbuf.
    + by eapply Hbuf.
Qed.

(** An object is replaced by one of the same shape. *)
Lemma insert_ok w id o0 n0 o n :
  ios_ok w → ns_objects w !! id = Some (o0, n0) → same_shape o0 o →
  ns_object_ok (ns_objects w) (blocks w) id o →
  ios_ok (set_objects w (<[id := (o, n)]> (ns_objects w))).
Proof.
  intros [Hids Hpos Hok Hnull Hown Huniq Hdest] Hid Hs Ho.
  assert (∀ x p s k, <[id := (o, n)]> (ns_objects w) !! x = Some (PYAAudioBuffer p s, k) →
    ∃ s k, ns_objects w !! x = Some (PYAAudioBuffer p s, k)) as Hback.
  { intros x p s k. rewrite lookup_insert_Some. intros [[<- [= -> ->]]|[_ ?]]; [|eauto].
    destruct o0; [done..|]. cbn in Hs. subst. eauto. }
  split; cbn; try done.
  - intros x y. rewrite lookup_insert_Some. intros [[<- _]|[_ Hx]]; eauto.
  - intros x ox k. rewrite lookup_insert_Some. intros [[<- [= <- <-]]|[_ Hx]].
    + by eapply object_ok_insert.
    + eapply object_ok_insert; eauto.
  - intros p l Hp. destruct (Hown _ _ Hp) as (x & s & k & Hx).
    destruct (decide (id = x)) as [<-|Hne].
    + rewrite Hid in Hx. injection Hx as -> ->. destruct o as [| |p' s']; [done..|].
      cbn in Hs. subst p'. exists id, s', n. apply lookup_insert_eq.
    + exists x, s, k. by rewrite lookup_insert_ne.
  - intros p x y s1 s2 k1 k2 Hp Hx Hy.
    apply Hback in Hx as (? & ? & Hx), Hy as (? & ? & Hy). eauto.
Qed.

(** A block is written, and keeps its length. *)
Lemma set_block_ok w p l l' :
  ios_ok w → blocks w !! p = Some l → lenZ l' = lenZ l →
  ios_ok (set_block p (Some l') w).
Proof.
  intros [Hids Hpos Hok Hnull Hown Huniq Hdest] Hp Hl. split; cbn; try done.
  - intros x o n Hx. specialize (Hok _ _ _ Hx). destruct o as [| |q s]; [done..|].
    cbn in *. destruct Hok as [->|(k & Hk & Hlen)]; [by left|right].
    destruct (decide (p = q)) as [<-|].
    + exists l'. rewrite lookup_insert_eq. split; [done|].
      rewrite Hp in Hk. injection Hk as <-. lia.
    + exists k. by rewrite lookup_insert_ne.
  - rewrite lookup_insert_ne; [done|]. intros ->. congruence.
  - intros q k. rewrite lookup_insert_Some. intros [[<- _]|[_ Hq]]; eauto.
Qed.

(** ** Reference counts *)

Lemma counted_lookup w f id :
  counted w f → (0 < f id)%nat → ∃ o, ns_objects w !! id = Some (o, f id).
Proof.
  intros Hc Hf. specialize (Hc id). destruct (ns_objects w !! id) as [[o n]|]; [|lia].
  destruct Hc as [-> _]. by exists o.
Qed.

Lemma counted_insert w f f' id o :
  counted w f → (0 < f' id)%nat → (∀ x, x ≠ id → f' x = f x) →
  counted (set_objects w (<[id := (o, f' id)]> (ns_objects w))) f'.
Proof.
  intros Hc Hpos Hf x. cbn. destruct (decide (id = x)) as [<-|Hne].
  - by rewrite lookup_insert_eq.
  - rewrite lookup_insert_ne, Hf by done. apply Hc.
Qed.

Lemma counted_delete w f f' id :
  counted w f → f' id = 0%nat → (∀ x, x ≠ id → f' x = f x) →
  counted (set_objects w (delete id (ns_objects w))) f'.
Proof.
  intros Hc Hz Hf x. cbn. destruct (decide (id = x)) as [<-|Hne].
  - by rewrite lookup_delete_eq.
  - rewrite lookup_delete_ne, Hf by done. apply Hc.
Qed.

Lemma counted_ext w f f' : (∀ x, f x = f' x) → counted w f → counted w f'.
Proof. intros Hf Hc x. rewrite <- Hf. apply Hc. Qed.

(** The members of mixers are all that counts besides the client. *)
Lemma member_refs_ext m m' :
  (∀ x, is_mixer m x = is_mixer m' x) → ∀ id, member_refs m id = member_refs m' id.
Proof. intros Hm id. unfold member_refs. by rewrite !Hm. Qed.

Lemma refs_same held w w' :
  (∀ x, is_mixer (ns_objects w) x = is_mixer (ns_objects w') x) →
  ∀ id, refs held w id = refs held w' id.
Proof. intros Hm id. unfold refs. by rewrite (member_refs_ext _ _ Hm). Qed.

(** Replacing an object in place keeps the invariant. *)
Lemma ns_set_inv held w id o0 n0 o :
  ios_inv held w → ns_objects w !! id = Some (o0, n0) → same_shape o0 o →
  ns_object_ok (ns_objects w) (blocks w) id o → ios_inv held (ns_set id o w).
Proof.
  intros [Hok Hc] Hid Hs Ho. unfold ns_set. rewrite Hid.
  assert (∀ x, is_mixer (<[id := (o, n0)]> (ns_objects w)) x = is_mixer (ns_objects w) x)
    as Hm by by eapply is_mixer_insert.
  split; [by eapply insert_ok|].
  pose proof (Hc id) as Hn. rewrite Hid in Hn. destruct Hn as [-> Hn].
  apply (counted_ext _ (refs held w)); [by apply refs_same; intros; rewrite Hm|].
  by apply counted_insert with (f := refs held w).
Qed.

Lemma ns_set_eq id o0 n0 o w :
  ns_objects w !! id = Some (o0, n0) →
  ns_set id o w = set_objects w (<[id := (o, n0)]> (ns_objects w)).
Proof. intros Hid. unfold ns_set. by rewrite Hid. Qed.

Lemma held_lookup held w id :
  ios_inv held w → id ∈ held → ∃ o, ns_objects w !! id = Some (o, refs held w id).
Proof.
  intros [Hok Hc] Hid. apply counted_lookup; [done|].
  change (0 < multiplicity id held)%nat in Hid. unfold refs. lia.
Qed.

Lemma held_positive held w id : ios_inv held w → id ∈ held → id ≠ 0.
Proof.
  intros Hinv Hid. destruct (held_lookup _ _ _ Hinv Hid) as [o Ho].
  destruct Hinv as [Hok _]. apply (ids_used _ _ _ Hok) in Ho. lia.
Qed.

(** The objects a mixer owns exist. *)
Lemma mixer_members_exist held w id api buffer n :
  ios_inv held w → ns_objects w !! id = Some (PYAAudioMixer api buffer, n) →
  api = id + 1 ∧ buffer = id + 2 ∧ 0 < id
  ∧ (∃ am h, ns_objects w !! api = Some (PYAAudioMixerApi am h, refs held w api))
  ∧ (∃ p s, ns_objects w !! buffer = Some (PYAAudioBuffer p s, refs held w buffer)).
Proof.
  intros [Hok Hc] Hid.
  destruct (objects_ok _ _ _ Hok _ _ _ Hid) as (-> & -> & Ha & Hb).
  pose proof (ids_used _ _ _ Hok _ _ Hid) as Hpos.
  assert (is_mixer (ns_objects w) id = true) as Hm by (unfold is_mixer; by rewrite Hid).
  destruct (counted_lookup w _ (id + 1) Hc) as [oa Hoa].
  { unfold refs, member_refs. replace (id + 1 - 1) with id by lia. rewrite Hm. cbn. lia. }
  destruct (counted_lookup w _ (id + 2) Hc) as [ob Hob].
  { unfold refs, member_refs. replace (id + 2 - 2) with id by lia. rewrite Hm. cbn. lia. }
  specialize (Ha _ _ Hoa). specialize (Hb _ _ Hob).
  split_and!; [done|done|lia| |].
  - destruct oa; [done| |done]. eauto.
  - destruct ob; [done..|]. eauto.
Qed.

(** ** Retain and release *)

Lemma retain_inv held w id :
  ios_inv held w → (0 < refs held w id)%nat →
  wp (objc_retain id w) (λ '(r, w'), r = id ∧ ios_inv (held ⊎ {[+ id +]}) w'
    ∧ blocks w' = blocks w
    ∧ ∀ x, fst <$> ns_objects w' !! x = fst <$> ns_objects w !! x).
Proof.
  intros [Hok Hc] Hr. destruct (counted_lookup _ _ _ Hc Hr) as [o Ho].
  pose proof (ids_used _ _ _ Hok _ _ Ho) as Hid. unfold objc_retain, ns_object_at.
  rewrite (proj2 (Z.eqb_neq id 0)), Ho by lia. cbn. split_and!; [done| |done|].
  - pose proof (ns_shape_refl o) as Hs. split.
    { eapply insert_ok; [done..|]. by eapply objects_ok. }
    set (w' := set_objects _ _).
    assert (∀ x, refs (held ⊎ {[+ id +]}) w' x
      = (refs held w x + if decide (x = id) then 1 else 0)%nat) as Hrefs.
    { intros x. unfold refs. rewrite (member_refs_ext _ (ns_objects w)).
      - rewrite multiplicity_disj_union. case_decide as Hx.
        + subst x. rewrite multiplicity_singleton_eq. lia.
        + rewrite multiplicity_singleton_ne by done. lia.
      - by apply (is_mixer_insert _ _ _ _ _ _ Ho). }
    set (F := refs (held ⊎ {[+ id +]}) w') in *.
    assert (F id = S (refs held w id)) as HF by (rewrite Hrefs, decide_True by done; lia).
    unfold w'. rewrite <- HF. apply counted_insert with (f := refs held w); [done|lia|].
    intros x Hx. rewrite Hrefs, decide_False by done. lia.
  - intros x. destruct (decide (id = x)) as [<-|].
    + by rewrite lookup_insert_eq, Ho.
    + by rewrite lookup_insert_ne.
Qed.

(** The counts after a reference to [id] is given up. *)
Definition less f id : Z → nat := λ x, if decide (x = id) then Nat.pred (f x) else f x.

Lemma less_eq f id : less f id id = Nat.pred (f id).
Proof. unfold less. by rewrite decide_True. Qed.
Lemma less_ne f id x : x ≠ id → less f id x = f x.
Proof. intros. unfold less. by rewrite decide_False. Qed.

Lemma counted_less w f id o :
  counted w f → ns_objects w !! id = Some (o, f id) → (1 < f id)%nat →
  counted (set_objects w (<[id := (o, Nat.pred (f id))]> (ns_objects w))) (less f id).
Proof.
  intros Hc Hid Hf. rewrite <- less_eq. apply counted_insert with (f := f); [done| |].
  - rewrite less_eq. lia.
  - intros. by apply less_ne.
Qed.

Lemma counted_gone w f id :
  counted w f → f id = 1%nat →
  counted (set_objects w (delete id (ns_objects w))) (less f id).
Proof.
  intros Hc Hf. apply counted_delete with (f := f); [done| |].
  - by rewrite less_eq, Hf.
  - intros. by apply less_ne.
Qed.

(** An object that is not a buffer goes away. *)
Lemma delete_ok w id o n :
  ios_ok w → ns_objects w !! id = Some (o, n) → ¬ is_buffer o →
  ios_ok (set_objects w (delete id (ns_objects w))).
Proof.
  intros [Hids Hpos Hok Hnull Hown Huniq Hdest] Hid Hbuf. split; cbn; try done.
  - intros x y. rewrite lookup_delete_Some. intros [_ ?]; eauto.
  - intros x ox k. rewrite lookup_delete_Some. intros [Hne Hx].
    specialize (Hok _ _ _ Hx). destruct ox as [a b| |]; [|done..].
    destruct Hok as (-> & -> & Ha & Hb). split_and!; [done..| |];
      intros o' n'; rewrite lookup_delete_Some; intros [_ ?]; eauto.
  - intros p l Hp. destruct (Hown _ _ Hp) as (x & s & k & Hx). exists x, s, k.
    rewrite lookup_delete_ne; [done|]. intros <-. rewrite Hid in Hx.
    injection Hx as -> _. by apply Hbuf.
  - intros p x y s1 s2 n1 n2 Hp. rewrite !lookup_delete_Some. naive_solver.
Qed.

(** A buffer goes away with its block. *)
Lemma delete_buffer_ok w id p s n :
  ios_ok w → ns_objects w !! id = Some (PYAAudioBuffer p s, n) →
  wp (PYAAudioBuffer_dealloc p (set_objects w (delete id (ns_objects w)))) (λ w',
    ios_ok w' ∧ ns_objects w' = delete id (ns_objects w)).
Proof.
  intros [Hids Hpos Hok Hnull Hown Huniq Hdest] Hid.
  pose proof (Hok _ _ _ Hid) as Hblock. cbn in Hblock.
  assert (∀ x ox k (b : gmap Z (list Z)), delete id (ns_objects w) !! x = Some (ox, k) →
    (∀ q t, ox = PYAAudioBuffer q t → q ≠ 0 → b !! q = blocks w !! q) →
    ns_object_ok (delete id (ns_objects w)) b x ox) as Hkeep.
  { intros x ox k b. rewrite lookup_delete_Some. intros [Hne Hx] Hb.
    specialize (Hok _ _ _ Hx). destruct ox as [a a'| |q t]; [|done|].
    - destruct Hok as (-> & -> & Ha & Hb'). split_and!; [done..| |];
        intros o' n'; rewrite lookup_delete_Some; intros [_ ?]; eauto.
    - cbn in *. destruct (decide (q = 0)) as [|Hq]; [by left|right].
      destruct Hok as [|Hok]; [done|]. by erewrite Hb. }
  unfold PYAAudioBuffer_dealloc, free. cbn.
  destruct (Z.eqb_spec p 0) as [->|Hp]; cbn.
  - split; [|done]. split; cbn; try done.
    + intros x y. rewrite lookup_delete_Some. intros [_ ?]; eauto.
    + intros x ox k Hx. by eapply Hkeep.
    + intros q l Hq. destruct (Hown _ _ Hq) as (x & t & k & Hx). exists x, t, k.
      rewrite lookup_delete_ne; [done|]. intros <-. rewrite Hid in Hx.
      injection Hx as <- _ _. congruence.
    + intros q x y s1 s2 n1 n2 Hq. rewrite !lookup_delete_Some. naive_solver.
  - destruct Hblock as [|(l & Hl & _)]; [done|]. rewrite Hl. cbn. split; [|done].
    split; cbn; try done.
    + intros x y. rewrite lookup_delete_Some. intros [_ ?]; eauto.
    + intros x ox k Hx. eapply Hkeep; [done|]. intros q t -> Hq.
      rewrite lookup_delete_ne; [done|]. intros <-.
      rewrite lookup_delete_Some in Hx. destruct Hx as [Hne Hx]. eauto.
    + rewrite lookup_delete_ne by congruence. done.
    + intros q l' Hq. rewrite lookup_delete_Some in Hq. destruct Hq as [Hne Hq].
      destruct (Hown _ _ Hq) as (x & t & k & Hx). exists x, t, k.
      rewrite lookup_delete_ne; [done|]. intros <-. rewrite Hid in Hx. naive_solver.
    + intros q x y s1 s2 n1 n2 Hq. rewrite !lookup_delete_Some. naive_solver.
Qed.

(** The C++ mixer is deleted with its proxy, and leaves nothing. *)
Lemma add_destroyed_ok w am h :
  ios_ok w → am_inv max_channels fuel am h →
  ios_ok (add_destroyed w (AudioMixer_delete am h)).
Proof.
  intros [Hids Hpos Hok Hnull Hown Huniq Hdest] Hinv. split; cbn; try done.
  constructor; [|done]. destruct (AudioMixer_delete am h) as [x h'] eqn:Hdel.
  replace x with (AudioMixer_delete am h).1 by by rewrite Hdel.
  replace h' with (AudioMixer_delete am h).2 by by rewrite Hdel.
  by eapply AudioMixer_delete_spec.
Qed.

(** Giving up a reference to an object without members. *)
Lemma release_leaf depth w f id o :
  ios_ok w → counted w f → ns_objects w !! id = Some (o, f id) →
  is_api o ∨ is_buffer o →
  wp (release_chain (S depth) id w) (λ w', ios_ok w' ∧ counted w' (less f id)
    ∧ (∀ x, is_mixer (ns_objects w') x = is_mixer (ns_objects w) x)
    ∧ ∀ x o n, ns_objects w' !! x = Some (o, n) →
        ∃ n', ns_objects w !! x = Some (o, n')).
Proof.
  intros Hok Hc Hid Hleaf. pose proof (ids_used _ _ _ Hok _ _ Hid) as Hpos.
  pose proof (Hc id) as Hn. rewrite Hid in Hn. destruct Hn as [_ Hn].
  assert (∀ x, is_mixer (delete id (ns_objects w)) x = is_mixer (ns_objects w) x) as Hm.
  { intros x. unfold is_mixer. destruct (decide (id = x)) as [<-|].
    - rewrite lookup_delete_eq, Hid. destruct Hleaf; by destruct o.
    - by rewrite lookup_delete_ne. }
  cbn [release_chain]. unfold ns_object_at.
  rewrite (proj2 (Z.eqb_neq id 0)), Hid by lia. cbn [mbind outcome_bind].
  destruct (Nat.ltb_spec 1 (f id)) as [Hgt|Hle].
  - apply wp_Ret. split_and!; [|by apply counted_less| |].
    + eapply insert_ok; [done..|apply ns_shape_refl|by eapply objects_ok].
    + apply (is_mixer_insert _ _ _ _ _ _ Hid). apply ns_shape_refl.
    + intros x o' n. cbn. rewrite lookup_insert_Some. naive_solver.
  - pose proof (counted_gone w f id Hc ltac:(lia)) as Hgone.
    assert (∀ x o' n, delete id (ns_objects w) !! x = Some (o', n) →
      ∃ n', ns_objects w !! x = Some (o', n')) as Hsub.
    { intros x o' n. rewrite lookup_delete_Some. naive_solver. }
    destruct o as [|am h|p s]; [by destruct Hleaf| |].
    + apply wp_Ret. split_and!; [|done..].
      pose proof (delete_ok w id _ _ Hok Hid ltac:(naive_solver)) as Hok'.
      destruct (objects_ok _ _ _ Hok _ _ _ Hid) as [Hinv _].
      by apply add_destroyed_ok.
    + eapply wp_mono; [|by eapply delete_buffer_ok]. intros w' [Hok' Hobj].
      rewrite Hobj. split_and!; [done| |done..]. intros x. rewrite Hobj. apply Hgone.
Qed.

Lemma held_less held id x :
  id ∈ held →
  multiplicity x (held ∖ {[+ id +]}) = less (λ y, multiplicity y held) id x.
Proof.
  intros Hid. rewrite multiplicity_difference. unfold less.
  case_decide as Hx; [subst x; rewrite multiplicity_singleton_eq
                     |rewrite multiplicity_singleton_ne by done]; lia.
Qed.

Lemma refs_less held w w' id :
  id ∈ held → (∀ x, is_mixer (ns_objects w') x = is_mixer (ns_objects w) x) →
  ∀ x, less (refs held w) id x = refs (held ∖ {[+ id +]}) w' x.
Proof.
  intros Hid Hm x. unfold refs. rewrite held_less, (member_refs_ext _ (ns_objects w)) by done.
  unfold less. case_decide as Hx; [subst x|done].
  change (0 < multiplicity id held)%nat in Hid. lia.
Qed.

(** A mixer gives up its two members after it is gone itself. *)
Lemma release_mixer_members held w id api buffer :
  ios_inv held w → id ∈ held → refs held w id = 1%nat →
  ns_objects w !! id = Some (PYAAudioMixer api buffer, 1%nat) →
  wp (w ← release_chain 1 api (set_objects w (delete id (ns_objects w)));
      release_chain 1 buffer w) (λ w', ios_inv (held ∖ {[+ id +]}) w').
Proof.
  intros Hinv Hheld H1' Hid. pose proof Hinv as [Hok Hc].
  destruct (mixer_members_exist _ _ _ _ _ _ Hinv Hid)
    as (-> & -> & Hpos & (am & h & Ha) & (p & s & Hb)).
  pose proof (delete_ok w id _ _ Hok Hid ltac:(cbn; tauto)) as Hok1.
  pose proof (counted_gone _ _ _ Hc H1') as Hc1.
  set (w1 := set_objects w _) in *. set (f1 := less (refs held w) id) in *.
  assert (∀ x, is_mixer (ns_objects w1) x
    = if decide (x = id) then false else is_mixer (ns_objects w) x) as Hm1.
  { intros x. unfold is_mixer, w1. cbn. case_decide as Hx.
    - subst x. by rewrite lookup_delete_eq.
    - by rewrite lookup_delete_ne. }
  apply wp_bind. eapply wp_mono; [|apply (release_leaf 0 w1 f1 (id + 1) (PYAAudioMixerApi am h));
    [done|done| |by left]].
  2: { unfold w1, f1. cbn. rewrite lookup_delete_ne, less_ne by lia. done. }
  intros w2 (Hok2 & Hc2 & Hm2 & Hsub).
  assert (less f1 (id + 1) (id + 2) = refs held w (id + 2)) as Hn2.
  { unfold f1. by rewrite !less_ne by lia. }
  assert (is_mixer (ns_objects w) id = true) as Hmid by (unfold is_mixer; by rewrite Hid).
  destruct (counted_lookup _ _ (id + 2) Hc2) as [o2 Ho2].
  { rewrite Hn2. unfold refs, member_refs. replace (id + 2 - 2) with id by lia.
    rewrite Hmid. cbn. lia. }
  assert (is_buffer o2) as Hbuf.
  { destruct (Hsub _ _ _ Ho2) as [n' Hn']. unfold w1 in Hn'. cbn in Hn'.
    rewrite lookup_delete_ne, Hb in Hn' by lia. by injection Hn' as <- _. }
  eapply wp_mono; [|apply (release_leaf 0 w2 _ (id + 2) o2 Hok2 Hc2 Ho2); by right].
  intros w3 (Hok3 & Hc3 & Hm3 & _). split; [done|]. eapply counted_ext; [|done].
  intros x. unfold f1. change (0 < multiplicity id held)%nat in Hheld.
  unfold refs at 2. rewrite held_less by done. unfold member_refs.
  rewrite !Hm3, !Hm2, !Hm1. unfold less, refs, member_refs.
  repeat case_decide; try lia.
  - replace (x - 2) with id by lia. rewrite Hmid. cbn. lia.
  - replace (x - 1) with id by lia. rewrite Hmid. cbn. lia.
  - subst x. lia.
Qed.

Lemma release_inv held w id :
  ios_inv held w → id ∈ held →
  wp (objc_release id w) (λ w', ios_inv (held ∖ {[+ id +]}) w').
Proof.
  intros Hinv Hheld. pose proof Hinv as [Hok Hc].
  destruct (held_lookup _ _ _ Hinv Hheld) as [o Ho].
  pose proof (held_positive _ _ _ Hinv Hheld) as Hpos.
  assert (0 < refs held w id)%nat as Hr by (pose proof (Hc id) as Hn; rewrite Ho in Hn; lia).
  assert (is_api o ∨ is_buffer o → wp (objc_release id w)
    (λ w', ios_inv (held ∖ {[+ id +]}) w')) as Hleaf.
  { intros Hl. eapply wp_mono; [|by apply (release_leaf 1 w _ id o Hok Hc Ho)].
    intros w' (Hok' & Hc' & Hm & _). split; [done|].
    eapply counted_ext; [|done]. by apply refs_less. }
  destruct o as [api buffer|am h|p s]; [|by apply Hleaf; left|by apply Hleaf; right].
  unfold objc_release. cbn [release_chain]. unfold ns_object_at.
  rewrite (proj2 (Z.eqb_neq id 0)), Ho by lia. cbn [mbind outcome_bind].
  destruct (Nat.ltb_spec 1 (refs held w id)) as [Hgt|Hle].
  - apply wp_Ret. split.
    + eapply insert_ok; [done..|apply ns_shape_refl|by eapply objects_ok].
    + eapply counted_ext; [|by apply counted_less]. apply refs_less; [done|].
      apply (is_mixer_insert _ _ _ _ _ _ Ho). apply ns_shape_refl.
  - apply (release_mixer_members _ _ _ _ _ Hinv Hheld); [lia|].
    rewrite Ho. do 2 f_equal. lia.
Qed.

Lemma is_mixer_true m id :
  is_mixer m id = true → ∃ a b n, m !! id = Some (PYAAudioMixer a b, n).
Proof. unfold is_mixer. destruct (m !! id) as [[[a b| |] n]|]; naive_solver. Qed.

(** No object owns a mixer. *)
Lemma mixer_not_member w id :
  ios_ok w → is_mixer (ns_objects w) id = true → member_refs (ns_objects w) id = 0%nat.
Proof.
  intros Hok (a & b & n & Hid)%is_mixer_true. unfold member_refs.
  destruct (is_mixer (ns_objects w) (id - 1)) eqn:Hm1.
  { apply is_mixer_true in Hm1 as (a1 & b1 & n1 & Ho).
    destruct (objects_ok _ _ _ Hok _ _ _ Ho) as (-> & _ & Hapi & _).
    replace (id - 1 + 1) with id in Hapi by lia. by specialize (Hapi _ _ Hid). }
  destruct (is_mixer (ns_objects w) (id - 2)) eqn:Hm2; [|done].
  apply is_mixer_true in Hm2 as (a2 & b2 & n2 & Ho).
  destruct (objects_ok _ _ _ Hok _ _ _ Ho) as (_ & -> & _ & Hbuf).
  replace (id - 2 + 2) with id in Hbuf by lia. by specialize (Hbuf _ _ Hid).
Qed.

(** With no references of the client left, nothing exists. *)
Lemma nothing_left w : ios_inv ∅ w → ns_objects w = ∅ ∧ blocks w = ∅.
Proof.
  intros [Hok Hc].
  assert (∀ id, refs ∅ w id = member_refs (ns_objects w) id) as Hrefs.
  { intros id. unfold refs. by rewrite multiplicity_empty. }
  assert (∀ id, is_mixer (ns_objects w) id = false) as Hno.
  { intros id. destruct (is_mixer (ns_objects w) id) eqn:Hm; [|done].
    pose proof (mixer_not_member _ _ Hok Hm) as Hz.
    apply is_mixer_true in Hm as (a & b & n & Hid).
    pose proof (Hc id) as Hn. rewrite Hid, Hrefs in Hn. lia. }
  assert (ns_objects w = ∅) as Hempty.
  { apply map_eq. intros id. rewrite lookup_empty.
    destruct (ns_objects w !! id) as [[o n]|] eqn:Ho; [|done].
    pose proof (Hc id) as Hn. rewrite Ho, Hrefs in Hn. unfold member_refs in Hn.
    rewrite !Hno in Hn. cbn in Hn. lia. }
  split; [done|]. apply map_eq. intros p. rewrite lookup_empty.
  destruct (blocks w !! p) as [l|] eqn:Hp; [|done].
  destruct (block_owner _ _ _ Hok _ _ Hp) as (id & s & n & Hid).
  by rewrite Hempty, lookup_empty in Hid.
Qed.

(** ** New objects *)

(** What the objects of [w] need is not touched by new ones. *)
Lemma mixer_below held w id a b n :
  ios_inv held w → ns_objects w !! id = Some (PYAAudioMixer a b, n) →
  id + 2 < next_id w.
Proof.
  intros Hinv Hid.
  destruct (mixer_members_exist _ _ _ _ _ _ Hinv Hid) as (-> & -> & _ & _ & p & s & Hb).
  destruct Hinv as [Hok _]. by apply (ids_used _ _ _ Hok) in Hb as [_ ?].
Qed.

Lemma held_below held w id :
  ios_inv held w → next_id w ≤ id → multiplicity id held = 0%nat.
Proof.
  intros [Hok Hc] Hid. pose proof (Hc id) as Hn. unfold refs in Hn.
  destruct (ns_objects w !! id) eqn:Ho; [|lia].
  apply (ids_used _ _ _ Hok) in Ho. lia.
Qed.

Lemma old_object_ok held w m b x o n :
  ios_inv held w → (∀ y, y < next_id w → m !! y = ns_objects w !! y) →
  blocks w ⊆ b → ns_objects w !! x = Some (o, n) → ns_object_ok m b x o.
Proof.
  intros Hinv Hold Hsub Hx. pose proof Hinv as [Hok _].
  pose proof (objects_ok _ _ _ Hok _ _ _ Hx) as Ho. destruct o as [a a'|am h|p s].
  - pose proof (mixer_below _ _ _ _ _ _ Hinv Hx). destruct Ho as (-> & -> & Ha & Hb).
    split_and!; [done..| |]; intros o' n'; rewrite Hold by lia; eauto.
  - done.
  - cbn in *. destruct Ho as [|(l & Hl & Hlen)]; [by left|right].
    exists l. split; [|done]. by eapply lookup_weaken.
Qed.

Section new_objects.
Context held w (m : gmap Z (ns_object * nat)) (b : gmap Z (list Z)) (next : Z).
Hypothesis Hinv : ios_inv held w.
Hypothesis Hnext : next_id w < next.
Hypothesis m_old : ∀ x, x < next_id w → m !! x = ns_objects w !! x.
Hypothesis m_below : ∀ x y, m !! x = Some y → x < next.
Hypothesis m_ok : ∀ x o n, next_id w ≤ x → m !! x = Some (o, n) → ns_object_ok m b x o.
Hypothesis m_counted : ∀ x, next_id w ≤ x →
  match m !! x with
  | Some (_, n) => n = ((if decide (x = next_id w) then 1 else 0) + member_refs m x)%nat
                   ∧ (0 < n)%nat
  | None => x ≠ next_id w ∧ member_refs m x = 0%nat
  end.
Hypothesis b_old : blocks w ⊆ b.
Hypothesis b_null : b !! 0 = None.
Hypothesis b_owner : ∀ p l, b !! p = Some l →
  blocks w !! p = Some l ∨ ∃ s n, m !! (next_id w + 2) = Some (PYAAudioBuffer p s, n).
Hypothesis b_fresh : ∀ p x s n, p ≠ 0 → next_id w ≤ x →
  m !! x = Some (PYAAudioBuffer p s, n) → blocks w !! p = None ∧ x = next_id w + 2.

Lemma member_refs_old x : x < next_id w → member_refs m x = member_refs (ns_objects w) x.
Proof.
  intros Hx. unfold member_refs, is_mixer. by rewrite !m_old by lia.
Qed.

Lemma old_or_new x o n :
  m !! x = Some (o, n) → ns_objects w !! x = Some (o, n) ∨ next_id w ≤ x.
Proof.
  intros Hx. destruct (Z.lt_ge_cases x (next_id w)) as [Hlt|]; [|by right].
  left. by rewrite <- m_old.
Qed.

(** New objects, the first of which the client refers to. *)
Lemma new_objects_inv :
  ios_inv (held ⊎ {[+ next_id w +]}) (MkIos m next b (destroyed w)).
Proof.
  pose proof Hinv as [[Hids Hpos Hok Hnull Hown Huniq Hdest] Hc].
  assert (∀ p x s n, p ≠ 0 → ns_objects w !! x = Some (PYAAudioBuffer p s, n) →
    is_Some (blocks w !! p)) as Hlive.
  { intros p x s n Hp Hx. destruct (Hok _ _ _ Hx) as [|(l & Hl & _)]; eauto; done. }
  split; [split; cbn; try done; try lia|].
  - intros x y Hx. split; [|by eapply m_below]. destruct y as [o n].
    destruct (old_or_new _ _ _ Hx) as [Hx'|]; [|lia]. by apply Hids in Hx' as [? _].
  - intros x o n Hx. destruct (old_or_new _ _ _ Hx) as [Hx'|]; [|by eapply m_ok].
    by eapply old_object_ok.
  - intros p l Hp. destruct (b_owner _ _ Hp) as [Hp'|(s & n & Hx)]; [|eauto].
    destruct (Hown _ _ Hp') as (x & s & n & Hx). exists x, s, n.
    rewrite m_old; [done|]. by apply Hids in Hx as [_ ?].
  - intros p x y s1 s2 n1 n2 Hp Hx Hy.
    destruct (old_or_new _ _ _ Hx) as [Hx'|Hx'], (old_or_new _ _ _ Hy) as [Hy'|Hy']; eauto.
    + destruct (b_fresh _ _ _ _ Hp Hy' Hy) as [Hf _].
      destruct (Hlive _ _ _ _ Hp Hx') as [l Hl]. congruence.
    + destruct (b_fresh _ _ _ _ Hp Hx' Hx) as [Hf _].
      destruct (Hlive _ _ _ _ Hp Hy') as [l Hl]. congruence.
    + destruct (b_fresh _ _ _ _ Hp Hx' Hx) as [_ ->]. by destruct (b_fresh _ _ _ _ Hp Hy' Hy).
  - intros x. cbn. unfold refs. cbn. rewrite multiplicity_disj_union, multiplicity_singleton.
    destruct (Z.lt_ge_cases x (next_id w)) as [Hlt|Hge].
    + rewrite m_old, member_refs_old, decide_False by lia. rewrite Nat.add_0_r. apply Hc.
    + pose proof (m_counted x Hge) as Hx. rewrite (held_below _ _ _ Hinv Hge).
      destruct (m !! x) as [[o n]|]; [done|]. destruct Hx as [Hne ->].
      by rewrite decide_False.
Qed.
End new_objects.

Ltac look := repeat first [rewrite lookup_insert_eq | rewrite lookup_insert_ne by lia].

(** [PYAAudioMixerApi create:] *)
Lemma create_inv held w config :
  ios_inv held w → config_ok max_channels fuel config →
  wpa (PYAAudioMixerApi_create fuel config w) (λ '(r, w'),
    ios_inv (held ⊎ {[+ r +]}) w').
Proof.
  intros Hinv (Hp & Hlib & Hsrc).
  pose proof (AudioMixer_new_spec _ channels_range address_space _ config Hp Hlib Hsrc)
    as Hnew. unfold PYAAudioMixerApi_create.
  destruct (AudioMixer_new fuel config) as [[am h]| | |]; [|done..].
  destruct Hnew as (Ham & _ & _ & _ & Hms). cbn.
  apply new_objects_inv; [done|lia|intros; by look| | | |done| |auto|].
  - intros x y. rewrite lookup_insert_Some. intros [[<- _]|[_ Hx]]; [lia|].
    destruct Hinv as [Hok _]. apply (ids_used _ _ _ Hok) in Hx. lia.
  - intros x o n Hx Hl. rewrite lookup_insert_Some in Hl.
    destruct Hl as [[<- [= <- <-]]|[_ Ho]]; [by rewrite <- Hms in Hlib|].
    destruct Hinv as [Hok _]. apply (ids_used _ _ _ Hok) in Ho. lia.
  - intros x Hx.
    assert (∀ y, is_mixer (<[next_id w := (PYAAudioMixerApi am h, 1%nat)]> (ns_objects w)) y
      = true → y + 2 < next_id w) as Hm.
    { intros y (a & b & n & Hy)%is_mixer_true. rewrite lookup_insert_Some in Hy.
      destruct Hy as [[_ [=]]|[_ Hy]]. by eapply mixer_below. }
    unfold member_refs.
    destruct (is_mixer _ (x - 1)) eqn:H1'; [apply Hm in H1'; lia|].
    destruct (is_mixer _ (x - 2)) eqn:H2'; [apply Hm in H2'; lia|]. cbn.
    destruct (decide (x = next_id w)) as [->|Hne].
    + rewrite lookup_insert_eq. cbn. lia.
    + rewrite lookup_insert_ne by done.
      destruct (ns_objects w !! x) eqn:Ho; [|done].
      destruct Hinv as [Hok _]. apply (ids_used _ _ _ Hok) in Ho. lia.
  - destruct Hinv as [Hok _]. apply (block_not_null _ _ _ Hok).
  - intros p x s n _ Hx. rewrite lookup_insert_Some. intros [[_ [=]]|[_ Ho]].
    destruct Hinv as [Hok _]. apply (ids_used _ _ _ Hok) in Ho. lia.
Qed.

(** The three objects of a new mixer. *)
Definition mixer_objects m (s p : Z) am h : gmap Z (ns_object * nat) :=
  <[s := (PYAAudioMixer (s + 1) (s + 2), 1%nat)]>
    (<[s + 1 := (PYAAudioMixerApi am h, 1%nat)]>
      (<[s + 2 := (PYAAudioBuffer p 0, 1%nat)]> m)).

Lemma initWithConfig_eq config p junk w :
  PYAAudioMixer_initWithConfig fuel config (p, junk) w
  = '(am, h) ← AudioMixer_new fuel config;
    Ret (next_id w,
         MkIos (mixer_objects (ns_objects w) (next_id w) p am h) (next_id w + 3)
           (if p =? 0 then blocks w else <[p := junk]> (blocks w)) (destroyed w)).
Proof.
  unfold PYAAudioMixer_initWithConfig, PYAAudioMixerApi_create, ns_alloc.
  destruct (AudioMixer_new fuel config) as [[am h]| | |]; [|done..].
  cbn [mbind outcome_bind ns_objects next_id].
  set (s := next_id w).
  rewrite (ns_set_eq s (PYAAudioMixer 0 0) 1) by (cbn; by look).
  unfold PYAAudioBuffer_init, malloc.
  destruct (Z.eqb_spec p 0) as [->|Hp]; cbn -[ns_set];
    (rewrite (ns_set_eq s (PYAAudioMixer (s + 1) 0) 1) by (cbn; by look));
    unfold set_objects, mixer_objects; cbn;
    replace (s + 1 + 1) with (s + 2) by lia; replace (s + 2 + 1) with (s + 3) by lia;
    do 3 f_equal; apply map_eq; intros x;
    (destruct (decide (x = s)) as [->|]; [by look|]);
    (destruct (decide (x = s + 1)) as [->|]; [by look|]);
    (destruct (decide (x = s + 2)) as [->|]; by look).
Qed.

Lemma mixer_objects_lookup m s p am h x :
  mixer_objects m s p am h !! x =
    if decide (x = s) then Some (PYAAudioMixer (s + 1) (s + 2), 1%nat)
    else if decide (x = s + 1) then Some (PYAAudioMixerApi am h, 1%nat)
    else if decide (x = s + 2) then Some (PYAAudioBuffer p 0, 1%nat)
    else m !! x.
Proof. unfold mixer_objects. repeat case_decide; subst; by look. Qed.

Lemma mixer_objects_is_mixer held w p am h x :
  ios_inv held w → is_mixer (mixer_objects (ns_objects w) (next_id w) p am h) x = true →
  x = next_id w ∨ x + 2 < next_id w.
Proof.
  intros Hinv (a & b & n & Hx)%is_mixer_true. rewrite mixer_objects_lookup in Hx.
  repeat case_decide; try done; [by left|]. right. by eapply mixer_below.
Qed.

Lemma mixer_objects_members held w p am h x :
  ios_inv held w → next_id w ≤ x →
  member_refs (mixer_objects (ns_objects w) (next_id w) p am h) x
    = if decide (x = next_id w + 1 ∨ x = next_id w + 2) then 1%nat else 0%nat.
Proof.
  intros Hinv Hx. unfold member_refs. set (s := next_id w) in *.
  set (m := mixer_objects _ _ _ _ _).
  assert (∀ y, s - 2 ≤ y → is_mixer m y = bool_decide (y = s)) as Hm.
  { intros y Hy. case_bool_decide as Hys.
    - subst y. unfold is_mixer, m. by rewrite mixer_objects_lookup, decide_True.
    - destruct (is_mixer m y) eqn:Hy'; [|done].
      destruct (mixer_objects_is_mixer _ _ _ _ _ _ Hinv Hy'); lia. }
  rewrite !Hm by lia. repeat case_bool_decide; case_decide; cbn; lia.
Qed.

(** [initWithConfig] *)
Lemma init_inv held w config answer :
  ios_inv held w → config_ok max_channels fuel config → malloc_ok MAX_BUF_SIZE answer w →
  wpa (PYAAudioMixer_initWithConfig fuel config answer w) (λ '(r, w'),
    ios_inv (held ⊎ {[+ r +]}) w').
Proof.
  intros Hinv (Hp & Hlib & Hsrc) Hm. destruct answer as [p junk].
  pose proof (AudioMixer_new_spec _ channels_range address_space _ config Hp Hlib Hsrc)
    as Hnew. rewrite initWithConfig_eq.
  destruct (AudioMixer_new fuel config) as [[am h]| | |]; [|done..].
  destruct Hnew as (Ham & _ & _ & _ & Hms). cbn [mbind outcome_bind wpa].
  pose proof Hinv as [Hok _]. set (s := next_id w).
  assert (p = 0 ∨ p ≠ 0 ∧ blocks w !! p = None ∧ lenZ junk = MAX_BUF_SIZE) as Hp0.
  { cbn in Hm. destruct (decide (p = 0)); [by left|right; naive_solver]. }
  apply new_objects_inv; fold s; [done|lia| | | | | | | |].
  - intros x Hx. rewrite mixer_objects_lookup. repeat case_decide; try lia; done.
  - intros x y. rewrite mixer_objects_lookup. repeat case_decide; try lia.
    intros Hx. apply (ids_used _ _ _ Hok) in Hx. lia.
  - intros x o n Hx. rewrite mixer_objects_lookup. repeat case_decide.
    + intros [= <- <-]. subst x. split_and!; [done..| |];
        intros o n'; rewrite mixer_objects_lookup;
        repeat case_decide; try lia; by intros [= <- _].
    + intros [= <- <-]. by rewrite <- Hms in Hlib.
    + intros [= <- <-]. cbn. destruct Hp0 as [->|(Hp0 & _ & Hlen)]; [by left|right].
      exists junk. rewrite (proj2 (Z.eqb_neq p 0)), lookup_insert_eq by done. done.
    + intros Ho. apply (ids_used _ _ _ Hok) in Ho. lia.
  - intros x Hx. rewrite mixer_objects_lookup, (mixer_objects_members held) by done.
    fold s. repeat case_decide; try lia.
    destruct (ns_objects w !! x) eqn:Ho; [|done].
    apply (ids_used _ _ _ Hok) in Ho. lia.
  - case_match; [done|]. apply insert_subseteq. naive_solver.
  - destruct (Z.eqb_spec p 0); [by apply (block_not_null _ _ _ Hok)|].
    rewrite lookup_insert_ne by lia. by apply (block_not_null _ _ _ Hok).
  - intros q l Hq. destruct (Z.eqb_spec p 0); [by left|].
    rewrite lookup_insert_Some in Hq. destruct Hq as [[<- _]|[_ Hq]]; [right|by left].
    exists 0, 1%nat. rewrite mixer_objects_lookup. repeat case_decide; try lia; done.
  - intros q x t n Hq Hx. rewrite mixer_objects_lookup. repeat case_decide; try done.
    + intros [= <- <- <-]. naive_solver.
    + intros Ho. apply (ids_used _ _ _ Hok) in Ho. lia.
Qed.

(** ** Messages *)

Lemma ns_object_at_ok held w id o n :
  ios_inv held w → ns_objects w !! id = Some (o, n) → ns_object_at id w = Ret (o, n).
Proof. intros _ Hid. unfold ns_object_at. by rewrite Hid. Qed.

Lemma served_ok held w id api :
  ios_inv held w → served_by id w api →
  receiver id w = Ret api
  ∧ ∃ am h n, ns_objects w !! api = Some (PYAAudioMixerApi am h, n).
Proof.
  intros Hinv [n [[b Hid]|(-> & am & h & Hid)]]; unfold receiver, ns_object_at; rewrite Hid.
  - destruct (mixer_members_exist _ _ _ _ _ _ Hinv Hid) as (_ & _ & _ & (am & h & Ha) & _).
    split; [done|eauto].
  - split; [done|eauto].
Qed.

(** The C++ mixer makes a step. *)
Lemma api_step held w api am h n op :
  ios_inv held w → ns_objects w !! api = Some (PYAAudioMixerApi am h, n) →
  op_ok am h op →
  wpa (mixer_step fuel am h op) (λ '(am', h'),
    ios_inv held (ns_set api (PYAAudioMixerApi am' h') w)).
Proof.
  intros Hinv Hapi Hop. pose proof Hinv as [Hok _].
  destruct (objects_ok _ _ _ Hok _ _ _ Hapi) as [Ham Hlib].
  eapply wpa_mono; [|by apply (mixer_step_spec max_channels fuel channels_range)].
  intros [am' h'] [Ham' (_ & _ & Hms)]. eapply ns_set_inv; [done..|].
  cbn. by rewrite Hms.
Qed.

Lemma updateVolume_inv held w id ssrc volume api :
  ios_inv held w → served_by id w api → op_fits api w (OpUpdateVolume ssrc volume) →
  wpa (PYAAudioMixer_updateVolume id ssrc volume w) (λ '(r, w'), ios_inv held w').
Proof.
  intros Hinv Hs Hop. destruct (served_ok _ _ _ _ Hinv Hs) as (Hr & am & h & n & Ha).
  pose proof (api_step _ _ _ _ _ _ _ Hinv Ha (Hop _ _ _ Ha)) as Hstep.
  unfold PYAAudioMixer_updateVolume, PYAAudioMixerApi_updateVolume, cppRef, ns_object_at.
  rewrite Hr. cbn [mbind outcome_bind]. rewrite Ha. cbn in *.
  by destruct (am_UpdateVolume _ _ _ _).
Qed.

Lemma addSource_inv held w id source api :
  ios_inv held w → served_by id w api → op_fits api w (OpAddSource source) →
  wpa (PYAAudioMixer_addSource fuel id source w) (λ '(r, w'), ios_inv held w').
Proof.
  intros Hinv Hs Hop. destruct (served_ok _ _ _ _ Hinv Hs) as (Hr & am & h & n & Ha).
  pose proof (api_step _ _ _ _ _ _ _ Hinv Ha (Hop _ _ _ Ha)) as Hstep.
  unfold PYAAudioMixer_addSource, PYAAudioMixerApi_addSource, cppRef, ns_object_at.
  rewrite Hr. cbn [mbind outcome_bind]. rewrite Ha. cbn in *.
  by destruct (AddSource _ _ _ _) as [[[b am'] h']| | |].
Qed.

Lemma removeSource_inv held w id ssrc api :
  ios_inv held w → served_by id w api → op_fits api w (OpRemoveSource ssrc) →
  wpa (PYAAudioMixer_removeSource id ssrc w) (λ '(r, w'), ios_inv held w').
Proof.
  intros Hinv Hs Hop. destruct (served_ok _ _ _ _ Hinv Hs) as (Hr & am & h & n & Ha).
  pose proof (api_step _ _ _ _ _ _ _ Hinv Ha (Hop _ _ _ Ha)) as Hstep.
  unfold PYAAudioMixer_removeSource, PYAAudioMixerApi_removeSource, cppRef, ns_object_at.
  rewrite Hr. cbn [mbind outcome_bind]. rewrite Ha. cbn in *.
  by destruct (RemoveSource _ _ _) as [[b am'] h'].
Qed.

(** The objects behind a mixer, as its messages see them. *)
Lemma mixer_at_ok held w id api buffer :
  ios_inv held w → mixer_at id w api buffer →
  mixer_members id w = Ret (api, buffer) ∧ api ≠ buffer
  ∧ PYAAudioMixerApi_nativeMixer api w = Ret api ∧ 0 < api
  ∧ (∃ am h n, ns_objects w !! api = Some (PYAAudioMixerApi am h, n)
       ∧ cppRef api w = Ret (am, h))
  ∧ (∃ data size n, ns_objects w !! buffer = Some (PYAAudioBuffer data size, n)
       ∧ buffer_at buffer w = Ret (data, size))
  ∧ (0 < refs held w buffer)%nat.
Proof.
  intros Hinv [n Hid].
  destruct (mixer_members_exist _ _ _ _ _ _ Hinv Hid)
    as (Ha & Hb & Hpos & (am & h & Hapi) & (p & s & Hbuf)).
  unfold mixer_members, PYAAudioMixerApi_nativeMixer, cppRef, buffer_at, ns_object_at.
  rewrite Hid, Hapi, Hbuf, (proj2 (Z.eqb_neq api 0)) by lia. cbn.
  split_and!; try done; [lia|lia|eauto|eauto|].
  destruct Hinv as [_ Hc]. pose proof (Hc buffer) as Hn. rewrite Hbuf in Hn. lia.
Qed.

Lemma addRecordedData_inv held w id ssrc data size api buffer :
  ios_inv held w → mixer_at id w api buffer →
  op_fits api w (OpAddRecordedData ssrc (bytes_samples data) size) →
  wpa (PYAAudioMixer_addRecordedData id ssrc data size w) (λ '(r, w'),
    r = buffer ∧ ios_inv (held ⊎ {[+ r +]}) w').
Proof.
  intros Hinv Hm Hop. destruct (mixer_at_ok _ _ _ _ _ Hinv Hm)
    as (Hmem & Hne & Hnat & Hpos & (am & h & n & Ha & Href) & _ & _).
  pose proof (api_step _ _ _ _ _ _ _ Hinv Ha (Hop _ _ _ Ha)) as Hstep.
  unfold PYAAudioMixer_addRecordedData. rewrite Hmem. cbn [mbind outcome_bind].
  rewrite Hnat. cbn [mbind outcome_bind]. rewrite (proj2 (Z.eqb_neq api 0)), Href by lia.
  cbn in *. destruct (AddRecordedData _ _ _ _ _) as [h'| | |]; [|done..]. cbn in *.
  assert (mixer_at id (ns_set api (PYAAudioMixerApi am h') w) api buffer) as Hm'.
  { destruct Hm as [k Hk]. exists k. rewrite (ns_set_eq _ _ _ _ _ Ha). cbn.
    rewrite lookup_insert_ne; [done|]. intros ->. congruence. }
  destruct (mixer_at_ok _ _ _ _ _ Hstep Hm') as (_ & _ & _ & _ & _ & _ & Hrefs).
  apply wp_wpa. eapply wp_mono; [|by apply retain_inv]. by intros [r w'] (-> & ? & _).
Qed.

(** What [mix] leaves: the buffer it returns has the size of the mix, and its
    block begins with the mix. *)
Definition ios_mixed id w (r : Z) w' : Prop :=
  ∃ api am h n am' h' n' data k l,
    mixer_at id w api r
    ∧ ns_objects w !! api = Some (PYAAudioMixerApi am h, n)
    ∧ ns_objects w' !! api = Some (PYAAudioMixerApi am' h', n')
    ∧ ns_objects w' !! r = Some (PYAAudioBuffer data (mixed_bytes am), k)
    ∧ blocks w !! data = Some l
    ∧ blocks w' !! data
      = Some (samples_bytes (takeZ (output_channel_num_ am * real_output_samples_ am)
                               (frame_data (mixed_frame_ am')))
              ++ dropZ (mixed_bytes am) l).

Lemma set_block_inv held w p l l' :
  ios_inv held w → blocks w !! p = Some l → lenZ l' = lenZ l →
  ios_inv held (set_block p (Some l') w).
Proof. intros [Hok Hc] Hp Hl. split; [by eapply set_block_ok|done]. Qed.

(** [_buffer.size = ..] *)
Lemma setSize_inv held w id data size size' n :
  ios_inv held w → ns_objects w !! id = Some (PYAAudioBuffer data size, n) →
  PYAAudioBuffer_setSize id size' w = Ret (ns_set id (PYAAudioBuffer data size') w)
  ∧ ios_inv held (ns_set id (PYAAudioBuffer data size') w).
Proof.
  intros Hinv Hid. unfold PYAAudioBuffer_setSize, buffer_at, ns_object_at.
  rewrite Hid. split; [done|]. eapply ns_set_inv; [done..|].
  destruct Hinv as [Hok _]. by apply (objects_ok _ _ _ Hok _ _ _ Hid).
Qed.

(** The state after the stores of [mix]. *)
Lemma mix_stores held w api am am' h h' n buffer data size size' k l out :
  ios_inv held w → ns_objects w !! api = Some (PYAAudioMixerApi am h, n) →
  ns_objects w !! buffer = Some (PYAAudioBuffer data size, k) → api ≠ buffer →
  blocks w !! data = Some l → lenZ out ≤ lenZ l →
  am_inv max_channels fuel am' h' → library_ok max_channels fuel (frame_duration_ms_ am') →
  let l' := out ++ dropZ (lenZ out) l in
  ∃ w', PYAAudioBuffer_setSize buffer size'
          (ns_set api (PYAAudioMixerApi am' h') (set_block data (Some l') w)) = Ret w'
    ∧ ios_inv held w' ∧ blocks w' !! data = Some l'
    ∧ ns_objects w' !! api = Some (PYAAudioMixerApi am' h', n)
    ∧ ns_objects w' !! buffer = Some (PYAAudioBuffer data size', k)
    ∧ ∀ x, x ≠ api → x ≠ buffer → ns_objects w' !! x = ns_objects w !! x.
Proof.
  intros Hinv Hapi Hbuf Hne Hdata Hle Ham' Hlib' l'.
  assert (ios_inv held (set_block data (Some l') w)) as Hinv1.
  { eapply set_block_inv; [done..|]. unfold l'. solve_len. }
  set (w1 := set_block data (Some l') w) in *.
  assert (ios_inv held (ns_set api (PYAAudioMixerApi am' h') w1)) as Hinv2.
  { eapply ns_set_inv; [done|exact Hapi|done|done]. }
  rewrite (ns_set_eq api (PYAAudioMixerApi am h) n) in * by done.
  set (w2 := set_objects w1 _) in *.
  assert (ns_objects w2 !! buffer = Some (PYAAudioBuffer data size, k)) as Hbuf2.
  { cbn. by rewrite lookup_insert_ne. }
  destruct (setSize_inv held w2 buffer data size size' k Hinv2 Hbuf2) as [-> Hinv3].
  eexists. split_and!; [done|done|..]; rewrite (ns_set_eq _ _ _ _ _ Hbuf2); cbn.
  - by rewrite lookup_insert_eq.
  - rewrite lookup_insert_ne by done. by rewrite lookup_insert_eq.
  - by rewrite lookup_insert_eq.
  - intros x Hxa Hxb. by rewrite !lookup_insert_ne.
Qed.

Lemma fst_lookup m x o : fst <$> m !! x = Some o → ∃ n, m !! x = Some (o, n).
Proof. destruct (m !! x) as [[o' n]|]; naive_solver. Qed.

Lemma mix_inv held w id api buffer data size n :
  ios_inv held w → mixer_at id w api buffer →
  ns_objects w !! buffer = Some (PYAAudioBuffer data size, n) → data ≠ 0 →
  wpa (PYAAudioMixer_mix fuel id w) (λ '(r, w'),
    ios_inv (held ⊎ {[+ r +]}) w' ∧ ios_mixed id w r w').
Proof.
  intros Hinv Hm Hbuf Hdata. pose proof Hinv as [Hok _].
  destruct (mixer_at_ok _ _ _ _ _ Hinv Hm)
    as (Hmem & Hne & Hnat & Hpos & (am & h & na & Ha & Href)
        & (data' & size' & nb & Hbuf' & Hat) & Hrefs).
  rewrite Hbuf in Hbuf'. injection Hbuf' as <- <- <-.
  destruct (objects_ok _ _ _ Hok _ _ _ Ha) as [Ham Hlib].
  destruct (objects_ok _ _ _ Hok _ _ _ Hbuf) as [|(l & Hl & Hlen)]; [done|].
  unfold PYAAudioMixer_mix. rewrite Hmem. cbn [mbind outcome_bind].
  rewrite Hnat. cbn [mbind outcome_bind]. rewrite (proj2 (Z.eqb_neq api 0)), Href by lia.
  cbn [mbind outcome_bind]. rewrite Hat. cbn [mbind outcome_bind].
  unfold block_at. rewrite (proj2 (Z.eqb_neq data 0)), Hl by done.
  cbn [mbind outcome_bind].
  change (bytes_at (Some l)) with l.
  pose proof (mix_bytes max_channels fuel channels_range am h (lenZ l) Ham ltac:(lia)) as Hmix.
  destruct (Mix fuel am h (lenZ l)) as [[[[sz out] am'] h']| | |] eqn:Hrun; [|done..].
  destruct Hmix as (Ham' & -> & Hout & Heq). cbn [mbind outcome_bind].
  pose proof (room_enough max_channels fuel am h Ham) as Hroom.
  assert (library_ok max_channels fuel (frame_duration_ms_ am')) as Hlib'.
  { apply Mix_params in Hrun as (_ & _ & Hms). by rewrite Hms. }
  unfold store_bytes, overwrite. rewrite (proj2 (Z.leb_le _ _)) by lia.
  cbn [mbind outcome_bind].
  destruct (mix_stores held w api am am' h h' na buffer data size (mixed_bytes am) n l out
    Hinv Ha Hbuf Hne Hl ltac:(lia) Ham' Hlib')
    as (w' & -> & Hinv' & Hl' & Ha' & Hb' & Hx').
  cbn [mbind outcome_bind].
  assert (mixer_at id w' api buffer) as Hm'.
  { destruct Hm as [k Hk]. exists k.
    rewrite Hx'; [done|intros ->; congruence|intros ->; congruence]. }
  destruct (mixer_at_ok _ _ _ _ _ Hinv' Hm') as (_ & _ & _ & _ & _ & _ & Hrefs').
  apply wp_wpa. eapply wp_mono; [|by apply retain_inv].
  intros [r w2] (-> & Hinv2 & Hb2 & Ho2). split; [done|].
  pose proof (Ho2 api) as Ha2. rewrite Ha' in Ha2. apply fst_lookup in Ha2 as [n2 Ha2].
  pose proof (Ho2 buffer) as Hbuf2. rewrite Hb' in Hbuf2.
  apply fst_lookup in Hbuf2 as [k2 Hbuf2].
  exists api, am, h, na, am', h', n2, data, k2, l. split_and!; try done.
  by rewrite Hb2, Hl', Hout, Heq.
Qed.

(** ** Sessions *)

Lemma call_inv held w c :
  ios_inv held w → call_ok max_channels fuel held w c →
  wpa (ios_run fuel c w) (λ '(r, w'), ios_inv (held_after c r held) w').
Proof.
  intros Hinv Hc.
  destruct c as [config answer|config|id ssrc v|id source|id ssrc|id|id ssrc data size
    |id size|id|id]; cbn in *.
  - destruct Hc. by apply init_inv.
  - by apply create_inv.
  - destruct Hc as (_ & api & Hs & Hop). by eapply updateVolume_inv.
  - destruct Hc as (_ & api & Hs & Hop). by eapply addSource_inv.
  - destruct Hc as (_ & api & Hs & Hop). by eapply removeSource_inv.
  - destruct Hc as (_ & api & b & data & size & n & Hm & Hb & Hd).
    eapply wpa_mono; [|by eapply mix_inv]. by intros [r w'] [? _].
  - destruct Hc as (_ & api & b & Hm & Hop).
    eapply wpa_mono; [|by eapply addRecordedData_inv]. by intros [r w'] [_ ?].
  - destruct Hc as (_ & data & size0 & n & Hb).
    by destruct (setSize_inv _ _ _ _ _ size _ Hinv Hb) as [-> ?].
  - destruct (held_lookup _ _ _ Hinv Hc) as [o Ho]. apply wp_wpa.
    eapply wp_mono; [|apply (retain_inv held w id Hinv)]; [by intros [r w'] (-> & ? & _)|].
    change (0 < multiplicity id held)%nat in Hc. unfold refs. lia.
  - apply wpa_bind, wp_wpa. eapply wp_mono; [|by apply release_inv]. done.
Qed.

Lemma ios_empty_inv : ios_inv ∅ ios_empty.
Proof.
  split; [split; cbn; try done; intros *; by rewrite ?lookup_empty|].
  intros id. cbn. rewrite lookup_empty. unfold refs, member_refs, is_mixer. cbn.
  by rewrite multiplicity_empty, !lookup_empty.
Qed.

Lemma ios_reachable_inv held w :
  ios_reachable max_channels fuel held w → ios_inv held w.
Proof.
  induction 1 as [|held w c r w' _ IH Hok Hrun]; [apply ios_empty_inv|].
  pose proof (call_inv _ _ _ IH Hok) as Hc. by rewrite Hrun in Hc.
Qed.

(** [malloc] can fail, and [mix] writes without a look at what it answered. *)
Lemma mix_into_null held w id api buffer size n r w' :
  ios_inv held w → mixer_at id w api buffer →
  ns_objects w !! buffer = Some (PYAAudioBuffer 0 size, n) →
  PYAAudioMixer_mix fuel id w ≠ Ret (r, w').
Proof.
  intros Hinv Hm Hbuf. pose proof Hinv as [Hok _].
  destruct (mixer_at_ok _ _ _ _ _ Hinv Hm)
    as (Hmem & _ & Hnat & Hpos & (am & h & na & Ha & Href)
        & (data & size' & nb & Hbuf' & Hat) & _).
  rewrite Hbuf in Hbuf'. injection Hbuf' as <- <- <-.
  destruct (objects_ok _ _ _ Hok _ _ _ Ha) as [Ham _].
  destruct (mixed_bytes_bound _ _ _ _ Ham) as [Hb Hsize].
  unfold PYAAudioMixer_mix. rewrite Hmem. cbn [mbind outcome_bind].
  rewrite Hnat. cbn [mbind outcome_bind]. rewrite (proj2 (Z.eqb_neq api 0)), Href by lia.
  cbn [mbind outcome_bind]. rewrite Hat. cbn [mbind outcome_bind block_at Z.eqb].
  change (lenZ (bytes_at None)) with 0. unfold Mix.
  destruct (mixer_Mix _ _ _ _ _) as [[[f x] h']| | |]; [|done..]. cbn [mbind outcome_bind].
  cbn [am_set_mixer output_channel_num_ real_output_samples_]. rewrite Hsize.
  unfold mixed_bytes in *.
  rewrite to_size_t_small by (unfold_i32; unfold kMaxDataSizeSamples in *; lia).
  rewrite (proj2 (Z.leb_gt _ 0)) by lia. by rewrite andb_false_r.
Qed.

(** C9: The mixers of an iOS application are safe: in every state reached by a
    client that keeps the rules of [call_ok], every object it holds a reference
    of exists, every further call that keeps them is free of undefined
    behaviour and terminates, unless a failed check or allocation or an
    unexpected error of FFmpeg stops the process, and [mix] returns the buffer
    of the mixer, with one frame of the mix in it.  The rules: only objects the
    client holds a reference of are used, configurations are valid, only free
    SSRCs are added, record sources only with frames of 10 ms, recorded data is
    never addressed to a file source and is as long as its size says, and [mix]
    is called only if [malloc] gave the mixer its buffer (see
    [mix_into_null]). *)
Theorem ios_mixer_safe held w :
  ios_reachable max_channels fuel held w →
  ios_inv held w
  ∧ (∀ id, id ∈ held → is_Some (ns_objects w !! id))
  ∧ (∀ c, call_ok max_channels fuel held w c →
      wpa (ios_run fuel c w) (λ '(r, w'), ios_inv (held_after c r held) w'))
  ∧ (∀ id, call_ok max_channels fuel held w (IosMix id) →
      wpa (PYAAudioMixer_mix fuel id w) (λ '(r, w'), ios_mixed id w r w')).
Proof.
  intros Hinv%ios_reachable_inv. split_and!; [done| |by intros; apply call_inv|].
  - intros id Hid. destruct (held_lookup _ _ _ Hinv Hid) as [o ->]. eauto.
  - intros id (_ & api & b & data & size & n & Hm & Hb & Hd).
    eapply wpa_mono; [|by eapply mix_inv]. by intros [r w'] [_ ?].
Qed.

(** C18: Reference counting leaves nothing behind: when a client of the iOS
    library has given up all its references, in whatever order, all objects are
    deallocated and their blocks are freed, and each C++ mixer was deleted with
    all its sources, which its WebRTC mixer no longer refers to. *)
Theorem ios_no_leaks w :
  ios_reachable max_channels fuel ∅ w →
  ns_objects w = ∅ ∧ blocks w = ∅
  ∧ Forall (λ '(x, h), registered x = [] ∧ objects h = ∅) (destroyed w).
Proof.
  intros Hinv%ios_reachable_inv. destruct (nothing_left _ Hinv) as [Ho Hb].
  destruct Hinv as [Hok _]. split_and!; [done|done|by destruct Hok].
Qed.
End ios_proofs.

(** ** Example *)

#[local] Existing Instances demo_ffmpeg demo_spec demo_reliable demo_stable.
#[local] Existing Instances DebugBuild ReferenceFrameApi ReferenceFrameLaws.
#[local] Existing Instances ReferenceMixer ReferenceMixerLaws.
#[local] Instance ios_memory : SampleMemory :=
  reference_memory demo_file AV_SAMPLE_FMT_S16 8000 1 2.

(** A mixer is made, and given up. *)
Definition ios_answer : Z * list Z := (4096, replicate 7680 0).

Lemma ios_created :
  wp (PYAAudioMixer_initWithConfig 10 demo_config ios_answer ios_empty)
    (λ '(r, w), r = 1 ∧ wp (objc_release 1 w) (λ _, True)).
Proof. vm_compute. by split. Qed.

Lemma ios_created_ok :
  call_ok 1 10 ∅ ios_empty (IosInit demo_config ios_answer).
Proof.
  split; [exact demo_config_ok|]. right. split; [done|]. vm_compute. reflexivity.
Qed.

Lemma ios_mixer_safe_witness :
  ∃ w, ios_reachable 1 10 {[+ 1 +]} w
    ∧ ios_inv 1 10 {[+ 1 +]} w
    ∧ (∀ id, id ∈ ({[+ 1 +]} : gmultiset Z) → is_Some (ns_objects w !! id))
    ∧ (∀ c, call_ok 1 10 {[+ 1 +]} w c →
        wpa (ios_run 10 c w) (λ '(r, w'), ios_inv 1 10 (held_after c r {[+ 1 +]}) w'))
    ∧ (∀ id, call_ok 1 10 {[+ 1 +]} w (IosMix id) →
        wpa (PYAAudioMixer_mix 10 id w) (λ '(r, w'), ios_mixed id w r w')).
Proof.
  destruct (proj1 (wp_exists _ _) ios_created) as ([r w] & Hnew & -> & _).
  pose proof (ios_step 1 10 ∅ ios_empty _ 1 w (ios_start 1 10) ios_created_ok Hnew) as Hr.
  exists w. split; [exact Hr|].
  exact (ios_mixer_safe 1 10 demo_range ltac:(done) {[+ 1 +]} w Hr).
Defined.

Lemma ios_no_leaks_witness :
  ∃ w, ios_reachable 1 10 ∅ w
    ∧ ns_objects w = ∅ ∧ blocks w = ∅
    ∧ Forall (λ '(x, h), registered x = [] ∧ objects h = ∅) (destroyed w).
Proof.
  destruct (proj1 (wp_exists _ _) ios_created) as ([r w] & Hnew & -> & Hrel).
  destruct (proj1 (wp_exists _ _) Hrel) as (w' & Hrel' & _).
  pose proof (ios_step 1 10 ∅ ios_empty _ 1 w (ios_start 1 10) ios_created_ok Hnew) as Hr.
  assert (ios_run 10 (IosRelease 1) w = Ret (0, w')) as Hrun
    by (unfold ios_run; by rewrite Hrel').
  pose proof (ios_step 1 10 {[+ 1 +]} w (IosRelease 1) 0 w' Hr
    ltac:(by apply gmultiset_elem_of_singleton) Hrun) as Hr'.
  exists w'. split; [exact Hr'|].
  exact (ios_no_leaks 1 10 demo_range ltac:(done) w' Hr').
Defined.
