(* ===== verification/SeqNum.v ===== *)
(** Wrapping sequence numbers (libs/webrtc/include/rtc_base/numerics/mod_ops.h
    and sequence_number_util.h, modules/include/module_common_types_public.h).

    An unsigned type is given by its width [w]; operands narrower than [int]
    are promoted to it before they are subtracted. *)

From S2P Require Import Prelude.
From S2P Require Import Buffer.

(** The values of an unsigned type of [w] bits, and conversion to it. *)
Definition is_unsigned (w x : Z) : Prop := 0 ≤ x < 2 ^ w.
Definition to_unsigned (w x : Z) : Z := x mod 2 ^ w.

(** [a - b] for operands of that type: an [int] if they are promoted. *)
Definition minus (w a b : Z) : Z :=
  if w <? 32 then a - b else to_unsigned w (a - b).

Section mod_ops.
Context `{BuildConfig}.

(** [Add<M>] and [Subtract<M>] on [unsigned long]. *)
Definition Add (M a b : Z) : outcome Z :=
  _ ← RTC_DCHECK (a <? M) "a < M";
  let t := M - b mod M in
  let res := to_unsigned 64 (a - t) in
  Ret (if a <? t then to_unsigned 64 (res + M) else res).

Definition Subtract (M a b : Z) : outcome Z :=
  _ ← RTC_DCHECK (a <? M) "a < M";
  let sub := b mod M in
  Ret (if a <? sub then M - (sub - a) else a - sub).

Definition ForwardDiff (w M a b : Z) : outcome Z :=
  if 0 <? M then
    _ ← RTC_DCHECK (a <? M) "a < M";
    _ ← RTC_DCHECK (b <? M) "b < M";
    Ret (to_unsigned w (if a <=? b then b - a else M - (a - b)))
  else Ret (to_unsigned w (b - a)).

Definition ReverseDiff (w M a b : Z) : outcome Z :=
  if 0 <? M then
    _ ← RTC_DCHECK (a <? M) "a < M";
    _ ← RTC_DCHECK (b <? M) "b < M";
    Ret (to_unsigned w (if b <=? a then a - b else M - (b - a)))
  else Ret (to_unsigned w (a - b)).

Definition MinDiff (w M a b : Z) : outcome Z :=
  f ← ForwardDiff w M a b; r ← ReverseDiff w M a b; Ret (Z.min f r).

(** *** sequence_number_util.h *)

Definition AheadOrAt (w M a b : Z) : outcome bool :=
  if 0 <? M then
    let maxDist := M / 2 in
    at_max ← (if Z.even M then d ← MinDiff w M a b; Ret (d =? maxDist)
              else Ret false);
    if (at_max : bool) then Ret (b <? a)
    else f ← ForwardDiff w M b a; Ret (f <=? maxDist)
  else
    let maxDist := (2 ^ w - 1) / 2 + 1 in
    if minus w a b =? maxDist then Ret (b <? a)
    else f ← ForwardDiff w 0 b a; Ret (f <? maxDist).

Definition AheadOf (w M a b : Z) : outcome bool :=
  if negb (a =? b) then AheadOrAt w M a b else Ret false.

(** The comparators. *)
Definition AscendingSeqNumComp (w M a b : Z) : outcome bool := AheadOf w M a b.
Definition DescendingSeqNumComp (w M a b : Z) : outcome bool := AheadOf w M b a.

Definition kDefaultStartValue : Z := 1000000000000000000.

Record SeqNumUnwrapper : Type := MkSeqNumUnwrapper {
  last_unwrapped_ : Z;
  last_seq_ : option Z
}.

Definition SeqNumUnwrapper_default : SeqNumUnwrapper :=
  MkSeqNumUnwrapper kDefaultStartValue None.
Definition SeqNumUnwrapper_new (start_at : Z) : SeqNumUnwrapper :=
  MkSeqNumUnwrapper start_at None.

(** [SeqNumUnwrapper::Unwrap]; the sums are on [uint64_t]. *)
Definition SeqNum_Unwrap (w M : Z) (u : SeqNumUnwrapper) (value : Z)
    : outcome (Z * SeqNumUnwrapper) :=
  let last_value := default value (last_seq_ u) in
  ahead ← AheadOrAt w M value last_value;
  unwrapped ←
    (if (ahead : bool) then
       d ← ForwardDiff w M last_value value;
       let x := to_unsigned 64 (last_unwrapped_ u + d) in
       _ ← RTC_CHECK (last_unwrapped_ u <=? x) "unwrapped >= last_unwrapped_";
       Ret x
     else
       d ← ReverseDiff w M last_value value;
       let x := to_unsigned 64 (last_unwrapped_ u - d) in
       _ ← RTC_CHECK (x <? last_unwrapped_ u) "unwrapped < last_unwrapped_";
       Ret x);
  Ret (unwrapped, MkSeqNumUnwrapper unwrapped (Some value)).

Fixpoint SeqNum_Unwrap_all (w M : Z) (u : SeqNumUnwrapper) (l : list Z)
    : outcome (list Z) :=
  match l with
  | [] => Ret []
  | x :: l =>
      '(y, u) ← SeqNum_Unwrap w M u x;
      ys ← SeqNum_Unwrap_all w M u l; Ret (y :: ys)
  end.
End mod_ops.

(** *** module_common_types_public.h *)

Definition IsNewer (w value prev_value : Z) : bool :=
  let kBreakpoint := (2 ^ w - 1) / 2 + 1 in
  if minus w value prev_value =? kBreakpoint then prev_value <? value
  else negb (value =? prev_value)
       && (to_unsigned w (value - prev_value) <? kBreakpoint).

(** [Unwrapper<U>]: its state is [last_value_]. *)
Definition UnwrapWithoutUpdate (w : Z) (last_value : option Z) (value : Z) : Z :=
  match last_value with
  | None => value
  | Some last =>
      let kMaxPlusOne := 2 ^ w in
      let cropped_last := to_unsigned w last in
      let delta := minus w value cropped_last in
      let delta :=
        if IsNewer w value cropped_last then
          if delta <? 0 then delta + kMaxPlusOne else delta
        else if (0 <? delta) && (0 <=? last + delta - kMaxPlusOne)
        then delta - kMaxPlusOne else delta in
      last + delta
  end.

Definition UpdateLast (last_value : Z) : option Z := Some last_value.

Definition Unwrap (w : Z) (last_value : option Z) (value : Z)
    : Z * option Z :=
  let unwrapped := UnwrapWithoutUpdate w last_value value in
  (unwrapped, UpdateLast unwrapped).

Fixpoint Unwrap_all (w : Z) (last_value : option Z) (l : list Z) : list Z :=
  match l with
  | [] => []
  | x :: l =>
      let '(y, last_value) := Unwrap w last_value x in
      y :: Unwrap_all w last_value l
  end.

Definition IsNewerSequenceNumber (a b : Z) : bool := IsNewer 16 a b.
Definition IsNewerTimestamp (a b : Z) : bool := IsNewer 32 a b.
Definition LatestSequenceNumber (a b : Z) : Z :=
  if IsNewerSequenceNumber a b then a else b.
Definition LatestTimestamp (a b : Z) : Z :=
  if IsNewerTimestamp a b then a else b.

(** ** Arithmetic of the differences *)

(** The number of distinct values: [M], or all of the type. *)
Definition period (w M : Z) : Z := if 0 <? M then M else 2 ^ w.

(** A modulus the type can hold. *)
Definition modulus_ok (w M : Z) : Prop := 1 ≤ w ∧ 0 ≤ M < 2 ^ w.

Lemma pow_pos w : 1 ≤ w → 2 ≤ 2 ^ w.
Proof.
  intros Hw. change 2 with (2 ^ 1) at 1. apply Z.pow_le_mono_r; lia.
Qed.

Lemma pow_half w : 1 ≤ w → (2 ^ w - 1) / 2 + 1 = 2 ^ (w - 1) ∧ 2 ^ w = 2 * 2 ^ (w - 1).
Proof.
  intros Hw. assert (2 ^ w = 2 * 2 ^ (w - 1)) as Hp.
  { rewrite <- Z.pow_succ_r by lia. f_equal. lia. }
  split; [|done]. rewrite Hp. dlia.
Qed.

Lemma period_pos w M : modulus_ok w M → 1 ≤ period w M ≤ 2 ^ w.
Proof.
  intros [Hw HM]. pose proof (pow_pos w Hw). unfold period.
  destruct (Z.ltb_spec 0 M); lia.
Qed.

Lemma mod_in_range x n k : 0 < n → x - n * k = x mod n → 0 ≤ x - n * k < n.
Proof. intros Hn ->. by apply Z.mod_pos_bound. Qed.

Lemma mod_shift n x k : 0 < n → 0 ≤ x + n * k < n → x mod n = x + n * k.
Proof.
  intros Hn Hx. replace x with (x + n * k + (- k) * n) at 1 by lia.
  rewrite Z.mod_add by lia. by apply Z.mod_small.
Qed.

Section differences.
Context `{BuildConfig}.

Lemma ForwardDiff_spec w M a b :
  modulus_ok w M → 0 ≤ a < period w M → 0 ≤ b < period w M →
  ForwardDiff w M a b = Ret ((b - a) mod period w M).
Proof.
  intros [Hw HM] Ha Hb. pose proof (pow_pos w Hw).
  unfold ForwardDiff, period in *. destruct (Z.ltb_spec 0 M) as [HM0|HM0]; [|done].
  unfold RTC_DCHECK, RTC_CHECK.
  rewrite !(proj2 (Z.ltb_lt _ _)) by lia.
  assert (∀ x : Z, x = x) as _ by done.
  destruct dcheck_is_on; cbn; f_equal; unfold to_unsigned;
    (destruct (Z.leb_spec a b);
     [rewrite !Z.mod_small by lia; done
     |rewrite (mod_shift M (b - a) 1), Z.mod_small by lia; lia]).
Qed.

Lemma ReverseDiff_spec w M a b :
  modulus_ok w M → 0 ≤ a < period w M → 0 ≤ b < period w M →
  ReverseDiff w M a b = Ret ((a - b) mod period w M).
Proof.
  intros HM Ha Hb. rewrite <- (ForwardDiff_spec w M b a) by done.
  unfold ReverseDiff, ForwardDiff, RTC_DCHECK, RTC_CHECK.
  destruct (0 <? M) eqn:HM0; [|done]. apply Z.ltb_lt in HM0.
  unfold period in *. rewrite (proj2 (Z.ltb_lt 0 M)) in * by done.
  by rewrite !(proj2 (Z.ltb_lt _ _)) by lia.
Qed.

(** Of two values less than half a period apart, the one ahead. *)
Lemma AheadOrAt_spec w M a b :
  modulus_ok w M → 0 ≤ a < period w M → 0 ≤ b < period w M →
  2 * ((a - b) mod period w M) ≠ period w M →
  AheadOrAt w M a b = Ret (2 * ((a - b) mod period w M) <? period w M).
Proof.
  intros HM Ha Hb Hne. unfold AheadOrAt.
  pose proof (ForwardDiff_spec w M b a HM Hb Ha) as Hf.
  pose proof (period_pos w M HM) as Hp.
  pose proof (Z.mod_pos_bound (a - b) (period w M) ltac:(lia)) as Hd.
  remember ((a - b) mod period w M) as d eqn:Hdef.
  destruct (0 <? M) eqn:HM0.
  - assert (period w M = M) as HpM by (unfold period; by rewrite HM0).
    rewrite HpM in *.
    assert ((f ← ForwardDiff w M b a; Ret (f <=? M / 2)) = Ret (2 * d <? M)) as Hgo.
    { rewrite Hf. cbn. f_equal.
      apply Bool.eq_iff_eq_true. rewrite Z.leb_le, Z.ltb_lt. dlia. }
    destruct (Z.even M) eqn:He; cbn [mbind outcome_bind]; [|exact Hgo].
    unfold MinDiff. rewrite (ForwardDiff_spec w M a b), (ReverseDiff_spec w M a b)
      by (done || by rewrite HpM). rewrite HpM. cbn [mbind outcome_bind].
    apply Z.even_spec in He as [m ->].
    assert ((b - a) mod (2 * m) = if decide (d = 0) then 0 else 2 * m - d) as ->.
    { replace (b - a) with (- (a - b)) by lia. case_decide as Hd0.
      - by rewrite Z.mod_opp_l_z by (done || lia).
      - by rewrite Z.mod_opp_l_nz, <- Hdef by (rewrite <- ?Hdef; lia). }
    rewrite <- Hdef. rewrite (proj2 (Z.eqb_neq _ _)); [exact Hgo|].
    replace (2 * m / 2) with m by dlia. case_decide; lia.
  - destruct HM as [Hw HM]. destruct (pow_half w Hw) as [-> Hpow].
    assert (period w M = 2 ^ w) as HpM by (unfold period; by rewrite HM0).
    rewrite HpM in *. rewrite (proj2 (Z.eqb_neq (minus w a b) _)).
    + assert (M = 0) as -> by (apply Z.ltb_ge in HM0; lia).
      rewrite Hf. cbn. f_equal. apply Bool.eq_iff_eq_true.
      rewrite !Z.ltb_lt. lia.
    + unfold minus, to_unsigned. rewrite <- Hdef.
      destruct (w <? 32); [|lia]. intros Heq. apply Hne.
      rewrite Hdef, Heq, Z.mod_small by lia. lia.
Qed.
End differences.

(** ** Unwrapping recovers the sequence *)

(** Consecutive values are less than half of [n] apart. *)
Fixpoint close_steps (n x : Z) (l : list Z) : Prop :=
  match l with
  | [] => True
  | y :: l => 2 * Z.abs (y - x) < n ∧ close_steps n y l
  end.

Lemma mod_diff n x y : 0 < n → (y mod n - x mod n) mod n = (y - x) mod n.
Proof. intros. by rewrite <- Zminus_mod. Qed.

(** The residue of a small difference. *)
Lemma small_diff_mod n d :
  0 < n → 2 * Z.abs d < n → d mod n = if 0 <=? d then d else n + d.
Proof.
  intros Hn Hd. destruct (Z.leb_spec 0 d).
  - apply Z.mod_small. lia.
  - rewrite (mod_shift n d 1); lia.
Qed.

Section unwrap.
Context `{BuildConfig}.

Lemma SeqNum_Unwrap_step w M u x y :
  modulus_ok w M → 2 * Z.abs (y - x) < period w M →
  is_unsigned 64 u → is_unsigned 64 (u + (y - x)) →
  SeqNum_Unwrap w M (MkSeqNumUnwrapper u (Some (x mod period w M)))
    (y mod period w M)
  = Ret (u + (y - x), MkSeqNumUnwrapper (u + (y - x)) (Some (y mod period w M))).
Proof.
  intros HM Hd Hu Hu'. pose proof (period_pos w M HM) as Hp.
  unfold SeqNum_Unwrap. cbn [last_seq_ from_option id].
  pose proof (Z.mod_pos_bound x (period w M) ltac:(lia)) as Hx.
  pose proof (Z.mod_pos_bound y (period w M) ltac:(lia)) as Hy.
  pose proof (small_diff_mod (period w M) (y - x) ltac:(lia) Hd) as Hm.
  pose proof (small_diff_mod (period w M) (x - y) ltac:(lia) ltac:(lia)) as Hm'.
  rewrite AheadOrAt_spec; [|exact HM|exact Hy|exact Hx|].
  2: { rewrite mod_diff, Hm by lia. destruct (0 <=? y - x) eqn:?; lia. }
  rewrite mod_diff, Hm by lia. cbn [mbind outcome_bind last_unwrapped_].
  unfold is_unsigned in *. destruct (Z.leb_spec 0 (y - x)).
  - rewrite (proj2 (Z.ltb_lt _ _)) by lia.
    rewrite ForwardDiff_spec, mod_diff, Hm by (done || lia).
    cbn [mbind outcome_bind].
    unfold to_unsigned. rewrite (Z.mod_small (u + (y - x))) by lia.
    by rewrite (proj2 (Z.leb_le _ _)) by lia.
  - rewrite (proj2 (Z.ltb_ge _ _)) by lia.
    rewrite ReverseDiff_spec, mod_diff, Hm' by (done || lia).
    rewrite (proj2 (Z.leb_le _ _)) by lia. cbn [mbind outcome_bind].
    unfold to_unsigned. rewrite (Z.mod_small (u - (x - y))) by lia.
    rewrite (proj2 (Z.ltb_lt _ _)) by lia. cbn [RTC_CHECK mbind outcome_bind].
    by replace (u - (x - y)) with (u + (y - x)) by lia.
Qed.

Lemma SeqNum_Unwrap_first w M u y :
  modulus_ok w M → is_unsigned 64 u →
  SeqNum_Unwrap w M (MkSeqNumUnwrapper u None) (y mod period w M)
  = Ret (u, MkSeqNumUnwrapper u (Some (y mod period w M))).
Proof.
  intros HM Hu. pose proof (period_pos w M HM) as Hp.
  pose proof (SeqNum_Unwrap_step w M u y y HM ltac:(lia) Hu) as Hs.
  rewrite Z.sub_diag, Z.add_0_r in Hs. by rewrite <- Hs.
Qed.

Lemma SeqNum_Unwrap_rest w M u x l :
  modulus_ok w M → is_unsigned 64 u → close_steps (period w M) x l →
  Forall (λ y, is_unsigned 64 (u + (y - x))) l →
  SeqNum_Unwrap_all w M (MkSeqNumUnwrapper u (Some (x mod period w M)))
    ((λ y, y mod period w M) <$> l)
  = Ret ((λ y, u + (y - x)) <$> l).
Proof.
  intros HM. revert u x. induction l as [|y l IH]; intros u x Hu Hc Hl; [done|].
  destruct Hc as [Hc Hcl]. apply Forall_cons_1 in Hl as [Hy Hl].
  cbn [fmap list_fmap SeqNum_Unwrap_all].
  rewrite SeqNum_Unwrap_step by done. cbn [mbind outcome_bind].
  rewrite (IH (u + (y - x)) y); [|done|done|].
  - cbn. do 2 f_equal. apply map_ext. intros z. lia.
  - eapply Forall_impl; [|exact Hl]. intros z. cbn.
    by replace (u + (y - x) + (z - y)) with (u + (z - x)) by lia.
Qed.
End unwrap.

Lemma IsNewer_spec w a b :
  1 ≤ w → is_unsigned w a → is_unsigned w b →
  2 * ((a - b) mod 2 ^ w) ≠ 2 ^ w →
  IsNewer w a b
    = negb ((a - b) mod 2 ^ w =? 0) && (2 * ((a - b) mod 2 ^ w) <? 2 ^ w).
Proof.
  intros Hw Ha Hb Hne. destruct (pow_half w Hw) as [Hk Hp].
  unfold IsNewer, is_unsigned, to_unsigned in *. rewrite Hk.
  rewrite (proj2 (Z.eqb_neq (minus w a b) _)).
  - f_equal.
    + f_equal. apply Bool.eq_iff_eq_true. rewrite !Z.eqb_eq. split.
      * intros ->. by rewrite Z.sub_diag, Z.mod_0_l by lia.
      * intros Hm. destruct (Z.leb_spec b a).
        -- rewrite Z.mod_small in Hm by lia. lia.
        -- rewrite (mod_shift _ _ 1) in Hm by lia. lia.
    + apply Bool.eq_iff_eq_true. rewrite !Z.ltb_lt. lia.
  - unfold minus, to_unsigned. destruct (w <? 32); [|lia].
    intros Heq. apply Hne. rewrite Heq, Z.mod_small by lia. lia.
Qed.

Lemma UnwrapWithoutUpdate_step w x y :
  1 ≤ w → 0 ≤ x → 0 ≤ y → 2 * Z.abs (y - x) < 2 ^ w →
  UnwrapWithoutUpdate w (Some x) (y mod 2 ^ w) = y.
Proof.
  intros Hw Hx Hy Hd. pose proof (pow_pos w Hw) as Hp.
  set (n := 2 ^ w) in *. unfold UnwrapWithoutUpdate, to_unsigned. fold n.
  assert (0 ≤ x mod n < n ∧ 0 ≤ y mod n < n) as [Hxn Hyn]
    by (split; apply Z.mod_pos_bound; lia).
  pose proof (small_diff_mod n (y - x) ltac:(lia) Hd) as Hm.
  pose proof (mod_diff n x y ltac:(lia)) as Hmd. rewrite Hm in Hmd.
  rewrite IsNewer_spec by (done || (fold n; rewrite Hmd;
    destruct (0 <=? y - x) eqn:?; lia)).
  fold n. rewrite Hmd.
  set (delta := minus w (y mod n) (x mod n)).
  assert (- n < delta < n ∧ (delta = (y - x) ∨ delta = (y - x) + n
    ∨ delta = (y - x) - n)) as [Hr Hdelta].
  { subst delta. unfold minus, to_unsigned. fold n. rewrite Hmd.
    pose proof (Z.div_mod (y mod n - x mod n) n ltac:(lia)) as Hdm.
    rewrite Hmd in Hdm.
    assert (- 1 ≤ (y mod n - x mod n) / n < 1)
      by (split; [apply Z.div_le_lower_bound|apply Z.div_lt_upper_bound]; lia).
    remember ((y mod n - x mod n) / n) as q eqn:Hq. clear Hq.
    assert (q = -1 ∨ q = 0) as [-> | ->] by lia;
      destruct (0 <=? y - x) eqn:Hs, (w <? 32); lia. }
  destruct (Z.leb_spec 0 (y - x)).
  - destruct (Z.eqb_spec (y - x) 0); cbn [negb andb].
    + destruct (0 <? delta) eqn:E1; cbn [andb]; [|lia].
      destruct (0 <=? x + delta - n) eqn:E2; lia.
    + rewrite (proj2 (Z.ltb_lt (2 * _) _)) by lia.
      destruct (delta <? 0) eqn:E1; lia.
  - rewrite (proj2 (Z.ltb_ge (2 * _) _)) by lia. rewrite andb_false_r.
    destruct (0 <? delta) eqn:E1; cbn [andb]; [|lia].
    destruct (0 <=? x + delta - n) eqn:E2; lia.
Qed.

Lemma Unwrap_all_rest w x l :
  1 ≤ w → 0 ≤ x → close_steps (2 ^ w) x l → Forall (λ y, 0 ≤ y) l →
  Unwrap_all w (Some x) ((λ y, y mod 2 ^ w) <$> l) = l.
Proof.
  intros Hw. revert x. induction l as [|y l IH]; intros x Hx Hc Hl; [done|].
  destruct Hc as [Hc Hcl]. apply Forall_cons_1 in Hl as [Hy Hl].
  cbn [fmap list_fmap Unwrap_all]. unfold Unwrap, UpdateLast.
  rewrite UnwrapWithoutUpdate_step by done. f_equal. by apply IH.
Qed.

(** ** Properties *)

(** [Unwrapper] is a left inverse of truncation: a sequence of non-negative
    values that starts below the modulus and moves by less than half of it is
    recovered exactly from the truncated values. *)
Theorem unwrapper_recovers w x l :
  1 ≤ w → is_unsigned w x → Forall (λ y, 0 ≤ y) l → close_steps (2 ^ w) x l →
  Unwrap_all w None ((λ y, y mod 2 ^ w) <$> (x :: l)) = x :: l.
Proof.
  intros Hw Hx Hl Hc. unfold is_unsigned in Hx.
  cbn [fmap list_fmap Unwrap_all]. unfold Unwrap, UpdateLast. cbn.
  rewrite Z.mod_small by done. f_equal. apply Unwrap_all_rest; done || lia.
Qed.

Lemma unwrapper_recovers_witness :
  Unwrap_all 8 None ((λ y, y mod 2 ^ 8) <$> [250; 300; 260; 380])
    = [250; 300; 260; 380].
Proof.
  apply unwrapper_recovers; [lia|ground| |ground].
  repeat constructor; discriminate.
Defined.

(** [SeqNumUnwrapper], with any modulus, follows a sequence that moves by
    less than half of the modulus: its outputs are the sequence shifted to the
    start value, and none of its checks fails while they fit [uint64_t]. *)
Theorem seqnum_unwrapper_recovers `{BuildConfig} w M start x l :
  modulus_ok w M → is_unsigned 64 start →
  close_steps (period w M) x l →
  Forall (λ y, is_unsigned 64 (start + (y - x))) l →
  SeqNum_Unwrap_all w M (SeqNumUnwrapper_new start)
    ((λ y, y mod period w M) <$> (x :: l))
  = Ret (start :: ((λ y, start + (y - x)) <$> l)).
Proof.
  intros HM Hs Hc Hl. cbn [fmap list_fmap SeqNum_Unwrap_all].
  unfold SeqNumUnwrapper_new. rewrite SeqNum_Unwrap_first by done.
  cbn [mbind outcome_bind]. by rewrite SeqNum_Unwrap_rest by done.
Qed.

Lemma seqnum_unwrapper_recovers_witness :
  @SeqNum_Unwrap_all DebugBuild 16 1000 (SeqNumUnwrapper_new 5)
    ((λ y, y mod 1000) <$> [990; 1400; 1010])
  = Ret [5; 415; 25].
Proof.
  apply (@seqnum_unwrapper_recovers DebugBuild 16 1000 5 990 [1400; 1010]).
  - ground.
  - ground.
  - ground.
  - repeat constructor; ground.
Defined.
