(* ===== verification/SafeNumerics.v ===== *)
(** Comparison, conversion, minimum, maximum and clamping of integers of mixed
    types (libs/webrtc/include/rtc_base/numerics/safe_compare.h,
    safe_conversions.h, safe_conversions_impl.h, safe_minmax.h), for the
    integer types; the floating-point specialisations are not modelled.

    What the templates decide at compile time from the types is a function of
    the types here; a failed [static_assert] is [None]. *)

From S2P Require Import Prelude.
From S2P Require Import Buffer.

(** ** Integer types *)

Inductive int_type : Set :=
| int8_t | int16_t | int32_t | int64_t
| uint8_t | uint16_t | uint32_t | uint64_t.

#[export] Instance int_type_eq_dec : EqDecision int_type.
Proof. solve_decision. Defined.

Definition int_types : list int_type :=
  [int8_t; int16_t; int32_t; int64_t; uint8_t; uint16_t; uint32_t; uint64_t].

Definition sizeof (t : int_type) : Z :=
  match t with
  | int8_t | uint8_t => 1 | int16_t | uint16_t => 2
  | int32_t | uint32_t => 4 | int64_t | uint64_t => 8
  end.
Definition is_signed (t : int_type) : bool :=
  match t with int8_t | int16_t | int32_t | int64_t => true | _ => false end.
Definition make_unsigned (t : int_type) : int_type :=
  match t with
  | int8_t => uint8_t | int16_t => uint16_t
  | int32_t => uint32_t | int64_t => uint64_t | t => t
  end.

(** [std::numeric_limits], through [Limits] of safe_minmax.h. *)
Definition lowest (t : int_type) : Z :=
  if is_signed t then - 2 ^ (sizeof t * 8 - 1) else 0.
Definition max (t : int_type) : Z :=
  if is_signed t then 2 ^ (sizeof t * 8 - 1) - 1 else 2 ^ (sizeof t * 8) - 1.

Definition has_type (t : int_type) (x : Z) : Prop := lowest t ≤ x ≤ max t.

(** [static_cast] to an integer type. *)
Definition convert (t : int_type) (x : Z) : Z :=
  (x - lowest t) mod 2 ^ (sizeof t * 8) + lowest t.

(** Integral promotion, and the common type of two promoted operands. *)
Definition promote (t : int_type) : int_type :=
  if sizeof t <? 4 then int32_t else t.
Definition common_type (t1 t2 : int_type) : int_type :=
  let t1 := promote t1 in
  let t2 := promote t2 in
  if Bool.eqb (is_signed t1) (is_signed t2)
  then if sizeof t1 <? sizeof t2 then t2 else t1
  else
    let '(s, u) := if is_signed t1 then (t1, t2) else (t2, t1) in
    if sizeof u <? sizeof s then s else u.

(** ** safe_compare.h *)

(** The operators, on two operands that C++ converts to their common type. *)
Inductive cmp_op : Set := EqOp | NeOp | LtOp | LeOp | GtOp | GeOp.

Definition op_spec (o : cmp_op) (a b : Z) : bool :=
  match o with
  | EqOp => a =? b | NeOp => negb (a =? b)
  | LtOp => a <? b | LeOp => a <=? b | GtOp => b <? a | GeOp => b <=? a
  end.
Definition Op (o : cmp_op) (t1 t2 : int_type) (a b : Z) : bool :=
  let t := common_type t1 t2 in op_spec o (convert t a) (convert t b).

Definition LargerIntImpl (n : Z) : option int_type :=
  if n =? 1 then Some int16_t else if n =? 2 then Some int32_t
  else if n =? 4 then Some int64_t else None.

(** A pointer has 8 bytes. *)
Definition LargerInt (t1 t2 : int_type) : option int_type :=
  LargerIntImpl (if (sizeof t1 <? sizeof t2) || (sizeof t1 <? 8)
                 then sizeof t1 else 0).

Definition MakeUnsigned (t : int_type) (a : Z) : Z := convert (make_unsigned t) a.

(** The five overloads of [Cmp]. *)
Definition Cmp (o : cmp_op) (t1 t2 : int_type) (a b : Z) : bool :=
  match is_signed t1, is_signed t2 with
  | true, true | false, false => Op o t1 t2 a b
  | true, false =>
      match LargerInt t2 t1 with
      | Some t => Op o t1 t a (convert t b)
      | None =>
          if a <? 0 then Op o int32_t int32_t (-1) 0
          else Op o (make_unsigned t1) t2 (MakeUnsigned t1 a) b
      end
  | false, true =>
      match LargerInt t1 t2 with
      | Some t => Op o t t2 (convert t a) b
      | None =>
          if b <? 0 then Op o int32_t int32_t 0 (-1)
          else Op o t1 (make_unsigned t2) a (MakeUnsigned t2 b)
      end
  end.

(** [SafeEq], ..., [SafeGe]: the unary plus promotes the operands. *)
Definition Safe (o : cmp_op) (t1 t2 : int_type) (a b : Z) : bool :=
  Cmp o (promote t1) (promote t2) (convert (promote t1) a)
    (convert (promote t2) b).

(** ** safe_conversions_impl.h *)

Inductive DstRange : Set := OVERLAPS_RANGE | CONTAINS_RANGE.

Definition StaticRangeCheck (dst src : int_type) : DstRange :=
  match is_signed dst, is_signed src with
  | true, true =>
      if (sizeof src * 8 - 1) <=? (sizeof dst * 8 - 1)
      then CONTAINS_RANGE else OVERLAPS_RANGE
  | false, false =>
      if sizeof src <=? sizeof dst then CONTAINS_RANGE else OVERLAPS_RANGE
  | true, false =>
      if sizeof src * 8 <=? (sizeof dst * 8 - 1)
      then CONTAINS_RANGE else OVERLAPS_RANGE
  | false, true => OVERLAPS_RANGE
  end.

Inductive RangeCheckResult : Set :=
| TYPE_VALID | TYPE_UNDERFLOW | TYPE_OVERFLOW | TYPE_INVALID.

(** The bitwise or of [TYPE_OVERFLOW] and [TYPE_UNDERFLOW] is
    [TYPE_INVALID]. *)
Definition BASE_NUMERIC_RANGE_CHECK_RESULT (in_upper in_lower : bool)
    : RangeCheckResult :=
  match in_upper, in_lower with
  | true, true => TYPE_VALID
  | true, false => TYPE_UNDERFLOW
  | false, true => TYPE_OVERFLOW
  | false, false => TYPE_INVALID
  end.

Definition RangeCheck (dst src : int_type) (value : Z) : RangeCheckResult :=
  match StaticRangeCheck dst src with
  | CONTAINS_RANGE => TYPE_VALID
  | OVERLAPS_RANGE =>
      match is_signed dst, is_signed src with
      | true, true =>
          BASE_NUMERIC_RANGE_CHECK_RESULT
            (Op LeOp src src value (convert src (max dst)))
            (Op GeOp src src value (convert src (lowest dst)))
      | false, false =>
          BASE_NUMERIC_RANGE_CHECK_RESULT
            (Op LeOp src src value (convert src (max dst))) true
      | true, false =>
          if sizeof src <? sizeof dst then TYPE_VALID
          else BASE_NUMERIC_RANGE_CHECK_RESULT
                 (Op LeOp src src value (convert src (max dst))) true
      | false, true =>
          if (sizeof src * 8 - 1) <=? (sizeof dst * 8)
          then BASE_NUMERIC_RANGE_CHECK_RESULT true
                 (Op GeOp src src value (convert src 0))
          else BASE_NUMERIC_RANGE_CHECK_RESULT
                 (Op LeOp src src value (convert src (max dst)))
                 (Op GeOp src src value (convert src 0))
      end
  end.

(** ** safe_conversions.h *)

Definition IsValueInRangeForNumericType (dst src : int_type) (value : Z)
    : bool :=
  match RangeCheck dst src value with TYPE_VALID => true | _ => false end.

Definition checked_cast (dst src : int_type) (value : Z) : outcome Z :=
  _ ← RTC_CHECK (IsValueInRangeForNumericType dst src value)
        "IsValueInRangeForNumericType<Dst>(value)";
  Ret (convert dst value).

Definition dchecked_cast `{BuildConfig} (dst src : int_type) (value : Z)
    : outcome Z :=
  _ ← RTC_DCHECK (IsValueInRangeForNumericType dst src value)
        "IsValueInRangeForNumericType<Dst>(value)";
  Ret (convert dst value).

Definition saturated_cast (dst src : int_type) (value : Z) : outcome Z :=
  match RangeCheck dst src value with
  | TYPE_VALID => Ret (convert dst value)
  | TYPE_UNDERFLOW => Ret (lowest dst)
  | TYPE_OVERFLOW => Ret (max dst)
  | TYPE_INVALID => Abort "FATAL()"
  end.

(** ** safe_minmax.h *)

(** [MType::min_t] and [MType::max_t] *)
Definition min_t (t1 t2 : int_type) : int_type :=
  if Safe LtOp t1 t2 (lowest t1) (lowest t2) then t1
  else if Safe GtOp t1 t2 (lowest t1) (lowest t2) then t2
  else if Safe LeOp t1 t2 (max t1) (max t2) then t1 else t2.
Definition max_t (t1 t2 : int_type) : int_type :=
  if Safe GeOp t1 t2 (max t1) (max t2) then t1 else t2.

(** [TypeOr]; for the argument, [None] stands for [DefaultType]. *)
Definition TypeOr (a : option int_type) (b : int_type) : option int_type :=
  let t := default b a in
  if Safe LeOp t b (lowest t) (lowest b) && Safe GeOp t b (max t) (max b)
  then Some t else None.

(** The type of the result and the result. *)
Definition SafeMin (r : option int_type) (t1 t2 : int_type) (a b : Z)
    : option (int_type * Z) :=
  r2 ← TypeOr r (min_t t1 t2);
  Some (r2, if Safe LtOp t1 t2 a b then convert r2 a else convert r2 b).

Definition SafeMax (r : option int_type) (t1 t2 : int_type) (a b : Z)
    : option (int_type * Z) :=
  r2 ← TypeOr r (max_t t1 t2);
  Some (r2, if Safe GtOp t1 t2 a b then convert r2 a else convert r2 b).

(** [ClampType]'s range, with the type that [auto] deduces for each end. *)
Definition r_min (t l h : int_type) : option (int_type * Z) :=
  '(ht, v) ← SafeMin None h t (lowest h) (lowest t);
  SafeMax None l ht (lowest l) v.
Definition r_max (t l h : int_type) : option (int_type * Z) :=
  '(lt, v) ← SafeMax None l t (max l) (max t);
  SafeMin None h lt (max h) v.

Definition AcceptableType (t l h a : int_type) : bool :=
  let not_too_large :=
    (sizeof a <=? sizeof l) || (sizeof a <=? sizeof h) || (sizeof a <=? sizeof t) in
  let range_contained :=
    match r_min t l h, r_max t l h with
    | Some (lt, lo), Some (ht, hi) =>
        Safe LeOp a lt (lowest a) lo && Safe LeOp ht a hi (max a)
    | _, _ => false
    end in
  not_too_large && range_contained.

Definition best_signed_type (t l h : int_type) : int_type :=
  if AcceptableType t l h int8_t then int8_t
  else if AcceptableType t l h int16_t then int16_t
  else if AcceptableType t l h int32_t then int32_t else int64_t.
Definition best_unsigned_type (t l h : int_type) : int_type :=
  if AcceptableType t l h uint8_t then uint8_t
  else if AcceptableType t l h uint16_t then uint16_t
  else if AcceptableType t l h uint32_t then uint32_t else uint64_t.

Definition ClampType (t l h : int_type) : option int_type :=
  let s := best_signed_type t l h in
  let u := best_unsigned_type t l h in
  let r :=
    if is_signed t then if AcceptableType t l h s then s else u
    else if AcceptableType t l h u then u else s in
  if AcceptableType t l h r then Some r else None.

Definition SafeClamp `{BuildConfig} (r : option int_type) (t l h : int_type)
    (x min max : Z) : option (int_type * outcome Z) :=
  r1 ← ClampType t l h;
  r2 ← TypeOr r r1;
  Some (r2,
    _ ← RTC_DCHECK (Safe LeOp l h min max) "min <= max";
    Ret (if Safe LeOp t l x min then convert r2 min
         else if Safe GeOp t h x max then convert r2 max
         else convert r2 x)).

(** ** Lemmas *)

Lemma lowest_max t : max t - lowest t + 1 = 2 ^ (sizeof t * 8).
Proof. by destruct t. Qed.

Lemma convert_id t x : has_type t x → convert t x = x.
Proof.
  intros Hx. unfold convert, has_type in *. pose proof (lowest_max t).
  rewrite Z.mod_small; lia.
Qed.

Lemma convert_range t x : has_type t (convert t x).
Proof.
  unfold convert, has_type. pose proof (lowest_max t) as Hl.
  assert (0 < 2 ^ (sizeof t * 8)) by (by destruct t).
  pose proof (Z.mod_pos_bound (x - lowest t) (2 ^ (sizeof t * 8))). lia.
Qed.

Lemma promote_type t x : has_type t x → has_type (promote t) x.
Proof. unfold has_type. destruct t; cbn; lia. Qed.

(** Comparison at a type that holds both operands is exact. *)
Lemma Op_exact o t1 t2 a b :
  has_type (common_type t1 t2) a → has_type (common_type t1 t2) b →
  Op o t1 t2 a b = op_spec o a b.
Proof. intros Ha Hb. unfold Op. by rewrite !convert_id. Qed.

Ltac limits :=
  unfold has_type in *;
  repeat match goal with
  | H : context [lowest ?t] |- _ =>
      let v := eval vm_compute in (lowest t) in progress change (lowest t) with v in H
  | H : context [max ?t] |- _ =>
      let v := eval vm_compute in (max t) in progress change (max t) with v in H
  | |- context [lowest ?t] =>
      let v := eval vm_compute in (lowest t) in progress change (lowest t) with v
  | |- context [max ?t] =>
      let v := eval vm_compute in (max t) in progress change (max t) with v
  end; lia.

Lemma op_negative o a b : a < 0 → 0 ≤ b → op_spec o a b = op_spec o (-1) 0.
Proof. intros. destruct o; cbn; lia. Qed.
Lemma op_positive o a b : b < 0 → 0 ≤ a → op_spec o a b = op_spec o 0 (-1).
Proof. intros. destruct o; cbn; lia. Qed.

Lemma Cmp_exact o t1 t2 a b :
  4 ≤ sizeof t1 → 4 ≤ sizeof t2 → has_type t1 a → has_type t2 b →
  Cmp o t1 t2 a b = op_spec o a b.
Proof.
  intros Hs1 Hs2 Ha Hb. unfold Cmp, MakeUnsigned.
  destruct t1; try (cbn in Hs1; lia); destruct t2; try (cbn in Hs2; lia);
    cbn [is_signed make_unsigned];
    repeat match goal with
    | |- context [LargerInt ?x ?y] =>
        let v := eval vm_compute in (LargerInt x y) in
        change (LargerInt x y) with v; cbv iota
    | |- context [?x <? 0] => destruct (Z.ltb_spec x 0)
    end;
    repeat (rewrite convert_id by limits);
    rewrite Op_exact by limits; try done;
    symmetry; first [apply op_negative | apply op_positive]; limits.
Qed.

Lemma sizeof_promote t : 4 ≤ sizeof (promote t).
Proof. by destruct t. Qed.
#[export] Hint Resolve promote_type sizeof_promote : core.

(** Evaluate the occurrences of a closed term. *)
Ltac compute_in_goal t :=
  let v := eval vm_compute in t in progress change t with v.

(** The four-way range check answers where the value lies. *)
Lemma RangeCheck_exact dst src v :
  has_type src v →
  RangeCheck dst src v =
    if v <? lowest dst then TYPE_UNDERFLOW
    else if max dst <? v then TYPE_OVERFLOW else TYPE_VALID.
Proof.
  intros Hv. unfold RangeCheck.
  destruct dst, src;
    repeat match goal with
    | |- context [StaticRangeCheck ?x ?y] => compute_in_goal (StaticRangeCheck x y)
    | |- context [convert ?x (max ?y)] => compute_in_goal (convert x (max y))
    | |- context [convert ?x (lowest ?y)] => compute_in_goal (convert x (lowest y))
    | |- context [convert ?x 0] => compute_in_goal (convert x 0)
    | |- context [is_signed ?x] => compute_in_goal (is_signed x)
    | |- context [sizeof ?x <? sizeof ?y] => compute_in_goal (sizeof x <? sizeof y)
    | |- context [?x <=? sizeof ?y * 8] => compute_in_goal (x <=? sizeof y * 8)
    end; cbv iota; rewrite ?Op_exact by limits;
    unfold op_spec, BASE_NUMERIC_RANGE_CHECK_RESULT;
    repeat case_match; try done; limits.
Qed.

(** [saturated_cast] brings the value to the nearest one of the destination
    type; the casts that check give the value or stop the program. *)
Definition clamp (lo hi x : Z) : Z := Z.max lo (Z.min hi x).

Lemma saturated_cast_value dst src v :
  has_type src v →
  saturated_cast dst src v = Ret (clamp (lowest dst) (max dst) v).
Proof.
  intros Hv. unfold saturated_cast, clamp. rewrite RangeCheck_exact by done.
  assert (lowest dst ≤ max dst) by (by destruct dst).
  repeat case_match; try done; f_equal; rewrite ?convert_id; unfold has_type; lia.
Qed.

Lemma in_range_exact dst src v :
  has_type src v →
  IsValueInRangeForNumericType dst src v = (lowest dst <=? v) && (v <=? max dst).
Proof.
  intros Hv. unfold IsValueInRangeForNumericType.
  rewrite RangeCheck_exact by done. repeat case_match; try done; lia.
Qed.

Lemma Safe_exact o t1 t2 a b :
  has_type t1 a → has_type t2 b → Safe o t1 t2 a b = op_spec o a b.
Proof.
  intros Ha Hb. unfold Safe. rewrite !(convert_id (promote _)) by auto.
  apply Cmp_exact; auto.
Qed.

Lemma has_type_limits t : has_type t (lowest t) ∧ has_type t (max t).
Proof. unfold has_type. by destruct t. Qed.

Lemma in_int_types t : List.In t int_types.
Proof. destruct t; cbn; tauto. Qed.

Lemma min_t_spec t1 t2 :
  lowest (min_t t1 t2) = Z.min (lowest t1) (lowest t2) ∧
  Z.min (max t1) (max t2) ≤ max (min_t t1 t2).
Proof. destruct t1, t2; vm_compute; split; congruence. Qed.

Lemma max_t_spec t1 t2 :
  lowest (max_t t1 t2) ≤ Z.max (lowest t1) (lowest t2) ∧
  max (max_t t1 t2) = Z.max (max t1) (max t2).
Proof. destruct t1, t2; vm_compute; split; congruence. Qed.

Lemma TypeOr_spec r b t :
  TypeOr r b = Some t → lowest t ≤ lowest b ∧ max b ≤ max t.
Proof.
  unfold TypeOr. pose proof has_type_limits as Hl.
  rewrite !Safe_exact by apply Hl. cbn [op_spec]. case_match; naive_solver lia.
Qed.

Lemma TypeOr_default b : TypeOr None b = Some b.
Proof. by destruct b. Qed.

(** The range of the results of a clamp. *)
Definition clamp_low (t l h : int_type) : Z :=
  Z.max (lowest l) (Z.min (lowest h) (lowest t)).
Definition clamp_high (t l h : int_type) : Z :=
  Z.min (max h) (Z.max (max l) (max t)).

Lemma SafeMin_default t1 t2 a b :
  has_type t1 a → has_type t2 b → has_type (min_t t1 t2) (Z.min a b) →
  SafeMin None t1 t2 a b = Some (min_t t1 t2, Z.min a b).
Proof.
  intros Ha Hb Hm. unfold SafeMin. rewrite TypeOr_default.
  cbn [mbind option_bind]. rewrite Safe_exact by done. cbn [op_spec].
  do 2 f_equal. destruct (Z.ltb_spec a b).
  - rewrite Z.min_l in * by lia. by apply convert_id.
  - rewrite Z.min_r in * by lia. by apply convert_id.
Qed.

Lemma SafeMax_default t1 t2 a b :
  has_type t1 a → has_type t2 b → has_type (max_t t1 t2) (Z.max a b) →
  SafeMax None t1 t2 a b = Some (max_t t1 t2, Z.max a b).
Proof.
  intros Ha Hb Hm. unfold SafeMax. rewrite TypeOr_default.
  cbn [mbind option_bind]. rewrite Safe_exact by done. cbn [op_spec].
  do 2 f_equal. destruct (Z.ltb_spec b a).
  - rewrite Z.max_l in * by lia. by apply convert_id.
  - rewrite Z.max_r in * by lia. by apply convert_id.
Qed.

Lemma lowest_neg t : lowest t ≤ 0 ∧ 0 < max t.
Proof. by destruct t. Qed.

Lemma r_min_spec t l h :
  ∃ ty, r_min t l h = Some (ty, clamp_low t l h) ∧ has_type ty (clamp_low t l h).
Proof.
  pose proof (lowest_neg t). pose proof (lowest_neg l). pose proof (lowest_neg h).
  pose proof (min_t_spec h t). pose proof (max_t_spec l (min_t h t)).
  unfold r_min, clamp_low.
  rewrite SafeMin_default by (try apply has_type_limits; unfold has_type; lia).
  cbn [mbind option_bind].
  assert (has_type (max_t l (min_t h t))
    (Z.max (lowest l) (Z.min (lowest h) (lowest t)))) by (unfold has_type; lia).
  rewrite SafeMax_default; [by eexists|apply has_type_limits| |done].
  unfold has_type. lia.
Qed.

Lemma r_max_spec t l h :
  ∃ ty, r_max t l h = Some (ty, clamp_high t l h) ∧ has_type ty (clamp_high t l h).
Proof.
  pose proof (lowest_neg t). pose proof (lowest_neg l). pose proof (lowest_neg h).
  pose proof (max_t_spec l t). pose proof (min_t_spec h (max_t l t)).
  unfold r_max, clamp_high.
  rewrite SafeMax_default by (try apply has_type_limits; unfold has_type; lia).
  cbn [mbind option_bind].
  assert (has_type (min_t h (max_t l t)) (Z.min (max h) (Z.max (max l) (max t))))
    by (unfold has_type; lia).
  rewrite SafeMin_default; [by eexists|apply has_type_limits| |done].
  unfold has_type. lia.
Qed.

Definition acceptable (t l h a : int_type) : bool :=
  ((sizeof a <=? sizeof l) || (sizeof a <=? sizeof h) || (sizeof a <=? sizeof t))
  && ((lowest a <=? clamp_low t l h) && (clamp_high t l h <=? max a)).

Lemma AcceptableType_spec t l h a :
  AcceptableType t l h a = acceptable t l h a.
Proof.
  unfold AcceptableType, acceptable.
  destruct (r_min_spec t l h) as (? & -> & ?), (r_max_spec t l h) as (? & -> & ?).
  by rewrite !Safe_exact by (done || apply has_type_limits).
Qed.

(** [ClampType] with that test. *)
Definition clamp_choice (t l h : int_type) : int_type :=
  let ok := acceptable t l h in
  let s := if ok int8_t then int8_t else if ok int16_t then int16_t
           else if ok int32_t then int32_t else int64_t in
  let u := if ok uint8_t then uint8_t else if ok uint16_t then uint16_t
           else if ok uint32_t then uint32_t else uint64_t in
  if is_signed t then if ok s then s else u else if ok u then u else s.

Lemma ClampType_choice t l h :
  ClampType t l h =
    if acceptable t l h (clamp_choice t l h) then Some (clamp_choice t l h)
    else None.
Proof.
  unfold ClampType, best_signed_type, best_unsigned_type.
  by rewrite !AcceptableType_spec.
Qed.

Lemma clamp_choice_acceptable t l h : acceptable t l h (clamp_choice t l h) = true.
Proof.
  assert (forallb (λ t, forallb (λ l, forallb (λ h,
    acceptable t l h (clamp_choice t l h)) int_types) int_types) int_types = true)
    as H by (vm_cast_no_check (eq_refl true)).
  rewrite forallb_forall in H. specialize (H t (in_int_types t)).
  rewrite forallb_forall in H. specialize (H l (in_int_types l)).
  rewrite forallb_forall in H. exact (H h (in_int_types h)).
Qed.

(** The clamping type exists and holds every result. *)
Lemma ClampType_spec t l h :
  ∃ r, ClampType t l h = Some r ∧
    lowest r ≤ clamp_low t l h ∧ clamp_high t l h ≤ max r.
Proof.
  pose proof (clamp_choice_acceptable t l h) as Ha.
  rewrite ClampType_choice, Ha. eexists. split; [done|].
  unfold acceptable in Ha. lia.
Qed.

(** ** Properties *)

(** [SafeEq], ..., [SafeGe] give the mathematical comparison of their
    operands, whatever the two integer types are. *)
Theorem safe_compare_exact o t1 t2 a b :
  has_type t1 a → has_type t2 b → Safe o t1 t2 a b = op_spec o a b.
Proof. apply Safe_exact. Qed.

Lemma safe_compare_exact_witness :
  Op LtOp int32_t uint32_t (-1) 1 = false ∧ Safe LtOp int32_t uint32_t (-1) 1 = true.
Proof.
  split; [vm_compute; reflexivity|].
  rewrite (safe_compare_exact LtOp int32_t uint32_t (-1) 1);
    [vm_compute; reflexivity|split; vm_compute; discriminate..].
Defined.

(** the checked cast gives the value itself, and stops the program when the
    destination type does not hold it; the saturating cast gives the value of
    the destination type nearest to it. *)
Theorem casts_exact dst src v :
  has_type src v →
  checked_cast dst src v =
    (if (lowest dst <=? v) && (v <=? max dst) then Ret v
     else Abort "IsValueInRangeForNumericType<Dst>(value)") ∧
  saturated_cast dst src v = Ret (clamp (lowest dst) (max dst) v).
Proof.
  intros Hv. split; [|by apply saturated_cast_value].
  unfold checked_cast. rewrite in_range_exact by done. unfold RTC_CHECK.
  case_match; cbn; [|done]. rewrite convert_id; [done|]. unfold has_type. lia.
Qed.

Lemma casts_exact_witness :
  saturated_cast uint8_t int32_t (-7) = Ret 0 ∧
  saturated_cast int8_t uint64_t 300 = Ret 127.
Proof.
  split.
  - rewrite (proj2 (casts_exact uint8_t int32_t (-7)
      ltac:(split; vm_compute; discriminate))). vm_compute; reflexivity.
  - rewrite (proj2 (casts_exact int8_t uint64_t 300
      ltac:(split; vm_compute; discriminate))). vm_compute; reflexivity.
Defined.

(** C29: for all integer types of the value and of the two limits, [SafeClamp]
    has a default result type, and whatever result type it is instantiated
    with, it gives the value limited to the interval, unchanged by the
    conversion to that type. *)
Theorem safe_clamp_exact `{BuildConfig} t l h x mn mx :
  has_type t x → has_type l mn → has_type h mx → mn ≤ mx →
  is_Some (SafeClamp None t l h x mn mx) ∧
  ∀ r, match SafeClamp r t l h x mn mx with
       | Some (r2, m) => m = Ret (clamp mn mx x) ∧ has_type r2 (clamp mn mx x)
       | None => True
       end.
Proof.
  intros Hx Hl Hh Hle. unfold SafeClamp.
  destruct (ClampType_spec t l h) as (r1 & -> & Hlo & Hhi). cbn [mbind option_bind].
  rewrite TypeOr_default. split; [done|]. intros r.
  destruct (TypeOr r r1) as [r2|] eqn:Er; [|done].
  apply TypeOr_spec in Er. cbn [mbind option_bind].
  rewrite !Safe_exact by done. cbn [op_spec].
  assert (has_type r2 (clamp mn mx x)) as Hc
    by (unfold has_type, clamp, clamp_low, clamp_high in *; lia).
  split; [|done]. unfold RTC_DCHECK, RTC_CHECK.
  replace (mn <=? mx) with true by lia. unfold clamp in *.
  repeat case_match; cbn; f_equal; rewrite convert_id; try lia;
    unfold has_type in *; lia.
Qed.

Lemma safe_clamp_exact_witness :
  @SafeClamp DebugBuild None int64_t uint8_t int16_t (-5) 3 300
    = Some (int16_t, Ret 3).
Proof.
  destruct (@safe_clamp_exact DebugBuild int64_t uint8_t int16_t (-5) 3 300
    ltac:(split; vm_compute; discriminate) ltac:(split; vm_compute; discriminate)
    ltac:(split; vm_compute; discriminate) ltac:(lia)) as [Hs Hr].
  specialize (Hr None).
  destruct (@SafeClamp DebugBuild None int64_t uint8_t int16_t (-5) 3 300)
    as [[r2 m]|] eqn:E; [|destruct Hs; discriminate].
  destruct Hr as [-> _]. vm_compute in E. vm_compute. congruence.
Defined.
