(* ===== verification/NumericRange.v ===== *)
(** Ranges of integer types and comparison, conversion and saturation across
    them (libs/webrtc/include/base/numerics/safe_conversions_impl.h and
    safe_conversions.h of Chromium base), for the integer types.

    What the templates decide from the types is a function of the types here,
    as in SafeNumerics.  [int] has 32 bits and [intmax_t] 64. *)

From S2P Require Import Prelude.
From S2P Require Import SafeNumerics.

(** ** Types *)

Definition digits (t : int_type) : Z := sizeof t * 8 - Z.b2z (is_signed t).
Definition MaxExponent (t : int_type) : Z := digits t + 1.
Definition IntegerBitsPlusSign (t : int_type) : Z := digits t + Z.b2z (is_signed t).
Definition make_signed (t : int_type) : int_type :=
  match t with
  | uint8_t => int8_t | uint16_t => int16_t
  | uint32_t => int32_t | uint64_t => int64_t | t => t
  end.

Definition IsValueNegative (t : int_type) (value : Z) : bool :=
  if is_signed t then value <? 0 else false.
Definition as_unsigned (t : int_type) (value : Z) : Z := convert (make_unsigned t) value.
Definition as_signed (t : int_type) (value : Z) : Z := convert (make_signed t) value.

(** Whatever type the difference is computed in, it is converted to the unsigned
    type in the end. *)
Definition SafeUnsignedAbs (t : int_type) (value : Z) : Z :=
  if IsValueNegative t value
  then convert (make_unsigned t) (0 - convert (make_unsigned t) value)
  else convert (make_unsigned t) value.

Definition ConditionalNegate (t : int_type) (x : Z) (is_negative : bool) : Z :=
  convert (make_signed t)
    (Z.lxor (convert (make_unsigned t) x)
       (convert (make_unsigned t) (- Z.b2z is_negative)) + Z.b2z is_negative).

(** ** Ranges of types *)

(** Whether the range of [src] is contained in that of [dst]. *)
Definition StaticDstRangeRelationToSrcRange (dst src : int_type) : bool :=
  match is_signed dst, is_signed src with
  | true, true | false, false => MaxExponent src <=? MaxExponent dst
  | true, false => MaxExponent src <? MaxExponent dst
  | false, true => false
  end.
Definition IsTypeInRangeForNumericType (dst src : int_type) : bool :=
  StaticDstRangeRelationToSrcRange dst src.

Record range_check : Set := MkRangeCheck { is_underflow_ : bool; is_overflow_ : bool }.
Definition range_check_new (is_in_lower_bound is_in_upper_bound : bool) : range_check :=
  MkRangeCheck (negb is_in_lower_bound) (negb is_in_upper_bound).
Definition IsValid (r : range_check) : bool := negb (is_overflow_ r) && negb (is_underflow_ r).
Definition IsOverflow (r : range_check) : bool := is_overflow_ r && negb (is_underflow_ r).
Definition IsUnderflow (r : range_check) : bool := negb (is_overflow_ r) && is_underflow_ r.
Definition range_check_eqb (r s : range_check) : bool :=
  Bool.eqb (is_underflow_ r) (is_underflow_ s) && Bool.eqb (is_overflow_ r) (is_overflow_ s).

(** [NarrowingRange], with the limits of the destination type.  The mask is of
    the destination type, the masked value of the common type [e] of it and the
    unsigned absolute value. *)
Definition kShift (dst src : int_type) : Z :=
  if (MaxExponent dst <? MaxExponent src) && (digits src <? digits dst)
  then digits dst - digits src else 0.
Definition Adjust (dst src : int_type) (value : Z) : Z :=
  let e := common_type (make_unsigned dst) dst in
  let mask := Z.lnot (Z.shiftl 1 (kShift dst src) - 1) in
  convert dst
    (ConditionalNegate e
       (Z.land (convert e (SafeUnsignedAbs dst value)) (convert e mask))
       (IsValueNegative dst value)).
Definition NarrowingRange_max (dst src : int_type) : Z := Adjust dst src (max dst).
Definition NarrowingRange_lowest (dst src : int_type) : Z := Adjust dst src (lowest dst).

(** The five templates of [DstRangeRelationToSrcRangeImpl]. *)
Definition DstRangeRelationToSrcRange (dst src : int_type) (value : Z) : range_check :=
  let hi := NarrowingRange_max dst src in
  let lo := NarrowingRange_lowest dst src in
  let p := common_type src dst in
  if StaticDstRangeRelationToSrcRange dst src then
    range_check_new
      (Op GeOp dst dst (convert dst (lowest src)) lo || Op GeOp dst dst (convert dst value) lo)
      (Op LeOp dst dst (convert dst (max src)) hi || Op LeOp dst dst (convert dst value) hi)
  else
    match is_signed dst, is_signed src with
    | true, true => range_check_new (Op GeOp src dst value lo) (Op LeOp src dst value hi)
    | false, false =>
        range_check_new (Op EqOp dst dst lo 0 || Op GeOp src dst value lo)
          (Op LeOp src dst value hi)
    | true, false =>
        range_check_new (Op LeOp dst dst lo 0 || op_spec GeOp (convert p value) (convert p lo))
          (op_spec LeOp (convert p value) (convert p hi))
    | false, true =>
        range_check_new
          (Op GeOp src src value 0 && (Op EqOp dst int32_t lo 0 || Op GeOp dst dst (convert dst value) lo))
          (op_spec LeOp (convert p (max src)) (convert p hi)
           || op_spec LeOp (convert p value) (convert p hi))
    end.

(** ** Comparison *)

(** [IsLess], ..., [IsNotEqual]: the ranges decide, or the values as the common
    type. *)
Definition compare_test (o : cmp_op) (l r : int_type) (lhs rhs : Z) : bool :=
  let l_range := DstRangeRelationToSrcRange r l lhs in
  let r_range := DstRangeRelationToSrcRange l r rhs in
  match o with
  | LtOp | LeOp =>
      IsUnderflow l_range || IsOverflow r_range
      || (range_check_eqb l_range r_range && Op o l r lhs rhs)
  | GtOp | GeOp =>
      IsOverflow l_range || IsUnderflow r_range
      || (range_check_eqb l_range r_range && Op o l r lhs rhs)
  | EqOp => range_check_eqb l_range r_range && Op EqOp l r lhs rhs
  | NeOp => negb (range_check_eqb l_range r_range) || Op NeOp l r lhs rhs
  end.

(** ** Promotions *)

Definition IntegerForDigitsAndSign (size : Z) (sign : bool) : option int_type :=
  list_find (λ t, IntegerBitsPlusSign t = size ∧ is_signed t = sign) int_types ≫= λ x,
  Some x.2.
Definition TwiceWiderInteger (t : int_type) (sign : bool) : option int_type :=
  IntegerForDigitsAndSign (IntegerBitsPlusSign t * 2) sign.

Definition MaxExponentPromotion (l r : int_type) : int_type :=
  if MaxExponent r <? MaxExponent l then l else r.
Definition LowestValuePromotion (l r : int_type) : int_type :=
  match is_signed l, is_signed r with
  | true, true => if MaxExponent r <? MaxExponent l then l else r
  | true, false => l
  | false, true => r
  | false, false => if MaxExponent l <? MaxExponent r then l else r
  end.

(** The type and [is_contained]; [None] is a missing specialisation. *)
Definition BigEnoughPromotion (l r : int_type) : option (int_type * bool) :=
  let m := MaxExponentPromotion l r in
  let is_intmax_type := IntegerBitsPlusSign m =? IntegerBitsPlusSign int64_t in
  let is_max_exponent :=
    StaticDstRangeRelationToSrcRange m l && StaticDstRangeRelationToSrcRange m r in
  if is_max_exponent then Some (m, true)
  else if is_intmax_type then Some (m, false)
  else t ← TwiceWiderInteger m (is_signed l || is_signed r); Some (t, true).

Definition IsIntegerArithmeticSafe (t l r : int_type) : bool :=
  (Z.b2z (is_signed l) <=? Z.b2z (is_signed t))
  && (2 * IntegerBitsPlusSign l <=? IntegerBitsPlusSign t)
  && (Z.b2z (is_signed r) <=? Z.b2z (is_signed t))
  && (2 * IntegerBitsPlusSign r <=? IntegerBitsPlusSign t).

Definition FastIntegerArithmeticPromotion (l r : int_type) : option int_type :=
  let m := MaxExponentPromotion l r in
  let sign := is_signed l || is_signed r in
  if IsIntegerArithmeticSafe (if sign then int64_t else uint64_t) m m then
    t ← TwiceWiderInteger m sign;
    if IsIntegerArithmeticSafe t l r then Some t else None
  else fst <$> BigEnoughPromotion l r.

Definition SafeCompare (o : cmp_op) (l r : int_type) (lhs rhs : Z) : option bool :=
  '(big, is_contained) ← BigEnoughPromotion l r;
  Some (if is_contained : bool
        then compare_test o big big (convert big lhs) (convert big rhs)
        else compare_test o l r lhs rhs).

(** ** Limits shared by two types *)

Definition IsMaxInRangeForNumericType (dst src : int_type) : bool :=
  compare_test GeOp dst src (max dst) (max src).
Definition IsMinInRangeForNumericType (dst src : int_type) : bool :=
  compare_test LeOp dst src (lowest dst) (lowest src).
Definition CommonMax (dst src : int_type) : Z :=
  if negb (IsMaxInRangeForNumericType dst src) then convert dst (max dst)
  else convert dst (max src).
Definition CommonMin (dst src : int_type) : Z :=
  if negb (IsMinInRangeForNumericType dst src) then convert dst (lowest dst)
  else convert dst (lowest src).
Definition CommonMaxOrMin (dst src : int_type) (is_min : bool) : Z :=
  if is_min then CommonMin dst src else CommonMax dst src.

(** ** safe_conversions.h *)

(** [IsValueInRangeFastOp]: for narrowing from a signed type. *)
Definition IsValueInRangeFastOp (dst src : int_type) (value : Z) : option bool :=
  if is_signed src && negb (IsTypeInRangeForNumericType dst src) then
    Some (if is_signed dst
          then Op EqOp src dst value (convert dst value)
          else op_spec LeOp (as_unsigned src value) (as_unsigned src (CommonMax src dst)))
  else None.

Definition IsValueInRangeForNumericType (dst src : int_type) (value : Z) : bool :=
  match IsValueInRangeFastOp dst src value with
  | Some b => b
  | None => IsValid (DstRangeRelationToSrcRange dst src value)
  end.

(** [HandleFailure] stops the process. *)
Definition checked_cast (dst src : int_type) (value : Z) : outcome Z :=
  if IsValueInRangeForNumericType dst src value then Ret (convert dst value)
  else Abort "HandleFailure".

(** [saturated_cast_impl], for a compile-time constant, and [SaturateFastOp]. *)
Definition saturated_cast_impl (dst src : int_type) (value : Z) : Z :=
  let constraint := DstRangeRelationToSrcRange dst src value in
  if negb (is_overflow_ constraint)
  then if negb (is_underflow_ constraint) then convert dst value else lowest dst
  else max dst.
Definition SaturateFastOp (dst src : int_type) (value : Z) : Z :=
  let saturated :=
    CommonMaxOrMin dst src
      (IsMaxInRangeForNumericType dst src
       || (negb (IsMinInRangeForNumericType dst src) && IsValueNegative src value)) in
  if IsValueInRangeForNumericType dst src value then convert dst value else saturated.
Definition saturated_cast (constant : bool) (dst src : int_type) (value : Z) : Z :=
  if constant then saturated_cast_impl dst src value else SaturateFastOp dst src value.

(** ** Lemmas *)

Lemma NarrowingRange_limits dst src :
  NarrowingRange_max dst src = max dst ∧ NarrowingRange_lowest dst src = lowest dst.
Proof. by destruct dst, src. Qed.

(** A static range relation is the inclusion of the ranges. *)
Lemma contained_spec dst src :
  StaticDstRangeRelationToSrcRange dst src
    = (lowest dst <=? lowest src) && (max src <=? max dst).
Proof. by destruct dst, src. Qed.

Lemma contained_type dst src v :
  StaticDstRangeRelationToSrcRange dst src = true → has_type src v → has_type dst v.
Proof. rewrite contained_spec. unfold has_type. lia. Qed.

(** What the common type holds. *)
Lemma common_same_sign t1 t2 x :
  is_signed t1 = is_signed t2 → has_type t1 x ∨ has_type t2 x →
  has_type (common_type t1 t2) x.
Proof. intros Hs [Hx|Hx]; destruct t1, t2; try done; cbn; limits. Qed.

Lemma common_nonneg t1 t2 x :
  has_type t1 x ∨ has_type t2 x → 0 ≤ x → has_type (common_type t1 t2) x.
Proof. intros [Hx|Hx] Hpos; destruct t1, t2; cbn; limits. Qed.

Lemma common_self t x : has_type t x → has_type (common_type t t) x.
Proof. intros. apply common_same_sign; [done|by left]. Qed.

(** A wider signed type is the common one. *)
Lemma common_wider t1 t2 x :
  is_signed t1 = true → max t2 < max t1 → has_type t1 x →
  has_type (common_type t1 t2) x.
Proof. intros H1 Hm Hx. destruct t1, t2; try done; revert Hm; cbn; limits. Qed.

Lemma Op_same o t a b : has_type t a → has_type t b → Op o t t a b = op_spec o a b.
Proof. intros. apply Op_exact; by apply common_self. Qed.

Lemma lowest_unsigned t : is_signed t = false → lowest t = 0.
Proof. intros H. unfold lowest. by rewrite H. Qed.

Lemma has_type_zero t : has_type t 0.
Proof. destruct t; limits. Qed.

Lemma has_limits t : has_type t (lowest t) ∧ has_type t (max t) ∧ lowest t ≤ 0 < max t.
Proof. destruct (has_type_limits t). pose proof (lowest_neg t). done. Qed.

(** The range check answers on which side of the range the value lies. *)
Definition range_of (dst : int_type) (v : Z) : range_check :=
  MkRangeCheck (v <? lowest dst) (max dst <? v).

Lemma range_check_exact dst (lo hi : bool) v :
  lo = (lowest dst <=? v) → hi = (v <=? max dst) → range_check_new lo hi = range_of dst v.
Proof. intros -> ->. unfold range_of. by rewrite !Z.ltb_antisym. Qed.

Lemma DstRange_exact dst src v :
  has_type src v → DstRangeRelationToSrcRange dst src v = range_of dst v.
Proof.
  intros Hv. unfold DstRangeRelationToSrcRange.
  destruct (NarrowingRange_limits dst src) as [-> ->].
  destruct (has_limits dst) as (Hdl & Hdm & Hd0), (has_limits src) as (Hsl & Hsm & Hs0).
  pose proof (contained_spec dst src) as Hc.
  destruct (StaticDstRangeRelationToSrcRange dst src) eqn:Hstat.
  - assert (∀ x, has_type src x → has_type dst x) as Hin by (intros; by eapply contained_type).
    rewrite (convert_id dst v), (convert_id dst (lowest src)), (convert_id dst (max src)) by auto.
    rewrite !Op_same by auto. cbn [op_spec]. unfold has_type in Hv.
    apply range_check_exact; lia.
  - destruct (is_signed dst) eqn:Hds, (is_signed src) eqn:Hss.
    + rewrite !Op_exact by (apply common_same_sign; [congruence|tauto]).
      by apply range_check_exact.
    + assert (0 ≤ v) by (pose proof (lowest_unsigned src Hss); unfold has_type in Hv; lia).
      rewrite Op_same by auto using has_type_zero. cbn [op_spec].
      replace (lowest dst <=? 0) with true by lia. cbn [orb].
      rewrite !convert_id by (apply common_nonneg; [by auto|lia]).
      apply range_check_exact; lia.
    + pose proof (lowest_unsigned dst Hds) as Hl0. rewrite Hl0.
      rewrite (Op_exact EqOp) by (apply common_nonneg; auto using has_type_zero; lia).
      rewrite Op_same by auto using has_type_zero. cbn [op_spec Z.eqb orb].
      rewrite andb_true_r.
      rewrite (convert_id _ (max src)), (convert_id _ (max dst)) by (apply common_nonneg; [by auto|lia]).
      apply range_check_exact; [lia|].
      destruct (Z.leb_spec (max src) (max dst)); cbn; [unfold has_type in Hv; lia|].
      rewrite convert_id; [done|]. by apply common_wider.
    + rewrite !(Op_exact LeOp), !(Op_exact GeOp) by (apply common_same_sign; [congruence|tauto]).
      rewrite Op_same by auto using has_type_zero. cbn [op_spec].
      assert (0 ≤ v) by (pose proof (lowest_unsigned src Hss); unfold has_type in Hv; lia).
      pose proof (lowest_unsigned dst Hds) as Hl0. rewrite Hl0.
      apply range_check_exact; lia.
Qed.

(** What has both types is not changed by the usual conversions. *)
Lemma common_both t1 t2 x :
  has_type t1 x → has_type t2 x → has_type (common_type t1 t2) x.
Proof. intros H1 H2. destruct t1, t2; cbn; revert H1 H2; limits. Qed.

(** The comparisons are those of the integers. *)
Lemma compare_exact o l r a b :
  has_type l a → has_type r b → compare_test o l r a b = op_spec o a b.
Proof.
  intros Ha Hb. unfold compare_test. rewrite !DstRange_exact by done.
  destruct (decide (has_type r a ∧ has_type l b)) as [[Ha' Hb']|Hn].
  - assert (range_of r a = MkRangeCheck false false) as ->
      by (unfold range_of; f_equal; unfold has_type in Ha'; lia).
    assert (range_of l b = MkRangeCheck false false) as ->
      by (unfold range_of; f_equal; unfold has_type in Hb'; lia).
    destruct o; rewrite Op_exact by (by apply common_both); done.
  - assert (range_check_eqb (range_of r a) (range_of l b) = false) as ->.
    { unfold range_check_eqb, range_of, has_type in *; cbn. lia. }
    unfold range_of, IsUnderflow, IsOverflow, has_type in *.
    destruct o; cbn; lia.
Qed.

Lemma CommonMax_exact dst src : CommonMax dst src = max dst `min` max src.
Proof.
  unfold CommonMax, IsMaxInRangeForNumericType.
  rewrite compare_exact by apply has_limits.
  pose proof (has_limits dst) as (? & ? & ?). pose proof (has_limits src) as (? & ? & ?).
  cbn [op_spec]. destruct (Z.leb_spec (max src) (max dst)); cbn; rewrite convert_id;
    unfold has_type in *; lia.
Qed.
Lemma CommonMin_exact dst src : CommonMin dst src = lowest dst `max` lowest src.
Proof.
  unfold CommonMin, IsMinInRangeForNumericType.
  rewrite compare_exact by apply has_limits.
  pose proof (has_limits dst) as (? & ? & ?). pose proof (has_limits src) as (? & ? & ?).
  cbn [op_spec]. destruct (Z.leb_spec (lowest dst) (lowest src)); cbn; rewrite convert_id;
    unfold has_type in *; lia.
Qed.

Lemma convert_eqb dst v : (v =? convert dst v) = (lowest dst <=? v) && (v <=? max dst).
Proof.
  pose proof (convert_range dst v) as Hc. unfold has_type in Hc.
  destruct (decide (has_type dst v)) as [Hv|Hv].
  - rewrite convert_id by done. unfold has_type in Hv. lia.
  - unfold has_type in Hv. lia.
Qed.

(** Conversion picks the value of the type that is congruent. *)
Lemma convert_unique t x y k :
  has_type t y → x = y + k * 2 ^ (sizeof t * 8) → convert t x = y.
Proof.
  intros Hy ->. rewrite <-(convert_id t y) at 2 by done. unfold convert.
  replace (y + k * 2 ^ (sizeof t * 8) - lowest t)
    with (y - lowest t + k * 2 ^ (sizeof t * 8)) by lia.
  rewrite Z.mod_add; [done|]. by destruct t.
Qed.

(** Two's complement: the negative values are the largest unsigned ones. *)
Lemma signed_limits t :
  is_signed t = true →
  lowest t = - (max t + 1) ∧ max (make_unsigned t) = 2 * max t + 1
  ∧ lowest (make_unsigned t) = 0 ∧ 2 ^ (sizeof (make_unsigned t) * 8) = 2 * (max t + 1).
Proof. by destruct t. Qed.

Lemma as_unsigned_spec t v :
  is_signed t = true → has_type t v →
  as_unsigned t v = if v <? 0 then v + 2 * (max t + 1) else v.
Proof.
  intros Ht Hv. destruct (signed_limits t Ht) as (Hl & Hm & Hl0 & Hp). unfold has_type in Hv.
  apply (convert_unique _ _ _ (if v <? 0 then -1 else 0)).
  - unfold has_type. rewrite Hm, Hl0. destruct (Z.ltb_spec v 0); lia.
  - rewrite Hp. destruct (v <? 0); lia.
Qed.

Lemma range_exact dst src v :
  has_type src v →
  IsValueInRangeForNumericType dst src v = (lowest dst <=? v) && (v <=? max dst).
Proof.
  intros Hv. unfold IsValueInRangeForNumericType, IsValueInRangeFastOp, IsTypeInRangeForNumericType.
  destruct (is_signed src && negb (StaticDstRangeRelationToSrcRange dst src)) eqn:Hf.
  - apply andb_true_iff in Hf as [Hs Hn]. rewrite contained_spec in Hn.
    destruct (is_signed dst) eqn:Hd.
    + rewrite Op_exact by (apply common_same_sign; [congruence|auto using convert_range]).
      apply convert_eqb.
    + pose proof (has_limits src) as (? & ? & ?). pose proof (has_limits dst) as (? & ? & ?).
      pose proof (lowest_unsigned dst Hd). destruct (signed_limits src Hs) as [? _].
      unfold has_type in *.
      rewrite CommonMax_exact, !as_unsigned_spec by (done || unfold has_type; lia).
      cbn [op_spec]. destruct (Z.ltb_spec v 0), (Z.ltb_spec (max src `min` max dst) 0); lia.
  - rewrite DstRange_exact by done. unfold IsValid, range_of; cbn. lia.
Qed.

Lemma range_true dst src v :
  has_type src v → IsValueInRangeForNumericType dst src v = true ↔ has_type dst v.
Proof. intros. rewrite range_exact by done. unfold has_type. lia. Qed.

(** Saturation is clamping, in both implementations. *)
Lemma saturated_clamp constant dst src v :
  has_type src v → saturated_cast constant dst src v = lowest dst `max` v `min` max dst.
Proof.
  intros Hv. pose proof (has_limits dst) as (? & ? & ?). pose proof (has_limits src) as (? & ? & ?).
  destruct constant; cbn [saturated_cast].
  - unfold saturated_cast_impl. rewrite DstRange_exact by done. cbn.
    destruct (Z.ltb_spec (max dst) v), (Z.ltb_spec v (lowest dst)); cbn; try lia.
    rewrite convert_id by (unfold has_type; lia). lia.
  - unfold SaturateFastOp. rewrite range_exact by done.
    destruct ((lowest dst <=? v) && (v <=? max dst)) eqn:Hr.
    + rewrite convert_id by (unfold has_type; lia). lia.
    + unfold CommonMaxOrMin, IsMaxInRangeForNumericType, IsMinInRangeForNumericType.
      rewrite !compare_exact by apply has_limits.
      rewrite CommonMax_exact, CommonMin_exact. cbn [op_spec].
      unfold has_type in *.
      assert (IsValueNegative src v = (v <? 0)) as ->.
      { unfold IsValueNegative. destruct (is_signed src) eqn:Hs; [done|].
        pose proof (lowest_unsigned src Hs). lia. }
      destruct ((max src <=? max dst) || negb (lowest dst <=? lowest src) && (v <? 0)) eqn:Hm; lia.
Qed.

(** A type that holds the values of both operands, when there is one of at
    most 64 bits; otherwise the wider of the two. *)
Lemma promotion_spec l r :
  ∃ p c, BigEnoughPromotion l r = Some (p, c)
    ∧ (c = true → StaticDstRangeRelationToSrcRange p l = true
                  ∧ StaticDstRangeRelationToSrcRange p r = true).
Proof. destruct l, r; do 2 eexists; (split; [reflexivity|by intros]). Qed.

Lemma SafeCompare_exact o l r a b :
  has_type l a → has_type r b → SafeCompare o l r a b = Some (op_spec o a b).
Proof.
  intros Ha Hb. unfold SafeCompare. destruct (promotion_spec l r) as (p & c & -> & Hc).
  cbn. destruct c; f_equal; [|by apply compare_exact]. destruct (Hc eq_refl) as [Hl Hr].
  rewrite !convert_id by eauto using contained_type.
  apply compare_exact; eauto using contained_type.
Qed.

(** The [checked_cast] returns the value or stops the process. *)
Lemma checked_exact dst src v :
  has_type src v →
  checked_cast dst src v
    = if (lowest dst <=? v) && (v <=? max dst) then Ret v else Abort "HandleFailure".
Proof.
  intros Hv. unfold checked_cast. rewrite range_exact by done.
  destruct ((lowest dst <=? v) && (v <=? max dst)) eqn:Hr; [|done].
  rewrite convert_id; [done|]. unfold has_type. lia.
Qed.
