(* ===== verification/CheckedMath.v ===== *)
(** Integer arithmetic that knows when it has overflowed
    (libs/webrtc/include/base/numerics/checked_math.h, checked_math_impl.h,
    safe_math_shared_impl.h and safe_math_clang_gcc_impl.h of Chromium base),
    for the integer types.

    The templates choose the algorithm from the types and from the compiler;
    both are arguments here.  The ARM assembler versions are not modelled.
    [intptr_t] has 64 bits. *)

From S2P Require Import Prelude.
From S2P Require Import SafeNumerics NumericRange.

(** ** The operators of C++ *)

Inductive arith_op : Set := AddOp | SubOp | MulOp | DivOp | ModOp.

#[export] Instance arith_op_eq_dec : EqDecision arith_op.
Proof. solve_decision. Defined.

Definition arith_spec (o : arith_op) (x y : Z) : Z :=
  match o with
  | AddOp => x + y | SubOp => x - y | MulOp => x * y
  | DivOp => Z.quot x y | ModOp => Z.rem x y
  end.

Definition in_rangeb (t : int_type) (x : Z) : bool := (lowest t <=? x) && (x <=? max t).

(** An operator on operands of two types: both are converted to the common type;
    unsigned results wrap around, signed results out of range, and signed
    remainders whose quotient is out of range, are undefined. *)
Definition arith (o : arith_op) (t1 t2 : int_type) (x y : Z) : outcome Z :=
  let t := common_type t1 t2 in
  let a := convert t x in
  let b := convert t y in
  if bool_decide (o = DivOp ∨ o = ModOp) && (b =? 0) then Undef DivisionByZero
  else if is_signed t then
    let checked := if decide (o = ModOp) then Z.quot a b else arith_spec o a b in
    if in_rangeb t checked then Ret (arith_spec o a b) else Undef SignedOverflow
  else Ret (convert t (arith_spec o a b)).

(** [x << n] and [x >> n] for operands that are promoted separately. *)
Definition shl (t : int_type) (x n : Z) : outcome Z :=
  let p := promote t in
  _ ← require ((0 <=? n) && (n <? IntegerBitsPlusSign p)) BadShift;
  if is_signed p then
    _ ← require ((0 <=? x) && (x * 2 ^ n <=? max (make_unsigned p))) BadShift;
    Ret (convert p (x * 2 ^ n))
  else Ret (convert p (x * 2 ^ n)).
Definition shr (t : int_type) (x n : Z) : outcome Z :=
  let p := promote t in
  _ ← require ((0 <=? n) && (n <? IntegerBitsPlusSign p)) BadShift;
  Ret (Z.shiftr x n).

(** A type chosen by a template; a missing specialisation does not compile. *)
Definition chosen {A B} (o : option A) (f : A → outcome B) : outcome B :=
  match o with Some a => f a | None => Abort "no such type" end.

(** ** The compiler's overflow checks *)

Inductive compiler : Set := Portable | Gcc | Clang.

(** [is_supported] of [CheckedAddFastOp], [CheckedSubFastOp] and
    [CheckedMulFastOp]. *)
Definition CheckedAddFastOp_is_supported (c : compiler) : bool :=
  match c with Portable => false | Gcc | Clang => true end.
Definition CheckedSubFastOp_is_supported (c : compiler) : bool :=
  match c with Portable => false | Gcc | Clang => true end.
Definition CheckedMulFastOp_is_supported (c : compiler) (t u : int_type) : bool :=
  match c with
  | Portable => false
  | Gcc => true
  | Clang =>
      (IsTypeInRangeForNumericType int64_t t && IsTypeInRangeForNumericType int64_t u)
      || (IsTypeInRangeForNumericType uint64_t t && IsTypeInRangeForNumericType uint64_t u)
  end.

(** [__builtin_add_overflow] and the others store the result of infinite
    precision, wrapped around to the type of the destination, and answer whether
    that changed it. *)
Definition builtin_overflow (o : arith_op) (v : int_type) (x y : Z) : bool * Z :=
  (negb (in_rangeb v (arith_spec o x y)), convert v (arith_spec o x y)).

(** [Do] of the three: whether it succeeded, and what it stored. *)
Definition FastOp_Do (o : arith_op) (v : int_type) (x y : Z) : bool * Z :=
  let '(overflow, result) := builtin_overflow o v x y in (negb overflow, result).

(** ** The portable checks *)

Definition CheckedAddImpl (t : int_type) (x y : Z) : outcome (bool * Z) :=
  let UnsignedDst := make_unsigned t in
  let SignedDst := make_signed t in
  let ux := convert UnsignedDst x in
  let uy := convert UnsignedDst y in
  sum ← arith AddOp UnsignedDst UnsignedDst ux uy;
  let uresult := convert UnsignedDst sum in
  Ret (if is_signed t
       then Op GeOp SignedDst int32_t
              (convert SignedDst (Z.land (Z.lxor uresult ux) (Z.lxor uresult uy))) 0
       else Op GeOp UnsignedDst UnsignedDst uresult uy,
       convert t uresult).

Definition CheckedSubImpl (t : int_type) (x y : Z) : outcome (bool * Z) :=
  let UnsignedDst := make_unsigned t in
  let SignedDst := make_signed t in
  let ux := convert UnsignedDst x in
  let uy := convert UnsignedDst y in
  difference ← arith SubOp UnsignedDst UnsignedDst ux uy;
  let uresult := convert UnsignedDst difference in
  Ret (if is_signed t
       then Op GeOp SignedDst int32_t
              (convert SignedDst (Z.land (Z.lxor uresult ux) (Z.lxor ux uy))) 0
       else Op GeOp t t x y,
       convert t uresult).

Definition CheckedMulImpl (t : int_type) (x y : Z) : outcome (bool * Z) :=
  let UnsignedDst := make_unsigned t in
  let SignedDst := make_signed t in
  let ux := SafeUnsignedAbs t x in
  let uy := SafeUnsignedAbs t y in
  product ← arith MulOp UnsignedDst UnsignedDst ux uy;
  let uresult := convert UnsignedDst product in
  let is_negative :=
    is_signed t && Op LtOp SignedDst int32_t (convert SignedDst (Z.lxor x y)) 0 in
  signed_result ← (if is_negative then arith SubOp int32_t UnsignedDst 0 uresult
                   else Ret uresult);
  valid ← (if Op LeOp UnsignedDst UnsignedDst uy
                (convert UnsignedDst (Z.b2z (negb (is_signed t) || is_negative)))
           then Ret true
           else
             let common := common_type t UnsignedDst in
             bound ← arith AddOp t UnsignedDst (max t)
                       (convert UnsignedDst (Z.b2z is_negative));
             quotient ← arith DivOp common UnsignedDst bound uy;
             Ret (Op LeOp UnsignedDst (common_type common UnsignedDst) ux quotient));
  Ret (valid, convert t signed_result).

(** ** The operations

    [Do] takes what [*result] holds and gives the answer and what [*result]
    holds then; [t] and [u] are the types of the operands, [v] that of the
    result. *)

Definition SumPromotion (t u : int_type) : option int_type :=
  FastPromotion ← FastIntegerArithmeticPromotion t u;
  if IntegerBitsPlusSign int64_t <? IntegerBitsPlusSign FastPromotion
  then fst <$> BigEnoughPromotion t u else Some FastPromotion.

Definition CheckedAddOp_Do (c : compiler) (t u v : int_type) (x y result : Z)
    : outcome (bool * Z) :=
  if CheckedAddFastOp_is_supported c then Ret (FastOp_Do AddOp v x y)
  else chosen (SumPromotion t u) (λ Promotion,
    if negb (IsValueInRangeForNumericType Promotion t x)
       || negb (IsValueInRangeForNumericType Promotion u y)
    then Ret (false, result)
    else
      '(is_valid, presult) ←
        (if IsIntegerArithmeticSafe Promotion t u then
           sum ← arith AddOp Promotion Promotion (convert Promotion x) (convert Promotion y);
           Ret (true, convert Promotion sum)
         else CheckedAddImpl Promotion (convert Promotion x) (convert Promotion y));
      Ret (is_valid && IsValueInRangeForNumericType v Promotion presult, convert v presult)).

Definition CheckedSubOp_Do (c : compiler) (t u v : int_type) (x y result : Z)
    : outcome (bool * Z) :=
  if CheckedSubFastOp_is_supported c then Ret (FastOp_Do SubOp v x y)
  else chosen (SumPromotion t u) (λ Promotion,
    if negb (IsValueInRangeForNumericType Promotion t x)
       || negb (IsValueInRangeForNumericType Promotion u y)
    then Ret (false, result)
    else
      '(is_valid, presult) ←
        (if IsIntegerArithmeticSafe Promotion t u then
           difference ← arith SubOp Promotion Promotion (convert Promotion x) (convert Promotion y);
           Ret (true, convert Promotion difference)
         else CheckedSubImpl Promotion (convert Promotion x) (convert Promotion y));
      Ret (is_valid && IsValueInRangeForNumericType v Promotion presult, convert v presult)).

Definition CheckedMulOp_Do (c : compiler) (t u v : int_type) (x y result : Z)
    : outcome (bool * Z) :=
  if CheckedMulFastOp_is_supported c t u then Ret (FastOp_Do MulOp v x y)
  else chosen (FastIntegerArithmeticPromotion t u) (λ Promotion,
    if (negb (IsValueInRangeForNumericType Promotion t x)
        || negb (IsValueInRangeForNumericType Promotion u y))
       && negb (x =? 0) && negb (y =? 0)
    then Ret (false, result)
    else
      '(is_valid, presult) ←
        (if CheckedMulFastOp_is_supported c Promotion Promotion
         then Ret (FastOp_Do MulOp Promotion (convert Promotion x) (convert Promotion y))
         else if IsIntegerArithmeticSafe Promotion t u then
           product ← arith MulOp Promotion Promotion (convert Promotion x) (convert Promotion y);
           Ret (true, convert Promotion product)
         else CheckedMulImpl Promotion (convert Promotion x) (convert Promotion y));
      Ret (is_valid && IsValueInRangeForNumericType v Promotion presult, convert v presult)).

Definition CheckedDivOp_Do (t u v : int_type) (x y result : Z) : outcome (bool * Z) :=
  if y =? 0 then Ret (false, result)
  else chosen (BigEnoughPromotion t u) (λ '(Promotion, _),
    if is_signed t && is_signed u && IsTypeInRangeForNumericType t Promotion
       && Op EqOp Promotion Promotion (convert Promotion x) (lowest Promotion)
       && Op EqOp u u y (convert u (-1))
    then Ret (false, result)
    else if (negb (IsValueInRangeForNumericType Promotion t x)
             || negb (IsValueInRangeForNumericType Promotion u y)) && negb (x =? 0)
    then Ret (false, result)
    else
      quotient ← arith DivOp Promotion Promotion (convert Promotion x) (convert Promotion y);
      let presult := convert Promotion quotient in
      Ret (IsValueInRangeForNumericType v Promotion presult, convert v presult)).

Definition CheckedModOp_Do (t u v : int_type) (x y result : Z) : outcome (bool * Z) :=
  chosen (BigEnoughPromotion t u) (λ '(Promotion, _),
    if negb (y =? 0) then
      remainder ← arith ModOp Promotion Promotion (convert Promotion x) (convert Promotion y);
      let presult := convert Promotion remainder in
      Ret (IsValueInRangeForNumericType v Promotion presult, convert v presult)
    else Ret (false, result)).

Definition CheckedLshOp_Do (t u v : int_type) (x shift result : Z) : outcome (bool * Z) :=
  if negb (IsValueNegative t x)
     && Op LtOp (make_unsigned u) uint32_t (as_unsigned u shift) (as_unsigned int32_t (digits t))
  then
    shifted ← shl (make_unsigned t) (as_unsigned t x) shift;
    let result := convert v shifted in
    back ← shr v result shift;
    Ret (Op EqOp (promote v) t back x, result)
  else
    Ret (is_signed t && (x =? 0)
         && Op EqOp (make_unsigned u) uint32_t (as_unsigned u shift) (as_unsigned int32_t (digits t)),
         result).

Definition CheckedRshOp_Do (t u v : int_type) (x shift result : Z) : outcome (bool * Z) :=
  if Op LtOp (make_unsigned u) int32_t (as_unsigned u shift) (IntegerBitsPlusSign t) then
    shifted ← shr t x shift;
    let tmp := convert t shifted in
    Ret (IsValueInRangeForNumericType v t tmp, convert v tmp)
  else Ret (false, result).

Definition BitwiseResult (t u : int_type) : int_type := make_unsigned (MaxExponentPromotion t u).

Definition CheckedAndOp_Do (t u v : int_type) (x y result : Z) : outcome (bool * Z) :=
  let result_type := BitwiseResult t u in
  let tmp := convert result_type (Z.land (convert result_type x) (convert result_type y)) in
  Ret (IsValueInRangeForNumericType v result_type tmp, convert v tmp).
Definition CheckedOrOp_Do (t u v : int_type) (x y result : Z) : outcome (bool * Z) :=
  let result_type := BitwiseResult t u in
  let tmp := convert result_type (Z.lor (convert result_type x) (convert result_type y)) in
  Ret (IsValueInRangeForNumericType v result_type tmp, convert v tmp).
Definition CheckedXorOp_Do (t u v : int_type) (x y result : Z) : outcome (bool * Z) :=
  let result_type := BitwiseResult t u in
  let tmp := convert result_type (Z.lxor (convert result_type x) (convert result_type y)) in
  Ret (IsValueInRangeForNumericType v result_type tmp, convert v tmp).

Definition CheckedMaxOp_Do (t u v : int_type) (x y result : Z) : outcome (bool * Z) :=
  let result_type := MaxExponentPromotion t u in
  let tmp := if compare_test GtOp t u x y then convert result_type x else convert result_type y in
  Ret (IsValueInRangeForNumericType v result_type tmp, convert v tmp).
Definition CheckedMinOp_Do (t u v : int_type) (x y result : Z) : outcome (bool * Z) :=
  let result_type := LowestValuePromotion t u in
  let tmp := if compare_test LtOp t u x y then convert result_type x else convert result_type y in
  Ret (IsValueInRangeForNumericType v result_type tmp, convert v tmp).

(** The templates that [MathWrapper] chooses from, and their [result_type]. *)
Inductive math_op : Set :=
| CheckedAddOp | CheckedSubOp | CheckedMulOp | CheckedDivOp | CheckedModOp
| CheckedLshOp | CheckedRshOp | CheckedAndOp | CheckedOrOp | CheckedXorOp
| CheckedMaxOp | CheckedMinOp.

Definition result_type (m : math_op) (t u : int_type) : int_type :=
  match m with
  | CheckedLshOp | CheckedRshOp => t
  | CheckedAndOp | CheckedOrOp | CheckedXorOp => BitwiseResult t u
  | CheckedMinOp => LowestValuePromotion t u
  | _ => MaxExponentPromotion t u
  end.

Definition Math_Do (c : compiler) (m : math_op) (t u v : int_type) (x y result : Z)
    : outcome (bool * Z) :=
  match m with
  | CheckedAddOp => CheckedAddOp_Do c t u v x y result
  | CheckedSubOp => CheckedSubOp_Do c t u v x y result
  | CheckedMulOp => CheckedMulOp_Do c t u v x y result
  | CheckedDivOp => CheckedDivOp_Do t u v x y result
  | CheckedModOp => CheckedModOp_Do t u v x y result
  | CheckedLshOp => CheckedLshOp_Do t u v x y result
  | CheckedRshOp => CheckedRshOp_Do t u v x y result
  | CheckedAndOp => CheckedAndOp_Do t u v x y result
  | CheckedOrOp => CheckedOrOp_Do t u v x y result
  | CheckedXorOp => CheckedXorOp_Do t u v x y result
  | CheckedMaxOp => CheckedMaxOp_Do t u v x y result
  | CheckedMinOp => CheckedMinOp_Do t u v x y result
  end.

(** ** CheckedNumericState and CheckedNumeric

    For integers, [WellDefinedConversionOrZero] always converts. *)

Record CheckedNumeric : Set := MkChecked { is_valid_ : bool; value_ : Z }.

Definition WellDefinedConversionOrZero (t : int_type) (value : Z) : Z := convert t value.
Definition CheckedNumericState_new (t src : int_type) (value : Z) (is_valid : bool)
    : CheckedNumeric :=
  MkChecked (is_valid && IsValueInRangeForNumericType t src value)
    (WellDefinedConversionOrZero t value).
Definition CheckedNumericState_of (t src : int_type) (value : Z) : CheckedNumeric :=
  MkChecked (IsValueInRangeForNumericType t src value) (WellDefinedConversionOrZero t value).

(** [CheckedNumeric<T>(value)] and [CheckedNumeric<T>(rhs)]. *)
Definition CheckedNumeric_of (t src : int_type) (value : Z) : CheckedNumeric :=
  CheckedNumericState_of t src value.
Definition IsValid_as (dst t : int_type) (a : CheckedNumeric) : bool :=
  is_valid_ a && IsValueInRangeForNumericType dst t (value_ a).
Definition CheckedNumeric_copy (t src : int_type) (rhs : CheckedNumeric) : CheckedNumeric :=
  CheckedNumericState_new t src (value_ rhs) (IsValid_as src src rhs).
Definition Cast (dst t : int_type) (a : CheckedNumeric) : CheckedNumeric :=
  CheckedNumeric_copy dst t a.

(** Whether it succeeded, and what [*result] holds then. *)
Definition AssignIfValid (dst t : int_type) (a : CheckedNumeric) (result : Z) : bool * Z :=
  if IsValid_as dst t a then (true, convert dst (value_ a)) else (false, result).
Definition ValueOrDie (dst t : int_type) (a : CheckedNumeric) : outcome Z :=
  if IsValid_as dst t a then Ret (convert dst (value_ a)) else Abort "HandleFailure".
Definition ValueOrDefault (dst t src : int_type) (a : CheckedNumeric) (default_value : Z)
    : outcome Z :=
  if IsValid_as dst t a then Ret (convert dst (value_ a))
  else checked_cast dst src default_value.

(** The static [MathOp], whose operands are [CheckedNumeric]s of the types [l]
    and [r], and the one of the assignment operators. *)
Definition MathOp (c : compiler) (m : math_op) (t l r : int_type) (lhs rhs : CheckedNumeric)
    : outcome CheckedNumeric :=
  '(is_valid, result) ←
    (if IsValid_as l l lhs && IsValid_as r r rhs
     then Math_Do c m l r t (value_ lhs) (value_ rhs) 0 else Ret (false, 0));
  Ret (CheckedNumericState_new t t result is_valid).
Definition MathOp_assign (c : compiler) (m : math_op) (t r : int_type) (a rhs : CheckedNumeric)
    : outcome CheckedNumeric :=
  '(is_valid, result) ←
    (if is_valid_ a && IsValid_as r r rhs
     then Math_Do c m t r t (value_ a) (value_ rhs) 0 else Ret (false, 0));
  Ret (CheckedNumericState_new t t result is_valid).

(** [CheckAdd], ..., [CheckMin] of two operands and the operators [+], ..., [^]. *)
Definition CheckMathOp (c : compiler) (m : math_op) (l r : int_type) (lhs rhs : CheckedNumeric)
    : outcome CheckedNumeric :=
  MathOp c m (result_type m l r) l r lhs rhs.

(** ** Unary operators *)

Definition NegateWrapper (t : int_type) (value : Z) : outcome Z :=
  difference ← arith SubOp (make_unsigned t) (make_unsigned t) 0 (convert (make_unsigned t) value);
  Ret (convert t difference).
Definition InvertWrapper (t : int_type) (value : Z) : Z :=
  convert (make_unsigned t) (Z.lnot (convert (promote t) value)).

(** [result] is uninitialised in the code; the subtraction always writes it, as
    both operands have the type of the result. *)
Definition FastRuntimeNegate (c : compiler) (t : int_type) (a : CheckedNumeric)
    : outcome CheckedNumeric :=
  '(success, result) ← CheckedSubOp_Do c t t t 0 (value_ a) 0;
  Ret (CheckedNumericState_new t t result (IsValid_as t t a && success)).
(** [constant]: [MustTreatAsConstexpr] of the value. *)
Definition negate (c : compiler) (constant : bool) (t : int_type) (a : CheckedNumeric)
    : outcome CheckedNumeric :=
  if constant || negb (is_signed t) then
    n ← NegateWrapper t (value_ a);
    Ret (CheckedNumericState_new t t n
           (IsValid_as t t a && (negb (is_signed t) || Op NeOp t t n (lowest t))))
  else FastRuntimeNegate c t a.
Definition invert (t : int_type) (a : CheckedNumeric) : CheckedNumeric :=
  CheckedNumeric_copy t (make_unsigned t)
    (CheckedNumericState_new (make_unsigned t) (make_unsigned t)
       (InvertWrapper t (value_ a)) (IsValid_as t t a)).
Definition Abs (c : compiler) (constant : bool) (t : int_type) (a : CheckedNumeric)
    : outcome CheckedNumeric :=
  if negb (IsValueNegative t (value_ a)) then Ret a else negate c constant t a.
Definition UnsignedAbs (t : int_type) (a : CheckedNumeric) : CheckedNumeric :=
  CheckedNumericState_new (make_unsigned t) (make_unsigned t)
    (SafeUnsignedAbs t (value_ a)) (is_valid_ a).
(** [Max] and [Min]: the conditional has the common type of its arms. *)
Definition Max (t u : int_type) (a rhs : CheckedNumeric) : CheckedNumeric :=
  let result_type := result_type CheckedMaxOp t u in
  let arm := if compare_test GtOp t u (value_ a) (value_ rhs) then value_ a else value_ rhs in
  CheckedNumericState_new result_type result_type
    (convert result_type (convert (common_type t u) arm)) (is_valid_ a && IsValid_as u u rhs).
Definition Min (t u : int_type) (a rhs : CheckedNumeric) : CheckedNumeric :=
  let result_type := result_type CheckedMinOp t u in
  let arm := if compare_test LtOp t u (value_ a) (value_ rhs) then value_ a else value_ rhs in
  CheckedNumericState_new result_type result_type
    (convert result_type (convert (common_type t u) arm)) (is_valid_ a && IsValid_as u u rhs).

(** [++] and [--], before and after: the new state and the result. *)
Definition increment (c : compiler) (t : int_type) (a : CheckedNumeric) : outcome CheckedNumeric :=
  MathOp_assign c CheckedAddOp t int32_t a (CheckedNumeric_of int32_t int32_t 1).
Definition decrement (c : compiler) (t : int_type) (a : CheckedNumeric) : outcome CheckedNumeric :=
  MathOp_assign c CheckedSubOp t int32_t a (CheckedNumeric_of int32_t int32_t 1).
Definition post_increment (c : compiler) (t : int_type) (a : CheckedNumeric)
    : outcome (CheckedNumeric * CheckedNumeric) :=
  b ← increment c t a; Ret (b, a).
Definition post_decrement (c : compiler) (t : int_type) (a : CheckedNumeric)
    : outcome (CheckedNumeric * CheckedNumeric) :=
  b ← decrement c t a; Ret (b, a).

(** Pointer arithmetic with a [StrictNumeric] of type [r]; pointers have 64
    bits. *)
Definition pointer_add (c : compiler) (r : int_type) (size lhs rhs : Z) : outcome Z :=
  product ← CheckMathOp c CheckedMulOp uint64_t r (CheckedNumeric_of uint64_t uint64_t size)
              (CheckedNumeric_of r r rhs);
  let p := result_type CheckedMulOp uint64_t r in
  sum ← CheckMathOp c CheckedAddOp uint64_t p (CheckedNumeric_of uint64_t uint64_t lhs) product;
  ValueOrDie uint64_t (result_type CheckedAddOp uint64_t p) sum.
Definition pointer_sub (c : compiler) (r : int_type) (size lhs rhs : Z) : outcome Z :=
  product ← CheckMathOp c CheckedMulOp uint64_t r (CheckedNumeric_of uint64_t uint64_t size)
              (CheckedNumeric_of r r rhs);
  let p := result_type CheckedMulOp uint64_t r in
  difference ← CheckMathOp c CheckedSubOp uint64_t p
                 (CheckedNumeric_of uint64_t uint64_t lhs) product;
  ValueOrDie uint64_t (result_type CheckedSubOp uint64_t p) difference.

(** ** Lemmas on conversions *)

Lemma in_rangeb_true t x : in_rangeb t x = true ↔ has_type t x.
Proof. unfold in_rangeb, has_type. lia. Qed.

Lemma range_in dst src v :
  has_type src v → IsValueInRangeForNumericType dst src v = in_rangeb dst v.
Proof. apply range_exact. Qed.

Lemma convert_congruent t x : ∃ k, convert t x = x + k * 2 ^ (sizeof t * 8).
Proof.
  unfold convert. exists (- ((x - lowest t) / 2 ^ (sizeof t * 8))).
  assert (2 ^ (sizeof t * 8) ≠ 0) by (by destruct t).
  pose proof (Z.div_mod (x - lowest t) (2 ^ (sizeof t * 8))). lia.
Qed.

Lemma convert_eq t x y k : x = y + k * 2 ^ (sizeof t * 8) → convert t x = convert t y.
Proof.
  intros ->. destruct (convert_congruent t y) as [k' Hk].
  apply (convert_unique _ _ _ (k - k')); [apply convert_range|lia].
Qed.

(** Converting to the unsigned type of the same width on the way loses nothing. *)
Lemma sizeof_unsigned t : sizeof (make_unsigned t) = sizeof t.
Proof. by destruct t. Qed.
Lemma convert_unsigned t x : convert t (convert (make_unsigned t) x) = convert t x.
Proof.
  destruct (convert_congruent (make_unsigned t) x) as [k Hk].
  rewrite sizeof_unsigned in Hk. by apply (convert_eq _ _ _ k).
Qed.
Lemma convert_twice t x : convert t (convert t x) = convert t x.
Proof. apply convert_id, convert_range. Qed.

Lemma sizeof_signed t : is_signed t = true → make_signed t = t.
Proof. by destruct t. Qed.

(** The top bit is the sign. *)
Lemma sign_bit t w :
  is_signed t = true → (convert t w <? 0) = Z.testbit w (sizeof t * 8 - 1).
Proof.
  intros Ht. set (n := sizeof t * 8 - 1).
  assert (0 ≤ n) by (by destruct t).
  assert (lowest t = - 2 ^ n ∧ max t = 2 ^ n - 1 ∧ 2 ^ (sizeof t * 8) = 2 * 2 ^ n) as (Hl & Hm & Hp)
    by (by destruct t).
  assert (0 < 2 ^ n) as Hpos by (apply Z.pow_pos_nonneg; lia).
  pose proof (Z.testbit_spec' w n ltac:(lia)) as Hb.
  pose proof (Z.div_mod w (2 ^ n) ltac:(lia)) as Hw.
  pose proof (Z.mod_pos_bound w (2 ^ n) Hpos) as Hr.
  pose proof (Z.div_mod (w / 2 ^ n) 2 ltac:(lia)) as Hq. rewrite <-Hb in Hq.
  set (q := w / 2 ^ n / 2) in *. set (b := Z.testbit w n) in *.
  rewrite (convert_unique t w (w mod 2 ^ n - Z.b2z b * 2 ^ n) (q + Z.b2z b)).
  - destruct b; cbn; lia.
  - unfold has_type. destruct b; cbn; lia.
  - rewrite Hp. rewrite Hq in Hw. nia.
Qed.

Lemma sign_bit_of t x :
  is_signed t = true →
  Z.testbit (convert (make_unsigned t) x) (sizeof t * 8 - 1) = (convert t x <? 0).
Proof. intros Ht. rewrite <-sign_bit by done. by rewrite convert_unsigned. Qed.

Lemma sign_test t w :
  is_signed t = true →
  Op GeOp (make_signed t) int32_t (convert (make_signed t) w) 0
    = negb (Z.testbit w (sizeof t * 8 - 1)).
Proof.
  intros Ht. rewrite sizeof_signed by done. rewrite <-sign_bit by done.
  rewrite Op_exact.
  - cbn. lia.
  - apply common_same_sign; [done|]. left. apply convert_range.
  - apply common_same_sign; [done|]. left. apply has_type_zero.
Qed.

(** Sums, differences and 64-bit products of unsigned numbers. *)
Lemma arith_unsigned o t x y :
  is_signed t = false → has_type t x → has_type t y →
  o = AddOp ∨ o = SubOp ∨ (o = MulOp ∧ sizeof t = 8) →
  ∃ s, arith o t t x y = Ret s ∧ convert t s = convert t (arith_spec o x y).
Proof.
  intros Ht Hx Hy Ho. unfold arith.
  rewrite !convert_id by (apply common_self; done).
  assert (bool_decide (o = DivOp ∨ o = ModOp) = false) as ->
    by (apply bool_decide_eq_false; naive_solver).
  rewrite decide_False by naive_solver. cbn [andb].
  destruct (is_signed (common_type t t)) eqn:Hc.
  - assert (in_rangeb (common_type t t) (arith_spec o x y) = true) as ->; [|by eexists].
    apply in_rangeb_true. destruct Ho as [-> | [-> | [-> Hs]]]; destruct t; try done; cbn;
      revert Hx Hy; limits.
  - eexists. split; [done|]. assert (common_type t t = t) as -> by (by destruct t).
    apply convert_twice.
Qed.

(** ** The portable checks decide whether the exact result fits *)

Ltac signs :=
  repeat match goal with |- context [?a <? 0] => destruct (Z.ltb_spec a 0) end; cbn; lia.

(** The wrapped sum or difference is less than one turn away. *)
Lemma turn t r :
  is_signed t = true → 2 * lowest t ≤ r ≤ 2 * max t + 1 →
  ∃ k, convert t r = r + k * (2 * (max t + 1)) ∧ -1 ≤ k ≤ 1.
Proof.
  intros Ht Hr. destruct (convert_congruent t r) as [k Hk].
  destruct (signed_limits t Ht) as (Hl & _ & _ & Hp). rewrite sizeof_unsigned in Hp.
  pose proof (convert_range t r) as Hc. unfold has_type in Hc.
  pose proof (has_limits t). rewrite Hp in Hk. exists k. split; [lia|]. nia.
Qed.

Lemma CheckedAddImpl_exact t x y :
  has_type t x → has_type t y →
  CheckedAddImpl t x y = Ret (in_rangeb t (x + y), convert t (x + y)).
Proof.
  intros Hx Hy. unfold CheckedAddImpl. set (d := make_unsigned t).
  assert (is_signed d = false) as Hd by (by destruct t).
  destruct (arith_unsigned AddOp d (convert d x) (convert d y)) as (s & -> & Hs);
    auto using convert_range. cbn [mbind outcome_bind arith_spec] in *. rewrite Hs.
  destruct (convert_congruent d x) as [k Hk], (convert_congruent d y) as [l Hl].
  assert (convert d (convert d x + convert d y) = convert d (x + y)) as Hsum
    by (apply (convert_eq _ _ _ (k + l)); lia).
  rewrite Hsum. unfold d. rewrite convert_unsigned. f_equal. f_equal.
  destruct (is_signed t) eqn:Ht.
  - rewrite sign_test, Z.land_spec, !Z.lxor_spec, !sign_bit_of, !(convert_id t x), !(convert_id t y)
      by done.
    destruct (signed_limits t Ht) as [Hl' _]. unfold in_rangeb, has_type in *.
    pose proof (convert_range t (x + y)) as Hr. unfold has_type in Hr.
    destruct (turn t (x + y)) as (q & Hq & Hq'); [done|lia|].
    assert (q = -1 ∨ q = 0 ∨ q = 1) as [-> | [-> | ->]] by lia; signs.
  - assert (make_unsigned t = t) as -> by (by destruct t).
    rewrite Op_same, (convert_id t y) by auto using convert_range. cbn [op_spec].
    pose proof (lowest_unsigned t Ht). pose proof (convert_range t (x + y)) as Hr.
    pose proof (lowest_max t). destruct (convert_congruent t (x + y)) as [q Hq].
    unfold in_rangeb, has_type in *.
    assert (q = 0 ∨ q = -1) as [-> | ->] by nia; lia.
Qed.

Lemma CheckedSubImpl_exact t x y :
  has_type t x → has_type t y →
  CheckedSubImpl t x y = Ret (in_rangeb t (x - y), convert t (x - y)).
Proof.
  intros Hx Hy. unfold CheckedSubImpl. set (d := make_unsigned t).
  assert (is_signed d = false) as Hd by (by destruct t).
  destruct (arith_unsigned SubOp d (convert d x) (convert d y)) as (s & -> & Hs);
    auto using convert_range. cbn [mbind outcome_bind arith_spec] in *. rewrite Hs.
  destruct (convert_congruent d x) as [k Hk], (convert_congruent d y) as [l Hl].
  assert (convert d (convert d x - convert d y) = convert d (x - y)) as Hsum
    by (apply (convert_eq _ _ _ (k - l)); lia).
  rewrite Hsum. unfold d. rewrite convert_unsigned. f_equal. f_equal.
  destruct (is_signed t) eqn:Ht.
  - rewrite sign_test, Z.land_spec, !Z.lxor_spec, !sign_bit_of, !(convert_id t x), !(convert_id t y)
      by done.
    destruct (signed_limits t Ht) as [Hl' _]. unfold in_rangeb, has_type in *.
    pose proof (convert_range t (x - y)) as Hr. unfold has_type in Hr.
    destruct (turn t (x - y)) as (q & Hq & Hq'); [done|lia|].
    assert (q = -1 ∨ q = 0 ∨ q = 1) as [-> | [-> | ->]] by lia; signs.
  - rewrite Op_same by done. cbn [op_spec]. pose proof (lowest_unsigned t Ht).
    unfold in_rangeb, has_type in *. lia.
Qed.

Lemma SafeUnsignedAbs_exact t x : has_type t x → SafeUnsignedAbs t x = Z.abs x.
Proof.
  intros Hx. unfold SafeUnsignedAbs, IsValueNegative. set (d := make_unsigned t).
  destruct (is_signed t) eqn:Ht.
  - destruct (signed_limits t Ht) as (Hl & Hm & Hl0 & Hp). unfold has_type in Hx.
    destruct (convert_congruent d x) as [k Hk].
    assert (has_type d (Z.abs x)) as Ha by (unfold has_type, d; rewrite Hm, Hl0; lia).
    destruct (Z.ltb_spec x 0).
    + apply (convert_unique _ _ _ (- k)); [done|lia].
    + rewrite <-(convert_id d (Z.abs x)) by done. f_equal. lia.
  - pose proof (lowest_unsigned t Ht). assert (d = t) as -> by (by destruct t).
    rewrite convert_id by done. unfold has_type in Hx. lia.
Qed.

Lemma sign_differs t x y :
  is_signed t = true → has_type t x → has_type t y →
  Op LtOp (make_signed t) int32_t (convert (make_signed t) (Z.lxor x y)) 0
    = xorb (x <? 0) (y <? 0).
Proof.
  intros Ht Hx Hy. rewrite sizeof_signed by done. rewrite Op_exact.
  - cbn [op_spec]. rewrite sign_bit, Z.lxor_spec, <-!sign_bit, !convert_id by done. done.
  - apply common_same_sign; [done|]. left. apply convert_range.
  - apply common_same_sign; [done|]. left. apply has_type_zero.
Qed.

(** What the result of a product of absolute values is after the sign is put
    back. *)
Lemma signed_product t (is_negative : bool) u p :
  sizeof t = 8 → convert (make_unsigned t) u = convert (make_unsigned t) (Z.abs p) →
  is_negative = (p <? 0) ∨ p = 0 →
  ∃ r, (if is_negative then arith SubOp int32_t (make_unsigned t) 0 (convert (make_unsigned t) u)
        else Ret (convert (make_unsigned t) u)) = Ret r
    ∧ convert t r = convert t p.
Proof.
  intros Hs Hu Hn. set (d := make_unsigned t) in *.
  destruct (convert_congruent d (Z.abs p)) as [k Hk]. rewrite Hu.
  destruct is_negative.
  - eexists. split.
    + unfold arith. assert (common_type int32_t d = d ∧ is_signed d = false) as [-> Hd]
        by (by destruct t).
      rewrite Hd. cbn [bool_decide andb]. rewrite bool_decide_eq_false_2 by naive_solver. done.
    + rewrite (convert_id d 0) by apply has_type_zero. cbn [arith_spec].
      rewrite convert_twice. unfold d. rewrite convert_unsigned. fold d.
      apply (convert_eq _ _ _ (- k)). unfold d in Hk. rewrite sizeof_unsigned in Hk. fold d in Hk.
      lia.
  - eexists. split; [done|]. unfold d. rewrite convert_unsigned. f_equal. lia.
Qed.

Lemma arith_wide o t d x y :
  common_type t d = d → is_signed d = false → has_type d x → has_type d y →
  has_type d (arith_spec o x y) → (o = DivOp ∨ o = ModOp → y ≠ 0) →
  arith o t d x y = Ret (arith_spec o x y).
Proof.
  intros Hc Hd Hx Hy Hr Hz. unfold arith. cbv zeta. rewrite Hc, Hd, (convert_id d x), (convert_id d y), convert_id by done.
  destruct (bool_decide_reflect (o = DivOp ∨ o = ModOp)) as [Ho|]; [|done].
  specialize (Hz Ho). by destruct (Z.eqb_spec y 0).
Qed.

(** The bound of the absolute values, by one division. *)
Lemma product_bound t (is_negative : bool) ux uy :
  let d := make_unsigned t in
  sizeof t = 8 → (is_negative = true → is_signed t = true) → has_type d ux → has_type d uy →
  (is_signed t = true → ux ≤ max t + 1) →
  (if Op LeOp d d uy (convert d (Z.b2z (negb (is_signed t) || is_negative)))
   then Ret true
   else
     let common := common_type t d in
     bound ← arith AddOp t d (max t) (convert d (Z.b2z is_negative));
     quotient ← arith DivOp common d bound uy;
     Ret (Op LeOp d (common_type common d) ux quotient))
  = Ret (ux * uy <=? max t + Z.b2z is_negative).
Proof.
  intros d Hs Hn Hx Hy Hxs.
  assert (common_type t d = d ∧ common_type d d = d ∧ is_signed d = false) as (Hc & Hdd & Hd)
    by (by destruct t).
  assert (max t + Z.b2z is_negative ≤ max d ∧ 1 < max t ≤ max d ∧ lowest d = 0
          ∧ (is_signed t = false → max t = max d)) as (Hb & [H1 H2] & Hl & Hm)
    by (unfold d; destruct is_negative; [pose proof (Hn eq_refl)|clear Hn];
        destruct t; try done; cbn; repeat split; try done; lia).
  assert (∀ b : bool, has_type d (Z.b2z b)) as Hbit
    by (intros []; unfold has_type; cbn [Z.b2z]; lia).
  rewrite !convert_id by done. rewrite Op_same by done. cbn [op_spec].
  unfold has_type in Hx, Hy.
  destruct (Z.leb_spec uy (Z.b2z (negb (is_signed t) || is_negative))) as [Hle|Hgt].
  - f_equal. symmetry. apply Z.leb_le. destruct (is_signed t), is_negative; cbn in *;
      try specialize (Hxs eq_refl); try specialize (Hm eq_refl); try specialize (Hn eq_refl);
      try done; nia.
  - assert (0 < uy) by (destruct (is_signed t), is_negative; cbn in *; lia).
    assert (0 ≤ Z.b2z is_negative ≤ 1) by (destruct is_negative; cbn; lia).
    cbn zeta. rewrite Hc, Hdd. rewrite arith_wide; cbn [arith_spec]; auto.
    2: unfold has_type; lia.
    2: unfold has_type; lia.
    2: naive_solver.
    assert (0 ≤ max t + Z.b2z is_negative) by (destruct is_negative; cbn; lia).
    cbn [mbind outcome_bind].
    assert (has_type d (Z.quot (max t + Z.b2z is_negative) uy)) as Hq.
    { unfold has_type. rewrite Z.quot_div_nonneg by lia.
      pose proof (Z.div_pos (max t + Z.b2z is_negative) uy).
      pose proof (Z.div_le_upper_bound (max t + Z.b2z is_negative) uy (max d)). nia. }
    rewrite arith_wide; cbn [arith_spec]; auto; try (unfold has_type; lia).
    cbn [mbind outcome_bind]. rewrite Op_same by (unfold has_type in *; lia). cbn [op_spec].
    rewrite Z.quot_div_nonneg by lia. f_equal.
    apply Bool.eq_iff_eq_true. rewrite !Z.leb_le.
    split; [|intros; apply Z.div_le_lower_bound; lia].
    pose proof (Z.mul_div_le (max t + Z.b2z is_negative) uy). nia.
Qed.

Lemma CheckedMulImpl_exact t x y :
  sizeof t = 8 → has_type t x → has_type t y →
  CheckedMulImpl t x y = Ret (in_rangeb t (x * y), convert t (x * y)).
Proof.
  intros Hs Hx Hy. unfold CheckedMulImpl. set (d := make_unsigned t).
  assert (is_signed d = false ∧ sizeof d = 8) as [Hd Hds] by (by destruct t).
  rewrite !SafeUnsignedAbs_exact by done.
  assert (has_type d (Z.abs x) ∧ has_type d (Z.abs y)) as [Hax Hay].
  { destruct (is_signed t) eqn:Ht.
    - destruct (signed_limits t Ht) as (Hl & Hm & Hl0 & Hp). unfold has_type in *.
      unfold d. rewrite Hm, Hl0. lia.
    - pose proof (lowest_unsigned t Ht). assert (d = t) as -> by (by destruct t).
      unfold has_type in *. lia. }
  destruct (arith_unsigned MulOp d (Z.abs x) (Z.abs y)) as (u & -> & Hu); auto.
  cbn [mbind outcome_bind arith_spec] in *. rewrite <-Z.abs_mul in Hu.
  set (neg := is_signed t && _).
  assert (neg = is_signed t && xorb (x <? 0) (y <? 0)) as Hneg.
  { unfold neg. destruct (is_signed t) eqn:Ht; [|done]. by rewrite sign_differs. }
  assert (neg = (x * y <? 0) ∨ x * y = 0) as Hsign.
  { rewrite Hneg. destruct (is_signed t) eqn:Ht.
    - cbn [andb]. destruct (Z.ltb_spec x 0), (Z.ltb_spec y 0); cbn; nia.
    - pose proof (lowest_unsigned t Ht). unfold has_type in *. cbn. nia. }
  destruct (signed_product t neg u (x * y)) as (r & Hr & Hcr); [done..|].
  fold d in Hr. rewrite Hr. cbn [mbind outcome_bind].
  assert (neg = true → is_signed t = true) as Hns
    by (rewrite Hneg; by intros [? _]%andb_true_iff).
  assert (is_signed t = true → Z.abs x ≤ max t + 1) as Hxs.
  { intros Ht. destruct (signed_limits t Ht) as [Hl _]. unfold has_type in Hx. lia. }
  pose proof (product_bound t neg (Z.abs x) (Z.abs y) Hs Hns Hax Hay Hxs) as Hbound.
  cbn zeta in Hbound |- *. fold d in Hbound. rewrite Hbound.
  cbn [mbind outcome_bind]. rewrite Hcr. do 2 f_equal.
  pose proof (has_limits t) as (_ & _ & H0).
  unfold in_rangeb. rewrite <-Z.abs_mul.
  destruct (is_signed t) eqn:Ht.
  - destruct (signed_limits t Ht) as (Hl & _). destruct neg; cbn [Z.b2z]; lia.
  - pose proof (lowest_unsigned t Ht). rewrite Hneg. unfold has_type in *. cbn. nia.
Qed.

(** ** The operations *)

(** A product lies between the products of the bounds. *)
Lemma product_corners a b c d l h x y :
  a ≤ x ≤ b → c ≤ y ≤ d → l ≤ a * c ≤ h → l ≤ a * d ≤ h → l ≤ b * c ≤ h → l ≤ b * d ≤ h →
  l ≤ x * y ≤ h.
Proof.
  intros Hx Hy Hac Had Hbc Hbd.
  assert (∀ z, c ≤ z ≤ d → l ≤ a * z ≤ h ∧ l ≤ b * z ≤ h).
  { intros z Hz. destruct (Z.le_gt_cases 0 a), (Z.le_gt_cases 0 b); nia. }
  destruct (Z.le_gt_cases 0 y); specialize (H y Hy); nia.
Qed.

Definition doubled (p t u : int_type) : bool :=
  StaticDstRangeRelationToSrcRange p t && StaticDstRangeRelationToSrcRange p u
  && in_rangeb p (lowest t * lowest u) && in_rangeb p (lowest t * max u)
  && in_rangeb p (max t * lowest u) && in_rangeb p (max t * max u)
  && in_rangeb p (lowest t + lowest u) && in_rangeb p (max t + max u)
  && (negb (is_signed p)
      || in_rangeb p (lowest t - max u) && in_rangeb p (max t - lowest u)).

(** The promotion of sums, differences and products holds every result of
    operands of at most 32 bits, and has 64 bits otherwise. *)
Lemma fast_promotion t u :
  ∃ p, FastIntegerArithmeticPromotion t u = Some p ∧ SumPromotion t u = Some p
    ∧ (if IsIntegerArithmeticSafe p t u
       then doubled p t u = true ∧ max (MaxExponentPromotion t u) + max u ≤ max p
       else sizeof p = 8)
    ∧ ∀ q, BigEnoughPromotion t u = Some (q, true) →
           StaticDstRangeRelationToSrcRange p q = true.
Proof. destruct t, u; eexists; (split; [reflexivity|]); vm_compute;
  (repeat split; try done; by intros q [= <-]). Qed.

Lemma arith_exact o t x y :
  o = AddOp ∨ o = SubOp ∨ o = MulOp →
  has_type t x → has_type t y → has_type t (arith_spec o x y) →
  arith o t t x y = Ret (arith_spec o x y).
Proof.
  intros Ho Hx%common_self Hy%common_self Hr%common_self. unfold arith. cbv zeta.
  rewrite (convert_id _ x), (convert_id _ y), convert_id by done.
  rewrite bool_decide_eq_false_2 by naive_solver. rewrite decide_False by naive_solver.
  cbn [andb]. apply in_rangeb_true in Hr as ->. by destruct (is_signed _).
Qed.

Lemma arith_promoted o p t u x y :
  o = AddOp ∨ o = SubOp ∨ o = MulOp →
  doubled p t u = true → has_type t x → has_type u y →
  ∃ s, arith o p p (convert p x) (convert p y) = Ret s
    ∧ convert p s = convert p (arith_spec o x y)
    ∧ (has_type p (arith_spec o x y) ∨ o = SubOp ∧ is_signed p = false).
Proof.
  intros Ho Hd Hx Hy. unfold doubled in Hd. rewrite !andb_true_iff, !in_rangeb_true in Hd.
  destruct Hd as ((((((((Ht & Hu) & H1) & H2) & H3) & H4) & H5) & H6) & H7).
  rewrite !convert_id by eauto using contained_type.
  destruct (decide (o = SubOp ∧ is_signed p = false)) as [[-> Hp]|Hn].
  - destruct (arith_unsigned SubOp p x y) as (s & -> & Hs);
      [done|eauto using contained_type..|auto|]. by exists s; auto.
  - assert (has_type p (arith_spec o x y)) as Hr.
    { unfold has_type in *. destruct Ho as [-> | [-> | ->]]; cbn [arith_spec].
      - lia.
      - destruct (is_signed p); [|naive_solver]. cbn [negb orb] in H7.
        rewrite andb_true_iff in H7. unfold in_rangeb in H7. lia.
      - eauto using product_corners. }
    exists (arith_spec o x y). rewrite arith_exact by eauto using contained_type. auto.
Qed.

(** What a check promises: it has defined behaviour; if it accepts, it stores
    the exact result [e]; and if the types are [compatible] it accepts whenever
    the result fits. *)
Definition decides (compatible : Prop) (v : int_type) (e : Z) (r : outcome (bool * Z)) : Prop :=
  ∃ b res, r = Ret (b, res) ∧ (b = true → has_type v e ∧ res = e)
    ∧ (compatible → has_type v e → b = true).

(** One type of at most 64 bits holds both operands, and the results. *)
Definition compatible (t u v : int_type) : bool :=
  match BigEnoughPromotion t u with
  | Some (p, true) => StaticDstRangeRelationToSrcRange p v
  | _ => false
  end.

Lemma FastOp_decides P o v x y :
  decides P v (arith_spec o x y) (Ret (FastOp_Do o v x y)).
Proof.
  do 2 eexists. split; [done|]. rewrite negb_involutive, in_rangeb_true.
  split; [|done]. intros Hv. by rewrite convert_id.
Qed.

(** What the computation in the promoted type returns. *)
Inductive promoted (o : arith_op) (p u : int_type) (e : Z) : bool → Z → Prop :=
| promoted_exact : has_type p e → promoted o p u e true e
| promoted_overflow : ¬ has_type p e → promoted o p u e false (convert p e)
| promoted_wrapped : is_signed p = false → - max u ≤ e < 0 → has_type p (e + max p + 1) →
    promoted o p u e true (e + max p + 1).

Lemma promoted_decides o t u v p e b r (P : Prop) :
  promoted o p u e b r → max v ≤ max (MaxExponentPromotion t u) →
  (is_signed p = false → b = true → r ≠ e → max (MaxExponentPromotion t u) + max u ≤ max p) →
  (P → StaticDstRangeRelationToSrcRange p v = true) →
  decides P v e (Ret (b && IsValueInRangeForNumericType v p r, convert v r)).
Proof.
  intros Hp Hv Hw HP. do 2 eexists. split; [done|].
  destruct Hp as [He|He|Hs He Hr]; cbn [andb].
  - rewrite range_in, in_rangeb_true by done. split; [|done]. intros. by rewrite convert_id.
  - split; [done|]. intros Hc%HP Hve. destruct He. eauto using contained_type.
  - rewrite range_in, in_rangeb_true by done. pose proof (has_limits p).
    specialize (Hw Hs eq_refl ltac:(lia)). split.
    + unfold has_type. lia.
    + intros Hc%HP Hve%(contained_type _ _ _ Hc). pose proof (lowest_unsigned p Hs).
      unfold has_type in Hve. lia.
Qed.

Lemma promoted_pair o p u e : promoted o p u e (in_rangeb p e) (convert p e).
Proof.
  destruct (in_rangeb p e) eqn:Hin.
  - apply in_rangeb_true in Hin. rewrite convert_id by done. by constructor.
  - constructor. rewrite <-in_rangeb_true. congruence.
Qed.

Lemma promoted_computes o (impl : int_type → Z → Z → outcome (bool * Z)) t u p x y :
  o = AddOp ∨ o = SubOp ∨ o = MulOp →
  (sizeof p = 8 → ∀ a b, has_type p a → has_type p b →
     impl p a b = Ret (in_rangeb p (arith_spec o a b), convert p (arith_spec o a b))) →
  (if IsIntegerArithmeticSafe p t u
   then doubled p t u = true ∧ max (MaxExponentPromotion t u) + max u ≤ max p
   else sizeof p = 8) →
  has_type t x → has_type u y → has_type p x → has_type p y →
  ∃ b r,
    (if IsIntegerArithmeticSafe p t u
     then s ← arith o p p (convert p x) (convert p y); Ret (true, convert p s)
     else impl p (convert p x) (convert p y)) = Ret (b, r)
    ∧ promoted o p u (arith_spec o x y) b r
    ∧ (is_signed p = false → b = true → r ≠ arith_spec o x y →
       max (MaxExponentPromotion t u) + max u ≤ max p).
Proof.
  intros Ho Himpl Hp Hx Hy Hpx Hpy. destruct (IsIntegerArithmeticSafe p t u).
  - destruct Hp as [Hd Hm].
    destruct (arith_promoted o p t u x y) as (s & -> & Hs & He); [done..|].
    cbn [mbind outcome_bind]. do 2 eexists. split; [done|]. rewrite Hs. split; [|done].
    destruct (decide (has_type p (arith_spec o x y))) as [Hin|Hout].
    + rewrite convert_id by done. by constructor.
    + destruct He as [|[-> Hsp]]; [done|]. cbn [arith_spec] in *.
      pose proof (lowest_unsigned p Hsp) as Hl. pose proof (lowest_max p) as Hpow.
      unfold has_type in Hpx, Hpy, Hout, Hx, Hy. pose proof (has_limits u).
      assert (has_type p (x - y + max p + 1)) as Hw by (unfold has_type; lia).
      rewrite (convert_unique p _ (x - y + max p + 1) (-1)) by (done || lia).
      constructor; [done|lia|done].
  - rewrite Himpl by auto using convert_range. rewrite !convert_id by done.
    do 2 eexists. split; [done|]. split; [apply promoted_pair|].
    intros _ Hb%in_rangeb_true Hne. destruct Hne. by apply convert_id.
Qed.

(** Whether the operation [o] on these types is left to the compiler. *)
Lemma compatible_promotion t u v p :
  (∀ q, BigEnoughPromotion t u = Some (q, true) → StaticDstRangeRelationToSrcRange p q = true) →
  compatible t u v = true →
  StaticDstRangeRelationToSrcRange p t = true ∧ StaticDstRangeRelationToSrcRange p u = true
  ∧ StaticDstRangeRelationToSrcRange p v = true.
Proof.
  unfold compatible. destruct (promotion_spec t u) as (q & c & -> & Hq).
  intros Hp Hv. destruct c; [|done]. specialize (Hp q eq_refl). destruct (Hq eq_refl) as [Ht Hu].
  rewrite !contained_spec in *. lia.
Qed.

Lemma decides_failed (P : Prop) v e result :
  ¬ (P ∧ has_type v e) → decides P v e (Ret (false, result)).
Proof. intros Hn. do 2 eexists. split; [done|]. naive_solver. Qed.

(** A sum or a difference, for either implementation. *)
Lemma sum_decides o impl t u v x y result :
  o = AddOp ∨ o = SubOp →
  (∀ p a b, sizeof p = 8 → has_type p a → has_type p b →
     impl p a b = Ret (in_rangeb p (arith_spec o a b), convert p (arith_spec o a b))) →
  has_type t x → has_type u y → max v ≤ max (MaxExponentPromotion t u) →
  decides (compatible t u v = true) v (arith_spec o x y)
    (chosen (SumPromotion t u) (λ p,
       if negb (IsValueInRangeForNumericType p t x) || negb (IsValueInRangeForNumericType p u y)
       then Ret (false, result)
       else
         '(is_valid, presult) ←
           (if IsIntegerArithmeticSafe p t u
            then s ← arith o p p (convert p x) (convert p y); Ret (true, convert p s)
            else impl p (convert p x) (convert p y));
         Ret (is_valid && IsValueInRangeForNumericType v p presult, convert v presult))).
Proof.
  intros Ho Himpl Hx Hy Hv. destruct (fast_promotion t u) as (p & _ & -> & Hp & Hbig).
  cbn [chosen]. rewrite !range_in by done.
  destruct (in_rangeb p x) eqn:Hpx; [destruct (in_rangeb p y) eqn:Hpy|]; cbn [negb orb].
  - apply in_rangeb_true in Hpx, Hpy.
    destruct (promoted_computes o impl t u p x y) as (b & r & -> & Hr & Hw);
      [naive_solver|auto..|].
    cbn [mbind outcome_bind]. eapply promoted_decides; eauto.
    intros Hc. by eapply compatible_promotion in Hc as (_ & _ & ?).
  - apply decides_failed. intros [Hc _].
    eapply compatible_promotion in Hc as (_ & Hc & _); [|done].
    apply (contained_type _ _ y), in_rangeb_true in Hc; congruence.
  - apply decides_failed. intros [Hc _].
    eapply compatible_promotion in Hc as (Hc & _); [|done].
    apply (contained_type _ _ x), in_rangeb_true in Hc; congruence.
Qed.

Lemma CheckedAddOp_decides c t u v x y result :
  has_type t x → has_type u y → max v ≤ max (MaxExponentPromotion t u) →
  decides (compatible t u v = true) v (x + y) (CheckedAddOp_Do c t u v x y result).
Proof.
  intros. unfold CheckedAddOp_Do. destruct (CheckedAddFastOp_is_supported c).
  - apply (FastOp_decides _ AddOp).
  - apply (sum_decides AddOp CheckedAddImpl); auto using CheckedAddImpl_exact.
Qed.
Lemma CheckedSubOp_decides c t u v x y result :
  has_type t x → has_type u y → max v ≤ max (MaxExponentPromotion t u) →
  decides (compatible t u v = true) v (x - y) (CheckedSubOp_Do c t u v x y result).
Proof.
  intros. unfold CheckedSubOp_Do. destruct (CheckedSubFastOp_is_supported c).
  - apply (FastOp_decides _ SubOp).
  - apply (sum_decides SubOp CheckedSubImpl); auto using CheckedSubImpl_exact.
Qed.

Lemma CheckedMulOp_decides c t u v x y result :
  has_type t x → has_type u y → max v ≤ max (MaxExponentPromotion t u) →
  decides (compatible t u v = true) v (x * y) (CheckedMulOp_Do c t u v x y result).
Proof.
  intros Hx Hy Hv. unfold CheckedMulOp_Do.
  destruct (CheckedMulFastOp_is_supported c t u); [apply (FastOp_decides _ MulOp)|].
  destruct (fast_promotion t u) as (p & -> & _ & Hp & Hbig).
  cbn [chosen]. rewrite !range_in by done.
  destruct (_ && negb (y =? 0)) eqn:Hfail.
  { apply decides_failed. intros [Hc _]. eapply compatible_promotion in Hc as (Ht & Hu & _); [|done].
    apply (contained_type _ _ x), in_rangeb_true in Ht; [|done].
    apply (contained_type _ _ y), in_rangeb_true in Hu; [|done].
    by rewrite Ht, Hu in Hfail. }
  assert (compatible t u v = true → StaticDstRangeRelationToSrcRange p v = true) as Hcv
    by (intros Hc; by eapply compatible_promotion in Hc as (_ & _ & ?)).
  assert (convert p x * convert p y = x * y) as Hprod.
  { destruct (decide (x = 0)) as [->|]; [by rewrite (convert_id p 0) by apply has_type_zero|].
    destruct (decide (y = 0)) as [->|]; [rewrite (convert_id p 0) by apply has_type_zero; lia|].
    rewrite !convert_id; [done|apply in_rangeb_true..];
      destruct (in_rangeb p x), (in_rangeb p y); cbn in Hfail; lia. }
  assert (in_rangeb p (x * y) = true → convert p (x * y) = x * y) as Hid
    by (intros ?%in_rangeb_true; by apply convert_id).
  destruct (CheckedMulFastOp_is_supported c p p).
  - cbn [mbind outcome_bind FastOp_Do builtin_overflow arith_spec].
    rewrite negb_involutive, Hprod.
    eapply promoted_decides; [apply (promoted_pair MulOp p u)|done|..|done]. naive_solver.
  - destruct (IsIntegerArithmeticSafe p t u) eqn:Hsafe.
    + destruct Hp as [Hd Hm].
      destruct (arith_promoted MulOp p t u x y) as (s & -> & Hs & He); [auto..|].
      cbn [mbind outcome_bind arith_spec] in *. rewrite Hs.
      destruct He as [He|[? _]]; [|done]. rewrite (convert_id p (x * y)) by done.
      eapply promoted_decides; [by apply (promoted_exact MulOp p u)|done..].
    + rewrite CheckedMulImpl_exact, Hprod by auto using convert_range.
      cbn [mbind outcome_bind].
      eapply promoted_decides; [apply (promoted_pair MulOp p u)|done|..|done]. naive_solver.
Qed.

(** ** Division *)

Lemma quot_bounds x y :
  y ≠ 0 → let q := Z.quot x y in
  Z.abs q ≤ Z.abs x ∧ (0 ≤ x → 0 < y → 0 ≤ q) ∧ (Z.abs q = Z.abs x → x ≠ 0 → y = 1 ∨ y = -1).
Proof.
  intros Hy q. pose proof (Z.quot_rem' x y) as Hq. fold q in Hq.
  pose proof (Z.rem_bound_abs x y Hy). pose proof (Z.rem_sign_mul x y Hy).
  split; [|split].
  - nia.
  - intros. by apply Z.quot_pos.
  - intros. nia.
Qed.

Lemma quot_type p x y :
  has_type p x → has_type p y → y ≠ 0 → ¬ (is_signed p = true ∧ x = lowest p ∧ y = -1) →
  has_type p (Z.quot x y).
Proof.
  intros Hx Hy Hz Hn. destruct (quot_bounds x y Hz) as (Hb & Hpos & Hone).
  unfold has_type in *. destruct (is_signed p) eqn:Hp.
  - destruct (signed_limits p Hp) as [Hl _]. pose proof (has_limits p) as (_ & _ & ?).
    destruct (decide (Z.abs (Z.quot x y) = max p + 1)) as [He|]; [|lia].
    assert (y = 1 ∨ y = -1) as [-> | ->] by (apply Hone; lia).
    + rewrite Z.quot_1_r. lia.
    + naive_solver lia.
  - pose proof (lowest_unsigned p Hp). lia.
Qed.

Lemma arith_div p x y :
  has_type p x → has_type p y → y ≠ 0 → has_type p (Z.quot x y) →
  arith DivOp p p x y = Ret (Z.quot x y).
Proof.
  intros Hx%common_self Hy%common_self Hz Hr%common_self. unfold arith. cbv zeta.
  rewrite (convert_id _ x), (convert_id _ y) by done. cbn [arith_spec].
  rewrite (convert_id _ (Z.quot x y)) by done.
  destruct (Z.eqb_spec y 0); [done|]. rewrite andb_false_r, decide_False by done.
  apply in_rangeb_true in Hr as ->. by destruct (is_signed _).
Qed.

(** The promotion for division is at least as wide as the operands. *)
Lemma promotion_wide t u p c :
  BigEnoughPromotion t u = Some (p, c) →
  2 ^ (sizeof t * 8) ≤ 2 ^ (sizeof p * 8) ∧ 2 ^ (sizeof u * 8) ≤ 2 ^ (sizeof p * 8).
Proof. destruct t, u; intros [= <- <-]; vm_compute; split; discriminate. Qed.

Lemma promotion_nonzero t u p c y :
  BigEnoughPromotion t u = Some (p, c) → has_type u y → y ≠ 0 → convert p y ≠ 0.
Proof.
  intros Hp%promotion_wide Hy Hz Hc. destruct (convert_congruent p y) as [k Hk].
  rewrite Hc in Hk. pose proof (lowest_max u). pose proof (has_limits u).
  unfold has_type in Hy. assert (k = 0 ∨ 1 ≤ k ∨ k ≤ -1) as [-> |[|]] by lia; nia.
Qed.

(** A signed type with the lowest value of another signed type contains it. *)
Lemma lowest_contained t p :
  is_signed p = true → has_type t (lowest p) →
  is_signed t = true ∧ StaticDstRangeRelationToSrcRange t p = true.
Proof.
  intros Hp Ht. destruct (signed_limits p Hp) as [Hl _]. pose proof (has_limits p) as (_ & _ & ?).
  unfold has_type in Ht. destruct (is_signed t) eqn:Hs.
  - destruct (signed_limits t Hs) as [Hl' _]. rewrite contained_spec. lia.
  - pose proof (lowest_unsigned t Hs). lia.
Qed.

Lemma CheckedDivOp_decides t u v x y result :
  has_type t x → has_type u y →
  decides (compatible t u v = true ∧ y ≠ 0) v (Z.quot x y) (CheckedDivOp_Do t u v x y result)
  ∧ (y = 0 → CheckedDivOp_Do t u v x y result = Ret (false, result)).
Proof.
  intros Hx Hy. unfold CheckedDivOp_Do.
  destruct (Z.eqb_spec y 0) as [->|Hz]; [split; [|done]|split; [|done]].
  { apply decides_failed. naive_solver. }
  destruct (promotion_spec t u) as (p & c & Hp & Hc). rewrite Hp. cbn [chosen].
  assert (compatible t u v = true → c = true ∧ StaticDstRangeRelationToSrcRange p v = true) as Hcv
    by (unfold compatible; rewrite Hp; by destruct c).
  rewrite (Op_same EqOp p) by (apply convert_range || apply has_limits).
  rewrite (Op_same EqOp u) by auto using convert_range. cbn [op_spec].
  destruct (is_signed t && is_signed u && _ && _ && _) eqn:Hguard.
  { rewrite !andb_true_iff, !Z.eqb_eq in Hguard.
    destruct Hguard as ((((Hst & Hsu) & Htp) & Hlow) & Hone).
    apply decides_failed. intros [[[-> Hpv]%Hcv _] Hv%(contained_type _ _ _ Hpv)].
    destruct (Hc eq_refl) as [Hpt _]. rewrite convert_id in Hlow by eauto using contained_type.
    assert (has_type u (-1)) as Hm1 by (pose proof (has_limits u); destruct u; done).
    rewrite convert_id in Hone by done. subst x y.
    assert (is_signed p = true) as Hsp.
    { destruct (is_signed p) eqn:Hsp; [done|]. pose proof (lowest_unsigned p Hsp).
      rewrite contained_spec in Hpt. destruct (signed_limits t Hst). pose proof (has_limits t). lia. }
    destruct (signed_limits p Hsp) as [Hl _]. unfold has_type in Hv.
    change (-1) with (- (1)) in Hv. rewrite Z.quot_opp_r, Z.quot_1_r in Hv by lia. lia. }
  rewrite !range_in by done.
  destruct (_ && negb (x =? 0)) eqn:Hfail.
  { apply decides_failed. intros [[[-> Hpv]%Hcv _] _]. destruct (Hc eq_refl) as [Ht Hu].
    apply (contained_type _ _ x), in_rangeb_true in Ht; [|done].
    apply (contained_type _ _ y), in_rangeb_true in Hu; [|done].
    by rewrite Ht, Hu in Hfail. }
  assert (convert p y ≠ 0) as Hcy by eauto using promotion_nonzero.
  assert (Z.quot (convert p x) (convert p y) = Z.quot x y ∧ has_type p (Z.quot x y)) as [He Hin].
  { destruct (Z.eqb_spec x 0) as [->|Hx0].
    - rewrite (convert_id p 0) by apply has_type_zero. rewrite !Z.quot_0_l by done.
      split; [done|apply has_type_zero].
    - assert (has_type p x ∧ has_type p y) as [Hpx Hpy].
      { rewrite <-!in_rangeb_true. destruct (in_rangeb p x), (in_rangeb p y); cbn in Hfail; done. }
      rewrite !convert_id by done. split; [done|]. apply quot_type; [done..|].
      intros (Hsp & -> & ->). destruct (lowest_contained t p) as [Ht1 Ht2]; [done..|].
      assert (is_signed u = true ∧ has_type u (-1)) as [Hu1 Hu2].
      { split; [|done]. destruct (is_signed u) eqn:Hu; [done|].
        pose proof (lowest_unsigned u Hu). unfold has_type in Hy. lia. }
      unfold IsTypeInRangeForNumericType in Hguard.
      rewrite Ht1, Hu1, Ht2, !convert_id in Hguard by done. cbn in Hguard. lia. }
  rewrite arith_div, He by (rewrite ?He; auto using convert_range).
  cbn [mbind outcome_bind]. rewrite (convert_id p (Z.quot x y)) by done.
  do 2 eexists. split; [done|]. rewrite range_in, in_rangeb_true by done.
  split; [|done]. intros. by rewrite convert_id.
Qed.

(** ** Maximum and minimum *)

Lemma max_exponent_spec t u :
  (MaxExponentPromotion t u = t ∨ MaxExponentPromotion t u = u)
  ∧ max t ≤ max (MaxExponentPromotion t u) ∧ max u ≤ max (MaxExponentPromotion t u).
Proof. destruct t, u; vm_compute; (split; [by auto|split; discriminate]). Qed.
Lemma lowest_value_spec t u :
  (LowestValuePromotion t u = t ∨ LowestValuePromotion t u = u)
  ∧ lowest (LowestValuePromotion t u) ≤ lowest t ∧ lowest (LowestValuePromotion t u) ≤ lowest u.
Proof. destruct t, u; vm_compute; (split; [by auto|split; discriminate]). Qed.

Lemma max_type t u x y :
  has_type t x → has_type u y → has_type (MaxExponentPromotion t u) (x `max` y).
Proof.
  unfold has_type. destruct (max_exponent_spec t u) as ([E|E] & ? & ?); rewrite E in *; lia.
Qed.
Lemma min_type t u x y :
  has_type t x → has_type u y → has_type (LowestValuePromotion t u) (x `min` y).
Proof.
  unfold has_type. destruct (lowest_value_spec t u) as ([E|E] & ? & ?); rewrite E in *; lia.
Qed.

Lemma CheckedMaxOp_exact t u v x y result :
  has_type t x → has_type u y →
  CheckedMaxOp_Do t u v x y result = Ret (in_rangeb v (x `max` y), convert v (x `max` y)).
Proof.
  intros Hx Hy. pose proof (max_type t u x y Hx Hy) as Hm. unfold CheckedMaxOp_Do.
  rewrite compare_exact by done. cbn [op_spec].
  assert ((if y <? x then convert (MaxExponentPromotion t u) x
           else convert (MaxExponentPromotion t u) y) = x `max` y) as ->.
  { destruct (Z.ltb_spec y x).
    - rewrite Z.max_l in * by lia. by rewrite convert_id.
    - rewrite Z.max_r in * by lia. by rewrite convert_id. }
  by rewrite range_in.
Qed.
Lemma CheckedMinOp_exact t u v x y result :
  has_type t x → has_type u y →
  CheckedMinOp_Do t u v x y result = Ret (in_rangeb v (x `min` y), convert v (x `min` y)).
Proof.
  intros Hx Hy. pose proof (min_type t u x y Hx Hy) as Hm. unfold CheckedMinOp_Do.
  rewrite compare_exact by done. cbn [op_spec].
  assert ((if x <? y then convert (LowestValuePromotion t u) x
           else convert (LowestValuePromotion t u) y) = x `min` y) as ->.
  { destruct (Z.ltb_spec x y).
    - rewrite Z.min_l in * by lia. by rewrite convert_id.
    - rewrite Z.min_r in * by lia. by rewrite convert_id. }
  by rewrite range_in.
Qed.

(** ** Expressions *)

(** The operations whose result is a number of arithmetic, and that number. *)
Definition exact_op (m : math_op) (x y : Z) : option Z :=
  match m with
  | CheckedAddOp => Some (x + y) | CheckedSubOp => Some (x - y) | CheckedMulOp => Some (x * y)
  | CheckedDivOp => if y =? 0 then None else Some (Z.quot x y)
  | CheckedMaxOp => Some (x `max` y) | CheckedMinOp => Some (x `min` y)
  | _ => None
  end.
Definition arithmetic (m : math_op) : bool :=
  match m with
  | CheckedAddOp | CheckedSubOp | CheckedMulOp | CheckedDivOp | CheckedMaxOp | CheckedMinOp => true
  | _ => false
  end.
Definition extremum (m : math_op) : bool :=
  match m with CheckedMaxOp | CheckedMinOp => true | _ => false end.

Lemma decides_some (P Q : Prop) v e r :
  decides P v e r → (Q → P) →
  ∃ b res, r = Ret (b, res) ∧ (b = true → has_type v res ∧ Some e = Some res)
    ∧ (Q → ∀ z, Some e = Some z → has_type v z → b = true).
Proof.
  intros (b & res & -> & Hb & Hc) HQ. exists b, res. split; [done|]. split.
  - intros [Hv ->]%Hb. done.
  - intros HP%HQ z [= <-]. auto.
Qed.

Lemma Math_Do_exact c m t u x y result :
  arithmetic m = true → has_type t x → has_type u y →
  ∃ b res,
    Math_Do c m t u (result_type m t u) x y result = Ret (b, res)
    ∧ (b = true → has_type (result_type m t u) res ∧ exact_op m x y = Some res)
    ∧ (extremum m || compatible t u (result_type m t u) = true → ∀ z,
       exact_op m x y = Some z → has_type (result_type m t u) z → b = true).
Proof.
  intros Hm Hx Hy. destruct m; try done; cbn [Math_Do exact_op extremum orb].
  - eapply decides_some; [by apply CheckedAddOp_decides|done].
  - eapply decides_some; [by apply CheckedSubOp_decides|done].
  - eapply decides_some; [by apply CheckedMulOp_decides|done].
  - destruct (CheckedDivOp_decides t u (result_type CheckedDivOp t u) x y result) as [Hd Hz];
      [done..|].
    destruct (Z.eqb_spec y 0) as [->|Hy0].
    + rewrite Hz by done. do 2 eexists. split; [done|]. split; [done|]. done.
    + eapply decides_some; [exact Hd|]. auto.
  - rewrite CheckedMaxOp_exact by done. pose proof (max_type t u x y Hx Hy) as Hr.
    do 2 eexists. split; [done|]. split; [|by intros _ z _ _; apply in_rangeb_true].
    intros _. by rewrite convert_id.
  - rewrite CheckedMinOp_exact by done. pose proof (min_type t u x y Hx Hy) as Hr.
    do 2 eexists. split; [done|]. split; [|by intros _ z _ _; apply in_rangeb_true].
    intros _. by rewrite convert_id.
Qed.

(** An expression of checked numbers, its type, its value and its evaluation. *)
Inductive expression : Set :=
| Number (t : int_type) (n : Z)
| Binary (m : math_op) (l r : expression).

Fixpoint type_of (e : expression) : int_type :=
  match e with Number t _ => t | Binary m l r => result_type m (type_of l) (type_of r) end.
Fixpoint exact_value (e : expression) : option Z :=
  match e with
  | Number _ n => Some n
  | Binary m l r => x ← exact_value l; y ← exact_value r; exact_op m x y
  end.
Fixpoint evaluate (c : compiler) (e : expression) : outcome CheckedNumeric :=
  match e with
  | Number t n => Ret (CheckedNumeric_of t t n)
  | Binary m l r =>
      a ← evaluate c l; b ← evaluate c r; CheckMathOp c m (type_of l) (type_of r) a b
  end.
Fixpoint well_formed (e : expression) : Prop :=
  match e with
  | Number t n => has_type t n
  | Binary m l r => arithmetic m = true ∧ well_formed l ∧ well_formed r
  end.
(** Every intermediate result fits its type, and no operation mixes a signed
    type with the unsigned type of 64 bits, but for [Max] and [Min]. *)
Fixpoint representable (e : expression) : Prop :=
  match e with
  | Number _ _ => True
  | Binary m l r =>
      representable l ∧ representable r
      ∧ extremum m || compatible (type_of l) (type_of r) (type_of e) = true
      ∧ ∃ z, exact_value e = Some z ∧ has_type (type_of e) z
  end.

Lemma state_new_exact t r (b : bool) :
  (b = true → has_type t r) → CheckedNumericState_new t t r b = MkChecked b (convert t r).
Proof.
  intros Hr. unfold CheckedNumericState_new. f_equal. destruct b; [|done]. cbn.
  rewrite range_in by auto. apply in_rangeb_true. auto.
Qed.
Lemma IsValid_self t a : has_type t (value_ a) → IsValid_as t t a = is_valid_ a.
Proof.
  intros Ha. unfold IsValid_as. rewrite range_in by done.
  apply in_rangeb_true in Ha as ->. apply andb_true_r.
Qed.

Lemma CheckMathOp_exact c m t u a b :
  arithmetic m = true → has_type t (value_ a) → has_type u (value_ b) →
  ∃ s, CheckMathOp c m t u a b = Ret s ∧ has_type (result_type m t u) (value_ s)
    ∧ (is_valid_ s = true → is_valid_ a = true ∧ is_valid_ b = true
                            ∧ exact_op m (value_ a) (value_ b) = Some (value_ s))
    ∧ (extremum m || compatible t u (result_type m t u) = true →
       is_valid_ a = true → is_valid_ b = true → ∀ z,
       exact_op m (value_ a) (value_ b) = Some z → has_type (result_type m t u) z →
       is_valid_ s = true).
Proof.
  intros Hm Ha Hb. unfold CheckMathOp, MathOp. rewrite !IsValid_self by done.
  destruct (is_valid_ a); [destruct (is_valid_ b)|]; cbn [andb].
  - destruct (Math_Do_exact c m t u (value_ a) (value_ b) 0) as (ok & res & -> & Hok & Hc); [done..|].
    cbn [mbind outcome_bind]. eexists. split; [done|].
    rewrite state_new_exact by (intros; by apply Hok). cbn [is_valid_ value_].
    split; [apply convert_range|]. split; [|naive_solver].
    intros [Hr ->]%Hok. by rewrite convert_id.
  - cbn [mbind outcome_bind]. eexists. split; [done|]. rewrite state_new_exact by done.
    split; [apply convert_range|]. done.
  - cbn [mbind outcome_bind]. eexists. split; [done|]. rewrite state_new_exact by done.
    split; [apply convert_range|]. done.
Qed.

(** 100000 * 40000 / -7, where the first number has the type [t]. *)
Definition sample (t : int_type) : expression :=
  Binary CheckedDivOp (Binary CheckedMulOp (Number t 100000) (Number uint16_t 40000))
    (Number int8_t (-7)).

(** C25: evaluating an expression of checked numbers that is made of sums,
    differences, products, quotients, maxima and minima never has undefined
    behaviour, with any compiler; if the result says it is valid, it is the value of
    the expression in the integers; and if every intermediate result fits its
    type and no operation mixes a signed type with the unsigned type of 64 bits,
    the result is valid.  The other operators of the class are not included;
    the remainder can have undefined behaviour ([mod_undefined]). *)
Theorem checked_expression_exact c e :
  well_formed e →
  ∃ s, evaluate c e = Ret s ∧ has_type (type_of e) (value_ s)
    ∧ (is_valid_ s = true → exact_value e = Some (value_ s))
    ∧ (representable e → is_valid_ s = true).
Proof.
  induction e as [t n|m l IHl r IHr]; cbn [well_formed].
  - intros Hn. cbn. unfold CheckedNumeric_of, CheckedNumericState_of. eexists. split; [done|].
    cbn. unfold WellDefinedConversionOrZero. rewrite convert_id by done.
    split; [done|]. split; [done|].
    rewrite range_in by done. by intros _; apply in_rangeb_true.
  - intros (Hm & Hl & Hr).
    destruct (IHl Hl) as (a & Ha & Hat & Hav & Hac), (IHr Hr) as (b & Hb & Hbt & Hbv & Hbc).
    cbn [evaluate]. rewrite Ha, Hb. cbn [mbind outcome_bind].
    destruct (CheckMathOp_exact c m (type_of l) (type_of r) a b)
      as (s & Hs & Hst & Hsv & Hsc); [done..|].
    exists s. split; [done|]. split; [done|]. cbn [exact_value representable type_of]. split.
    + intros (Hva & Hvb & He)%Hsv. rewrite Hav, Hbv by done. exact He.
    + intros (Hlr%Hac & Hrr%Hbc & Hcomp & z & Hz & Hzt).
      rewrite Hav, Hbv in Hz by done. by apply (Hsc Hcomp Hlr Hrr z).
Qed.
Lemma checked_expression_exact_witness :
  well_formed (sample int32_t) ∧ well_formed (sample int64_t)
  ∧ ¬ representable (sample int32_t) ∧ representable (sample int64_t)
  ∧ (∃ s, evaluate Portable (sample int32_t) = Ret s ∧ is_valid_ s = false)
  ∧ ∃ s, evaluate Clang (sample int64_t) = Ret s ∧ is_valid_ s = true ∧ value_ s = -571428571.
Proof.
  assert (well_formed (sample int32_t)) as Hw by (vm_compute; intuition discriminate).
  assert (well_formed (sample int64_t)) as Hw' by (vm_compute; intuition discriminate).
  assert (representable (sample int64_t)) as Hr'
    by (repeat split; try done; eexists; (split; [reflexivity|]); vm_compute; by split).
  assert (¬ representable (sample int32_t)) as Hr.
  { intros ((_ & _ & _ & z & [= <-] & _ & Hz) & _). vm_compute in Hz. by destruct Hz. }
  split; [exact Hw|]. split; [exact Hw'|]. split; [exact Hr|]. split; [exact Hr'|]. split.
  - destruct (checked_expression_exact Portable _ Hw) as (s & Hs & Hst & Hsv & _).
    exists s. split; [exact Hs|]. destruct (is_valid_ s); [|done].
    specialize (Hsv eq_refl). vm_compute in Hs. by injection Hs as <-.
  - destruct (checked_expression_exact Clang _ Hw') as (s & Hs & Hst & Hsv & Hsc).
    exists s. split; [exact Hs|]. specialize (Hsc Hr'). split; [exact Hsc|].
    specialize (Hsv Hsc). by injection Hsv as <-.
Defined.

(** ** Remainders

    The promoted remainder of the lowest value and -1 is not guarded, and a
    negative operand is converted to an unsigned promotion without a check. *)

Lemma mod_undefined :
  CheckedModOp_Do int32_t int32_t int32_t (- 2 ^ 31) (-1) 0 = Undef SignedOverflow.
Proof. reflexivity. Qed.
Lemma mod_mixed :
  CheckedModOp_Do int64_t uint64_t uint64_t (-5) 3 0 = Ret (true, 2) ∧ Z.rem (-5) 3 = -2.
Proof. split; reflexivity. Qed.

Lemma CheckedModOp_exact t u v x y result :
  compatible t u v = true → has_type t x → has_type u y → y ≠ 0 →
  (∀ p, is_signed p = true → x = lowest p → y ≠ -1) →
  CheckedModOp_Do t u v x y result = Ret (in_rangeb v (Z.rem x y), convert v (Z.rem x y)).
Proof.
  intros Hcomp Hx Hy Hz Hn. unfold CheckedModOp_Do, compatible in *.
  destruct (promotion_spec t u) as (p & c & Hp & Hc). rewrite Hp in *. cbn [chosen].
  destruct c; [|done]. destruct (Hc eq_refl) as [Ht Hu].
  assert (has_type p x ∧ has_type p y) as [Hpx Hpy] by eauto using contained_type.
  rewrite !convert_id by done. destruct (Z.eqb_spec y 0); [done|]. cbn [negb].
  assert (has_type p (Z.quot x y)) as Hq
    by (apply quot_type; [done..|]; intros (Hs & Hl & H1); by apply (Hn p)).
  assert (has_type p (Z.rem x y)) as Hr.
  { unfold has_type in *. pose proof (Z.rem_bound_abs x y Hz). pose proof (Z.rem_sign_mul x y Hz).
    pose proof (Z.quot_rem' x y). pose proof (has_limits p) as (_ & _ & ?).
    destruct (is_signed p) eqn:Hs.
    - destruct (signed_limits p Hs) as [Hl _]. lia.
    - pose proof (lowest_unsigned p Hs). pose proof (Z.rem_nonneg x y Hz). lia. }
  unfold arith. cbv zeta.
  rewrite (convert_id (common_type p p) x), (convert_id (common_type p p) y)
    by (by apply common_self).
  cbn [arith_spec]. rewrite (convert_id (common_type p p) (Z.rem x y)) by (by apply common_self).
  destruct (Z.eqb_spec y 0); [done|]. rewrite andb_false_r. rewrite decide_True by done.
  apply common_self, in_rangeb_true in Hq as ->.
  assert ((if is_signed (common_type p p) then Ret (Z.rem x y) else Ret (Z.rem x y))
          = Ret (Z.rem x y)) as -> by (by destruct (is_signed _)).
  cbn [mbind outcome_bind]. rewrite (convert_id p) by done. by rewrite range_in.
Qed.

(** ** Negation

    Both ways to negate a signed number agree.  An unsigned one wraps around and
    stays valid. *)

Lemma negate_exact c constant t a :
  is_signed t = true → has_type t (value_ a) →
  ∃ s, negate c constant t a = Ret s
    ∧ is_valid_ s = is_valid_ a && in_rangeb t (- value_ a)
    ∧ (is_valid_ s = true → value_ s = - value_ a).
Proof.
  intros Ht Ha. unfold negate. rewrite Ht. cbn [negb orb]. rewrite orb_false_r.
  destruct (signed_limits t Ht) as (Hl & _). pose proof Ha as Ha'. unfold has_type in Ha'.
  destruct constant.
  - unfold NegateWrapper. set (d := make_unsigned t).
    assert (is_signed d = false) as Hd by (by destruct t).
    destruct (arith_unsigned SubOp d 0 (convert d (value_ a))) as (s & -> & Hs);
      auto using convert_range, has_type_zero.
    cbn [mbind outcome_bind arith_spec] in *.
    assert (convert t s = convert t (- value_ a)) as ->.
    { rewrite <-(convert_unsigned t s). fold d. rewrite Hs. unfold d. rewrite convert_unsigned.
      destruct (convert_congruent d (value_ a)) as [k Hk]. unfold d in Hk.
      rewrite sizeof_unsigned in Hk. apply (convert_eq _ _ _ (- k)). fold d in Hk |- *. lia. }
    eexists. split; [done|]. rewrite IsValid_self by done.
    rewrite state_new_exact by (intros; apply convert_range). cbn [is_valid_ value_].
    rewrite Op_same by (apply convert_range || apply has_limits). cbn [op_spec].
    rewrite convert_twice.
    destruct (decide (value_ a = lowest t)) as [Hlow|Hlow].
    + rewrite (convert_unique t _ (lowest t) 1); [|apply has_limits|].
      2: { destruct (signed_limits t Ht) as (_ & _ & _ & Hp). rewrite sizeof_unsigned in Hp. lia. }
      rewrite Z.eqb_refl. unfold in_rangeb. split; [|intros; lia].
      destruct (is_valid_ a); cbn; lia.
    + rewrite convert_id by (unfold has_type; lia). unfold in_rangeb.
      split; [|done]. destruct (is_valid_ a); cbn; lia.
  - unfold FastRuntimeNegate.
    assert (compatible t t t = true) as Hc by (by destruct t).
    destruct (CheckedSubOp_decides c t t t 0 (value_ a) 0) as (b & r & -> & Hb & Hf);
      auto using has_type_zero.
    { destruct (max_exponent_spec t t) as (_ & ? & _). lia. }
    cbn [mbind outcome_bind]. eexists. split; [done|]. rewrite IsValid_self by done.
    rewrite state_new_exact by (intros [_ Hbt]%andb_true_iff; by destruct (Hb Hbt) as [? ->]).
    cbn [is_valid_ value_]. rewrite Z.sub_0_l in *. split.
    + f_equal. apply Bool.eq_iff_eq_true. rewrite in_rangeb_true.
      split; [intros Hbt; by destruct (Hb Hbt)|by intros; apply Hf].
    + intros [_ [Hv ->]%Hb]%andb_true_iff. by apply convert_id.
Qed.

Lemma negate_unsigned :
  negate Gcc true uint32_t (MkChecked true 5) = Ret (MkChecked true (2 ^ 32 - 5)).
Proof. reflexivity. Qed.

(** The complement of a signed number is valid for negative ones only, as the
    unsigned intermediate result has to fit. *)
Lemma invert_signed :
  invert int32_t (MkChecked true 5) = MkChecked false (-6)
  ∧ invert int32_t (MkChecked true (-6)) = MkChecked true 5.
Proof. split; reflexivity. Qed.

(** ** Left shift

    Accepted are the shifts of a number that is not negative by less than its
    digits whose result fits, and the shift of a signed zero by all of them. *)

Lemma as_unsigned_below u s n :
  has_type u s → 0 ≤ n ≤ 64 →
  Op LtOp (make_unsigned u) uint32_t (as_unsigned u s) n = (0 <=? s) && (s <? n)
  ∧ Op EqOp (make_unsigned u) uint32_t (as_unsigned u s) n = (s =? n).
Proof.
  intros Hs Hn.
  assert (has_type uint32_t n) as Hn' by (revert Hn; limits).
  assert (lowest (make_unsigned u) = 0) as Hl by (apply lowest_unsigned; by destruct u).
  assert (has_type (make_unsigned u) (as_unsigned u s)) as Hu by apply convert_range.
  rewrite !Op_exact by (apply common_nonneg; [by auto|unfold has_type in Hu; lia]).
  cbn [op_spec]. destruct (is_signed u) eqn:Hsu.
  - rewrite as_unsigned_spec by done.
    assert (64 < max u + 1 ∧ lowest u = - (max u + 1)) as [H64 Hlow] by (by destruct u).
    unfold has_type in Hs. destruct (Z.ltb_spec s 0); lia.
  - assert (make_unsigned u = u) as Hmu by (by destruct u). rewrite Hmu in Hl.
    unfold as_unsigned. rewrite Hmu, convert_id by done. unfold has_type in Hs. lia.
Qed.

Lemma require_true b u : b = true → require b u = Ret tt.
Proof. by intros ->. Qed.

Lemma shiftr_type t x s : 0 ≤ s → has_type t x → has_type t (Z.shiftr x s).
Proof.
  intros Hs Hx. pose proof (has_limits t) as (_ & _ & H0). unfold has_type in *.
  rewrite Z.shiftr_div_pow2 by done. assert (0 < 2 ^ s) by (apply Z.pow_pos_nonneg; lia).
  split; [apply Z.div_le_lower_bound; [lia|nia]|].
  destruct (Z.le_gt_cases 0 x).
  - pose proof (Z.div_le_upper_bound x (2 ^ s) x). nia.
  - pose proof (Z.div_lt_upper_bound x (2 ^ s) 0). lia.
Qed.

Lemma shl_exact t x s :
  has_type t x → 0 ≤ x → 0 ≤ s → s < digits t →
  ∃ r, shl (make_unsigned t) (as_unsigned t x) s = Ret r
    ∧ convert t r = convert t (x * 2 ^ s).
Proof.
  intros Hx Hx0 Hs0 Hsd.
  assert (as_unsigned t x = x) as ->.
  { unfold as_unsigned. apply convert_id. revert Hx. destruct t; limits. }
  assert (0 < 2 ^ s) by (apply Z.pow_pos_nonneg; lia).
  assert (2 ^ s ≤ 2 ^ (digits t - 1)) as Hpow by (apply Z.pow_le_mono_r; lia).
  unfold shl. set (p := promote (make_unsigned t)).
  assert (digits t ≤ IntegerBitsPlusSign p) as Hbits by (by destruct t).
  rewrite (require_true ((0 <=? s) && _)) by lia. cbn [mbind outcome_bind].
  assert (convert t (convert p (x * 2 ^ s)) = convert t (x * 2 ^ s)) as Hcp.
  { destruct (convert_congruent p (x * 2 ^ s)) as [k ->].
    assert (∃ j, 2 ^ (sizeof p * 8) = j * 2 ^ (sizeof t * 8)) as [j ->].
    { exists (2 ^ (sizeof p * 8) / 2 ^ (sizeof t * 8)). by destruct t. }
    apply (convert_eq _ _ _ (k * j)). lia. }
  destruct (is_signed p) eqn:Hp; [|by eexists].
  rewrite require_true; [by eexists|].
  assert (max t * 2 ^ (digits t - 1) ≤ max (make_unsigned p))
    by (clear - Hp; subst p; destruct t; try done; vm_compute; discriminate).
  unfold has_type in Hx. rewrite andb_true_iff, !Z.leb_le. nia.
Qed.

Lemma CheckedLshOp_exact t u x s result :
  has_type t x → has_type u s →
  ∃ b res, CheckedLshOp_Do t u t x s result = Ret (b, res)
    ∧ b = (0 <=? x) && (0 <=? s) && (s <? digits t) && (x * 2 ^ s <=? max t)
          || is_signed t && (x =? 0) && (s =? digits t)
    ∧ (b = true → s < digits t → res = x * 2 ^ s).
Proof.
  intros Hx Hs. unfold CheckedLshOp_Do.
  assert (7 ≤ digits t ≤ 64) as Hd by (destruct t; vm_compute; by split).
  assert (as_unsigned int32_t (digits t) = digits t) as -> by (by destruct t).
  destruct (as_unsigned_below u s (digits t)) as [-> ->]; [done|lia|].
  assert (IsValueNegative t x = (x <? 0)) as ->.
  { unfold IsValueNegative. destruct (is_signed t) eqn:Ht; [done|].
    pose proof (lowest_unsigned t Ht). unfold has_type in Hx. lia. }
  destruct (negb (x <? 0) && _) eqn:Hok.
  - assert (0 ≤ x ∧ 0 ≤ s ∧ s < digits t) as (Hx0 & Hs0 & Hsd) by lia.
    destruct (shl_exact t x s) as (r & -> & Hr); [done..|]. cbn [mbind outcome_bind].
    assert (is_signed t && (x =? 0) && (s =? digits t) = false) as -> by lia.
    assert ((0 <=? x) && (0 <=? s) && (s <? digits t) = true) as -> by lia. cbn [andb].
    rewrite orb_false_r.
    assert (digits t ≤ IntegerBitsPlusSign (promote t)) by (by destruct t).
    unfold shr. rewrite require_true by lia.
    cbn [mbind outcome_bind]. do 2 eexists. split; [done|].
    rewrite Hr. pose proof (convert_range t (x * 2 ^ s)) as Hc.
    assert (0 < 2 ^ s) by (apply Z.pow_pos_nonneg; lia).
    assert (has_type (common_type (promote t) t) x) as Hx'
      by (apply common_both; auto using promote_type).
    rewrite Op_exact; [|apply common_both; auto using promote_type, shiftr_type|done].
    cbn [op_spec]. rewrite Z.shiftr_div_pow2 by lia.
    destruct (Z.leb_spec (x * 2 ^ s) (max t)) as [Hle|Hgt].
    + pose proof (has_limits t) as (_ & _ & ?).
      rewrite (convert_id t (x * 2 ^ s)) by (unfold has_type; nia).
      rewrite Z.div_mul by lia. split; [lia|done].
    + assert (convert t (x * 2 ^ s) / 2 ^ s ≠ x) as Hne.
      { intros He. pose proof (Z.mul_div_le (convert t (x * 2 ^ s)) (2 ^ s)).
        unfold has_type in Hc. nia. }
      destruct (Z.eqb_spec (convert t (x * 2 ^ s) / 2 ^ s) x); done.
  - assert ((0 <=? x) && (0 <=? s) && (s <? digits t) = false) as -> by lia. cbn [andb orb].
    do 2 eexists. split; [done|]. split; [done|].
    rewrite !andb_true_iff. lia.
Qed.
