(* ===== verification/ClampedMath.v ===== *)
(** Integer arithmetic that stops at the limits of its type
    (libs/webrtc/include/base/numerics/clamped_math.h and clamped_math_impl.h of
    Chromium base), for the integer types.

    A [ClampedNumeric] is the number it holds.  As in CheckedMath, types and
    compiler are arguments, the ARM assembler versions are not modelled, and a
    failed [static_assert] is [Abort]. *)

From S2P Require Import Prelude.
From S2P Require Import SafeNumerics NumericRange CheckedMath.

(** ** The operations *)

(** [CommonMaxOrMin<V>(is_min)], of one type. *)
Definition Saturation (v : int_type) (is_min : bool) : Z := CommonMaxOrMin v v is_min.

Definition ClampedAddOp_Do (c : compiler) (t u v : int_type) (x y : Z) : outcome Z :=
  if bool_decide (v = MaxExponentPromotion t u) || IsTypeInRangeForNumericType u v then
    let saturated := Saturation v (IsValueNegative u y) in
    '(ok, result) ← CheckedAddOp_Do c t u v x y 0;
    Ret (if ok : bool then result else saturated)
  else Abort "The saturation result cannot be determined from the provided types.".

Definition ClampedSubOp_Do (c : compiler) (t u v : int_type) (x y : Z) : outcome Z :=
  if bool_decide (v = MaxExponentPromotion t u) || IsTypeInRangeForNumericType u v then
    let saturated := Saturation v (negb (IsValueNegative u y)) in
    '(ok, result) ← CheckedSubOp_Do c t u v x y 0;
    Ret (if ok : bool then result else saturated)
  else Abort "The saturation result cannot be determined from the provided types.".

Definition ClampedMulOp_Do (c : compiler) (t u v : int_type) (x y : Z) : outcome Z :=
  let saturated := Saturation v (xorb (IsValueNegative t x) (IsValueNegative u y)) in
  '(ok, result) ← CheckedMulOp_Do c t u v x y 0;
  Ret (if ok : bool then result else saturated).

(** [SaturationDefaultLimits<V>::NaN()] is 0 for integers. *)
Definition ClampedDivOp_Do (t u v : int_type) (x y : Z) : outcome Z :=
  '(ok, result) ← CheckedDivOp_Do t u v x y 0;
  Ret (if ok : bool then result
       else if negb (x =? 0)
            then Saturation v (xorb (IsValueNegative t x) (IsValueNegative u y)) else 0).

Definition ClampedModOp_Do (t u v : int_type) (x y : Z) : outcome Z :=
  '(ok, result) ← CheckedModOp_Do t u v x y 0;
  Ret (if ok : bool then result else convert v x).

Definition ClampedLshOp_Do (t u v : int_type) (x shift : Z) : outcome Z :=
  if is_signed u then Abort "Shift value must be unsigned." else
  let saturated :=
    if negb (x =? 0) then Saturation v (IsValueNegative t x) else 0 in
  if Op LtOp u int32_t shift (digits t) then
    shifted ← shl (make_unsigned t) (as_unsigned t x) shift;
    let result := convert v shifted in
    back ← shr v result shift;
    Ret (if Op EqOp (promote v) t back x then result else saturated)
  else Ret saturated.

Definition ClampedRshOp_Do (constant : bool) (t u v : int_type) (x shift : Z) : outcome Z :=
  if is_signed u then Abort "Shift value must be unsigned." else
  difference ← arith SubOp (make_unsigned v) int32_t (as_unsigned v 0)
                 (Z.b2z (IsValueNegative t x));
  let saturated := convert v difference in
  if Op LtOp u int32_t shift (IntegerBitsPlusSign t) then
    shifted ← shr t x shift;
    Ret (saturated_cast constant v (promote t) shifted)
  else Ret saturated.

Definition ClampedAndOp_Do (t u v : int_type) (x y : Z) : outcome Z :=
  let result_type := BitwiseResult t u in
  Ret (convert v (Z.land (convert result_type x) (convert result_type y))).
Definition ClampedOrOp_Do (t u v : int_type) (x y : Z) : outcome Z :=
  let result_type := BitwiseResult t u in
  Ret (convert v (Z.lor (convert result_type x) (convert result_type y))).
Definition ClampedXorOp_Do (t u v : int_type) (x y : Z) : outcome Z :=
  let result_type := BitwiseResult t u in
  Ret (convert v (Z.lxor (convert result_type x) (convert result_type y))).

Definition ClampedMaxOp_Do (constant : bool) (t u v : int_type) (x y : Z) : outcome Z :=
  Ret (if compare_test GtOp t u x y
       then saturated_cast constant v t x else saturated_cast constant v u y).
Definition ClampedMinOp_Do (constant : bool) (t u v : int_type) (x y : Z) : outcome Z :=
  Ret (if compare_test LtOp t u x y
       then saturated_cast constant v t x else saturated_cast constant v u y).

(** [Do] of the template that corresponds to the one of [CheckedNumeric]; the
    result types are the same. *)
Definition Clamped_Do (c : compiler) (constant : bool) (m : math_op) (t u v : int_type) (x y : Z)
    : outcome Z :=
  match m with
  | CheckedAddOp => ClampedAddOp_Do c t u v x y
  | CheckedSubOp => ClampedSubOp_Do c t u v x y
  | CheckedMulOp => ClampedMulOp_Do c t u v x y
  | CheckedDivOp => ClampedDivOp_Do t u v x y
  | CheckedModOp => ClampedModOp_Do t u v x y
  | CheckedLshOp => ClampedLshOp_Do t u v x y
  | CheckedRshOp => ClampedRshOp_Do constant t u v x y
  | CheckedAndOp => ClampedAndOp_Do t u v x y
  | CheckedOrOp => ClampedOrOp_Do t u v x y
  | CheckedXorOp => ClampedXorOp_Do t u v x y
  | CheckedMaxOp => ClampedMaxOp_Do constant t u v x y
  | CheckedMinOp => ClampedMinOp_Do constant t u v x y
  end.

(** ** ClampedNumeric *)

Definition ClampedNumeric_of (constant : bool) (t src : int_type) (value : Z) : Z :=
  saturated_cast constant t src value.

(** The static [MathOp] behind [ClampAdd], ..., [ClampMin] and the operators,
    and the one of the assignment operators.  The result is saturated once more
    to its own type. *)
Definition ClampMathOp (c : compiler) (constant : bool) (m : math_op) (l r : int_type) (lhs rhs : Z)
    : outcome Z :=
  let t := result_type m l r in
  result ← Clamped_Do c constant m l r t lhs rhs;
  Ret (ClampedNumeric_of constant t t result).
Definition ClampMathOp_assign (c : compiler) (constant : bool) (m : math_op) (t r : int_type)
    (value_ rhs : Z) : outcome Z :=
  result ← Clamped_Do c constant m t r t value_ rhs;
  Ret (ClampedNumeric_of constant t t result).

(** [ClampedNegFastOp] exists for signed types, where the compiler detects
    overflow; [treat_constant]: [MustTreatAsConstexpr] of the value. *)
Definition ClampedNegFastOp_Do (t : int_type) (value : Z) : Z :=
  let '(overflow, result) := builtin_overflow SubOp t 0 value in
  if negb overflow then result else max t.
Definition SaturatedNegWrapper (c : compiler) (treat_constant : bool) (t : int_type) (value : Z)
    : outcome Z :=
  if is_signed t then
    if treat_constant || negb (CheckedAddFastOp_is_supported c) then
      n ← NegateWrapper t value;
      Ret (if Op NeOp t t n (lowest t) then n else max t)
    else Ret (ClampedNegFastOp_Do t value)
  else Ret (convert t 0).

(** The argument of [IsValueNegative<T>] is converted back to the signed
    type. *)
Definition SaturatedAbsWrapper (t : int_type) (value : Z) : outcome Z :=
  let magnitude := SafeUnsignedAbs t value in
  difference ← arith SubOp (make_unsigned t) int32_t magnitude
                 (Z.b2z (IsValueNegative t (convert t magnitude)));
  Ret (convert t difference).

Definition clamped_negate (c : compiler) (constant treat_constant : bool) (t : int_type)
    (value_ : Z) : outcome Z :=
  n ← SaturatedNegWrapper c treat_constant t value_; Ret (ClampedNumeric_of constant t t n).
Definition clamped_invert (constant : bool) (t : int_type) (value_ : Z) : Z :=
  ClampedNumeric_of constant t (make_unsigned t)
    (ClampedNumeric_of constant (make_unsigned t) (make_unsigned t) (InvertWrapper t value_)).
Definition clamped_Abs (constant : bool) (t : int_type) (value_ : Z) : outcome Z :=
  n ← SaturatedAbsWrapper t value_; Ret (ClampedNumeric_of constant t t n).
Definition clamped_UnsignedAbs (constant : bool) (t : int_type) (value_ : Z) : Z :=
  ClampedNumeric_of constant (make_unsigned t) (make_unsigned t) (SafeUnsignedAbs t value_).
Definition clamped_Max (constant : bool) (t u : int_type) (value_ rhs : Z) : outcome Z :=
  ClampMathOp Portable constant CheckedMaxOp t u value_ rhs.
Definition clamped_Min (constant : bool) (t u : int_type) (value_ rhs : Z) : outcome Z :=
  ClampMathOp Portable constant CheckedMinOp t u value_ rhs.
Definition clamped_increment (c : compiler) (constant : bool) (t : int_type) (value_ : Z) : outcome Z :=
  ClampMathOp_assign c constant CheckedAddOp t int32_t value_ 1.
Definition clamped_decrement (c : compiler) (constant : bool) (t : int_type) (value_ : Z) : outcome Z :=
  ClampMathOp_assign c constant CheckedSubOp t int32_t value_ 1.
Definition clamped_convert (constant : bool) (dst t : int_type) (value_ : Z) : Z :=
  saturated_cast constant dst t value_.

(** ** Clamping is exact *)

Definition clamp (v : int_type) (e : Z) : Z := lowest v `max` e `min` max v.

(** The number that is clamped: a division by zero is as large as the type
    allows, with the sign of the dividend. *)
Definition clamped_value (m : math_op) (v : int_type) (x y : Z) : Z :=
  match exact_op m x y with
  | Some e => clamp v e
  | None => if x =? 0 then 0 else if x <? 0 then lowest v else max v
  end.

Lemma Saturation_exact v is_min : Saturation v is_min = if is_min then lowest v else max v.
Proof.
  unfold Saturation, CommonMaxOrMin. rewrite CommonMax_exact, CommonMin_exact.
  destruct is_min; lia.
Qed.

Lemma negative_exact t x : has_type t x → IsValueNegative t x = (x <? 0).
Proof.
  intros Hx. unfold IsValueNegative. destruct (is_signed t) eqn:Ht; [done|].
  pose proof (lowest_unsigned t Ht). unfold has_type in Hx. lia.
Qed.

Lemma clamp_type v e : has_type v e → clamp v e = e.
Proof. unfold has_type, clamp. lia. Qed.
Lemma clamp_out v e (is_min : bool) :
  ¬ has_type v e → (if is_min then e < 0 else 0 < e) →
  (if is_min then lowest v else max v) = clamp v e.
Proof.
  intros Hv Hs. pose proof (has_limits v) as (_ & _ & ?). unfold has_type, clamp in *.
  destruct is_min; lia.
Qed.

(** A check that decides whether the exact result fits, and the saturation on
    the side where it is out of range, make a clamp. *)
Lemma decides_clamp (P : Prop) v e r (is_min : bool) :
  decides P v e r → P → (¬ has_type v e → if is_min then e < 0 else 0 < e) →
  ('(ok, result) ← r; Ret (if ok : bool then result else Saturation v is_min)) = Ret (clamp v e).
Proof.
  intros (b & res & -> & Hb & Hf) HP Hs. cbn [mbind outcome_bind]. f_equal.
  destruct b.
  - destruct (Hb eq_refl) as [Hv ->]. by rewrite clamp_type.
  - rewrite Saturation_exact. apply clamp_out.
    + intros Hv. specialize (Hf HP Hv). done.
    + apply Hs. intros Hv. specialize (Hf HP Hv). done.
Qed.

Lemma clamped_bound t u v :
  v = MaxExponentPromotion t u ∨ v = t → max v ≤ max (MaxExponentPromotion t u).
Proof. destruct (max_exponent_spec t u) as (_ & ? & ?). intros [-> | ->]; lia. Qed.

Section clamped.
Context (c : compiler) (constant : bool) (t u v : int_type) (x y : Z).
Context (Hx : has_type t x) (Hy : has_type u y).
Context (Hresult : v = MaxExponentPromotion t u ∨ v = t).
Context (Hcontained : StaticDstRangeRelationToSrcRange v t = true).
Context (Hcompatible : compatible t u v = true).

Lemma x_type : has_type v x.
Proof using Hx Hcontained. by eapply contained_type. Qed.

Lemma ClampedAddOp_exact :
  bool_decide (v = MaxExponentPromotion t u) || IsTypeInRangeForNumericType u v = true →
  ClampedAddOp_Do c t u v x y = Ret (clamp v (x + y)).
Proof using Hx Hy Hresult Hcontained Hcompatible.
  intros Hs. unfold ClampedAddOp_Do. rewrite Hs, negative_exact by done. cbv zeta.
  eapply decides_clamp; [apply CheckedAddOp_decides; auto using clamped_bound|done|].
  pose proof x_type as Hvx. pose proof (has_limits v). unfold has_type in *.
  destruct (Z.ltb_spec y 0); lia.
Qed.
Lemma ClampedSubOp_exact :
  bool_decide (v = MaxExponentPromotion t u) || IsTypeInRangeForNumericType u v = true →
  ClampedSubOp_Do c t u v x y = Ret (clamp v (x - y)).
Proof using Hx Hy Hresult Hcontained Hcompatible.
  intros Hs. unfold ClampedSubOp_Do. rewrite Hs, negative_exact by done. cbv zeta.
  eapply decides_clamp; [apply CheckedSubOp_decides; auto using clamped_bound|done|].
  pose proof x_type as Hvx. pose proof (has_limits v). unfold has_type in *.
  destruct (Z.ltb_spec y 0); cbn; lia.
Qed.
Lemma ClampedMulOp_exact : ClampedMulOp_Do c t u v x y = Ret (clamp v (x * y)).
Proof using Hx Hy Hresult Hcompatible.
  unfold ClampedMulOp_Do. rewrite !negative_exact by done. cbv zeta.
  eapply decides_clamp; [apply CheckedMulOp_decides; auto using clamped_bound|done|].
  intros Hn. assert (x * y ≠ 0) by (intros H0; rewrite H0 in Hn; by apply Hn, has_type_zero).
  destruct (Z.ltb_spec x 0), (Z.ltb_spec y 0); cbn; nia.
Qed.
Lemma ClampedDivOp_exact :
  ClampedDivOp_Do t u v x y = Ret (clamped_value CheckedDivOp v x y).
Proof using Hx Hy Hresult Hcompatible.
  unfold ClampedDivOp_Do, clamped_value, exact_op.
  destruct (CheckedDivOp_decides t u v x y 0) as [Hd Hz]; [done..|].
  rewrite !negative_exact by done. destruct (Z.eqb_spec y 0) as [->|Hy0].
  - rewrite Hz by done. cbn [mbind outcome_bind]. rewrite Saturation_exact.
    destruct (x =? 0); [done|]. by destruct (x <? 0).
  - destruct (Z.eqb_spec x 0) as [->|Hx0]; cbn [negb].
    + destruct Hd as (b & res & -> & Hb & Hf). cbn [mbind outcome_bind].
      rewrite Z.quot_0_l in * by done. rewrite clamp_type by apply has_type_zero.
      rewrite Hf in Hb |- * by auto using has_type_zero. by destruct (Hb eq_refl) as [_ ->].
    + eapply decides_clamp; [done|auto|]. intros Hn.
      pose proof (Z.quot_rem' x y). pose proof (Z.rem_bound_abs x y Hy0).
      pose proof (Z.rem_sign_mul x y Hy0).
      assert (Z.quot x y ≠ 0) by (intros H0'; rewrite H0' in Hn; by apply Hn, has_type_zero).
      destruct (Z.ltb_spec x 0), (Z.ltb_spec y 0); cbn; nia.
Qed.
End clamped.

Lemma ClampedMaxOp_exact constant t u v x y :
  has_type t x → has_type u y →
  ClampedMaxOp_Do constant t u v x y = Ret (clamp v (x `max` y)).
Proof.
  intros Hx Hy. unfold ClampedMaxOp_Do. rewrite compare_exact by done. cbn [op_spec].
  rewrite !saturated_clamp by done. f_equal. unfold clamp. destruct (Z.ltb_spec y x); lia.
Qed.
Lemma ClampedMinOp_exact constant t u v x y :
  has_type t x → has_type u y →
  ClampedMinOp_Do constant t u v x y = Ret (clamp v (x `min` y)).
Proof.
  intros Hx Hy. unfold ClampedMinOp_Do. rewrite compare_exact by done. cbn [op_spec].
  rewrite !saturated_clamp by done. f_equal. unfold clamp. destruct (Z.ltb_spec x y); lia.
Qed.

Lemma clamped_of constant t r : has_type t r → ClampedNumeric_of constant t t r = r.
Proof.
  intros Hr. unfold ClampedNumeric_of. rewrite saturated_clamp by done.
  unfold has_type in Hr. lia.
Qed.

Lemma clamped_value_type m v x y : has_type v (clamped_value m v x y).
Proof.
  pose proof (has_limits v) as (_ & _ & ?). unfold clamped_value, clamp, has_type.
  destruct (exact_op m x y); [lia|]. destruct (x =? 0); [lia|]. destruct (x <? 0); lia.
Qed.

Lemma Clamped_Do_exact c constant m t u v x y :
  arithmetic m = true → has_type t x → has_type u y →
  v = result_type m t u ∨ v = t ∧ (extremum m = false ∧ IsTypeInRangeForNumericType u v = true) →
  extremum m || (StaticDstRangeRelationToSrcRange v t && compatible t u v) = true →
  Clamped_Do c constant m t u v x y = Ret (clamped_value m v x y).
Proof.
  intros Hm Hx Hy Hv Hok.
  assert (bool_decide (v = MaxExponentPromotion t u) || IsTypeInRangeForNumericType u v = true
          ∨ result_type m t u ≠ MaxExponentPromotion t u) as Hs.
  { destruct (decide (result_type m t u = MaxExponentPromotion t u)) as [He|]; [left|by right].
    destruct Hv as [->|(_ & _ & ->)]; [|apply orb_true_r].
    by rewrite He, bool_decide_eq_true_2. }
  destruct (extremum m) eqn:Hext.
  - destruct m; try done; cbn [Clamped_Do clamped_value exact_op];
      [by apply ClampedMaxOp_exact|by apply ClampedMinOp_exact].
  - apply andb_true_iff in Hok as [Hcont Hcomp].
    assert (v = MaxExponentPromotion t u ∨ v = t) as Hr
      by (destruct Hv as [->|[-> _]]; [left; by destruct m|by right]).
    destruct m; try done; (destruct Hs as [Hs|Hs]; [|done]); cbn [Clamped_Do clamped_value exact_op].
    + by apply ClampedAddOp_exact.
    + by apply ClampedSubOp_exact.
    + by apply ClampedMulOp_exact.
    + by apply ClampedDivOp_exact.
Qed.

(** Sums, differences, products, quotients, maxima and minima of clamped numbers
    are those of the integers, clamped to the type of the result, if that type
    holds the left operand and one type of at most 64 bits holds both. *)
Theorem clamped_exact c constant m t u x y :
  arithmetic m = true → has_type t x → has_type u y →
  extremum m
  || (StaticDstRangeRelationToSrcRange (result_type m t u) t
      && compatible t u (result_type m t u)) = true →
  ClampMathOp c constant m t u x y = Ret (clamped_value m (result_type m t u) x y).
Proof.
  intros Hm Hx Hy Hok. unfold ClampMathOp. rewrite Clamped_Do_exact by auto.
  cbn [mbind outcome_bind]. by rewrite clamped_of by apply clamped_value_type.
Qed.
Lemma clamped_exact_witness :
  ClampMathOp Gcc false CheckedSubOp uint8_t uint16_t 3 7 = Ret 0
  ∧ ClampMathOp Portable true CheckedDivOp int32_t int8_t (- 2 ^ 31) (-1) = Ret (2 ^ 31 - 1).
Proof.
  split.
  - apply (clamped_exact Gcc false CheckedSubOp uint8_t uint16_t 3 7); vm_compute;
      intuition discriminate.
  - apply (clamped_exact Portable true CheckedDivOp int32_t int8_t (- 2 ^ 31) (-1)); vm_compute;
      intuition discriminate.
Defined.

(** The assignment operators compile if the right operand's type holds the
    left's. *)
Lemma clamped_assign_exact c constant m t u x y :
  arithmetic m = true → extremum m = false → has_type t x → has_type u y →
  IsTypeInRangeForNumericType u t = true → compatible t u t = true →
  ClampMathOp_assign c constant m t u x y = Ret (clamped_value m t x y).
Proof.
  intros Hm He Hx Hy Hs Hc. unfold ClampMathOp_assign. rewrite Clamped_Do_exact; auto.
  - cbn [mbind outcome_bind]. by rewrite clamped_of by apply clamped_value_type.
  - rewrite He, Hc, contained_spec. cbn [orb]. lia.
Qed.

(** Otherwise the saturation can be on the wrong side, as it looks at the right
    operand only: -10 + 5 as an unsigned number. *)
Lemma clamped_sum_of_mixed c constant :
  ClampMathOp c constant CheckedAddOp int32_t uint32_t (-10) 5 = Ret (2 ^ 32 - 1)
  ∧ clamped_value CheckedAddOp uint32_t (-10) 5 = 0.
Proof. by destruct c, constant. Qed.

(** And a product of 64-bit operands of different signs saturates where the
    compiler's builtin is not used, although it fits. *)
Lemma clamped_product_of_mixed :
  ClampMathOp_assign Clang false CheckedMulOp int64_t uint64_t (-3) 2 = Ret (- 2 ^ 63)
  ∧ ClampMathOp_assign Gcc false CheckedMulOp int64_t uint64_t (-3) 2 = Ret (-6).
Proof. done. Qed.

(** ** Unary operators *)

Lemma SaturatedNegWrapper_exact c treat_constant t x :
  has_type t x → SaturatedNegWrapper c treat_constant t x = Ret (clamp t (- x)).
Proof.
  intros Hx. unfold SaturatedNegWrapper. pose proof (has_limits t) as (_ & _ & ?).
  destruct (is_signed t) eqn:Ht.
  - destruct (signed_limits t Ht) as (Hl & _ & _ & Hp). rewrite sizeof_unsigned in Hp.
    pose proof Hx as Hx'. unfold has_type in Hx'.
    assert (¬ has_type t (- x) → x = lowest t) as Hlow by (unfold has_type; lia).
    destruct (treat_constant || _).
    + unfold NegateWrapper. set (d := make_unsigned t).
      assert (is_signed d = false) as Hd by (by destruct t).
      destruct (arith_unsigned SubOp d 0 (convert d x)) as (s & -> & Hs);
        auto using convert_range, has_type_zero.
      cbn [mbind outcome_bind arith_spec] in *.
      assert (convert t s = convert t (- x)) as ->.
      { rewrite <-(convert_unsigned t s). fold d. rewrite Hs. unfold d. rewrite convert_unsigned.
        destruct (convert_congruent d x) as [k Hk]. unfold d in Hk.
        rewrite sizeof_unsigned in Hk. apply (convert_eq _ _ _ (- k)). fold d in Hk |- *. lia. }
      rewrite Op_same by (apply convert_range || apply has_limits). cbn [op_spec]. f_equal.
      destruct (decide (has_type t (- x))) as [Hin|Hout].
      * rewrite convert_id, clamp_type by done. unfold has_type in Hin.
        destruct (Z.eqb_spec (- x) (lowest t)); cbn [negb]; lia.
      * specialize (Hlow Hout). subst x.
        rewrite (convert_unique t _ (lowest t) 1); [|apply has_limits|lia].
        rewrite Z.eqb_refl. cbn [negb]. unfold clamp. lia.
    + unfold ClampedNegFastOp_Do. cbn [builtin_overflow arith_spec]. rewrite negb_involutive. f_equal.
      rewrite Z.sub_0_l. destruct (in_rangeb t (- x)) eqn:Hin.
      * apply in_rangeb_true in Hin. by rewrite convert_id, clamp_type.
      * assert (¬ has_type t (- x)) as Hout by (rewrite <-in_rangeb_true; congruence).
        specialize (Hlow Hout). unfold clamp. lia.
  - pose proof (lowest_unsigned t Ht). rewrite convert_id by apply has_type_zero.
    unfold has_type, clamp in *. f_equal. lia.
Qed.

Lemma SaturatedAbsWrapper_exact t x :
  has_type t x → SaturatedAbsWrapper t x = Ret (clamp t (Z.abs x)).
Proof.
  intros Hx. unfold SaturatedAbsWrapper. rewrite SafeUnsignedAbs_exact by done.
  rewrite negative_exact by apply convert_range. set (d := make_unsigned t).
  set (b := convert t (Z.abs x) <? 0).
  assert (has_type t (Z.abs x - Z.b2z b) ∧ Z.abs x - Z.b2z b = clamp t (Z.abs x)
          ∧ has_type d (Z.abs x) ∧ has_type d (Z.abs x - Z.b2z b)) as (Hr & He & Ha & Hd).
  { pose proof (has_limits t) as (_ & _ & ?). unfold has_type in Hx. destruct (is_signed t) eqn:Ht.
    - destruct (signed_limits t Ht) as (Hl & Hm & Hl0 & Hp). rewrite sizeof_unsigned in Hp.
      assert (b = (Z.abs x =? max t + 1)) as ->.
      { unfold b. destruct (Z.eqb_spec (Z.abs x) (max t + 1)) as [E|E].
        - rewrite (convert_unique t _ (lowest t) 1); [lia|apply has_limits|lia].
        - rewrite convert_id by (unfold has_type; lia). lia. }
      unfold has_type, clamp, d. rewrite Hm, Hl0.
      destruct (Z.eqb_spec (Z.abs x) (max t + 1)); cbn [Z.b2z]; lia.
    - pose proof (lowest_unsigned t Ht). assert (d = t) as -> by (by destruct t).
      assert (b = false) as -> by (unfold b; rewrite convert_id by (unfold has_type; lia); lia).
      unfold has_type, clamp. cbn [Z.b2z]. lia. }
  assert (arith SubOp d int32_t (Z.abs x) (Z.b2z b) = Ret (Z.abs x - Z.b2z b)) as ->.
  { unfold arith. cbv zeta. set (q := common_type d int32_t).
    assert (has_type q (Z.abs x) ∧ has_type q (Z.b2z b) ∧ has_type q (Z.abs x - Z.b2z b))
      as (H1 & H2 & H3).
    { assert (lowest d = 0) by (apply lowest_unsigned; by destruct t).
      split; [|split]; apply common_nonneg.
      - by left.
      - lia.
      - right. by destruct b.
      - by destruct b.
      - by left.
      - unfold has_type in Hd. lia. }
    rewrite (convert_id q (Z.abs x)), (convert_id q (Z.b2z b)) by done. cbn [arith_spec].
    rewrite convert_id by done.
    rewrite bool_decide_eq_false_2 by naive_solver. rewrite decide_False by done.
    apply in_rangeb_true in H3 as ->. cbn [andb]. by destruct (is_signed q). }
  cbn [mbind outcome_bind]. rewrite convert_id by done. by rewrite He.
Qed.
