(* ===== verification/Checks.v ===== *)
(** The comparing checks of libs/webrtc/include/rtc_base/checks.h, and
    arithmetic on [int64_t]. *)

From stdpp Require Import pretty.
From S2P Require Import Prelude.
From S2P Require Import Buffer.
From S2P Require Import SafeNumerics.

Definition MakeCheckOpString (v1 v2 : Z) (names : string) : string :=
  names +:+ " (" +:+ pretty v1 +:+ " vs. " +:+ pretty v2 +:+ ")".

(** [CheckEqImpl], ...: [None] is the null pointer. *)
Definition CheckOpImpl (o : cmp_op) (t1 t2 : int_type) (v1 v2 : Z)
    (names : string) : option string :=
  if Safe o t1 t2 v1 v2 then None else Some (MakeCheckOpString v1 v2 names).

Definition RTC_CHECK_OP (o : cmp_op) (t1 t2 : int_type) (v1 v2 : Z)
    (names : string) : outcome unit :=
  match CheckOpImpl o t1 t2 v1 v2 names with
  | Some result => Abort result
  | None => Ret tt
  end.

Definition RTC_DCHECK_OP `{BuildConfig} (o : cmp_op) (t1 t2 : int_type)
    (v1 v2 : Z) (names : string) : outcome unit :=
  if dcheck_is_on then RTC_CHECK_OP o t1 t2 v1 v2 names else Ret tt.

(** Arithmetic on [int64_t]. *)
Definition i64_ret (z : Z) : outcome Z :=
  if (lowest int64_t <=? z) && (z <=? max int64_t)
  then Ret z else Undef SignedOverflow.
Definition i64_div (a b : Z) : outcome Z :=
  if b =? 0 then Undef DivisionByZero else i64_ret (Z.quot a b).

(** [CheckedDivExact<int64_t>] *)
Definition CheckedDivExact (a b : Z) : outcome Z :=
  if b =? 0 then Undef DivisionByZero else
  if (a =? lowest int64_t) && (b =? -1) then Undef SignedOverflow else
  _ ← RTC_CHECK_OP EqOp int64_t int32_t (Z.rem a b) 0 "a % b == 0";
  i64_div a b.

(** ** Lemmas *)

Lemma RTC_CHECK_OP_ok o t1 t2 a b msg :
  has_type t1 a → has_type t2 b → op_spec o a b = true →
  RTC_CHECK_OP o t1 t2 a b msg = Ret tt.
Proof.
  intros Ha Hb Ho. unfold RTC_CHECK_OP, CheckOpImpl.
  by rewrite Safe_exact, Ho by done.
Qed.

Lemma i64_ret_ok z : has_type int64_t z → i64_ret z = Ret z.
Proof.
  unfold has_type, i64_ret. intros. case_match eqn:E; [done|]. lia.
Qed.

Lemma i64_div_ok a b :
  has_type int64_t a → 0 ≤ a → 0 < b → i64_div a b = Ret (a / b).
Proof.
  intros Ha H1 H2. unfold i64_div. rewrite (proj2 (Z.eqb_neq b 0)) by lia.
  rewrite Z.quot_div_nonneg by lia. apply i64_ret_ok.
  pose proof (Z.div_pos a b H1 H2).
  pose proof (Z.div_le_upper_bound a b a H2 ltac:(nia)). limits.
Qed.

Section dchecks.
Context `{BuildConfig}.

Lemma RTC_DCHECK_OP_ok o t1 t2 a b msg :
  has_type t1 a → has_type t2 b → op_spec o a b = true →
  RTC_DCHECK_OP o t1 t2 a b msg = Ret tt.
Proof.
  intros. unfold RTC_DCHECK_OP. case_match; [|done]. by apply RTC_CHECK_OP_ok.
Qed.

Lemma RTC_DCHECK_true msg : RTC_DCHECK true msg = Ret tt.
Proof. unfold RTC_DCHECK. by case_match. Qed.

Lemma dchecked_cast_ok dst src v :
  has_type src v → has_type dst v → dchecked_cast dst src v = Ret v.
Proof.
  intros Hs Hd. unfold dchecked_cast. rewrite in_range_exact by done.
  rewrite convert_id by done. unfold has_type in Hd.
  replace (_ && _) with true by lia. by rewrite RTC_DCHECK_true.
Qed.
End dchecks.
