(* ===== verification/Units.v ===== *)
(** Time and data units (libs/webrtc/include/api/units/data_size.h,
    data_rate.h, time_delta.h, timestamp.h).

    The members are [int64_t]; arithmetic that leaves its range is undefined
    behaviour.  The overloads for floating-point arguments and results are not
    modelled.  The type argument of an integral overload is an [int_type]. *)

From S2P Require Import Prelude.
From S2P Require Import Buffer.
From S2P Require Import SafeNumerics.
From S2P Require Import Checks.

Definition kPlusInfinityVal : Z := max int64_t.
Definition kMinusInfinityVal : Z := lowest int64_t.

Section units.
Context `{BuildConfig}.

(** ** data_size.h *)

Record DataSize : Type := MkDataSize { bytes_ : Z }.
#[export] Instance DataSize_eq_dec : EqDecision DataSize.
Proof. solve_decision. Defined.

Definition DataSize_Zero : DataSize := MkDataSize 0.
Definition DataSize_Infinity : DataSize := MkDataSize kPlusInfinityVal.

(** [DataSize::bytes(T)] *)
Definition DataSize_of_bytes (t : int_type) (bytes : Z) : outcome DataSize :=
  _ ← RTC_DCHECK_OP GeOp t int32_t bytes 0 "bytes >= 0";
  _ ← RTC_DCHECK_OP LtOp t int64_t bytes kPlusInfinityVal
        "bytes < data_size_impl::kPlusInfinityVal";
  MkDataSize <$> dchecked_cast int64_t t bytes.

Definition DataSize_IsZero (d : DataSize) : bool := bytes_ d =? 0.
Definition DataSize_IsInfinite (d : DataSize) : bool :=
  bytes_ d =? kPlusInfinityVal.
Definition DataSize_IsFinite (d : DataSize) : bool := negb (DataSize_IsInfinite d).

(** [bytes<T>() const] *)
Definition DataSize_bytes (t : int_type) (d : DataSize) : outcome Z :=
  _ ← RTC_DCHECK (DataSize_IsFinite d) "IsFinite()";
  dchecked_cast t int64_t (bytes_ d).

Definition DataSize_minus (d other : DataSize) : outcome DataSize :=
  x ← DataSize_bytes int64_t d; y ← DataSize_bytes int64_t other;
  z ← i64_ret (x - y); DataSize_of_bytes int64_t z.
Definition DataSize_plus (d other : DataSize) : outcome DataSize :=
  x ← DataSize_bytes int64_t d; y ← DataSize_bytes int64_t other;
  z ← i64_ret (x + y); DataSize_of_bytes int64_t z.

(** [operator-=] and [operator+=]: the result is not checked. *)
Definition DataSize_minus_assign (d other : DataSize) : outcome DataSize :=
  y ← DataSize_bytes int64_t other; MkDataSize <$> i64_ret (bytes_ d - y).
Definition DataSize_plus_assign (d other : DataSize) : outcome DataSize :=
  y ← DataSize_bytes int64_t other; MkDataSize <$> i64_ret (bytes_ d + y).

(** [operator==], ..., [operator<] *)
Definition DataSize_compare (o : cmp_op) (d other : DataSize) : bool :=
  op_spec o (bytes_ d) (bytes_ other).

(** The scalar is an [int64_t] or an [int32_t]. *)
Definition DataSize_times (size : DataSize) (scalar : Z) : outcome DataSize :=
  x ← DataSize_bytes int64_t size; z ← i64_ret (x * scalar);
  DataSize_of_bytes int64_t z.
Definition DataSize_div (size : DataSize) (scalar : Z) : outcome DataSize :=
  x ← DataSize_bytes int64_t size; z ← i64_div x scalar;
  DataSize_of_bytes int64_t z.

(** ** time_delta.h *)

Record TimeDelta : Type := MkTimeDelta { microseconds_ : Z }.
#[export] Instance TimeDelta_eq_dec : EqDecision TimeDelta.
Proof. solve_decision. Defined.

Definition TimeDelta_Zero : TimeDelta := MkTimeDelta 0.
Definition TimeDelta_PlusInfinity : TimeDelta := MkTimeDelta kPlusInfinityVal.
Definition TimeDelta_MinusInfinity : TimeDelta := MkTimeDelta kMinusInfinityVal.

(** [TimeDelta::seconds(T)], [TimeDelta::ms(T)], [TimeDelta::us(T)] *)
Definition TimeDelta_of_seconds (t : int_type) (seconds : Z)
    : outcome TimeDelta :=
  _ ← RTC_DCHECK_OP GtOp t int64_t seconds (Z.quot kMinusInfinityVal 1000000)
        "seconds > timedelta_impl::kMinusInfinityVal / 1000000";
  _ ← RTC_DCHECK_OP LtOp t int64_t seconds (Z.quot kPlusInfinityVal 1000000)
        "seconds < timedelta_impl::kPlusInfinityVal / 1000000";
  x ← dchecked_cast int64_t t seconds; MkTimeDelta <$> i64_ret (x * 1000000).
Definition TimeDelta_of_ms (t : int_type) (milliseconds : Z)
    : outcome TimeDelta :=
  _ ← RTC_DCHECK_OP GtOp t int64_t milliseconds (Z.quot kMinusInfinityVal 1000)
        "milliseconds > timedelta_impl::kMinusInfinityVal / 1000";
  _ ← RTC_DCHECK_OP LtOp t int64_t milliseconds (Z.quot kPlusInfinityVal 1000)
        "milliseconds < timedelta_impl::kPlusInfinityVal / 1000";
  x ← dchecked_cast int64_t t milliseconds; MkTimeDelta <$> i64_ret (x * 1000).
Definition TimeDelta_of_us (t : int_type) (microseconds : Z)
    : outcome TimeDelta :=
  _ ← RTC_DCHECK_OP GtOp t int64_t microseconds kMinusInfinityVal
        "microseconds > timedelta_impl::kMinusInfinityVal";
  _ ← RTC_DCHECK_OP LtOp t int64_t microseconds kPlusInfinityVal
        "microseconds < timedelta_impl::kPlusInfinityVal";
  MkTimeDelta <$> dchecked_cast int64_t t microseconds.

Definition TimeDelta_IsZero (d : TimeDelta) : bool := microseconds_ d =? 0.
Definition TimeDelta_IsPlusInfinity (d : TimeDelta) : bool :=
  microseconds_ d =? kPlusInfinityVal.
Definition TimeDelta_IsMinusInfinity (d : TimeDelta) : bool :=
  microseconds_ d =? kMinusInfinityVal.
Definition TimeDelta_IsInfinite (d : TimeDelta) : bool :=
  (microseconds_ d =? kPlusInfinityVal) || (microseconds_ d =? kMinusInfinityVal).
Definition TimeDelta_IsFinite (d : TimeDelta) : bool :=
  negb (TimeDelta_IsInfinite d).

Definition TimeDelta_us (t : int_type) (d : TimeDelta) : outcome Z :=
  _ ← RTC_DCHECK (TimeDelta_IsFinite d) "IsFinite()";
  dchecked_cast t int64_t (microseconds_ d).
Definition TimeDelta_ms (t : int_type) (d : TimeDelta) : outcome Z :=
  x ← TimeDelta_us int64_t d;
  y ← i64_ret (x + if 0 <=? x then 500 else -500);
  dchecked_cast t int64_t (Z.quot y 1000).
Definition TimeDelta_seconds (t : int_type) (d : TimeDelta) : outcome Z :=
  x ← TimeDelta_us int64_t d;
  y ← i64_ret (x + if 0 <=? x then 500000 else -500000);
  dchecked_cast t int64_t (Z.quot y 1000000).

(** [us()] inside the checks is evaluated only when they are compiled in. *)
Definition TimeDelta_ns (t : int_type) (d : TimeDelta) : outcome Z :=
  _ ← (if dcheck_is_on then
         x ← TimeDelta_us int64_t d;
         _ ← RTC_CHECK_OP GeOp int64_t (promote t) x (Z.quot (lowest t) 1000)
               "us() >= std::numeric_limits<T>::min() / 1000";
         RTC_CHECK_OP LeOp int64_t (promote t) x (Z.quot (max t) 1000)
               "us() <= std::numeric_limits<T>::max() / 1000"
       else Ret tt);
  x ← TimeDelta_us int64_t d; y ← i64_ret (x * 1000);
  dchecked_cast t int64_t y.

Definition TimeDelta_Abs (d : TimeDelta) : outcome TimeDelta :=
  x ← TimeDelta_us int64_t d; y ← i64_ret (Z.abs x); TimeDelta_of_us int64_t y.

Definition TimeDelta_plus (d other : TimeDelta) : outcome TimeDelta :=
  x ← TimeDelta_us int64_t d; y ← TimeDelta_us int64_t other;
  z ← i64_ret (x + y); TimeDelta_of_us int64_t z.
Definition TimeDelta_minus (d other : TimeDelta) : outcome TimeDelta :=
  x ← TimeDelta_us int64_t d; y ← TimeDelta_us int64_t other;
  z ← i64_ret (x - y); TimeDelta_of_us int64_t z.
Definition TimeDelta_minus_assign (d other : TimeDelta) : outcome TimeDelta :=
  y ← TimeDelta_us int64_t other; MkTimeDelta <$> i64_ret (microseconds_ d - y).
Definition TimeDelta_plus_assign (d other : TimeDelta) : outcome TimeDelta :=
  y ← TimeDelta_us int64_t other; MkTimeDelta <$> i64_ret (microseconds_ d + y).

Definition TimeDelta_compare (o : cmp_op) (d other : TimeDelta) : bool :=
  op_spec o (microseconds_ d) (microseconds_ other).

Definition TimeDelta_times (delta : TimeDelta) (scalar : Z) : outcome TimeDelta :=
  x ← TimeDelta_us int64_t delta; z ← i64_ret (x * scalar);
  TimeDelta_of_us int64_t z.
Definition TimeDelta_div (delta : TimeDelta) (scalar : Z) : outcome TimeDelta :=
  x ← TimeDelta_us int64_t delta; z ← i64_div x scalar;
  TimeDelta_of_us int64_t z.

(** ** timestamp.h *)

Record Timestamp : Type := MkTimestamp { ts_microseconds_ : Z }.
#[export] Instance Timestamp_eq_dec : EqDecision Timestamp.
Proof. solve_decision. Defined.

Definition Timestamp_Infinity : Timestamp := MkTimestamp kPlusInfinityVal.

Definition Timestamp_of_seconds (t : int_type) (seconds : Z)
    : outcome Timestamp :=
  _ ← RTC_DCHECK_OP GeOp t int32_t seconds 0 "seconds >= 0";
  _ ← RTC_DCHECK_OP LtOp t int64_t seconds (Z.quot kPlusInfinityVal 1000000)
        "seconds < timestamp_impl::kPlusInfinityVal / 1000000";
  x ← dchecked_cast int64_t t seconds; MkTimestamp <$> i64_ret (x * 1000000).
Definition Timestamp_of_ms (t : int_type) (milliseconds : Z)
    : outcome Timestamp :=
  _ ← RTC_DCHECK_OP GeOp t int32_t milliseconds 0 "milliseconds >= 0";
  _ ← RTC_DCHECK_OP LtOp t int64_t milliseconds (Z.quot kPlusInfinityVal 1000)
        "milliseconds < timestamp_impl::kPlusInfinityVal / 1000";
  x ← dchecked_cast int64_t t milliseconds; MkTimestamp <$> i64_ret (x * 1000).
Definition Timestamp_of_us (t : int_type) (microseconds : Z)
    : outcome Timestamp :=
  _ ← RTC_DCHECK_OP GeOp t int32_t microseconds 0 "microseconds >= 0";
  _ ← RTC_DCHECK_OP LtOp t int64_t microseconds kPlusInfinityVal
        "microseconds < timestamp_impl::kPlusInfinityVal";
  MkTimestamp <$> dchecked_cast int64_t t microseconds.

Definition Timestamp_IsInfinite (s : Timestamp) : bool :=
  ts_microseconds_ s =? kPlusInfinityVal.
Definition Timestamp_IsFinite (s : Timestamp) : bool :=
  negb (Timestamp_IsInfinite s).

Definition Timestamp_us (t : int_type) (s : Timestamp) : outcome Z :=
  _ ← RTC_DCHECK (Timestamp_IsFinite s) "IsFinite()";
  dchecked_cast t int64_t (ts_microseconds_ s).
Definition Timestamp_ms (t : int_type) (s : Timestamp) : outcome Z :=
  x ← Timestamp_us int64_t s; y ← i64_ret (x + 500);
  dchecked_cast t int64_t (Z.quot y 1000).
Definition Timestamp_seconds (t : int_type) (s : Timestamp) : outcome Z :=
  x ← Timestamp_us int64_t s; y ← i64_ret (x + 500000);
  dchecked_cast t int64_t (Z.quot y 1000000).

(** The difference of two timestamps, and a timestamp moved by a duration. *)
Definition Timestamp_diff (s other : Timestamp) : outcome TimeDelta :=
  x ← Timestamp_us int64_t s; y ← Timestamp_us int64_t other;
  z ← i64_ret (x - y); TimeDelta_of_us int64_t z.
Definition Timestamp_minus (s : Timestamp) (delta : TimeDelta)
    : outcome Timestamp :=
  x ← Timestamp_us int64_t s; y ← TimeDelta_us int64_t delta;
  z ← i64_ret (x - y); Timestamp_of_us int64_t z.
Definition Timestamp_plus (s : Timestamp) (delta : TimeDelta)
    : outcome Timestamp :=
  x ← Timestamp_us int64_t s; y ← TimeDelta_us int64_t delta;
  z ← i64_ret (x + y); Timestamp_of_us int64_t z.
Definition Timestamp_minus_assign (s : Timestamp) (other : TimeDelta)
    : outcome Timestamp :=
  y ← TimeDelta_us int64_t other;
  MkTimestamp <$> i64_ret (ts_microseconds_ s - y).
Definition Timestamp_plus_assign (s : Timestamp) (other : TimeDelta)
    : outcome Timestamp :=
  y ← TimeDelta_us int64_t other;
  MkTimestamp <$> i64_ret (ts_microseconds_ s + y).

Definition Timestamp_compare (o : cmp_op) (s other : Timestamp) : bool :=
  op_spec o (ts_microseconds_ s) (ts_microseconds_ other).

(** ** data_rate.h *)

Definition Microbits (size : DataSize) : outcome Z :=
  _ ← (if dcheck_is_on then
         x ← DataSize_bytes int64_t size;
         RTC_CHECK_OP LeOp int64_t int64_t x (Z.quot (max int64_t) 8000000)
           "size.bytes() <= kMaxBeforeConversion"
       else Ret tt);
  x ← DataSize_bytes int64_t size; i64_ret (x * 8000000).

Record DataRate : Type := MkDataRate { bits_per_sec_ : Z }.
#[export] Instance DataRate_eq_dec : EqDecision DataRate.
Proof. solve_decision. Defined.

Definition DataRate_Zero : DataRate := MkDataRate 0.
Definition DataRate_Infinity : DataRate := MkDataRate kPlusInfinityVal.

(** [DataRate::bps(T)], [DataRate::kbps(T)] *)
Definition DataRate_of_bps (t : int_type) (bits_per_second : Z)
    : outcome DataRate :=
  _ ← RTC_DCHECK_OP GeOp t int32_t bits_per_second 0 "bits_per_second >= 0";
  _ ← RTC_DCHECK_OP LtOp t int64_t bits_per_second kPlusInfinityVal
        "bits_per_second < data_rate_impl::kPlusInfinityVal";
  MkDataRate <$> dchecked_cast int64_t t bits_per_second.
Definition DataRate_of_kbps (t : int_type) (kilobits_per_sec : Z)
    : outcome DataRate :=
  _ ← RTC_DCHECK_OP GeOp t int32_t kilobits_per_sec 0 "kilobits_per_sec >= 0";
  _ ← RTC_DCHECK_OP LtOp t int64_t kilobits_per_sec (Z.quot kPlusInfinityVal 1000)
        "kilobits_per_sec < data_rate_impl::kPlusInfinityVal / 1000";
  x ← dchecked_cast int64_t t kilobits_per_sec; y ← i64_ret (x * 1000);
  DataRate_of_bps int64_t y.

Definition DataRate_IsZero (r : DataRate) : bool := bits_per_sec_ r =? 0.
Definition DataRate_IsInfinite (r : DataRate) : bool :=
  bits_per_sec_ r =? kPlusInfinityVal.
Definition DataRate_IsFinite (r : DataRate) : bool := negb (DataRate_IsInfinite r).

Definition DataRate_bps (t : int_type) (r : DataRate) : outcome Z :=
  _ ← RTC_DCHECK (DataRate_IsFinite r) "IsFinite()";
  dchecked_cast t int64_t (bits_per_sec_ r).
Definition DataRate_kbps (t : int_type) (r : DataRate) : outcome Z :=
  x ← DataRate_bps int64_t r; y ← i64_ret (x + 500);
  dchecked_cast t int64_t (Z.quot y 1000).

Definition DataRate_compare (o : cmp_op) (r other : DataRate) : bool :=
  op_spec o (bits_per_sec_ r) (bits_per_sec_ other).

Definition DataRate_times (rate : DataRate) (scalar : Z) : outcome DataRate :=
  x ← DataRate_bps int64_t rate; z ← i64_ret (x * scalar);
  DataRate_of_bps int64_t z.

(** [operator/(DataSize, TimeDelta)], [operator/(DataSize, DataRate)] and
    [operator*(DataRate, TimeDelta)] *)
Definition size_per_time (size : DataSize) (duration : TimeDelta)
    : outcome DataRate :=
  m ← Microbits size; us ← TimeDelta_us int64_t duration;
  q ← i64_div m us; DataRate_of_bps int64_t q.
Definition size_per_rate (size : DataSize) (rate : DataRate)
    : outcome TimeDelta :=
  m ← Microbits size; bps ← DataRate_bps int64_t rate;
  q ← i64_div m bps; TimeDelta_of_us int64_t q.
Definition rate_times_time (rate : DataRate) (duration : TimeDelta)
    : outcome DataSize :=
  bps ← DataRate_bps int64_t rate; us ← TimeDelta_us int64_t duration;
  microbits ← i64_ret (bps * us); rounded ← i64_ret (microbits + 4000000);
  DataSize_of_bytes int64_t (Z.quot rounded 8000000).
End units.

(** ** Lemmas *)

Section unit_lemmas.
Context `{BuildConfig}.

(** In its range, each constructor and accessor is the plain value. *)
Lemma DataSize_of_bytes_ok b :
  0 ≤ b < kPlusInfinityVal → DataSize_of_bytes int64_t b = Ret (MkDataSize b).
Proof.
  unfold kPlusInfinityVal. intros Hb. unfold DataSize_of_bytes, kPlusInfinityVal.
  rewrite !RTC_DCHECK_OP_ok, dchecked_cast_ok; try done; cbn [op_spec]; limits.
Qed.

Lemma DataSize_bytes_ok b :
  0 ≤ b < kPlusInfinityVal → DataSize_bytes int64_t (MkDataSize b) = Ret b.
Proof.
  unfold kPlusInfinityVal. intros Hb.
  unfold DataSize_bytes, DataSize_IsFinite, DataSize_IsInfinite, kPlusInfinityVal.
  cbn [bytes_]. rewrite (proj2 (Z.eqb_neq b _)) by limits.
  rewrite RTC_DCHECK_true. cbn [mbind outcome_bind].
  apply dchecked_cast_ok; limits.
Qed.

Lemma DataRate_of_bps_ok b :
  0 ≤ b < kPlusInfinityVal → DataRate_of_bps int64_t b = Ret (MkDataRate b).
Proof.
  unfold kPlusInfinityVal. intros Hb. unfold DataRate_of_bps, kPlusInfinityVal.
  rewrite !RTC_DCHECK_OP_ok, dchecked_cast_ok; try done; cbn [op_spec]; limits.
Qed.

Lemma DataRate_bps_ok b :
  0 ≤ b < kPlusInfinityVal → DataRate_bps int64_t (MkDataRate b) = Ret b.
Proof.
  unfold kPlusInfinityVal. intros Hb.
  unfold DataRate_bps, DataRate_IsFinite, DataRate_IsInfinite, kPlusInfinityVal.
  cbn [bits_per_sec_]. rewrite (proj2 (Z.eqb_neq b _)) by limits.
  rewrite RTC_DCHECK_true. cbn [mbind outcome_bind].
  apply dchecked_cast_ok; limits.
Qed.

Lemma TimeDelta_of_us_ok b :
  kMinusInfinityVal < b < kPlusInfinityVal →
  TimeDelta_of_us int64_t b = Ret (MkTimeDelta b).
Proof.
  unfold kPlusInfinityVal, kMinusInfinityVal. intros Hb.
  unfold TimeDelta_of_us, kPlusInfinityVal, kMinusInfinityVal.
  rewrite !RTC_DCHECK_OP_ok, dchecked_cast_ok; try done; cbn [op_spec]; limits.
Qed.

Lemma TimeDelta_us_ok b :
  kMinusInfinityVal < b < kPlusInfinityVal →
  TimeDelta_us int64_t (MkTimeDelta b) = Ret b.
Proof.
  unfold kPlusInfinityVal, kMinusInfinityVal. intros Hb.
  unfold TimeDelta_us, TimeDelta_IsFinite, TimeDelta_IsInfinite,
    kPlusInfinityVal, kMinusInfinityVal.
  cbn [microseconds_]. rewrite !(proj2 (Z.eqb_neq b _)) by limits.
  rewrite RTC_DCHECK_true. cbn [mbind outcome_bind].
  apply dchecked_cast_ok; limits.
Qed.

(** A size that is converted stays below the limit of the conversion. *)
Definition convertible (s : Z) : Prop := 0 ≤ s ≤ 1152921504606.

Lemma Microbits_ok s :
  convertible s → Microbits (MkDataSize s) = Ret (s * 8000000).
Proof.
  unfold convertible. intros Hs. unfold Microbits.
  compute_in_goal (Z.quot (max int64_t) 8000000).
  rewrite DataSize_bytes_ok by (unfold kPlusInfinityVal; limits).
  cbn [mbind outcome_bind].
  rewrite i64_ret_ok by limits. case_match; [|done].
  rewrite RTC_CHECK_OP_ok; try done; cbn [op_spec]; limits.
Qed.

(** Rounding undoes a division by at most the half of a byte's microbits. *)
Lemma rate_times_time_ok r d s :
  0 ≤ r < kPlusInfinityVal → 0 ≤ d < kPlusInfinityVal → convertible s →
  s * 8000000 - 4000000 ≤ r * d ≤ s * 8000000 →
  rate_times_time (MkDataRate r) (MkTimeDelta d) = Ret (MkDataSize s).
Proof.
  unfold convertible. intros Hr Hd Hs Hrd. unfold rate_times_time.
  rewrite DataRate_bps_ok, TimeDelta_us_ok
    by (unfold kPlusInfinityVal, kMinusInfinityVal in *; limits).
  cbn [mbind outcome_bind].
  assert (0 ≤ r * d) by nia.
  rewrite i64_ret_ok by limits. cbn [mbind outcome_bind].
  rewrite i64_ret_ok by limits. cbn [mbind outcome_bind].
  replace (Z.quot (r * d + 4000000) 8000000) with s by dlia.
  apply DataSize_of_bytes_ok. unfold kPlusInfinityVal. limits.
Qed.
End unit_lemmas.

(** ** Properties *)

(** the rounding of the unit conversions loses nothing for short transfers:
    the rate of a size over at most four seconds, multiplied by that time, is
    the size again; and so is a rate of at most 4 Mbit/s multiplied by the time
    that the size takes at it.  No check fails and nothing overflows, up to the
    largest size that converts. *)
Theorem rate_roundtrip `{BuildConfig} s x :
  convertible s → 0 < x ≤ 4000000 →
  (r ← size_per_time (MkDataSize s) (MkTimeDelta x);
   rate_times_time r (MkTimeDelta x)) = Ret (MkDataSize s) ∧
  (d ← size_per_rate (MkDataSize s) (MkDataRate x);
   rate_times_time (MkDataRate x) d) = Ret (MkDataSize s).
Proof.
  intros Hs Hx. pose proof Hs as Hs'. unfold convertible in Hs'.
  assert (0 ≤ s * 8000000 / x < kPlusInfinityVal) as Hq.
  { split; [apply Z.div_pos; lia|].
    apply Z.div_lt_upper_bound; unfold kPlusInfinityVal; limits. }
  assert (s * 8000000 - 4000000 ≤ s * 8000000 / x * x ≤ s * 8000000) as Hr
    by (pose proof (Z.div_mod (s * 8000000) x); 
        pose proof (Z.mod_pos_bound (s * 8000000) x); lia).
  unfold size_per_time, size_per_rate. rewrite Microbits_ok by done.
  rewrite TimeDelta_us_ok, DataRate_bps_ok
    by (unfold kPlusInfinityVal, kMinusInfinityVal; limits).
  cbn [mbind outcome_bind]. rewrite i64_div_ok by (limits || lia).
  cbn [mbind outcome_bind]. rewrite DataRate_of_bps_ok by done.
  rewrite TimeDelta_of_us_ok by (unfold kPlusInfinityVal, kMinusInfinityVal in *; limits).
  cbn [mbind outcome_bind].
  split; apply rate_times_time_ok; try done; try (unfold kPlusInfinityVal; limits).
Qed.

Lemma rate_roundtrip_witness :
  (r ← @size_per_time DebugBuild (MkDataSize 1000001) (MkTimeDelta 3000007);
   @rate_times_time DebugBuild r (MkTimeDelta 3000007)) = Ret (MkDataSize 1000001)
  ∧ @size_per_time DebugBuild (MkDataSize 1000001) (MkTimeDelta 3000007)
    = Ret (MkDataRate 2666663).
Proof.
  split; [|vm_compute; reflexivity].
  apply (@rate_roundtrip DebugBuild 1000001 3000007); [|lia].
  split; vm_compute; discriminate.
Defined.
