(* ===== verification/ByteIO.v ===== *)
(** Reading and writing integers in memory
    (libs/webrtc/include/modules/rtp_rtcp/source/byte_io.h).

    [T] is the integer type, [B] the number of bytes; memory is a list of
    [uint8_t].  The code is kept as it is instantiated: the loop of the general
    case, and the expressions of the specialisations for 1, 2, 4 and 8 bytes. *)

From S2P Require Import Prelude.
From S2P Require Import SafeNumerics.

(** ** Operators *)

(** [x << k] on a promoted type: the left operand of a signed shift is
    nonnegative and its result fits the unsigned type; the count is below the
    width. *)
Definition shift_left (t : int_type) (x k : Z) : outcome Z :=
  if (0 <=? k) && (k <? sizeof t * 8) then
    if is_signed t && negb ((0 <=? x) && (Z.shiftl x k <=? max (make_unsigned t)))
    then Undef SignedOverflow else Ret (convert t (Z.shiftl x k))
  else Undef BadShift.

(** [val |= x] for a [val] of type [t]. *)
Definition or_assign (t : int_type) (val x : Z) : Z := convert t (Z.lor val x).

(** [data[i]] *)
Definition get_byte (data : list Z) (i : nat) : outcome Z :=
  match data !! i with Some b => Ret b | None => Undef OutOfBounds end.
(** [data[i] = x], converted to [uint8_t]. *)
Definition set_byte (data : list Z) (i : nat) (x : Z) : outcome (list Z) :=
  match data !! i with
  | Some _ => Ret (<[i := convert uint8_t x]> data)
  | None => Undef OutOfBounds
  end.

Inductive endian : Set := BigEndian | LittleEndian.

(** The shift of byte [i] of [B]. *)
Definition byte_shift (e : endian) (B i : nat) : Z :=
  match e with
  | BigEndian => Z.of_nat (B - 1 - i) * 8
  | LittleEndian => Z.of_nat i * 8
  end.

(** ** ByteReader<T, B, false> *)

(** The [static_assert]s of the reader and of the writer. *)
Definition static_asserts (t : int_type) (B : nat) : bool :=
  match B with
  | 0%nat => false
  | 1%nat => sizeof t =? 1
  | _ => Z.of_nat B <=? sizeof t
  end.

(** [InternalReadBigEndian] and [InternalReadLittleEndian] *)
Fixpoint InternalRead (e : endian) (t : int_type) (B : nat) (data : list Z)
    (i n : nat) (val : Z) : outcome Z :=
  match n with
  | O => Ret val
  | S n =>
      b ← get_byte data i;
      x ← shift_left (promote t) (convert t b) (byte_shift e B i);
      InternalRead e t B data (S i) n (or_assign t val x)
  end.

Definition Get (t : int_type) (data : list Z) (index : nat) : outcome Z :=
  convert t <$> get_byte data index.

(** The specialisation for one byte. *)
Definition Read1 (e : endian) (t : int_type) (data : list Z) : outcome Z :=
  convert t <$> get_byte data 0.

(** For two bytes: the bytes are promoted to [int]. *)
Definition Read2 (e : endian) (t : int_type) (data : list Z) : outcome Z :=
  match e with
  | BigEndian =>
      b0 ← get_byte data 0; b1 ← get_byte data 1;
      x0 ← shift_left int32_t b0 8; Ret (convert t (Z.lor x0 b1))
  | LittleEndian =>
      b0 ← get_byte data 0; b1 ← get_byte data 1;
      x1 ← shift_left int32_t b1 8; Ret (convert t (Z.lor b0 x1))
  end.

(** For four bytes. *)
Definition Read4 (e : endian) (t : int_type) (data : list Z) : outcome Z :=
  b0 ← Get t data 0; b1 ← Get t data 1; b2 ← Get t data 2; b3 ← Get t data 3;
  match e with
  | BigEndian =>
      x0 ← shift_left t b0 24; x1 ← shift_left t b1 16; x2 ← shift_left t b2 8;
      Ret (Z.lor (Z.lor (Z.lor x0 x1) x2) b3)
  | LittleEndian =>
      x1 ← shift_left t b1 8; x2 ← shift_left t b2 16; x3 ← shift_left t b3 24;
      Ret (Z.lor (Z.lor (Z.lor b0 x1) x2) x3)
  end.

(** For eight bytes. *)
Definition Read8 (e : endian) (t : int_type) (data : list Z) : outcome Z :=
  b0 ← Get t data 0; b1 ← Get t data 1; b2 ← Get t data 2; b3 ← Get t data 3;
  b4 ← Get t data 4; b5 ← Get t data 5; b6 ← Get t data 6; b7 ← Get t data 7;
  match e with
  | BigEndian =>
      x0 ← shift_left t b0 56; x1 ← shift_left t b1 48; x2 ← shift_left t b2 40;
      x3 ← shift_left t b3 32; x4 ← shift_left t b4 24; x5 ← shift_left t b5 16;
      x6 ← shift_left t b6 8;
      Ret (Z.lor (Z.lor (Z.lor (Z.lor (Z.lor (Z.lor (Z.lor x0 x1) x2) x3) x4) x5) x6) b7)
  | LittleEndian =>
      x1 ← shift_left t b1 8; x2 ← shift_left t b2 16; x3 ← shift_left t b3 24;
      x4 ← shift_left t b4 32; x5 ← shift_left t b5 40; x6 ← shift_left t b6 48;
      x7 ← shift_left t b7 56;
      Ret (Z.lor (Z.lor (Z.lor (Z.lor (Z.lor (Z.lor (Z.lor b0 x1) x2) x3) x4) x5) x6) x7)
  end.

Definition Read_false (e : endian) (t : int_type) (B : nat) (data : list Z)
    : outcome Z :=
  match B with
  | 1%nat => Read1 e t data
  | 2%nat => Read2 e t data
  | 4%nat => Read4 e t data
  | 8%nat => Read8 e t data
  | _ => InternalRead e t B data 0 B (convert t 0)
  end.

(** ** ByteReader<T, B, true> *)

(** [1 << ((B % sizeof(T)) * 8)] is an [int]. *)
Definition SignExtend (t : int_type) (B : nat) (val : Z) : outcome Z :=
  let U := make_unsigned t in
  let kMsb := convert uint8_t (Z.shiftr val (Z.of_nat (B - 1) * 8)) in
  if negb (Z.land kMsb 128 =? 0) then
    one ← shift_left int32_t 1 (Z.of_nat B mod sizeof t * 8);
    m ← i32_ret (one - 1);
    let kUsedBitsMask := convert U m in
    Ret (Z.lor (convert U (Z.lnot kUsedBitsMask)) val)
  else Ret val.

Definition ReinterpretAsSigned (t : int_type) (unsigned_val : Z) : Z :=
  let U := make_unsigned t in
  let kUnsignedHighestBitMask := convert U (Z.shiftl 1 (sizeof U * 8 - 1)) in
  let kSignedHighestBitMask := lowest t in
  if negb (Z.land unsigned_val kUnsignedHighestBitMask =? 0) then
    let val := convert t (Z.land unsigned_val (convert U (Z.lnot kUnsignedHighestBitMask))) in
    or_assign t val kSignedHighestBitMask
  else convert t unsigned_val.

Definition Read_true (e : endian) (t : int_type) (B : nat) (data : list Z)
    : outcome Z :=
  r ← Read_false e t B data;
  let unsigned_val := convert (make_unsigned t) r in
  v ← (if Z.of_nat B <? sizeof t then SignExtend t B unsigned_val
       else Ret unsigned_val);
  Ret (ReinterpretAsSigned t v).

(** [ReadBigEndian] and [ReadLittleEndian] of [ByteReader<T, B>] *)
Definition ByteReader (e : endian) (t : int_type) (B : nat) (data : list Z)
    : outcome Z :=
  if is_signed t then Read_true e t B data else Read_false e t B data.

(** ** ByteWriter *)

(** The loop of the general case; a right shift of a nonnegative value. *)
Fixpoint write_loop (e : endian) (B : nat) (data : list Z) (val : Z) (i n : nat)
    : outcome (list Z) :=
  match n with
  | O => Ret data
  | S n =>
      data ← set_byte data i (Z.shiftr val (byte_shift e B i));
      write_loop e B data val (S i) n
  end.

(** The specialisations for one, two, four and eight bytes. *)
Definition Write1 (e : endian) (data : list Z) (val : Z) : outcome (list Z) :=
  set_byte data 0 val.
Definition Write2 (e : endian) (data : list Z) (val : Z) : outcome (list Z) :=
  match e with
  | BigEndian => d ← set_byte data 0 (Z.shiftr val 8); set_byte d 1 val
  | LittleEndian => d ← set_byte data 0 val; set_byte d 1 (Z.shiftr val 8)
  end.
Definition Write4 (e : endian) (data : list Z) (val : Z) : outcome (list Z) :=
  match e with
  | BigEndian =>
      d ← set_byte data 0 (Z.shiftr val 24); d ← set_byte d 1 (Z.shiftr val 16);
      d ← set_byte d 2 (Z.shiftr val 8); set_byte d 3 val
  | LittleEndian =>
      d ← set_byte data 0 val; d ← set_byte d 1 (Z.shiftr val 8);
      d ← set_byte d 2 (Z.shiftr val 16); set_byte d 3 (Z.shiftr val 24)
  end.
Definition Write8 (e : endian) (data : list Z) (val : Z) : outcome (list Z) :=
  match e with
  | BigEndian =>
      d ← set_byte data 0 (Z.shiftr val 56); d ← set_byte d 1 (Z.shiftr val 48);
      d ← set_byte d 2 (Z.shiftr val 40); d ← set_byte d 3 (Z.shiftr val 32);
      d ← set_byte d 4 (Z.shiftr val 24); d ← set_byte d 5 (Z.shiftr val 16);
      d ← set_byte d 6 (Z.shiftr val 8); set_byte d 7 val
  | LittleEndian =>
      d ← set_byte data 0 val; d ← set_byte d 1 (Z.shiftr val 8);
      d ← set_byte d 2 (Z.shiftr val 16); d ← set_byte d 3 (Z.shiftr val 24);
      d ← set_byte d 4 (Z.shiftr val 32); d ← set_byte d 5 (Z.shiftr val 40);
      d ← set_byte d 6 (Z.shiftr val 48); set_byte d 7 (Z.shiftr val 56)
  end.

Definition Write_false (e : endian) (B : nat) (data : list Z) (val : Z)
    : outcome (list Z) :=
  match B with
  | 1%nat => Write1 e data val
  | 2%nat => Write2 e data val
  | 4%nat => Write4 e data val
  | 8%nat => Write8 e data val
  | _ => write_loop e B data val 0 B
  end.

Definition ReinterpretAsUnsigned (t : int_type) (val : Z) : Z :=
  convert (make_unsigned t) val.

(** [WriteBigEndian] and [WriteLittleEndian] of [ByteWriter<T, B>] *)
Definition ByteWriter (e : endian) (t : int_type) (B : nat) (data : list Z)
    (val : Z) : outcome (list Z) :=
  if is_signed t then Write_false e B data (ReinterpretAsUnsigned t val)
  else Write_false e B data val.

Example write_read_24 :
  (d ← ByteWriter BigEndian int32_t 3 [9; 9; 9; 9] (-70000);
   ByteReader BigEndian int32_t 3 d) = Ret (-70000).
Proof. reflexivity. Qed.
Example read_40_bit :
  ByteReader BigEndian int64_t 5 [255; 0; 0; 0; 0] = Undef BadShift.
Proof. reflexivity. Qed.

(** ** Lemmas on bits and conversions *)

Lemma bit_width t : 0 < sizeof t * 8.
Proof. by destruct t. Qed.

Lemma lor_disjoint n x y :
  0 ≤ n → x mod 2 ^ n = 0 → 0 ≤ y < 2 ^ n → Z.lor x y = x + y.
Proof.
  intros Hn Hx Hy. assert (Z.land x y = 0) as Hl.
  { apply Z.bits_inj'. intros i Hi. rewrite Z.land_spec, Z.bits_0.
    destruct (Z.lt_ge_cases i n).
    - rewrite <- (Z.mod_pow2_bits_low x n) by lia. by rewrite Hx, Z.bits_0.
    - rewrite <- (Z.mod_small y (2 ^ n)) by done.
      rewrite (Z.mod_pow2_bits_high y n) by lia. apply andb_false_r. }
  rewrite <- Z.lxor_lor by done. symmetry. by apply Z.add_nocarry_lxor.
Qed.

Lemma lor_mod_pow2 a b n :
  0 ≤ n → Z.lor a b mod 2 ^ n = Z.lor (a mod 2 ^ n) (b mod 2 ^ n).
Proof. intros. rewrite <- !Z.land_ones by done. apply Z.land_lor_distr_l. Qed.

Lemma convert_mod t x :
  convert t x mod 2 ^ (sizeof t * 8) = x mod 2 ^ (sizeof t * 8).
Proof.
  unfold convert. rewrite Zplus_mod_idemp_l. f_equal. lia.
Qed.

Lemma has_type_congr t a b :
  has_type t a → has_type t b →
  a mod 2 ^ (sizeof t * 8) = b mod 2 ^ (sizeof t * 8) → a = b.
Proof.
  intros Ha Hb Hab. rewrite <- (convert_id t a), <- (convert_id t b) by done.
  unfold convert. f_equal. rewrite Zminus_mod, Hab, <- Zminus_mod. done.
Qed.

Lemma convert_congr t a b :
  a mod 2 ^ (sizeof t * 8) = b mod 2 ^ (sizeof t * 8) → convert t a = convert t b.
Proof.
  intros. apply (has_type_congr t); try apply convert_range.
  by rewrite !convert_mod.
Qed.

(** In range of a signed type: all bits from the sign on are equal. *)
Lemma signed_range n x : 0 ≤ n → - 2 ^ n ≤ x < 2 ^ n ↔ -1 ≤ x / 2 ^ n < 1.
Proof.
  intros Hn. assert (0 < 2 ^ n) by (apply Z.pow_pos_nonneg; lia).
  pose proof (Z.div_mod x (2 ^ n) ltac:(lia)).
  pose proof (Z.mod_pos_bound x (2 ^ n) ltac:(lia)). nia.
Qed.

Lemma has_type_lor t a b : has_type t a → has_type t b → has_type t (Z.lor a b).
Proof.
  unfold has_type, lowest, max. destruct (is_signed t).
  - intros Ha Hb. pose proof (bit_width t).
    set (n := sizeof t * 8 - 1) in *.
    assert (-1 ≤ a / 2 ^ n < 1) as Ha' by (apply signed_range; lia).
    assert (-1 ≤ b / 2 ^ n < 1) as Hb' by (apply signed_range; lia).
    assert (- 2 ^ n ≤ Z.lor a b < 2 ^ n); [|lia].
    apply signed_range; [lia|].
    rewrite <- Z.shiftr_div_pow2, Z.shiftr_lor, !Z.shiftr_div_pow2 by lia.
    assert (a / 2 ^ n = 0 ∨ a / 2 ^ n = -1) as [-> | ->] by lia;
      assert (b / 2 ^ n = 0 ∨ b / 2 ^ n = -1) as [-> | ->] by lia; by vm_compute.
  - intros Ha Hb. pose proof (bit_width t). set (n := sizeof t * 8) in *.
    rewrite <- (Z.mod_small a (2 ^ n)), <- (Z.mod_small b (2 ^ n)) by lia.
    rewrite <- lor_mod_pow2 by lia.
    pose proof (Z.mod_pos_bound (Z.lor a b) (2 ^ n)
      ltac:(apply Z.pow_pos_nonneg; lia)). lia.
Qed.

Lemma convert_lor t a b :
  convert t (Z.lor a b) = Z.lor (convert t a) (convert t b).
Proof.
  pose proof (bit_width t).
  apply (has_type_congr t); [apply convert_range|
    apply has_type_lor; apply convert_range|].
  rewrite convert_mod, !lor_mod_pow2, !convert_mod by lia. done.
Qed.

Lemma convert_convert t u x :
  sizeof t ≤ sizeof u → convert t (convert u x) = convert t x.
Proof.
  intros Hs. apply convert_congr. pose proof (bit_width t).
  assert (2 ^ (sizeof u * 8)
          = 2 ^ (sizeof t * 8) * 2 ^ (sizeof u * 8 - sizeof t * 8)) as Hp
    by (rewrite <- Z.pow_add_r by lia; f_equal; lia).
  assert (0 < 2 ^ (sizeof t * 8)) by (apply Z.pow_pos_nonneg; lia).
  assert (0 < 2 ^ (sizeof u * 8 - sizeof t * 8)) by (apply Z.pow_pos_nonneg; lia).
  assert (∀ y, y mod 2 ^ (sizeof t * 8)
          = (y mod 2 ^ (sizeof u * 8)) mod 2 ^ (sizeof t * 8)) as Hm.
  { intros y. rewrite Hp, Z.rem_mul_r by lia.
    rewrite (Z.mul_comm _ (_ mod 2 ^ (_ - _))), Z.mod_add, Z.mod_mod by lia.
    done. }
  by rewrite Hm, convert_mod, <- Hm.
Qed.

Lemma or_assign_convert t v x :
  or_assign t (convert t v) (convert t x) = convert t (Z.lor v x).
Proof.
  unfold or_assign. rewrite !convert_lor, !convert_convert by lia. done.
Qed.

(** ** Values of byte sequences *)

Definition is_byte (b : Z) : Prop := 0 ≤ b < 256.

Fixpoint le_value (l : list Z) : Z :=
  match l with [] => 0 | b :: l => b + 256 * le_value l end.
Definition value (e : endian) (l : list Z) : Z :=
  match e with BigEndian => le_value (rev l) | LittleEndian => le_value l end.

(** The [n] low bytes of a number. *)
Fixpoint le_bytes (n : nat) (v : Z) : list Z :=
  match n with O => [] | S n => v mod 256 :: le_bytes n (v / 256) end.
Definition bytes_of (e : endian) (n : nat) (v : Z) : list Z :=
  match e with BigEndian => rev (le_bytes n v) | LittleEndian => le_bytes n v end.

Lemma le_value_bytes n v : le_value (le_bytes n v) = v mod 2 ^ (8 * Z.of_nat n).
Proof.
  revert v. induction n as [|n IH]; intros v; [by rewrite Z.mod_1_r|].
  cbn [le_bytes le_value]. rewrite IH.
  replace (8 * Z.of_nat (S n)) with (8 + 8 * Z.of_nat n) by lia.
  rewrite Z.pow_add_r, Z.rem_mul_r by lia. done.
Qed.

Lemma value_bytes e n v : value e (bytes_of e n v) = v mod 2 ^ (8 * Z.of_nat n).
Proof. destruct e; cbn; rewrite ?rev_involutive; apply le_value_bytes. Qed.

Lemma le_bytes_is_byte n v : Forall is_byte (le_bytes n v).
Proof.
  revert v. induction n; intros v; constructor; auto.
  apply Z.mod_pos_bound. lia.
Qed.

Lemma length_le_bytes n v : length (le_bytes n v) = n.
Proof. revert v. induction n; intros v; cbn; congruence. Qed.

Lemma length_bytes_of e n v : length (bytes_of e n v) = n.
Proof. destruct e; cbn; rewrite ?length_rev; apply length_le_bytes. Qed.

Lemma bytes_of_is_byte e n v : Forall is_byte (bytes_of e n v).
Proof.
  destruct e; [|apply le_bytes_is_byte]. apply Forall_rev, le_bytes_is_byte.
Qed.

Lemma bytes_of_congr e n v w :
  v mod 2 ^ (8 * Z.of_nat n) = w mod 2 ^ (8 * Z.of_nat n) →
  bytes_of e n v = bytes_of e n w.
Proof.
  intros Hvw. assert (le_bytes n v = le_bytes n w) as Hl;
    [|by destruct e; cbn; rewrite Hl].
  revert v w Hvw. induction n as [|n IH]; intros v w Hvw; [done|].
  replace (8 * Z.of_nat (S n)) with (8 + 8 * Z.of_nat n) in Hvw by lia.
  rewrite Z.pow_add_r, !Z.rem_mul_r in Hvw by lia. change (2 ^ 8) with 256 in Hvw.
  pose proof (Z.mod_pos_bound v 256). pose proof (Z.mod_pos_bound w 256).
  cbn [le_bytes]. f_equal; [lia|]. apply IH. lia.
Qed.

(** ** Reading *)

Lemma has_type_byte t b : 2 ≤ sizeof t → is_byte b → has_type t b.
Proof. intros Hs [? ?]. destruct t; try (cbn in Hs; lia); limits. Qed.

Lemma shift_left_byte t b k :
  4 ≤ sizeof t → is_byte b → 0 ≤ k → k + 8 ≤ sizeof t * 8 →
  shift_left t b k = Ret (convert t (b * 2 ^ k)).
Proof.
  intros Hs [Hb0 Hb] Hk Hk8. unfold shift_left. rewrite Z.shiftl_mul_pow2 by done.
  replace ((0 <=? k) && (k <? sizeof t * 8)) with true by lia.
  assert (b * 2 ^ k < 2 ^ (sizeof t * 8)).
  { assert (2 ^ (8 + k) ≤ 2 ^ (sizeof t * 8)) by (apply Z.pow_le_mono_r; lia).
    rewrite Z.pow_add_r in * by lia.
    assert (0 < 2 ^ k) by (apply Z.pow_pos_nonneg; lia). nia. }
  assert (max (make_unsigned t) = 2 ^ (sizeof t * 8) - 1) as -> by (by destruct t).
  replace (b * 2 ^ k <=? _) with true by lia.
  replace (0 <=? b) with true by lia. cbn [andb negb].
  by rewrite andb_false_r.
Qed.

(** Bytes in disjoint positions are added. *)
Ltac eval_pow :=
  repeat match goal with
  | |- context [2 ^ ?k] =>
      let v := eval vm_compute in (2 ^ k) in progress change (2 ^ k) with v
  end.
Ltac add_bytes :=
  repeat match goal with
  | |- context [Z.lor 0 ?y] => rewrite (Z.lor_0_l y)
  | |- context [Z.lor ?x (?y * 2 ^ ?k)] =>
      first
        [ rewrite (lor_disjoint (k + 8) x (y * 2 ^ k))
            by (cbn [Z.add Pos.add Pos.succ]; eval_pow; dlia)
        | rewrite (Z.lor_comm x (y * 2 ^ k)), (lor_disjoint k (y * 2 ^ k) x)
            by (eval_pow; dlia) ]
  | |- context [Z.lor ?x ?y] =>
      rewrite (lor_disjoint 8 x y) by (eval_pow; dlia)
  end.

Ltac take_bytes data Hd :=
  repeat (destruct data as [|? data]; [exfalso; cbn [length] in *; lia|];
          apply Forall_cons_1 in Hd as [? Hd]).

Lemma InternalRead_value e t B data :
  (B = 3 ∨ B = 5 ∨ B = 6 ∨ B = 7)%nat → Z.of_nat B ≤ sizeof t →
  (B ≤ length data)%nat → Forall is_byte data →
  InternalRead e t B data 0 B (convert t 0) = Ret (convert t (value e (take B data))).
Proof.
  intros HB Hs Hl Hd.
  assert (promote t = t ∧ 4 ≤ sizeof t) as [Hp H4]
    by (destruct t; cbn in Hs |- *; split; lia || done).
  destruct HB as [-> | [-> | [-> | ->]]]; take_bytes data Hd;
    unfold is_byte in *; destruct e;
    cbn [InternalRead get_byte lookup list_lookup mbind outcome_bind byte_shift];
    rewrite Hp; set (v0 := convert t 0);
    repeat (rewrite (convert_id t) by (apply has_type_byte; unfold is_byte; lia));
    subst v0;
    rewrite !shift_left_byte by (unfold is_byte; lia);
    cbn [mbind outcome_bind]; rewrite !or_assign_convert;
    do 2 f_equal; cbn [Nat.sub Z.of_nat Pos.of_succ_nat Pos.succ Z.mul Pos.mul Pos.add];
    add_bytes; eval_pow; cbn [value take rev app le_value];
    rewrite take_0; cbn [rev app le_value]; lia.
Qed.

Lemma static_asserts_size t B :
  static_asserts t B = true → 1 ≤ Z.of_nat B ≤ sizeof t.
Proof. destruct B as [|[|B]]; cbn [static_asserts]; intros Hb;
  [done|lia|]. apply Z.leb_le in Hb. split; [lia|exact Hb]. Qed.
Lemma sizeof_le t : sizeof t ≤ 8.
Proof. by destruct t. Qed.

(** Close the equality of the bits that were read with their value. *)
Ltac solve_bits :=
  do 2 f_equal; add_bytes; eval_pow; cbn [value take rev app le_value];
  rewrite take_0; cbn [rev app le_value]; lia.
Ltac unconvert t z :=
  rewrite <- (convert_id t z) at 1 by (apply has_type_byte; unfold is_byte; lia);
  rewrite <- !convert_lor.

(** The bytes that are read, and their number. *)
Lemma Read_false_value e t B data :
  static_asserts t B = true → (B ≤ length data)%nat → Forall is_byte data →
  Read_false e t B data = Ret (convert t (value e (take B data))).
Proof.
  intros HB Hl Hd.
  pose proof (static_asserts_size t B HB) as Hs. pose proof (sizeof_le t).
  destruct B as [|[|[|[|[|[|[|[|[|B]]]]]]]]]; try (discriminate || lia);
    try (apply InternalRead_value; lia || done);
    clear HB; take_bytes data Hd; unfold is_byte in *; cbn [Read_false].
  - unfold Read1. cbn [get_byte lookup list_lookup fmap outcome_fmap].
    do 2 f_equal. destruct e; cbn [value take rev app le_value];
      rewrite take_0; cbn [rev app le_value]; lia.
  - assert (2 ≤ sizeof t) by lia. unfold Read2.
    destruct e; cbn [get_byte lookup list_lookup mbind outcome_bind];
    rewrite shift_left_byte by (unfold is_byte; cbn; lia);
    cbn [mbind outcome_bind]; rewrite (convert_id int32_t) by (eval_pow; limits);
    solve_bits.
  - assert (4 ≤ sizeof t) by lia. unfold Read4, Get.
    cbn [get_byte lookup list_lookup mbind outcome_bind fmap outcome_fmap].
    rewrite !(convert_id t) by (apply has_type_byte; unfold is_byte; lia).
    destruct e; rewrite !shift_left_byte by (unfold is_byte; lia);
    cbn [mbind outcome_bind].
    + unconvert t z2. solve_bits.
    + unconvert t z. solve_bits.
  - assert (8 ≤ sizeof t) by lia. unfold Read8, Get.
    cbn [get_byte lookup list_lookup mbind outcome_bind fmap outcome_fmap].
    rewrite !(convert_id t) by (apply has_type_byte; unfold is_byte; lia).
    destruct e; rewrite !shift_left_byte by (unfold is_byte; lia);
    cbn [mbind outcome_bind].
    + unconvert t z6. solve_bits.
    + unconvert t z. solve_bits.
Qed.

(** ** Signed values *)

Lemma testbit_top n u :
  0 ≤ n → 0 ≤ u < 2 ^ (n + 1) → Z.testbit u n = (2 ^ n <=? u).
Proof.
  intros Hn Hu. rewrite Z.pow_add_r in Hu by lia.
  assert (0 < 2 ^ n) by (apply Z.pow_pos_nonneg; lia).
  destruct (Z.leb_spec (2 ^ n) u).
  - apply Z.testbit_true; [done|].
    assert (u / 2 ^ n = 1) as ->; [|done]. symmetry.
    apply Z.div_unique with (u - 2 ^ n); lia.
  - rewrite <- (Z.mod_small u (2 ^ n)) by lia. apply Z.mod_pow2_bits_high. lia.
Qed.

Lemma land_top n u :
  0 ≤ n → 0 ≤ u < 2 ^ (n + 1) → (Z.land u (2 ^ n) =? 0) = (u <? 2 ^ n).
Proof.
  intros Hn Hu.
  assert (Z.land u (2 ^ n) = if 2 ^ n <=? u then 2 ^ n else 0) as ->.
  { apply Z.bits_inj'. intros i Hi. rewrite Z.land_spec.
    destruct (decide (i = n)) as [->|Hne].
    - rewrite Z.pow2_bits_true, testbit_top by done.
      destruct (2 ^ n <=? u); cbn [andb]; [by rewrite Z.pow2_bits_true|].
      by rewrite Z.bits_0.
    - rewrite Z.pow2_bits_false, andb_false_r by done.
      destruct (2 ^ n <=? u); [by rewrite Z.pow2_bits_false|by rewrite Z.bits_0]. }
  assert (0 < 2 ^ n) by (apply Z.pow_pos_nonneg; lia).
  destruct (Z.leb_spec (2 ^ n) u); lia.
Qed.

Ltac evals :=
  repeat match goal with
  | |- context [sizeof ?t] => compute_in_goal (sizeof t)
  | |- context [lowest ?t] => compute_in_goal (lowest t)
  | |- context [make_unsigned ?t] => compute_in_goal (make_unsigned t)
  end.

Lemma signed_width t :
  is_signed t = true →
  let n := sizeof t * 8 - 1 in
  0 ≤ n ∧ sizeof (make_unsigned t) * 8 - 1 = n ∧
  convert (make_unsigned t) (Z.shiftl 1 n) = 2 ^ n ∧
  convert (make_unsigned t) (Z.lnot (2 ^ n)) = Z.ones n ∧
  lowest (make_unsigned t) = 0 ∧ max (make_unsigned t) = 2 ^ (n + 1) - 1 ∧
  lowest t = - 2 ^ n ∧ max t = 2 ^ n - 1 ∧ sizeof t * 8 = n + 1.
Proof. destruct t; try discriminate; intros _; vm_compute; repeat split; congruence. Qed.

Lemma ReinterpretAsSigned_value t u :
  is_signed t = true → has_type (make_unsigned t) u →
  ReinterpretAsSigned t u = convert t u.
Proof.
  intros Hs Hu. unfold ReinterpretAsSigned, has_type in *.
  destruct (signed_width t Hs) as (Hn & -> & -> & -> & Hl0 & Hm0 & Hlo & Hhi & Hw).
  set (n := sizeof t * 8 - 1) in *.
  assert (0 ≤ u < 2 ^ (n + 1)) as Hu' by lia.
  rewrite land_top, Z.land_ones by done.
  assert (0 < 2 ^ n) by (apply Z.pow_pos_nonneg; lia).
  rewrite Z.pow_add_r in Hu' by lia.
  destruct (Z.ltb_spec u (2 ^ n)); cbn [negb]; [done|].
  assert (u mod 2 ^ n = u - 2 ^ n) as ->
    by (symmetry; apply Z.mod_unique with 1; lia).
  rewrite (convert_id t (u - 2 ^ n)) by (unfold has_type; lia).
  unfold or_assign. rewrite Z.lor_comm, (lor_disjoint n); [|done| |lia].
  - apply convert_congr. rewrite Hw, Z.pow_add_r by lia.
    replace u with (lowest t + (u - 2 ^ n) + 1 * (2 ^ n * 2 ^ 1)) at 2 by lia.
    rewrite Z.mod_add by lia. done.
  - replace (lowest t) with ((-1) * 2 ^ n) by lia. apply Z.mod_mul. lia.
Qed.

Ltac replace_by_value t :=
  let v := eval vm_compute in t in
  replace t with v by (vm_compute; reflexivity).

(** The mask of the bits above [B] bytes, computed on [int]. *)
Lemma sign_mask t B V :
  is_signed t = true → (2 ≤ B)%nat → Z.of_nat B < sizeof t →
  0 ≤ V < 2 ^ (8 * Z.of_nat B) →
  (one ← shift_left int32_t 1 (Z.of_nat B * 8);
   m ← i32_ret (one - 1);
   let kUsedBitsMask := convert (make_unsigned t) m in
   Ret (Z.lor (convert (make_unsigned t) (Z.lnot kUsedBitsMask)) V)) =
  if 4 <=? Z.of_nat B then Undef BadShift
  else Ret (V + 2 ^ (sizeof t * 8) - 2 ^ (8 * Z.of_nat B)).
Proof.
  intros Hs HB Hl HV. destruct (Z.leb_spec 4 (Z.of_nat B)).
  - unfold shift_left. replace (Z.of_nat B * 8 <? sizeof int32_t * 8) with false
      by (cbn; lia). by rewrite andb_false_r.
  - assert (B = 2 ∨ B = 3)%nat as [-> | ->] by lia;
      destruct t; try discriminate; cbn in Hl; try lia;
      cbn [make_unsigned];
      match goal with |- context [shift_left ?t ?a ?b] =>
        replace_by_value (shift_left t a b) end; cbn [mbind outcome_bind];
      match goal with |- context [i32_ret ?a] => replace_by_value (i32_ret a) end;
      cbn [mbind outcome_bind]; cbv zeta;
      match goal with |- context [convert ?t (Z.lnot ?m)] =>
        replace_by_value (convert t (Z.lnot m)) end;
      match goal with |- context [8 * Z.of_nat ?n] =>
        rewrite (lor_disjoint (8 * Z.of_nat n));
          [|lia|vm_compute; reflexivity|exact HV]
      end; f_equal; evals; eval_pow; lia.
Qed.

(** Sign extension of a [B]-byte value. *)
Lemma SignExtend_value t B V :
  is_signed t = true → (2 ≤ B)%nat → Z.of_nat B < sizeof t →
  0 ≤ V < 2 ^ (8 * Z.of_nat B) →
  SignExtend t B V =
    if V <? 2 ^ (8 * Z.of_nat B - 1) then Ret V
    else if 4 <=? Z.of_nat B then Undef BadShift
    else Ret (V + 2 ^ (sizeof t * 8) - 2 ^ (8 * Z.of_nat B)).
Proof.
  intros Hs HB Hl HV. pose proof (sizeof_le t). unfold SignExtend.
  set (k := Z.of_nat (B - 1) * 8).
  assert (8 * Z.of_nat B = k + 7 + 1) as Hk by lia.
  rewrite Hk in *. replace (k + 7 + 1 - 1) with (k + 7) by lia.
  rewrite Z.shiftr_div_pow2 by lia.
  assert (0 < 2 ^ k) by (apply Z.pow_pos_nonneg; lia).
  assert (2 ^ (k + 7 + 1) = 256 * 2 ^ k) as H8
    by (rewrite !Z.pow_add_r by lia; lia).
  assert (2 ^ (k + 7) = 128 * 2 ^ k) as H7 by (rewrite !Z.pow_add_r by lia; lia).
  pose proof (Z.div_mod V (2 ^ k) ltac:(lia)).
  pose proof (Z.mod_pos_bound V (2 ^ k) ltac:(lia)).
  assert (0 ≤ V / 2 ^ k < 256) by nia.
  rewrite convert_id by limits. change 128 with (2 ^ 7).
  rewrite land_top by lia.
  replace (V / 2 ^ k <? 2 ^ 7) with (V <? 2 ^ (k + 7))
    by (destruct (Z.ltb_spec V (2 ^ (k + 7))), (Z.ltb_spec (V / 2 ^ k) (2 ^ 7)); nia).
  destruct (Z.ltb_spec V (2 ^ (k + 7))); cbn [negb]; [done|].
  rewrite Z.mod_small by lia. rewrite <- Hk in *. apply sign_mask; lia || done.
Qed.

(** The value of [B] bytes in two's complement. *)
Definition signed_value (B : nat) (V : Z) : Z :=
  if V <? 2 ^ (8 * Z.of_nat B - 1) then V else V - 2 ^ (8 * Z.of_nat B).

(** A negative number of 4 to 7 bytes read into eight: the shift of
    [SignExtend] has an [int] as its operand. *)
Definition sign_extension_undefined (t : int_type) (B : nat) (V : Z) : bool :=
  (Z.of_nat B <? sizeof t) && (4 <=? Z.of_nat B)
  && (2 ^ (8 * Z.of_nat B - 1) <=? V).

Lemma value_range e l : Forall is_byte l → 0 ≤ value e l < 2 ^ (8 * lenZ l).
Proof.
  assert (∀ l, Forall is_byte l → 0 ≤ le_value l < 2 ^ (8 * lenZ l)) as Hle.
  { clear. intros l Hl. induction Hl as [|b l [Hb0 Hb] Hl IH]; [done|].
    cbn [le_value]. rewrite lenZ_cons.
    replace (8 * (1 + lenZ l)) with (8 + 8 * lenZ l) by lia.
    pose proof (lenZ_nonneg l). rewrite Z.pow_add_r by lia. lia. }
  intros Hl. destruct e; cbn [value]; [|by apply Hle].
  replace (lenZ l) with (lenZ (rev l)) by (unfold lenZ; by rewrite length_rev).
  by apply Hle, Forall_rev.
Qed.

Lemma take_value_range e B data :
  (B ≤ length data)%nat → Forall is_byte data →
  0 ≤ value e (take B data) < 2 ^ (8 * Z.of_nat B).
Proof.
  intros Hl Hd. pose proof (value_range e (take B data) ltac:(by apply Forall_take)) as Hv.
  unfold lenZ in Hv. rewrite length_take in Hv. by rewrite Nat.min_l in Hv by lia.
Qed.

(** Conversion to a signed type of a value one wrap-around above its range. *)
Lemma convert_wrapped t a b :
  is_signed t = true → has_type t b → a = b + 2 ^ (sizeof t * 8) → convert t a = b.
Proof.
  intros Hs Hb ->. apply (has_type_congr t); [apply convert_range|done|].
  rewrite convert_mod, <- (Z.mul_1_l (2 ^ (sizeof t * 8))) at 1.
  apply Z.mod_add. by destruct t.
Qed.

Lemma Read_true_value e t B data :
  is_signed t = true → static_asserts t B = true → (B ≤ length data)%nat →
  Forall is_byte data →
  let V := value e (take B data) in
  Read_true e t B data =
    if sign_extension_undefined t B V then Undef BadShift
    else Ret (signed_value B V).
Proof.
  intros Hs HB Hl Hd V. unfold Read_true. rewrite Read_false_value by done.
  cbn [mbind outcome_bind]. fold V.
  pose proof (static_asserts_size t B HB) as [H1 HBs].
  pose proof (take_value_range e B data Hl Hd) as HV. fold V in HV.
  destruct (signed_width t Hs) as (Hn & _ & _ & _ & Hl0 & Hm0 & Hlo & Hhi & Hw).
  set (n := sizeof t * 8 - 1) in *.
  assert (2 ^ (8 * Z.of_nat B) ≤ 2 ^ (n + 1)) by (apply Z.pow_le_mono_r; lia).
  assert (2 ^ (8 * Z.of_nat B) = 2 * 2 ^ (8 * Z.of_nat B - 1)) as Hp
    by (rewrite <- Z.pow_succ_r by lia; f_equal; lia).
  assert (2 ^ (n + 1) = 2 * 2 ^ n) as Hp'
    by (rewrite Z.pow_add_r by lia; lia).
  assert (convert (make_unsigned t) (convert t V) = V) as ->.
  { rewrite convert_convert by (by destruct t). apply convert_id.
    unfold has_type. lia. }
  unfold sign_extension_undefined, signed_value.
  destruct (Z.ltb_spec (Z.of_nat B) (sizeof t)) as [Hlt|Hge].
  - assert (B ≠ 1)%nat by (intros ->; cbn in HB, Hlt; destruct t; done).
    rewrite SignExtend_value by (done || lia). cbn [andb].
    assert (2 ^ (8 * Z.of_nat B - 1) ≤ 2 ^ n) by (apply Z.pow_le_mono_r; lia).
    destruct (Z.ltb_spec V (2 ^ (8 * Z.of_nat B - 1))).
    + replace (_ <=? V) with false by lia. rewrite andb_false_r.
      cbn [mbind outcome_bind]. f_equal.
      rewrite ReinterpretAsSigned_value by (done || unfold has_type; lia).
      apply convert_id. unfold has_type. lia.
    + replace (_ <=? V) with true by lia. rewrite andb_true_r.
      destruct (4 <=? Z.of_nat B); [done|]. cbn [mbind outcome_bind]. f_equal.
      rewrite Hw. rewrite ReinterpretAsSigned_value by (done || unfold has_type; lia).
      apply convert_wrapped; [done|unfold has_type; lia|].
      replace (sizeof t * 8) with (n + 1) by lia. lia.
  - assert (8 * Z.of_nat B = n + 1) as -> by lia. cbn [andb mbind outcome_bind].
    replace (n + 1 - 1) with n by lia. f_equal.
    rewrite ReinterpretAsSigned_value by (done || unfold has_type; lia).
    destruct (Z.ltb_spec V (2 ^ n)).
    + apply convert_id. unfold has_type. lia.
    + apply convert_wrapped; [done|unfold has_type; lia|].
      replace (sizeof t * 8) with (n + 1) by lia. lia.
Qed.

(** ** Writing *)

Lemma convert_uint8 x : convert uint8_t x = x mod 256.
Proof. unfold convert. cbn [lowest is_signed sizeof]. by rewrite Z.sub_0_r, Z.add_0_r. Qed.

Lemma Write_false_value e B data v :
  (1 ≤ B ≤ 8)%nat → (B ≤ length data)%nat →
  Write_false e B data v = Ret (bytes_of e B v ++ drop B data).
Proof.
  intros HB Hl.
  assert (∀ l, drop 0 l = l :> list Z) as Hdrop by done.
  destruct B as [|[|[|[|[|[|[|[|[|B]]]]]]]]]; try lia;
    repeat (destruct data as [|? data]; [exfalso; cbn [length] in *; lia|]);
    destruct e;
    cbn -[Z.shiftr convert Z.modulo Z.div byte_shift];
    unfold Write1, Write2, Write4, Write8;
    cbn -[Z.shiftr convert Z.modulo Z.div byte_shift];
    f_equal; rewrite ?convert_uint8;
    repeat match goal with |- context [byte_shift ?e ?B ?i] =>
      replace_by_value (byte_shift e B i) end;
    rewrite ?Z.shiftr_div_pow2 by lia; rewrite ?Z.div_div by lia;
    repeat match goal with |- context [2 ^ ?k] => replace_by_value (2 ^ k) end;
    repeat match goal with |- context [256 * ?k] => replace_by_value (256 * k) end;
    rewrite ?Z.div_1_r; done.
Qed.

(** ** Properties *)

(** The values that [B] bytes of the type can hold. *)
Definition fits (t : int_type) (B : nat) (v : Z) : Prop :=
  if is_signed t
  then - 2 ^ (8 * Z.of_nat B - 1) ≤ v < 2 ^ (8 * Z.of_nat B - 1)
  else 0 ≤ v < 2 ^ (8 * Z.of_nat B).

Lemma fits_has_type t B v :
  static_asserts t B = true → fits t B v → has_type t v.
Proof.
  intros HB Hf. apply static_asserts_size in HB as [H1 HB].
  unfold fits, has_type, lowest, max in *. destruct (is_signed t).
  - assert (2 ^ (8 * Z.of_nat B - 1) ≤ 2 ^ (sizeof t * 8 - 1))
      by (apply Z.pow_le_mono_r; lia). lia.
  - assert (2 ^ (8 * Z.of_nat B) ≤ 2 ^ (sizeof t * 8))
      by (apply Z.pow_le_mono_r; lia). lia.
Qed.

(** Two's complement inverts the truncation to [B] bytes. *)
Lemma signed_value_mod B v :
  (1 ≤ B)%nat →
  - 2 ^ (8 * Z.of_nat B - 1) ≤ v < 2 ^ (8 * Z.of_nat B - 1) →
  signed_value B (v mod 2 ^ (8 * Z.of_nat B)) = v ∧
  (2 ^ (8 * Z.of_nat B - 1) <=? v mod 2 ^ (8 * Z.of_nat B)) = (v <? 0).
Proof.
  intros HB Hv. unfold signed_value.
  assert (2 ^ (8 * Z.of_nat B) = 2 * 2 ^ (8 * Z.of_nat B - 1)) as Hp
    by (rewrite <- Z.pow_succ_r by lia; f_equal; lia).
  rewrite Hp in *. set (h := 2 ^ (8 * Z.of_nat B - 1)) in *.
  destruct (Z.ltb_spec v 0).
  - assert (v mod (2 * h) = v + 2 * h) as ->
      by (symmetry; apply Z.mod_unique with (-1); lia).
    destruct (Z.ltb_spec (v + 2 * h) h); split; lia.
  - rewrite Z.mod_small by lia. destruct (Z.ltb_spec v h); split; lia.
Qed.

Lemma bytes_mod t v B :
  Z.of_nat B ≤ sizeof t →
  convert (make_unsigned t) v mod 2 ^ (8 * Z.of_nat B) = v mod 2 ^ (8 * Z.of_nat B).
Proof.
  intros HB. set (u := make_unsigned t).
  assert (sizeof u = sizeof t) as Hu by (by destruct t).
  assert (2 ^ (sizeof u * 8)
          = 2 ^ (8 * Z.of_nat B) * 2 ^ (sizeof u * 8 - 8 * Z.of_nat B)) as Hp
    by (rewrite <- Z.pow_add_r by lia; f_equal; lia).
  assert (0 < 2 ^ (8 * Z.of_nat B)) by (apply Z.pow_pos_nonneg; lia).
  assert (0 < 2 ^ (sizeof u * 8 - 8 * Z.of_nat B)) by (apply Z.pow_pos_nonneg; lia).
  assert (∀ y, y mod 2 ^ (8 * Z.of_nat B)
          = (y mod 2 ^ (sizeof u * 8)) mod 2 ^ (8 * Z.of_nat B)) as Hm.
  { intros y. rewrite Hp, Z.rem_mul_r by lia.
    rewrite (Z.mul_comm _ (_ mod 2 ^ (_ - _))), Z.mod_add, Z.mod_mod by lia.
    done. }
  by rewrite Hm, convert_mod, <- Hm.
Qed.

(** C30: a value that fits the bytes is written into them, least or most
    significant first, without touching the bytes after them, and read back;
    except that reading back a negative number of 4 to 7 bytes as an [int64_t]
    is undefined behaviour. *)
Theorem byte_io_roundtrip e t B data v :
  static_asserts t B = true → (B ≤ length data)%nat → Forall is_byte data →
  fits t B v →
  ByteWriter e t B data v = Ret (bytes_of e B v ++ drop B data) ∧
  ByteReader e t B (bytes_of e B v ++ drop B data) =
    if (Z.of_nat B <? sizeof t) && (4 <=? Z.of_nat B) && (v <? 0)
    then Undef BadShift else Ret v.
Proof.
  intros HB Hl Hd Hf. pose proof (fits_has_type t B v HB Hf) as Ht.
  pose proof (static_asserts_size t B HB) as [H1 HBs]. pose proof (sizeof_le t).
  unfold ByteWriter, ByteReader, ReinterpretAsUnsigned, fits in *.
  set (data' := bytes_of e B v ++ drop B data).
  assert (take B data' = bytes_of e B v) as Htake.
  { unfold data'. rewrite take_app_length'; [done|by rewrite length_bytes_of]. }
  assert (B ≤ length data')%nat
    by (unfold data'; rewrite length_app, length_bytes_of; lia).
  assert (Forall is_byte data').
  { apply Forall_app_2; [apply bytes_of_is_byte|by apply Forall_drop]. }
  destruct (is_signed t) eqn:Hs.
  - destruct (signed_value_mod B v ltac:(lia) Hf) as [Hsv Hsign]. split.
    + rewrite Write_false_value by lia. unfold data'. do 2 f_equal.
      by apply bytes_of_congr, bytes_mod.
    + rewrite Read_true_value by done. rewrite Htake, value_bytes.
      unfold sign_extension_undefined. by rewrite Hsign, Hsv.
  - split; [by rewrite Write_false_value by lia|].
    rewrite Read_false_value, Htake, value_bytes, Z.mod_small by done.
    replace (v <? 0) with false by lia. by rewrite andb_false_r, convert_id.
Qed.

Lemma byte_io_roundtrip_witness :
  (d ← ByteWriter BigEndian int32_t 3 [7; 7; 7; 7] (-2);
   ByteReader BigEndian int32_t 3 d) = Ret (-2) ∧
  (d ← ByteWriter LittleEndian int64_t 5 [0; 0; 0; 0; 0] (-1);
   ByteReader LittleEndian int64_t 5 d) = Undef BadShift.
Proof.
  split.
  - destruct (byte_io_roundtrip BigEndian int32_t 3 [7; 7; 7; 7] (-2)) as [Hw Hr];
      [reflexivity|cbn; lia|repeat constructor; lia|split; vm_compute; congruence|].
    rewrite Hw. cbn [mbind outcome_bind]. rewrite Hr. reflexivity.
  - destruct (byte_io_roundtrip LittleEndian int64_t 5 [0; 0; 0; 0; 0] (-1))
      as [Hw Hr];
      [reflexivity|cbn; lia|repeat constructor; lia|split; vm_compute; congruence|].
    rewrite Hw. cbn [mbind outcome_bind]. rewrite Hr. reflexivity.
Defined.
