(* ===== verification/SwapQueue.v ===== *)
(** The fixed-size queue between threads
    (libs/webrtc/include/rtc_base/swap_queue.h).

    Every operation runs inside [crit_queue_], so an execution of several
    threads is a sequence of the operations below.  Items travel by [swap]: an
    operation takes the caller's item and gives back the item it was swapped
    with.  The slots are supposed to fit in memory. *)

From S2P Require Import Prelude.
From S2P Require Import Buffer.
From S2P Require Import SafeNumerics.
From S2P Require Import Checks.

Section SwapQueue.
Context `{BuildConfig} {T : Type}.
(** [queue_item_verifier_] *)
Context (verifier : T → bool).

Record SwapQueue : Type := MkSwapQueue {
  next_write_index_ : Z;
  next_read_index_ : Z;
  num_elements_ : Z;
  queue_ : list T
}.

Definition queue_size (q : SwapQueue) : Z := lenZ (queue_ q).

Fixpoint VerifyQueueSlots (queue : list T) : outcome unit :=
  match queue with
  | [] => Ret tt
  | v :: queue =>
      _ ← RTC_DCHECK (verifier v) "queue_item_verifier_(v)";
      VerifyQueueSlots queue
  end.

(** The constructors, for copies of a prototype or of the default value; the
    check is only evaluated when it is compiled in. *)
Definition SwapQueue_new (size : Z) (prototype : T) : outcome SwapQueue :=
  let queue := replicate (Z.to_nat size) prototype in
  _ ← (if dcheck_is_on then VerifyQueueSlots queue else Ret tt);
  Ret (MkSwapQueue 0 0 0 queue).

(** [Clear] *)
Definition queue_Clear (q : SwapQueue) : SwapQueue :=
  MkSwapQueue 0 0 0 (queue_ q).

(** [swap(item, queue_[index])] *)
Definition swap_slot (queue : list T) (index : Z) (item : T)
    : outcome (T * list T) :=
  match queue !! Z.to_nat index with
  | Some old => Ret (old, <[Z.to_nat index := item]> queue)
  | None => Undef OutOfBounds
  end.

(** [++index; if (index == queue_.size()) index = 0;] *)
Definition next_index (size index : Z) : Z :=
  let index := to_size_t (index + 1) in if index =? size then 0 else index.

(** [Insert(T* input)]; the result is the returned value with [*input]. *)
Definition queue_Insert (q : SwapQueue) (input : option T)
    : outcome (bool * T * SwapQueue) :=
  _ ← RTC_DCHECK (non_null input) "input";
  match input with
  | None => Undef NullPointer
  | Some item =>
      _ ← RTC_DCHECK (verifier item) "queue_item_verifier_(*input)";
      if num_elements_ q =? queue_size q then Ret (false, item, q) else
      '(old, queue) ← swap_slot (queue_ q) (next_write_index_ q) item;
      let w := next_index (queue_size q) (next_write_index_ q) in
      let n := to_size_t (num_elements_ q + 1) in
      _ ← RTC_DCHECK_OP LtOp uint64_t uint64_t w (lenZ queue)
            "next_write_index_ < queue_.size()";
      _ ← RTC_DCHECK_OP LeOp uint64_t uint64_t n (lenZ queue)
            "num_elements_ <= queue_.size()";
      Ret (true, old, MkSwapQueue w (next_read_index_ q) n queue)
  end.

(** [Remove(T* output)] *)
Definition queue_Remove (q : SwapQueue) (output : option T)
    : outcome (bool * T * SwapQueue) :=
  _ ← RTC_DCHECK (non_null output) "output";
  match output with
  | None => Undef NullPointer
  | Some item =>
      _ ← RTC_DCHECK (verifier item) "queue_item_verifier_(*output)";
      if num_elements_ q =? 0 then Ret (false, item, q) else
      '(old, queue) ← swap_slot (queue_ q) (next_read_index_ q) item;
      let r := next_index (queue_size q) (next_read_index_ q) in
      let n := to_size_t (num_elements_ q - 1) in
      _ ← RTC_DCHECK_OP LtOp uint64_t uint64_t r (lenZ queue)
            "next_read_index_ < queue_.size()";
      _ ← RTC_DCHECK_OP LeOp uint64_t uint64_t n (lenZ queue)
            "num_elements_ <= queue_.size()";
      Ret (true, old, MkSwapQueue (next_write_index_ q) r n queue)
  end.

(** The operations of the producers and consumers, in the order in which they
    enter the critical section; the result of an operation is what it returned
    and the item it left with its caller. *)
Inductive queue_op : Type :=
| OpInsert (input : T)
| OpRemove (output : T)
| OpClear.

Definition run_op (q : SwapQueue) (o : queue_op)
    : outcome (option (bool * T) * SwapQueue) :=
  match o with
  | OpInsert x => '(b, y, q) ← queue_Insert q (Some x); Ret (Some (b, y), q)
  | OpRemove x => '(b, y, q) ← queue_Remove q (Some x); Ret (Some (b, y), q)
  | OpClear => Ret (None, queue_Clear q)
  end.

Fixpoint run_ops (q : SwapQueue) (ops : list queue_op)
    : outcome (list (option (bool * T)) * SwapQueue) :=
  match ops with
  | [] => Ret ([], q)
  | o :: ops =>
      '(r, q) ← run_op q o; '(rs, q) ← run_ops q ops; Ret (r :: rs, q)
  end.

(** ** Specification: a bounded first-in first-out queue

    [None] in place of an item stands for some recycled item. *)

Definition spec_op (size : Z) (contents : list T) (o : queue_op)
    : option (bool * option T) * list T :=
  match o with
  | OpInsert x =>
      if lenZ contents =? size then (Some (false, Some x), contents)
      else (Some (true, None), contents ++ [x])
  | OpRemove y =>
      match contents with
      | [] => (Some (false, Some y), [])
      | x :: contents => (Some (true, Some x), contents)
      end
  | OpClear => (None, [])
  end.

Fixpoint spec_ops (size : Z) (contents : list T) (ops : list queue_op)
    : list (option (bool * option T)) * list T :=
  match ops with
  | [] => ([], contents)
  | o :: ops =>
      let '(r, contents) := spec_op size contents o in
      let '(rs, contents) := spec_ops size contents ops in
      (r :: rs, contents)
  end.

(** A result agrees with its specification; recycled items pass the test. *)
Definition agrees (r : option (bool * T)) (s : option (bool * option T)) : Prop :=
  match r, s with
  | None, None => True
  | Some (b, y), Some (b', Some x) => b = b' ∧ y = x
  | Some (b, y), Some (b', None) => b = b' ∧ verifier y = true
  | _, _ => False
  end.

Definition op_verified (o : queue_op) : Prop :=
  match o with OpInsert x | OpRemove x => verifier x = true | OpClear => True end.

(** ** The invariant *)

(** The slot of the [i]-th element. *)
Definition slot (size read i : Z) : Z :=
  if read + i <? size then read + i else read + i - size.

Record represents (q : SwapQueue) (contents : list T) : Prop := {
  rep_size : is_size_t (queue_size q);
  rep_read : 0 ≤ next_read_index_ q ∧
    (next_read_index_ q < queue_size q ∨
     queue_size q = 0 ∧ next_read_index_ q = 0);
  rep_num : num_elements_ q = lenZ contents;
  rep_bound : lenZ contents ≤ queue_size q;
  rep_write :
    next_write_index_ q = slot (queue_size q) (next_read_index_ q) (lenZ contents);
  rep_contents : ∀ i x, contents !! i = Some x →
    queue_ q !! Z.to_nat (slot (queue_size q) (next_read_index_ q) (Z.of_nat i))
      = Some x;
  rep_verified : Forall (λ x, verifier x = true) (queue_ q)
}.
End SwapQueue.

(** ** Lemmas *)

Section SwapQueue_lemmas.
Context `{BuildConfig} {T : Type} (verifier : T → bool).
Implicit Types (q : @SwapQueue T) (l : list T).

Lemma slot_range N r i :
  0 ≤ r → (r < N ∨ N = 0 ∧ r = 0) → 0 ≤ i < N → 0 ≤ slot N r i < N.
Proof. unfold slot. intros. case_match; lia. Qed.

Lemma slot_inj N r i j :
  0 ≤ i < N → 0 ≤ j < N → slot N r i = slot N r j → i = j.
Proof. unfold slot. intros. repeat case_match; lia. Qed.

Lemma next_slot N r i :
  is_size_t N → 0 ≤ r < N → 0 ≤ i < N →
  next_index N (slot N r i) = slot N r (i + 1).
Proof.
  unfold next_index, slot. intros HN Hr Hi. unfold_i32.
  rewrite Z.mod_small by (case_match; lia). repeat case_match; lia.
Qed.

Lemma slot_next N r i :
  is_size_t N → 0 ≤ r < N → 0 ≤ i < N - 1 →
  slot N (next_index N r) i = slot N r (i + 1).
Proof.
  unfold next_index, slot. intros HN Hr Hi. unfold_i32.
  rewrite Z.mod_small by lia. repeat case_match; lia.
Qed.

Lemma insert_swap_Permutation l i (x old : T) :
  l !! i = Some old → old :: <[i:=x]> l ≡ₚ x :: l.
Proof.
  intros Hi. rewrite <- (take_drop_middle l i old) at 2 by done.
  rewrite insert_take_drop by (by eapply lookup_lt_Some).
  rewrite <- !Permutation_middle. apply Permutation_swap.
Qed.

Lemma swap_slot_ok l i (x : T) :
  0 ≤ i < lenZ l → ∃ old, l !! Z.to_nat i = Some old ∧
    swap_slot l i x = Ret (old, <[Z.to_nat i:=x]> l).
Proof.
  intros Hi. unfold swap_slot, lenZ in *.
  destruct (lookup_lt_is_Some_2 l (Z.to_nat i)) as [old Hold]; [lia|].
  exists old. by rewrite Hold.
Qed.

Lemma has_type_size_t x : is_size_t x → has_type uint64_t x.
Proof. unfold_i32. intros. limits. Qed.

Lemma lenZ_insert l i (x : T) : lenZ (<[i:=x]> l) = lenZ l.
Proof. unfold lenZ. by rewrite length_insert. Qed.

Lemma dcheck_verified x msg :
  verifier x = true → RTC_DCHECK (verifier x) msg = Ret tt.
Proof. intros ->. apply RTC_DCHECK_true. Qed.

(** What one operation does. *)
Definition step_ok q l (o : queue_op) (res : outcome (option (bool * T) * SwapQueue))
    : Prop :=
  ∃ r q', res = Ret (r, q') ∧ queue_size q' = queue_size q ∧
    agrees verifier r (spec_op (queue_size q) l o).1 ∧
    represents verifier q' (spec_op (queue_size q) l o).2 ∧
    match o, r with
    | OpInsert x, Some (_, y) | OpRemove x, Some (_, y) =>
        y :: queue_ q' ≡ₚ x :: queue_ q
    | _, _ => queue_ q' = queue_ q
    end.

(** The cells of a queue whose last one was written. *)
Lemma contents_appended N read (cells l : list T) x :
  0 ≤ read < N → lenZ l < N → lenZ cells = N →
  (∀ i y, l !! i = Some y →
    cells !! Z.to_nat (slot N read (Z.of_nat i)) = Some y) →
  ∀ i y, (l ++ [x]) !! i = Some y →
    <[Z.to_nat (slot N read (lenZ l)) := x]> cells
      !! Z.to_nat (slot N read (Z.of_nat i)) = Some y.
Proof.
  intros Hr Hl HN Hc i y Hi. pose proof (lenZ_nonneg l).
  pose proof (slot_range N read (lenZ l) ltac:(lia) ltac:(lia) ltac:(lia)) as Hs.
  destruct (decide (i = length l)) as [->|Hne].
  - rewrite list_lookup_middle in Hi by done. injection Hi as <-.
    apply list_lookup_insert_eq. unfold lenZ in *. lia.
  - apply lookup_lt_Some in Hi as Hlt. rewrite length_app in Hlt. cbn in Hlt.
    rewrite lookup_app_l in Hi by lia.
    rewrite list_lookup_insert_ne; [by apply Hc|]. intros Heq.
    pose proof (slot_range N read (Z.of_nat i) ltac:(lia) ltac:(lia)
      ltac:(unfold lenZ in *; lia)).
    apply Z2Nat.inj in Heq; [|lia..].
    apply slot_inj in Heq; unfold lenZ in *; lia.
Qed.

(** The cells of a queue whose first one was overwritten. *)
Lemma contents_removed N read (cells l : list T) x z :
  0 ≤ read < N → is_size_t N → lenZ (z :: l) ≤ N →
  (∀ i y, (z :: l) !! i = Some y →
    cells !! Z.to_nat (slot N read (Z.of_nat i)) = Some y) →
  ∀ i y, l !! i = Some y →
    <[Z.to_nat read := x]> cells
      !! Z.to_nat (slot N (next_index N read) (Z.of_nat i)) = Some y.
Proof.
  intros Hr HN Hl Hc i y Hi. apply lookup_lt_Some in Hi as Hlt.
  rewrite lenZ_cons in Hl.
  assert (0 ≤ Z.of_nat i < N - 1) by (unfold lenZ in *; lia).
  rewrite slot_next by (done || lia).
  replace (Z.of_nat i + 1) with (Z.of_nat (S i)) by lia.
  rewrite list_lookup_insert_ne; [by apply Hc|]. intros Heq.
  pose proof (slot_range N read (Z.of_nat (S i)) ltac:(lia) ltac:(lia) ltac:(lia)).
  apply Z2Nat.inj in Heq; [|lia..].
  revert Heq. unfold slot. case_match; lia.
Qed.

Lemma Insert_ok q l x :
  represents verifier q l → verifier x = true →
  step_ok q l (OpInsert x) (run_op verifier q (OpInsert x)).
Proof.
  intros [HN [Hr0 Hr] Hn Hb Hw Hc Hv] Hx. unfold step_ok, run_op, queue_Insert.
  cbn [non_null]. rewrite RTC_DCHECK_true, dcheck_verified by done.
  cbn [mbind outcome_bind spec_op]. rewrite Hn.
  destruct (Z.eqb_spec (lenZ l) (queue_size q)) as [Hfull|Hfull].
  { eexists _, q. split; [done|]. by split_and!. }
  pose proof (lenZ_nonneg l). set (N := queue_size q) in *.
  assert (next_read_index_ q < N) by lia.
  pose proof (slot_range N _ (lenZ l) Hr0 Hr ltac:(lia)) as Hs.
  rewrite <- Hw in Hs.
  destruct (swap_slot_ok (queue_ q) (next_write_index_ q) x Hs) as (old & Hold & ->).
  cbn [mbind outcome_bind].
  assert (next_index N (next_write_index_ q)
          = slot N (next_read_index_ q) (lenZ l + 1)) as Hnext
    by (rewrite Hw; apply next_slot; lia || done).
  assert (0 ≤ next_index N (next_write_index_ q) < N) as Hnr.
  { rewrite Hnext. destruct (Z.eq_dec (lenZ l + 1) N) as [->|]; [|apply slot_range; lia].
    unfold slot. case_match; lia. }
  rewrite lenZ_insert. fold (queue_size q). fold N.
  rewrite (to_size_t_small (lenZ l + 1)) by (unfold_i32; lia).
  rewrite !RTC_DCHECK_OP_ok; try (apply has_type_size_t; unfold_i32; lia);
    try (cbn [op_spec]; lia).
  cbn [mbind outcome_bind].
  eexists _, _. split; [done|]. unfold queue_size. cbn [queue_].
  rewrite lenZ_insert. split_and!; [done| | |].
  - cbn. split; [done|]. rewrite Forall_lookup in Hv. by eapply Hv.
  - constructor; unfold queue_size; cbn [queue_ next_read_index_ num_elements_ next_write_index_ snd];
      rewrite ?lenZ_insert; fold (queue_size q); fold N; try done.
    + rewrite lenZ_app. cbn. unfold lenZ at 3. cbn. lia.
    + rewrite lenZ_app. unfold lenZ at 2. cbn. lia.
    + rewrite Hnext, lenZ_app. done.
    + rewrite Hw. by apply contents_appended; try lia.
    + by apply Forall_insert.
  - cbn. by apply insert_swap_Permutation.
Qed.

Lemma Remove_ok q l x :
  represents verifier q l → verifier x = true →
  step_ok q l (OpRemove x) (run_op verifier q (OpRemove x)).
Proof.
  intros [HN [Hr0 Hr] Hn Hb Hw Hc Hv] Hx. unfold step_ok, run_op, queue_Remove.
  cbn [non_null]. rewrite RTC_DCHECK_true, dcheck_verified by done.
  cbn [mbind outcome_bind spec_op]. rewrite Hn.
  destruct l as [|z l]; cbn [lenZ length Z.of_nat Z.eqb].
  { eexists _, q. split; [done|]. by split_and!. }
  rewrite (proj2 (Z.eqb_neq (lenZ (z :: l)) 0)) by (rewrite lenZ_cons; pose_len_nonneg; lia).
  pose proof (lenZ_nonneg l). rewrite lenZ_cons in *. set (N := queue_size q) in *.
  assert (0 ≤ next_read_index_ q < N) as Hs by lia.
  destruct (swap_slot_ok (queue_ q) (next_read_index_ q) x Hs) as (old & Hold & ->).
  assert (old = z) as ->.
  { specialize (Hc 0%nat z eq_refl). unfold slot in Hc.
    rewrite Z.add_0_r in Hc. replace (next_read_index_ q <? N) with true in Hc by lia.
    congruence. }
  cbn [mbind outcome_bind].
  assert (0 ≤ next_index N (next_read_index_ q) < N) as Hnr.
  { unfold next_index. unfold_i32. rewrite Z.mod_small by lia. case_match; lia. }
  rewrite lenZ_insert. fold (queue_size q). fold N.
  replace (1 + lenZ l - 1) with (lenZ l) by lia.
  rewrite (to_size_t_small (lenZ l)) by (unfold_i32; lia).
  rewrite !RTC_DCHECK_OP_ok; try (apply has_type_size_t; unfold_i32; lia);
    try (cbn [op_spec]; lia).
  cbn [mbind outcome_bind].
  eexists _, _. split; [done|]. unfold queue_size. cbn [queue_].
  rewrite lenZ_insert. split_and!; [done|done| |].
  - constructor; unfold queue_size; cbn [queue_ next_read_index_ num_elements_ next_write_index_ snd];
      rewrite ?lenZ_insert; fold (queue_size q); fold N; try done.
    + lia.
    + lia.
    + rewrite Hw. destruct (Z.eq_dec (lenZ l + 1) N) as [HlN|].
      * unfold slot, next_index. unfold_i32. rewrite Z.mod_small by lia.
        repeat case_match; lia.
      * rewrite slot_next by (done || lia). f_equal. lia.
    + by apply (contents_removed N _ _ l x z); rewrite ?lenZ_cons.
    + by apply Forall_insert.
  - cbn. by apply insert_swap_Permutation.
Qed.

Lemma Clear_ok q l :
  represents verifier q l → step_ok q l OpClear (run_op verifier q OpClear).
Proof.
  intros [HN Hr Hn Hb Hw Hc Hv]. eexists _, _. split; [done|].
  split_and!; try done. constructor; try done; cbn.
  - unfold queue_size, lenZ. cbn. lia.
  - unfold lenZ at 1. cbn. unfold queue_size, lenZ. lia.
  - unfold slot. pose proof (lenZ_nonneg (queue_ q)).
    unfold queue_size in *; cbn [queue_ queue_Clear] in *; change (lenZ (@nil T)) with 0;
    destruct (Z.ltb_spec (0 + 0) (lenZ (queue_ q)));
      cbn [queue_] in *; lia.
Qed.

Lemma run_op_ok q l o :
  represents verifier q l → op_verified verifier o →
  step_ok q l o (run_op verifier q o).
Proof.
  destruct o; intros Hrep Ho; [by apply Insert_ok|by apply Remove_ok|by apply Clear_ok].
Qed.

Lemma new_represents size prototype :
  is_size_t size → verifier prototype = true →
  ∃ q, SwapQueue_new verifier size prototype = Ret q ∧ queue_size q = size ∧
    queue_ q = replicate (Z.to_nat size) prototype ∧ represents verifier q [].
Proof.
  intros Hsz Hp. unfold SwapQueue_new.
  assert (∀ n, VerifyQueueSlots verifier (replicate n prototype) = Ret tt) as Hvs.
  { induction n as [|n IH]; [done|]. cbn. by rewrite Hp, RTC_DCHECK_true. }
  rewrite Hvs. set (queue := replicate _ _).
  assert (lenZ queue = size) as Hlen.
  { unfold queue. rewrite lenZ_replicate. unfold_i32. lia. }
  exists (MkSwapQueue 0 0 0 queue). split; [by case_match|]. split; [done|].
  split; [done|]. unfold_i32. constructor; unfold queue_size, slot; cbn; rewrite ?Hlen; try done.
  - lia.
  - unfold lenZ. cbn. lia.
  - destruct (Z.ltb_spec (0 + lenZ (@nil T)) size); change (lenZ (@nil T)) with 0 in *; lia.
  - by apply Forall_replicate.
Qed.

(** The items given to the operations, and those they gave back. *)
Definition items_in (ops : list queue_op) : list T :=
  omap (λ o, match o with OpInsert x | OpRemove x => Some x | OpClear => None end)
    ops.
Definition items_out (rs : list (option (bool * T))) : list T :=
  omap (fmap snd) rs.

Lemma run_ops_ok ops q l :
  represents verifier q l → Forall (op_verified verifier) ops →
  ∃ rs q', run_ops verifier q ops = Ret (rs, q') ∧
    queue_size q' = queue_size q ∧
    Forall2 (agrees verifier) rs (spec_ops (queue_size q) l ops).1 ∧
    represents verifier q' (spec_ops (queue_size q) l ops).2 ∧
    items_out rs ++ queue_ q' ≡ₚ items_in ops ++ queue_ q.
Proof.
  revert q l. induction ops as [|o ops IH]; intros q l Hrep Hops.
  { exists [], q. by split_and!. }
  apply Forall_cons_1 in Hops as [Ho Hops].
  destruct (run_op_ok q l o Hrep Ho) as (r & q1 & Hrun & Hsz & Hag & Hrep1 & Hperm).
  destruct (spec_op (queue_size q) l o) as [s l1] eqn:Es. cbn [fst snd] in *.
  destruct (IH q1 l1 Hrep1 Hops) as (rs & q2 & Hruns & Hsz2 & Hag2 & Hrep2 & Hperm2).
  cbn [run_ops spec_ops]. rewrite Hrun, Es. cbn [mbind outcome_bind].
  rewrite Hruns. cbn [mbind outcome_bind]. rewrite Hsz in *.
  destruct (spec_ops (queue_size q) l1 ops) as [ss l2]. cbn [fst snd] in *.
  eexists _, _. split; [done|]. split_and!; [done|by constructor|done|].
  assert (∀ x y : T, y :: queue_ q1 ≡ₚ x :: queue_ q →
    y :: items_out rs ++ queue_ q2 ≡ₚ x :: items_in ops ++ queue_ q) as Hcons.
  { intros x y Hxy. rewrite Hperm2, Permutation_middle, Hxy. symmetry.
    apply Permutation_middle. }
  destruct o as [x|x|], r as [[b y]|]; cbn [items_in items_out omap list_omap fmap option_fmap option_map snd app];
    try (by apply Hcons); try (by rewrite <- Hperm);
    exfalso; cbn in Es; repeat case_match; simplify_eq; done.
Qed.
End SwapQueue_lemmas.

(** ** Properties *)

(** C31: a new queue of any size, used by any threads in any order, is a bounded
    first-in first-out queue: every insertion succeeds exactly when the queue
    is not full and every removal exactly when it is not empty, giving the
    oldest item; the items given back in exchange pass the verifier; no check
    fails; and no item is lost or duplicated, the items handed out and those in
    the slots being the items handed in and the initial copies. *)
Theorem swap_queue_refines_fifo `{BuildConfig} {T : Type} (verifier : T → bool)
    size prototype ops :
  is_size_t size → verifier prototype = true →
  Forall (op_verified verifier) ops →
  ∃ q0 rs q,
    SwapQueue_new verifier size prototype = Ret q0 ∧
    run_ops verifier q0 ops = Ret (rs, q) ∧
    Forall2 (agrees verifier) rs (spec_ops size [] ops).1 ∧
    represents verifier q (spec_ops size [] ops).2 ∧
    items_out rs ++ queue_ q
      ≡ₚ items_in ops ++ replicate (Z.to_nat size) prototype.
Proof.
  intros Hsz Hp Hops.
  destruct (new_represents verifier size prototype Hsz Hp)
    as (q & Hnew & Hq & Hslots & Hrep).
  destruct (run_ops_ok verifier ops q [] Hrep Hops)
    as (rs & q' & Hrun & _ & Hag & Hrep' & Hperm).
  exists q, rs, q'. by rewrite Hq, Hslots in *.
Qed.

Lemma swap_queue_refines_fifo_witness :
  ∃ q0 rs q,
    @SwapQueue_new DebugBuild nat (λ _, true) 2 7%nat = Ret q0 ∧
    @run_ops DebugBuild nat (λ _, true) q0
      [OpInsert 1; OpInsert 2; OpInsert 3; OpRemove 9; OpRemove 9; OpRemove 9]%nat
      = Ret (rs, q) ∧
    Forall2 (agrees (λ _, true)) rs
      [Some (true, None); Some (true, None); Some (false, Some 3);
       Some (true, Some 1); Some (true, Some 2); Some (false, Some 9)]%nat.
Proof.
  destruct (@swap_queue_refines_fifo DebugBuild nat (λ _, true) 2 7%nat
    [OpInsert 1; OpInsert 2; OpInsert 3; OpRemove 9; OpRemove 9; OpRemove 9]%nat)
    as (q0 & rs & q & H1 & H2 & H3 & _);
    [split; vm_compute; congruence|reflexivity|repeat constructor|].
  exists q0, rs, q. split; [exact H1|]. split; [exact H2|exact H3].
Defined.
