(* ===== verification/MovingMax.v ===== *)
(** The maximum over a moving window
    (libs/webrtc/include/rtc_base/numerics/moving_max_counter.h), for integer
    samples. *)

From S2P Require Import Prelude.
From S2P Require Import Buffer.
From S2P Require Import SafeNumerics.
From S2P Require Import Checks.

Section MovingMaxCounter.
Context `{BuildConfig}.

(** [last_call_time_ms_] exists when the checks are compiled in. *)
Record MovingMaxCounter : Type := MkMovingMaxCounter {
  window_length_ms_ : Z;
  samples_ : list (Z * Z);
  last_call_time_ms_ : Z
}.

Definition MovingMaxCounter_new (window_length_ms : Z) : MovingMaxCounter :=
  MkMovingMaxCounter window_length_ms [] (lowest int64_t).

(** The loop of [RollWindow], with the erasure of what it passed. *)
Fixpoint drop_older (window_begin_ms : Z) (samples : list (Z * Z))
    : list (Z * Z) :=
  match samples with
  | [] => []
  | s :: rest =>
      if s.1 <? window_begin_ms then drop_older window_begin_ms rest else samples
  end.

Definition RollWindow (c : MovingMaxCounter) (new_time_ms : Z)
    : outcome MovingMaxCounter :=
  _ ← RTC_DCHECK_OP GeOp int64_t int64_t new_time_ms (last_call_time_ms_ c)
        "new_time_ms >= last_call_time_ms_";
  let last := if dcheck_is_on then new_time_ms else last_call_time_ms_ c in
  window_begin_ms ← i64_ret (new_time_ms - window_length_ms_ c);
  Ret (MkMovingMaxCounter (window_length_ms_ c)
         (drop_older window_begin_ms (samples_ c)) last).

(** [while (!samples_.empty() && samples_.back().second <= sample)
    samples_.pop_back();] *)
Fixpoint pop_smaller (fuel : nat) (sample : Z) (samples : list (Z * Z))
    : list (Z * Z) :=
  match fuel, list.last samples with
  | S fuel, Some b =>
      if b.2 <=? sample
      then pop_smaller fuel sample (take (length samples - 1) samples)
      else samples
  | _, _ => samples
  end.

(** [Add] *)
Definition counter_Add (c : MovingMaxCounter) (sample current_time_ms : Z)
    : outcome MovingMaxCounter :=
  c ← RollWindow c current_time_ms;
  let samples := pop_smaller (length (samples_ c)) sample (samples_ c) in
  let samples :=
    match list.last samples with
    | None => samples ++ [(current_time_ms, sample)]
    | Some b =>
        if b.1 <? current_time_ms then samples ++ [(current_time_ms, sample)]
        else samples
    end in
  Ret (MkMovingMaxCounter (window_length_ms_ c) samples (last_call_time_ms_ c)).

(** [Max] *)
Definition counter_Max (c : MovingMaxCounter) (current_time_ms : Z)
    : outcome (option Z * MovingMaxCounter) :=
  c ← RollWindow c current_time_ms; Ret (snd <$> head (samples_ c), c).

(** [Reset]: the time of the last call is kept. *)
Definition counter_Reset (c : MovingMaxCounter) : MovingMaxCounter :=
  MkMovingMaxCounter (window_length_ms_ c) [] (last_call_time_ms_ c).

(** ** Specification: the samples so far, searched on every query *)

Inductive counter_op : Type :=
| CAdd (sample time : Z)
| CMax (time : Z)
| CReset.

(** The largest sample that is not older than [begin]. *)
Fixpoint window_max (begin : Z) (history : list (Z * Z)) : option Z :=
  match history with
  | [] => None
  | (t, x) :: rest =>
      let m := window_max begin rest in
      if begin <=? t then Some (from_option (Z.max x) x m) else m
  end.

Definition op_time (o : counter_op) : option Z :=
  match o with CAdd _ t | CMax t => Some t | CReset => None end.

Fixpoint run_counter (c : MovingMaxCounter) (ops : list counter_op)
    : outcome (list (option Z)) :=
  match ops with
  | [] => Ret []
  | CAdd x t :: ops => c ← counter_Add c x t; run_counter c ops
  | CMax t :: ops =>
      '(m, c) ← counter_Max c t; ms ← run_counter c ops; Ret (m :: ms)
  | CReset :: ops => run_counter (counter_Reset c) ops
  end.

Fixpoint spec_counter (window : Z) (history : list (Z * Z))
    (ops : list counter_op) : list (option Z) :=
  match ops with
  | [] => []
  | CAdd x t :: ops => spec_counter window (history ++ [(t, x)]) ops
  | CMax t :: ops =>
      window_max (t - window) history :: spec_counter window history ops
  | CReset :: ops => spec_counter window [] ops
  end.

(** The times of the calls never decrease, and the beginning of every window is
    a time. *)
Fixpoint times_ok (window last : Z) (ops : list counter_op) : Prop :=
  match ops with
  | [] => True
  | o :: ops =>
      match op_time o with
      | Some t =>
          has_type int64_t t ∧ last ≤ t ∧ has_type int64_t (t - window)
          ∧ times_ok window t ops
      | None => times_ok window last ops
      end
  end.
End MovingMaxCounter.

(** ** Lemmas *)

Definition omax (a b : option Z) : option Z := union_with (λ x y, Some (Z.max x y)) a b.

Lemma window_max_app b h1 h2 :
  window_max b (h1 ++ h2) = omax (window_max b h1) (window_max b h2).
Proof.
  induction h1 as [|[t x] h1 IH]; cbn; [by destruct (window_max b h2)|].
  rewrite IH. case_match; [|done].
  destruct (window_max b h1), (window_max b h2); cbn; f_equal; lia.
Qed.

(** Times increase and samples decrease along the deque. *)
Fixpoint sorted_samples (l : list (Z * Z)) : Prop :=
  match l with
  | [] => True
  | s :: rest => Forall (λ s', s.1 < s'.1 ∧ s'.2 < s.2) rest ∧ sorted_samples rest
  end.

Lemma window_max_below b x l :
  Forall (λ s', s'.2 < x) l → ∀ m, window_max b l = Some m → m < x.
Proof.
  induction 1 as [|[t y] l Hy Hl IH]; cbn; [done|]. intros m.
  case_match; [|by apply IH]. intros [= <-].
  destruct (window_max b l) as [k|]; cbn; [|done].
  specialize (IH k eq_refl). cbn in Hy. lia.
Qed.

(** In such a deque, the front of the window is its maximum. *)
Lemma window_max_front b l :
  sorted_samples l → snd <$> head (drop_older b l) = window_max b l.
Proof.
  induction l as [|[t x] l IH]; cbn; [done|]. intros [Hs Hl].
  destruct (Z.ltb_spec t b); [rewrite (IH Hl); by replace (b <=? t) with false by lia|].
  replace (b <=? t) with true by lia. cbn. f_equal.
  destruct (window_max b l) as [k|] eqn:E; [|done]. cbn.
  assert (k < x); [|lia]. eapply window_max_below; [|done].
  eapply Forall_impl; [|exact Hs]. cbn. lia.
Qed.

Lemma drop_older_suffix b l : ∃ k, drop_older b l = drop k l.
Proof.
  induction l as [|s l [k IH]]; [by exists 0%nat|]. cbn.
  case_match; [by exists (S k)|by exists 0%nat].
Qed.

Lemma window_max_drop_older b b' l :
  b ≤ b' → window_max b' (drop_older b l) = window_max b' l.
Proof.
  intros Hb. induction l as [|[t x] l IH]; [done|]. cbn.
  destruct (Z.ltb_spec t b); [|done]. rewrite IH.
  by replace (b' <=? t) with false by lia.
Qed.

Lemma sorted_drop k l : sorted_samples l → sorted_samples (drop k l).
Proof.
  revert k. induction l as [|s l IH]; intros [|k] Hl; try done. cbn.
  apply IH, Hl.
Qed.

Lemma sorted_app l s :
  sorted_samples (l ++ [s]) ↔
  sorted_samples l ∧ Forall (λ s', s'.1 < s.1 ∧ s.2 < s'.2) l.
Proof.
  induction l as [|a l IH]; cbn; [by rewrite !list.Forall_nil|].
  rewrite IH, list.Forall_app, list.Forall_singleton, list.Forall_cons. naive_solver.
Qed.

(** The loop removes the samples that the new one covers. *)
Lemma pop_smaller_spec fuel x l :
  sorted_samples l → (length l ≤ fuel)%nat →
  ∃ k, pop_smaller fuel x l = take k l ∧ Forall (λ s, s.2 ≤ x) (drop k l) ∧
    (∀ s, list.last (take k l) = Some s → x < s.2).
Proof.
  revert l. induction fuel as [|fuel IH]; intros l Hl Hf.
  { destruct l; [|cbn in Hf; lia]. by exists 0%nat. }
  cbn. destruct (list.last l) as [b|] eqn:E.
  2: { apply last_None in E as ->. by exists 0%nat. }
  apply last_Some in E as [l' ->]. destruct (Z.leb_spec b.2 x).
  - rewrite length_app. cbn. rewrite Nat.add_sub, take_app_length.
    apply sorted_app in Hl as [Hl _].
    destruct (IH l' Hl) as (k & -> & Hk & Hlast);
      [rewrite length_app in Hf; cbn in Hf; lia|].
    destruct (Nat.le_gt_cases k (length l')).
    + exists k. rewrite take_app_le, drop_app_le by done. split_and!; try done.
      apply list.Forall_app. split; [done|by apply list.Forall_singleton].
    + exists (length l'). rewrite take_ge in Hlast |- * by lia.
      rewrite take_app_length, drop_app_length. split_and!; try done.
      by rewrite list.Forall_singleton.
  - exists (length (l' ++ [b])). rewrite take_ge, drop_ge by done.
    split_and!; [done|by rewrite list.Forall_nil|].
    intros s. rewrite last_snoc. intros [= <-]. lia.
Qed.

(** Samples that a newer one covers can be forgotten. *)
Lemma window_max_covered b l t x :
  b ≤ t → Forall (λ s, s.2 ≤ x) l → omax (window_max b l) (Some x) = Some x.
Proof.
  intros Hb. induction 1 as [|[t' y] l Hy Hl IH]; [done|]. cbn in *.
  case_match; [|done]. destruct (window_max b l) as [m|]; cbn in *; [|f_equal; lia].
  injection IH as IH. f_equal. lia.
Qed.

Lemma window_max_none b l : Forall (λ s, s.1 < b) l → window_max b l = None.
Proof.
  induction 1 as [|[t x] l Ht Hl IH]; [done|]. cbn in *.
  by replace (b <=? t) with false by lia.
Qed.

Lemma omax_assoc a b c : omax a (omax b c) = omax (omax a b) c.
Proof. destruct a, b, c; cbn; f_equal; lia. Qed.

Lemma last_in_window b l s :
  sorted_samples l → list.last l = Some s → b ≤ s.1 →
  ∃ m, window_max b l = Some m ∧ s.2 ≤ m.
Proof.
  intros Hl [l' ->]%last_Some Hb. rewrite window_max_app. destruct s as [t x].
  cbn in *. replace (b <=? t) with true by lia. cbn.
  destruct (window_max b l') as [m|]; cbn; eexists; split; try done; lia.
Qed.

Lemma sorted_last l s :
  sorted_samples l → list.last l = Some s →
  Forall (λ s', s'.1 ≤ s.1 ∧ s.2 ≤ s'.2) l.
Proof.
  intros Hl [l' ->]%last_Some. apply sorted_app in Hl as [_ Hl].
  apply list.Forall_app. split; [|by apply list.Forall_singleton].
  eapply Forall_impl; [|exact Hl]. cbn. lia.
Qed.

Lemma sorted_take k l : sorted_samples l → sorted_samples (take k l).
Proof.
  revert k. induction l as [|a l IH]; intros [|k] Hl; try done. cbn in *.
  destruct Hl as [Ha Hl]. split; [by apply Forall_take|by apply IH].
Qed.

(** Windows that begin after the last sample. *)
Lemma window_max_future b t h :
  t < b → Forall (λ s, s.1 ≤ t) h → window_max b h = None.
Proof.
  intros Hb Hh. apply window_max_none. eapply Forall_impl; [|exact Hh]. cbn. lia.
Qed.

(** The history with a new sample, and the deque [l] without the samples the
    new one covers. *)
Lemma window_max_pushed b k l history t x :
  b ≤ t → window_max b l = window_max b history →
  Forall (λ s, s.2 ≤ x) (drop k l) →
  window_max b (history ++ [(t, x)]) = omax (window_max b (take k l)) (Some x).
Proof.
  intros Hb Hw Hk. rewrite window_max_app, <- Hw. cbn.
  replace (b <=? t) with true by lia. cbn.
  rewrite <- (take_drop k l) at 1. rewrite window_max_app, <- omax_assoc.
  by rewrite (window_max_covered b _ t x).
Qed.

(** The deque after [Add]. *)
Lemma pushed_ok l t x :
  sorted_samples l → Forall (λ s, s.1 ≤ t) l →
  (∀ s, list.last l = Some s → x < s.2) →
  let l' := match list.last l with
            | None => l ++ [(t, x)]
            | Some b => if b.1 <? t then l ++ [(t, x)] else l
            end in
  sorted_samples l' ∧ Forall (λ s, s.1 ≤ t) l'
  ∧ ∀ b, b ≤ t → window_max b l' = omax (window_max b l) (Some x).
Proof.
  intros Hl Ht Hlast.
  assert (∀ b, b ≤ t →
    window_max b (l ++ [(t, x)]) = omax (window_max b l) (Some x)) as Hw.
  { intros b Hb. rewrite window_max_app. cbn. by replace (b <=? t) with true by lia. }
  assert (Forall (λ s, s.1 ≤ t) (l ++ [(t, x)])) as Ht'
    by (apply list.Forall_app; split; [done|by apply list.Forall_singleton]).
  destruct (list.last l) as [s|] eqn:El; cbn zeta.
  2: { split_and!; [|done..]. apply last_None in El as ->. by apply sorted_app. }
  specialize (Hlast s eq_refl). destruct (Z.ltb_spec s.1 t).
  - split_and!; [|done..]. apply sorted_app. split; [done|].
    eapply Forall_impl; [|exact (sorted_last l s Hl El)]. cbn. lia.
  - split_and!; [done..|]. intros b Hb.
    destruct (last_in_window b l s Hl El ltac:(lia)) as (m & -> & Hm).
    cbn. f_equal. lia.
Qed.

(** ** The invariant *)

Section MovingMaxCounter_lemmas.
Context `{BuildConfig}.

(** The deque answers every window that begins at [begin] or later as the
    history does. *)
Record tracks (begin last : Z) (c : MovingMaxCounter) (history : list (Z * Z))
    : Prop := {
  tr_sorted : sorted_samples (samples_ c);
  tr_times : Forall (λ s, s.1 ≤ last) (samples_ c);
  tr_history : Forall (λ s, s.1 ≤ last) history;
  tr_last : has_type int64_t last;
  tr_call : dcheck_is_on = true → last_call_time_ms_ c = last;
  tr_window : ∀ b, begin ≤ b →
    window_max b (samples_ c) = window_max b history
}.

Lemma RollWindow_ok begin last c history t :
  tracks begin last c history → has_type int64_t t → last ≤ t →
  has_type int64_t (t - window_length_ms_ c) →
  begin ≤ t - window_length_ms_ c →
  ∃ c', RollWindow c t = Ret c' ∧ window_length_ms_ c' = window_length_ms_ c ∧
    samples_ c' = drop_older (t - window_length_ms_ c) (samples_ c) ∧
    tracks (t - window_length_ms_ c) t c' history.
Proof.
  intros [Hs Ht Hh Hl Hc Hw] Htt Hlt Hwt Hb. unfold RollWindow.
  assert (RTC_DCHECK_OP GeOp int64_t int64_t t (last_call_time_ms_ c)
    "new_time_ms >= last_call_time_ms_" = Ret tt) as ->.
  { unfold RTC_DCHECK_OP. destruct dcheck_is_on; [|done].
    rewrite Hc by done. apply RTC_CHECK_OP_ok; try done. cbn. lia. }
  rewrite i64_ret_ok by done. cbn [mbind outcome_bind].
  eexists. split; [done|]. split; [done|]. split; [done|].
  destruct (drop_older_suffix (t - window_length_ms_ c) (samples_ c)) as [k Hk].
  constructor; cbn [samples_ last_call_time_ms_]; try done.
  - rewrite Hk. by apply sorted_drop.
  - rewrite Hk. apply Forall_drop. eapply Forall_impl; [|exact Ht]. cbn. lia.
  - eapply Forall_impl; [|exact Hh]. cbn. lia.
  - by intros ->.
  - intros b Hb'. rewrite window_max_drop_older by done. apply Hw. lia.
Qed.

Lemma Add_ok begin last c history x t :
  tracks begin last c history → has_type int64_t t → last ≤ t →
  has_type int64_t (t - window_length_ms_ c) →
  begin ≤ t - window_length_ms_ c →
  ∃ c', counter_Add c x t = Ret c' ∧ window_length_ms_ c' = window_length_ms_ c ∧
    tracks (t - window_length_ms_ c) t c' (history ++ [(t, x)]).
Proof.
  intros Htr Htt Hlt Hwt Hb. unfold counter_Add.
  destruct (RollWindow_ok begin last c history t Htr Htt Hlt Hwt Hb)
    as (c1 & -> & Hwl & _ & [Hs Ht Hh Hl Hc Hw]). cbn [mbind outcome_bind].
  eexists. split; [done|]. split; [done|].
  destruct (pop_smaller_spec (length (samples_ c1)) x (samples_ c1) Hs)
    as (k & -> & Hk & Hlast); [done|].
  destruct (pushed_ok (take k (samples_ c1)) t x) as (Hs' & Ht' & Hw');
    [by apply sorted_take|by apply Forall_take|done|].
  assert (Forall (λ s, s.1 ≤ t) (history ++ [(t, x)])) as Hh'
    by (apply list.Forall_app; split; [done|by apply list.Forall_singleton]).
  constructor; cbn [samples_ last_call_time_ms_]; try done.
  intros b Hb1. destruct (Z.le_gt_cases b t).
  - rewrite Hw' by done. symmetry. apply window_max_pushed; [done|by apply Hw|done].
  - by rewrite !(window_max_future b t) by (done || lia).
Qed.
End MovingMaxCounter_lemmas.

(** ** Properties *)

(** C32: for any sequence of [Add], [Max] and [Reset] at times that never
    decrease, no check fails and each [Max] is the largest of all the samples
    added since the last [Reset] that are not older than the window, or nothing
    if there is none: the samples the deque forgets never matter. *)
Theorem moving_max_refines `{BuildConfig} window ops :
  times_ok window (lowest int64_t) ops →
  run_counter (MovingMaxCounter_new window) ops = Ret (spec_counter window [] ops).
Proof.
  intros Hops.
  assert (∀ begin last c history, window_length_ms_ c = window →
    tracks begin last c history → begin ≤ last - window →
    times_ok window last ops →
    run_counter c ops = Ret (spec_counter window history ops)) as Hgen.
  2: { eapply (Hgen (lowest int64_t - window) (lowest int64_t)); [done| |lia|done].
       constructor; done || by apply has_type_limits. }
  clear Hops. induction ops as [|[x t|t|] ops IH]; intros begin last c history Hwl Htr Hb Hops;
    [done|..]; cbn in Hops |- *.
  - destruct Hops as (Ht & Hl & Hwt & Hops). subst window.
    destruct (Add_ok begin last c history x t) as (c' & -> & Hwl & Htr'); try done || lia.
    cbn [mbind outcome_bind]. eapply IH; [exact Hwl|exact Htr'|lia|exact Hops].
  - destruct Hops as (Ht & Hl & Hwt & Hops). subst window. unfold counter_Max.
    destruct (RollWindow_ok begin last c history t) as (c' & -> & Hwl & Hs & Htr');
      try done || lia.
    cbn [mbind outcome_bind].
    rewrite (IH _ t c' history Hwl Htr' ltac:(lia) Hops).
    cbn. do 2 f_equal. rewrite Hs, window_max_front by apply Htr.
    apply Htr. lia.
  - eapply IH; try done. destruct Htr. by constructor.
Qed.

Lemma moving_max_refines_witness :
  @run_counter DebugBuild (MovingMaxCounter_new 100)
    [CAdd 5 1000; CAdd 3 1050; CAdd 4 1060; CMax 1090; CMax 1110; CMax 1155; CMax 1200]
  = Ret [Some 5; Some 4; Some 4; None].
Proof.
  rewrite (@moving_max_refines DebugBuild 100 
    [CAdd 5 1000; CAdd 3 1050; CAdd 4 1060; CMax 1090; CMax 1110; CMax 1155; CMax 1200]).
  - vm_compute; reflexivity.
  - cbn; unfold has_type; repeat split; vm_compute; congruence.
Defined.
