(* ===== verification/PacketQueue.v ===== *)
(** A queue of packets indexed by their numbers
    (libs/webrtc/include/modules/congestion_controller/bbr/
    packet_number_indexed_queue.h): a deque of slots that starts at the lowest
    number present, each slot marked as present or not. *)

From stdpp Require Import gmap.
From S2P Require Import Prelude.
From S2P Require Import Buffer.
From S2P Require Import SafeNumerics.
From S2P Require Import Checks.

Section packet_queue.
Context `{BuildConfig} {T : Type}.
(** [T()], and the number of slots there is memory for. *)
Context (default_data : T) (max_slots : Z).

Record EntryWrapper : Type := MkEntryWrapper { data : T; present : bool }.
Definition absent_entry : EntryWrapper := MkEntryWrapper default_data false.

Record PacketNumberIndexedQueue : Type := MkPacketQueue {
  entries_ : list EntryWrapper;
  number_of_present_entries_ : Z;
  first_packet_ : Z
}.
Implicit Types (q : PacketNumberIndexedQueue).

Definition PacketQueue_new : PacketNumberIndexedQueue := MkPacketQueue [] 0 0.

Definition IsEmpty q : bool := number_of_present_entries_ q =? 0.
Definition number_of_present_entries q : Z := number_of_present_entries_ q.
Definition entry_slots_used q : Z := lenZ (entries_ q).
Definition first_packet q : Z := first_packet_ q.

(** The sum of an [int64_t] and a [size_t] is unsigned; its conversion to
    [int64_t] wraps. *)
Definition last_packet q : Z :=
  if IsEmpty q then 0 else
  convert int64_t (convert uint64_t (first_packet_ q + lenZ (entries_ q) - 1)).

(** The pointer is the index of the slot. *)
Definition GetEntryWrapper (offset : Z) q : outcome (option nat) :=
  if offset <? first_packet_ q then Ret None else
  offset ← i64_ret (offset - first_packet_ q);
  if convert int64_t (lenZ (entries_ q)) <=? offset then Ret None else
  match entries_ q !! Z.to_nat offset with
  | None => Undef OutOfBounds
  | Some entry =>
      Ret (if negb (present entry) then None else Some (Z.to_nat offset))
  end.

Definition GetEntry (packet_number : Z) q : outcome (option T) :=
  entry ← GetEntryWrapper packet_number q;
  Ret (entry ≫= λ i, data <$> entries_ q !! i).

(** The deque finds memory for [n] slots, or throws. *)
Definition slots_fit (n : Z) : outcome unit := RTC_CHECK (n <=? max_slots) "std::bad_alloc".
Definition entries_emplace_back (l : list EntryWrapper) (x : T)
    : outcome (list EntryWrapper) :=
  _ ← slots_fit (lenZ l + 1); Ret (l ++ [MkEntryWrapper x true]).
(** [entries_.resize(offset)] to a larger size *)
Definition entries_resize (l : list EntryWrapper) (size : Z)
    : outcome (list EntryWrapper) :=
  _ ← slots_fit size;
  Ret (l ++ replicate (Z.to_nat (size - lenZ l)) absent_entry).

Definition Emplace (packet_number : Z) (x : T) q
    : outcome (bool * PacketNumberIndexedQueue) :=
  if IsEmpty q then
    _ ← RTC_DCHECK (lenZ (entries_ q) =? 0) "entries_.empty()";
    _ ← RTC_DCHECK_OP EqOp uint32_t int64_t 0 (first_packet_ q)
          "0u == first_packet_";
    entries ← entries_emplace_back (entries_ q) x;
    Ret (true, MkPacketQueue entries 1 packet_number)
  else if packet_number <=? last_packet q then Ret (false, q) else
  offset ← i64_ret (packet_number - first_packet_ q);
  entries ← (if convert int64_t (lenZ (entries_ q)) <? offset
             then entries_resize (entries_ q) offset else Ret (entries_ q));
  let number := to_size_t (number_of_present_entries_ q + 1) in
  entries ← entries_emplace_back entries x;
  let q := MkPacketQueue entries number (first_packet_ q) in
  _ ← RTC_DCHECK_OP EqOp int64_t int64_t packet_number (last_packet q)
        "packet_number == last_packet()";
  Ret (true, q).

(** The loop of [Cleanup]. *)
Fixpoint pop_absent (l : list EntryWrapper) (first : Z)
    : outcome (list EntryWrapper * Z) :=
  match l with
  | [] => Ret ([], first)
  | entry :: rest =>
      if present entry then Ret (l, first) else
      first ← i64_ret (first + 1); pop_absent rest first
  end.
Definition Cleanup q : outcome PacketNumberIndexedQueue :=
  '(entries, first) ← pop_absent (entries_ q) (first_packet_ q);
  Ret (MkPacketQueue entries (number_of_present_entries_ q)
         (if lenZ entries =? 0 then 0 else first)).

Definition packet_queue_Remove (packet_number : Z) q : outcome (bool * PacketNumberIndexedQueue) :=
  entry ← GetEntryWrapper packet_number q;
  match entry with
  | None => Ret (false, q)
  | Some i =>
      let entries := alter (λ e, MkEntryWrapper (data e) false) i (entries_ q) in
      let q := MkPacketQueue entries
                 (to_size_t (number_of_present_entries_ q - 1)) (first_packet_ q) in
      if packet_number =? first_packet q
      then q ← Cleanup q; Ret (true, q) else Ret (true, q)
  end.
End packet_queue.

(** ** Specification: the entries by number, and the last number inserted *)

Record window (T : Type) : Type := MkWindow { win_map : gmap Z T; win_last : Z }.
Arguments MkWindow {_} _ _.
Arguments win_map {_} _.
Arguments win_last {_} _.

(** The lowest key of a map. *)
Definition smallest {T} (m : gmap Z T) : Z :=
  match (map_to_list m).*1 with [] => 0 | n :: l => foldr Z.min n l end.

Inductive queue_op (T : Type) : Type :=
| QEmplace (n : Z) (x : T)
| QRemove (n : Z)
| QGet (n : Z)
| QFirst
| QLast
| QCount
| QSlots.
Arguments QEmplace {_} _ _.
Arguments QRemove {_} _.
Arguments QGet {_} _.
Arguments QFirst {_}.
Arguments QLast {_}.
Arguments QCount {_}.
Arguments QSlots {_}.

Inductive queue_answer (T : Type) : Type :=
| ABool (b : bool)
| AEntry (x : option T)
| ANumber (n : Z).
Arguments ABool {_} _.
Arguments AEntry {_} _.
Arguments ANumber {_} _.

(** From the lowest number present to the last one. *)
Definition window_slots {T} (w : window T) : Z :=
  let '(MkWindow m last) := w in
  if decide (m = ∅) then 0 else last - smallest m + 1.

Definition window_step {T} (op : queue_op T) (w : window T)
    : window T * queue_answer T :=
  let '(MkWindow m last) := w in
  match op with
  | QEmplace n x =>
      if decide (m = ∅) then (MkWindow {[n := x]} n, ABool true)
      else if n <=? last then (w, ABool false)
      else (MkWindow (<[n := x]> m) n, ABool true)
  | QRemove n =>
      match m !! n with
      | None => (w, ABool false)
      | Some _ => (MkWindow (delete n m) last, ABool true)
      end
  | QGet n => (w, AEntry (m !! n))
  | QFirst => (w, ANumber (smallest m))
  | QLast => (w, ANumber (if decide (m = ∅) then 0 else last))
  | QCount => (w, ANumber (Z.of_nat (base.size m)))
  | QSlots => (w, ANumber (window_slots w))
  end.
Fixpoint window_run {T} (ops : list (queue_op T)) (w : window T)
    : list (queue_answer T) :=
  match ops with
  | [] => []
  | op :: ops => let '(w, a) := window_step op w in a :: window_run ops w
  end.

(** Whether [max_slots] slots are enough for all the windows of a sequence. *)
Fixpoint window_fits {T} (max_slots : Z) (ops : list (queue_op T)) (w : window T)
    : bool :=
  match ops with
  | [] => true
  | op :: ops =>
      let w := (window_step op w).1 in
      (window_slots w <=? max_slots) && window_fits max_slots ops w
  end.

Section packet_queue_run.
Context `{BuildConfig} {T : Type} (default_data : T) (max_slots : Z).
Implicit Types (q : @PacketNumberIndexedQueue T).

Definition queue_step (op : queue_op T) q
    : outcome (PacketNumberIndexedQueue * queue_answer T) :=
  match op with
  | QEmplace n x =>
      '(b, q) ← Emplace default_data max_slots n x q; Ret (q, ABool b)
  | QRemove n => '(b, q) ← packet_queue_Remove n q; Ret (q, ABool b)
  | QGet n => x ← GetEntry n q; Ret (q, AEntry x)
  | QFirst => Ret (q, ANumber (first_packet q))
  | QLast => Ret (q, ANumber (last_packet q))
  | QCount => Ret (q, ANumber (number_of_present_entries q))
  | QSlots => Ret (q, ANumber (entry_slots_used q))
  end.
Fixpoint queue_run (ops : list (queue_op T)) q
    : outcome (PacketNumberIndexedQueue * list (queue_answer T)) :=
  match ops with
  | [] => Ret (q, [])
  | op :: ops =>
      '(q, a) ← queue_step op q; '(q, l) ← queue_run ops q; Ret (q, a :: l)
  end.

Definition op_number (op : queue_op T) : Z :=
  match op with QEmplace n _ | QRemove n | QGet n => n | _ => 0 end.
Definition packet_number_ok (op : queue_op T) : Prop :=
  0 ≤ op_number op < max int64_t.
End packet_queue_run.

(** ** The invariant *)

Lemma smallest_spec {T} (m : gmap Z T) f :
  is_Some (m !! f) → (∀ n, is_Some (m !! n) → f ≤ n) → smallest m = f.
Proof.
  assert (∀ n l, foldr Z.min n l ∈ n :: l ∧ ∀ k, k ∈ n :: l → foldr Z.min n l ≤ k) as Hmin.
  { intros n l. induction l as [|k l [IH1 IH2]]; cbn.
    - split; [by left|]. intros k ->%list_elem_of_singleton. lia.
    - split.
      + destruct (Z.min_spec k (foldr Z.min n l)) as [[_ ->]|[_ ->]]; [right; by left|].
        apply elem_of_cons in IH1 as [-> |IH1]; [by left|by do 2 right].
      + intros j [-> |[-> |Hj]%elem_of_cons]%elem_of_cons.
        * pose proof (IH2 n ltac:(by left)). lia.
        * lia.
        * pose proof (IH2 j ltac:(by right)). lia. }
  assert (∀ n, n ∈ (map_to_list m).*1 ↔ is_Some (m !! n)) as Hk.
  { intros n. rewrite list_elem_of_fmap. split.
    - intros ([n' x] & -> & Hx%elem_of_map_to_list). by exists x.
    - intros [x Hx]. exists (n, x). by rewrite elem_of_map_to_list. }
  intros Hf Hle. unfold smallest. pose proof Hf as Hf'. apply Hk in Hf'.
  destruct (map_to_list m).*1 as [|n l]; [by apply elem_of_nil in Hf'|].
  destruct (Hmin n l) as [H1 H2]. specialize (H2 f Hf').
  apply Hk, Hle in H1. lia.
Qed.

Section packet_queue_lemmas.
Context `{BuildConfig} {T : Type} (default_data : T) (max_slots : Z).
Hypothesis max_slots_size : max_slots ≤ max int64_t.
Implicit Types (q : @PacketNumberIndexedQueue T) (l : list (@EntryWrapper T)) (m : gmap Z T).

Definition contents (e : @EntryWrapper T) : option T :=
  if present e then Some (data e) else None.
(** The entry with a number. *)
Definition slot q (n : Z) : option T :=
  if n <? first_packet_ q then None
  else entries_ q !! Z.to_nat (n - first_packet_ q) ≫= contents.

Definition queue_ok q (w : window T) : Prop :=
  number_of_present_entries_ q = Z.of_nat (base.size (win_map w))
  ∧ (∀ n, win_map w !! n = slot q n)
  ∧ lenZ (entries_ q) ≤ max_slots
  ∧ match entries_ q with
    | [] => first_packet_ q = 0
    | e :: _ =>
        present e = true ∧ 0 ≤ first_packet_ q
        ∧ win_last w = first_packet_ q + lenZ (entries_ q) - 1
        ∧ win_last w < max int64_t
    end.

Lemma slot_empty q n : entries_ q = [] → slot q n = None.
Proof. unfold slot. intros ->. by case_match. Qed.

Lemma slot_first q e l :
  entries_ q = e :: l → slot q (first_packet_ q) = contents e.
Proof. unfold slot. intros ->. by rewrite Z.ltb_irrefl, Z.sub_diag. Qed.

(** No entries, no slots. *)
Lemma queue_ok_empty q w : queue_ok q w → (win_map w = ∅ ↔ entries_ q = []).
Proof.
  intros (_ & Hm & _ & He). split.
  - intros Hw. destruct (entries_ q) as [|e l] eqn:Hl; [done|].
    destruct He as (Hp & _). specialize (Hm (first_packet_ q)).
    rewrite Hw, (slot_first _ _ _ Hl) in Hm. unfold contents in Hm. by rewrite Hp in Hm.
  - intros Hl. apply map_empty. intros n. by rewrite Hm, slot_empty.
Qed.

Lemma IsEmpty_ok q w : queue_ok q w → IsEmpty q = bool_decide (win_map w = ∅).
Proof.
  intros (Hn & _). unfold IsEmpty. rewrite Hn.
  case_bool_decide as Hw.
  - by rewrite Hw.
  - apply Z.eqb_neq. rewrite <- map_size_empty_iff in Hw. lia.
Qed.

Lemma first_packet_ok q w : queue_ok q w → first_packet q = smallest (win_map w).
Proof.
  intros Hq. pose proof Hq as (Hn & Hm & _ & He). unfold first_packet.
  destruct (entries_ q) as [|e l] eqn:Hl.
  { apply (queue_ok_empty q w Hq) in Hl. rewrite Hl. done. }
  destruct He as (Hp & _). symmetry. apply smallest_spec.
  - rewrite Hm, (slot_first _ _ _ Hl). unfold contents. rewrite Hp. by eexists.
  - intros n [x Hx]. rewrite Hm in Hx. unfold slot in Hx.
    destruct (Z.ltb_spec n (first_packet_ q)); [done|lia].
Qed.

Lemma wrap_small z : 0 ≤ z ≤ max int64_t →
  convert uint64_t z = z ∧ convert int64_t z = z.
Proof.
  change (max int64_t) with (2 ^ 63 - 1). intros Hz. unfold convert.
  change (lowest int64_t) with (- 2 ^ 63). change (lowest uint64_t) with 0.
  change (2 ^ (sizeof uint64_t * 8)) with (2 ^ 64).
  change (2 ^ (sizeof int64_t * 8)) with (2 ^ 64).
  rewrite !Z.mod_small; lia.
Qed.

Lemma last_packet_ok q w :
  queue_ok q w → last_packet q = if decide (win_map w = ∅) then 0 else win_last w.
Proof.
  intros Hq. unfold last_packet. rewrite (IsEmpty_ok q w Hq).
  pose proof Hq as (_ & _ & _ & He). case_bool_decide as Hw; case_decide; try done.
  destruct (entries_ q) as [|e l] eqn:Hl; [by apply (queue_ok_empty q w Hq) in Hl|].
  destruct He as (_ & Hf & Hlast & Hmax). rewrite <- Hlast.
  destruct (wrap_small (win_last w)) as [-> ->]; [|done].
  pose proof (lenZ_nonneg l). rewrite lenZ_cons in Hlast. lia.
Qed.

Lemma GetEntryWrapper_ok q w n :
  queue_ok q w → 0 ≤ n ≤ max int64_t →
  GetEntryWrapper n q
    = Ret (match win_map w !! n with
           | Some _ => Some (Z.to_nat (n - first_packet_ q))
           | None => None
           end)
  ∧ (is_Some (win_map w !! n) →
     first_packet_ q ≤ n
     ∧ ∃ e, entries_ q !! Z.to_nat (n - first_packet_ q) = Some e
        ∧ win_map w !! n = Some (data e) ∧ present e = true).
Proof.
  intros Hq Hn. pose proof Hq as (_ & Hm & Hmax & He). rewrite !Hm.
  unfold GetEntryWrapper, slot. destruct (Z.ltb_spec n (first_packet_ q)) as [Hlt|Hge].
  { by split; [|intros [??]]. }
  assert (0 ≤ first_packet_ q) as Hf.
  { destruct (entries_ q); [by rewrite He|by destruct He as (_ & ? & _)]. }
  rewrite i64_ret_ok.
  2: { unfold has_type. change (lowest int64_t) with (- 2 ^ 63). lia. }
  cbn [mbind outcome_bind].
  destruct (wrap_small (lenZ (entries_ q))) as [_ ->].
  { pose proof (lenZ_nonneg (entries_ q)). lia. }
  unfold lenZ. destruct (Z.leb_spec (Z.of_nat (length (entries_ q))) (n - first_packet_ q)) as [Hle|Hlt].
  { rewrite (lookup_ge_None_2 (entries_ q)) by lia. by split; [|intros [??]]. }
  destruct (lookup_lt_is_Some_2 (entries_ q) (Z.to_nat (n - first_packet_ q))) as [e Hx]; [lia|].
  rewrite Hx. cbn. unfold contents. destruct (present e) eqn:Hp; cbn.
  - split; [done|]. intros _. split; [done|]. by exists e.
  - by split; [|intros [??]].
Qed.

(** *** Insertion *)

Lemma size_bound q w : queue_ok q w → Z.of_nat (base.size (win_map w)) ≤ lenZ (entries_ q).
Proof.
  intros (_ & Hm & _). rewrite <- length_map_to_list, <- (length_fmap fst). unfold lenZ.
  assert ((map_to_list (win_map w)).*1
            ⊆+ seqZ (first_packet_ q) (lenZ (entries_ q))) as Hsub.
  { apply NoDup_submseteq; [apply NoDup_fst_map_to_list|].
    intros n ([n' x] & -> & Hx%elem_of_map_to_list)%list_elem_of_fmap. cbn.
    rewrite Hm in Hx. unfold slot in Hx. apply elem_of_seqZ.
    destruct (Z.ltb_spec n' (first_packet_ q)); [done|].
    destruct (entries_ q !! _) eqn:He; [|done]. apply lookup_lt_Some in He.
    unfold lenZ. lia. }
  apply submseteq_length in Hsub. rewrite length_seqZ in Hsub. unfold lenZ in Hsub. lia.
Qed.

(** A slot of a queue with more entries at the end. *)
Lemma slot_append q l number n :
  slot (MkPacketQueue (entries_ q ++ l) number (first_packet_ q)) n
    = match slot q n with
      | Some x => Some x
      | None =>
          if n <? first_packet_ q + lenZ (entries_ q) then None
          else l !! Z.to_nat (n - first_packet_ q - lenZ (entries_ q)) ≫= contents
      end.
Proof.
  unfold slot, lenZ. cbn [entries_ first_packet_].
  destruct (Z.ltb_spec n (first_packet_ q)) as [Hn|Hn].
  { by rewrite (proj2 (Z.ltb_lt _ _)) by lia. }
  destruct (Z.ltb_spec n (first_packet_ q + Z.of_nat (length (entries_ q)))) as [Hl|Hl].
  - rewrite lookup_app_l by lia. by destruct (_ ≫= contents).
  - rewrite lookup_app_r by lia. rewrite (lookup_ge_None_2 (entries_ q)) by lia. cbn.
    do 2 f_equal. lia.
Qed.

Lemma absent_lookup k i :
  (replicate k (absent_entry default_data)) !! i ≫= contents = None.
Proof.
  destruct ((replicate k (absent_entry default_data)) !! i) as [e|] eqn:He; [|done].
  by apply lookup_replicate in He as [-> _].
Qed.

(** Absent slots up to a new entry, which is the only new content. *)
Lemma slot_padded q w number n x k :
  queue_ok q w → n = first_packet_ q + lenZ (entries_ q) + Z.of_nat k →
  let q' := MkPacketQueue (entries_ q ++ replicate k (absent_entry default_data)
                             ++ [MkEntryWrapper x true]) number (first_packet_ q) in
  ∀ j, <[n := x]> (win_map w) !! j = slot q' j.
Proof.
  intros (_ & Hm & _) Hn q' j. subst q'. rewrite slot_append, <- Hm.
  destruct (decide (j = n)) as [-> |Hj].
  - rewrite lookup_insert_eq.
    assert (win_map w !! n = None) as ->.
    { rewrite Hm. unfold slot. case_match; [done|].
      rewrite lookup_ge_None_2; [done|]. unfold lenZ in Hn. lia. }
    rewrite (proj2 (Z.ltb_ge _ _)) by lia.
    rewrite lookup_app_r by (rewrite length_replicate; lia).
    rewrite length_replicate. replace (Z.to_nat _ - k)%nat with 0%nat by lia. done.
  - rewrite lookup_insert_ne by done. destruct (win_map w !! j); [done|].
    destruct (Z.ltb_spec j (first_packet_ q + lenZ (entries_ q))) as [|Hge]; [done|].
    destruct (decide (Z.to_nat (j - first_packet_ q - lenZ (entries_ q)) < k)%nat) as [Hlt|Hnlt].
    + rewrite lookup_app_l by (rewrite length_replicate; lia). by rewrite absent_lookup.
    + rewrite lookup_app_r by (rewrite length_replicate; lia).
      rewrite length_replicate. rewrite lookup_ge_None_2; [done|]. cbn. lia.
Qed.

Definition answers (op : queue_op T) (w : window T) (a : queue_answer T) q : Prop :=
  a = (window_step op w).2 ∧ queue_ok q (window_step op w).1.

(** What an operation that leads to a queue with [n] slots does: when there is
    memory for them it ends well, otherwise the deque throws. *)
Definition within {A} (n : Z) (m : outcome A) (P : A → Prop) : Prop :=
  if n <=? max_slots then wp m P else m = Abort "std::bad_alloc".

Lemma within_bind {A B} n (m : outcome A) (f : A → outcome B) P (Q : B → Prop) :
  within n m P → (∀ a, P a → wp (f a) Q) → within n (m ≫= f) Q.
Proof.
  unfold within. case_match; [|by intros -> _].
  intros Hm Hf. apply wp_bind. by eapply wp_mono.
Qed.

Lemma within_wp {A} n (m : outcome A) P : n ≤ max_slots → wp m P → within n m P.
Proof. intros Hn Hm. unfold within. by rewrite (proj2 (Z.leb_le _ _)). Qed.

Lemma window_slots_ok q w :
  queue_ok q w → window_slots w = entry_slots_used q.
Proof.
  intros Hq. pose proof Hq as (_ & _ & _ & He). unfold entry_slots_used.
  pose proof (first_packet_ok q w Hq) as Hf. destruct w as [m last]. cbn in *.
  rewrite <- Hf. case_decide as Hw.
  - apply (queue_ok_empty q _ Hq) in Hw. by rewrite Hw.
  - destruct (entries_ q) eqn:Hl; [by apply (queue_ok_empty q _ Hq) in Hl|].
    destruct He as (_ & _ & -> & _). unfold first_packet. lia.
Qed.

Lemma window_slots_bound q w : queue_ok q w → window_slots w ≤ max_slots.
Proof. intros Hq. rewrite (window_slots_ok q w Hq). apply Hq. Qed.

Lemma Emplace_empty_ok q w n x :
  queue_ok q w → win_map w = ∅ → 0 ≤ n < max int64_t →
  within (window_slots (window_step (QEmplace n x) w).1)
    (Emplace default_data max_slots n x q) (λ '(b, q'),
    answers (QEmplace n x) w (ABool b) q').
Proof.
  intros Hq Hw Hn. pose proof (proj1 (queue_ok_empty q w Hq) Hw) as Hl.
  pose proof Hq as (_ & _ & _ & Hf). rewrite Hl in Hf.
  unfold Emplace. rewrite (IsEmpty_ok q w Hq), bool_decide_eq_true_2 by done.
  rewrite Hl, Hf. rewrite RTC_DCHECK_true. cbn [mbind outcome_bind].
  rewrite RTC_DCHECK_OP_ok; [|done..]. cbn [mbind outcome_bind].
  unfold entries_emplace_back, slots_fit. change (lenZ [] + 1) with 1.
  unfold answers, within. destruct w as [m last]. cbn in Hw. subst m.
  unfold window_step. rewrite decide_True by done. cbn [fst].
  assert (window_slots (MkWindow {[n := x]} n) = 1) as ->.
  { unfold window_slots. rewrite decide_False by apply map_non_empty_singleton.
    rewrite (smallest_spec _ n); [lia| |].
    - rewrite lookup_singleton_eq. by eexists.
    - intros k [y Hy]. apply lookup_singleton_Some in Hy as [-> _]. done. }
  destruct (Z.leb_spec 1 max_slots) as [Hs|]; [|done]. cbn. split; [done|].
  split_and!; [|intros j|exact Hs|cbn; split_and!; [done|lia|unfold lenZ; cbn; lia|apply Hn]].
  { cbn [fst win_map]. by rewrite map_size_singleton. }
  cbn [fst win_map]. revert j.
  intros j. unfold slot. cbn. destruct (Z.ltb_spec j n).
  - apply lookup_singleton_ne. lia.
  - destruct (decide (j = n)) as [-> |].
    + by rewrite lookup_singleton_eq, Z.sub_diag.
    + rewrite lookup_singleton_ne by done. rewrite lookup_ge_None_2; [done|]. cbn. lia.
Qed.

(** The entries after [resize], padded up to the new number. *)
Lemma entries_padded q n k :
  k = Z.to_nat (n - first_packet_ q - lenZ (entries_ q)) →
  (if lenZ (entries_ q) <? n - first_packet_ q
   then entries_resize default_data max_slots (entries_ q) (n - first_packet_ q)
   else Ret (entries_ q))
  = (if (lenZ (entries_ q) <? n - first_packet_ q)
        && (max_slots <? n - first_packet_ q)
     then Abort "std::bad_alloc"
     else Ret (entries_ q ++ replicate k (absent_entry default_data))).
Proof.
  intros ->. destruct (Z.ltb_spec (lenZ (entries_ q)) (n - first_packet_ q)) as [Hlt|Hge].
  - unfold entries_resize, slots_fit. cbn [andb].
    by destruct (Z.leb_spec (n - first_packet_ q) max_slots),
      (Z.ltb_spec max_slots (n - first_packet_ q)); try lia.
  - replace (Z.to_nat _) with 0%nat by lia. cbn. by rewrite app_nil_r.
Qed.

(** A greater number makes the window longer at its end. *)
Lemma window_slots_insert q m last n x :
  queue_ok q (MkWindow m last) → m ≠ ∅ → last < n →
  window_slots (MkWindow (<[n := x]> m) n) = n - first_packet_ q + 1.
Proof.
  intros Hq Hne Hn. pose proof Hq as (_ & Hm & _ & He). cbn [win_map win_last] in *.
  unfold window_slots. rewrite decide_False by apply insert_non_empty.
  destruct (entries_ q) as [|e l] eqn:Hl; [by apply (queue_ok_empty q _ Hq) in Hl|].
  destruct He as (Hp & _ & Hlq & _). rewrite lenZ_cons in Hlq.
  pose proof (lenZ_nonneg l).
  rewrite (smallest_spec _ (first_packet_ q)); [done| |].
  - rewrite lookup_insert_ne, Hm, (slot_first _ _ _ Hl) by lia.
    unfold contents. rewrite Hp. by eexists.
  - intros k [y Hk]. destruct (decide (k = n)) as [-> |]; [lia|].
    rewrite lookup_insert_ne, Hm in Hk by done. unfold slot in Hk.
    destruct (Z.ltb_spec k (first_packet_ q)); [done|lia].
Qed.

(** A queue to which an entry was appended. *)
Lemma appended_ok q m last n x k :
  queue_ok q (MkWindow m last) → m ≠ ∅ → last < n < max int64_t →
  Z.of_nat k = n - first_packet_ q - lenZ (entries_ q) →
  lenZ (entries_ q) + Z.of_nat k + 1 ≤ max_slots →
  queue_ok (MkPacketQueue
      (entries_ q ++ replicate k (absent_entry default_data) ++ [MkEntryWrapper x true])
      (to_size_t (number_of_present_entries_ q + 1)) (first_packet_ q))
    (MkWindow (<[n := x]> m) n).
Proof.
  intros Hq Hne Hn Hk Hs. pose proof (size_bound q _ Hq) as Hsz.
  pose proof Hq as (Hnum & Hm & Hmax & He). cbn [win_map win_last] in *.
  destruct (entries_ q) as [|e l] eqn:Hl; [by apply (queue_ok_empty q _ Hq) in Hl|].
  rewrite <- Hl in *. destruct He as (Hp & Hf & Hlq & Hlm).
  pose proof (lenZ_nonneg (entries_ q)) as Hpos.
  split_and!.
  - cbn [number_of_present_entries_ win_map]. rewrite map_size_insert_None.
    2: { pose proof (Hm n) as Hmn. unfold slot in Hmn.
         destruct (Z.ltb_spec n (first_packet_ q)); [done|].
         rewrite lookup_ge_None_2 in Hmn; [done|]. unfold lenZ in *. lia. }
    rewrite Hnum. unfold to_size_t. change (max int64_t) with (2 ^ 63 - 1) in *.
    unfold u64_modulus. rewrite Z.mod_small by lia. lia.
  - apply (slot_padded q (MkWindow m last)); [done|lia].
  - cbn [entries_]. rewrite !lenZ_app. unfold lenZ in *.
    rewrite length_replicate. cbn. lia.
  - cbn [entries_ first_packet_ win_last]. rewrite Hl. cbn [app].
    split_and!; [done|done| |lia]. rewrite app_comm_cons, <- Hl, !lenZ_app.
    unfold lenZ at 2 3. rewrite length_replicate. cbn. lia.
Qed.

Lemma Emplace_ok q w n x :
  queue_ok q w → 0 ≤ n < max int64_t →
  within (window_slots (window_step (QEmplace n x) w).1)
    (Emplace default_data max_slots n x q) (λ '(b, q'),
    answers (QEmplace n x) w (ABool b) q').
Proof.
  intros Hq Hn. destruct (decide (win_map w = ∅)) as [Hw|Hw]; [by apply Emplace_empty_ok|].
  pose proof (window_slots_bound q w Hq) as Hbound.
  unfold Emplace. rewrite (IsEmpty_ok q w Hq), bool_decide_eq_false_2 by done.
  rewrite (last_packet_ok q w Hq), decide_False by done.
  pose proof Hq as (_ & _ & Hmax & He).
  unfold answers. destruct w as [m last]. cbn [window_step win_map win_last] in *.
  rewrite decide_False by done.
  destruct (Z.leb_spec n last) as [|Hlast]; [by apply within_wp|].
  cbn [fst]. rewrite (window_slots_insert q m last n x Hq Hw Hlast).
  destruct (entries_ q) as [|e l] eqn:Hl; [by apply (queue_ok_empty q _ Hq) in Hl|].
  rewrite <- Hl in *. destruct He as (_ & Hf & Hlq & Hlm).
  pose proof (lenZ_nonneg (entries_ q)) as Hpos.
  rewrite i64_ret_ok by (unfold has_type; change (lowest int64_t) with (- 2 ^ 63); lia).
  cbn [mbind outcome_bind]. rewrite (proj2 (wrap_small (lenZ (entries_ q)) ltac:(lia))).
  set (k := Z.to_nat (n - first_packet_ q - lenZ (entries_ q))).
  assert (Z.of_nat k = n - first_packet_ q - lenZ (entries_ q)) as Hk by lia.
  rewrite (entries_padded q n k) by done. unfold within.
  destruct (Z.leb_spec (n - first_packet_ q + 1) max_slots) as [Hs|Hs].
  - rewrite (proj2 (Z.ltb_ge max_slots _)), andb_false_r by lia.
    cbn [mbind outcome_bind]. unfold entries_emplace_back, slots_fit.
    rewrite lenZ_app, <- app_assoc. unfold lenZ at 2. rewrite length_replicate.
    rewrite (proj2 (Z.leb_le _ _)) by lia. cbn [RTC_CHECK mbind outcome_bind].
    pose proof (appended_ok q m last n x k Hq Hw ltac:(lia) Hk ltac:(lia)) as Hq'.
    rewrite (last_packet_ok _ _ Hq'), decide_False by apply insert_non_empty.
    rewrite RTC_DCHECK_OP_ok; [done|..|cbn; lia];
      unfold has_type; change (lowest int64_t) with (- 2 ^ 63); cbn [win_last]; lia.
  - case_match; [done|]. cbn [mbind outcome_bind].
    unfold entries_emplace_back, slots_fit.
    rewrite lenZ_app. unfold lenZ at 2. rewrite length_replicate.
    by rewrite (proj2 (Z.leb_gt _ _)) by lia.
Qed.

(** *** Removal *)

Lemma pop_absent_ok l first :
  0 ≤ first → first + lenZ l ≤ max int64_t →
  ∃ l1 l2, l = l1 ++ l2 ∧ pop_absent l first = Ret (l2, first + lenZ l1)
    ∧ (∀ e, e ∈ l1 → present e = false)
    ∧ match l2 with [] => True | e :: _ => present e = true end.
Proof.
  revert first. induction l as [|e l IH]; intros first Hf Hmax.
  { exists [], []. cbn. rewrite Z.add_0_r. split_and!; try done. by intros e ?%elem_of_nil. }
  cbn [pop_absent]. rewrite lenZ_cons in Hmax. pose proof (lenZ_nonneg l).
  destruct (present e) eqn:Hp.
  - exists [], (e :: l). rewrite lenZ_nil, Z.add_0_r. split_and!; try done.
    by intros e' ?%elem_of_nil.
  - rewrite i64_ret_ok by (unfold has_type; change (lowest int64_t) with (- 2 ^ 63); lia).
    cbn [mbind outcome_bind].
    destruct (IH (first + 1)) as (l1 & l2 & -> & -> & Hl1 & Hl2); [lia|lia|].
    exists (e :: l1), l2. rewrite lenZ_cons. split_and!; [done|do 2 f_equal; lia| |done].
    intros e' [-> |He']%elem_of_cons; auto.
Qed.

Lemma slot_pop l1 l2 number number' first n :
  (∀ e, e ∈ l1 → present e = false) →
  slot (MkPacketQueue (l1 ++ l2) number first) n
    = slot (MkPacketQueue l2 number' (first + lenZ l1)) n.
Proof.
  intros Hl1. unfold slot, lenZ. cbn [entries_ first_packet_].
  destruct (Z.ltb_spec n first) as [Hn|Hn].
  { by rewrite (proj2 (Z.ltb_lt _ _)) by lia. }
  destruct (Z.ltb_spec n (first + Z.of_nat (length l1))) as [Hl|Hl].
  - rewrite lookup_app_l by lia.
    destruct (lookup_lt_is_Some_2 l1 (Z.to_nat (n - first))) as [e He]; [lia|].
    rewrite He. cbn. unfold contents. by rewrite (Hl1 e) by by eapply list_elem_of_lookup_2.
  - rewrite lookup_app_r by lia. do 2 f_equal. lia.
Qed.

(** The slot of a removed entry. *)
Lemma slot_cleared q number n e :
  first_packet_ q ≤ n → entries_ q !! Z.to_nat (n - first_packet_ q) = Some e →
  ∀ j, slot (MkPacketQueue (alter (λ e, MkEntryWrapper (data e) false)
               (Z.to_nat (n - first_packet_ q)) (entries_ q)) number (first_packet_ q)) j
       = if decide (j = n) then None else slot q j.
Proof.
  intros Hn He j. unfold slot. cbn [entries_ first_packet_].
  destruct (Z.ltb_spec j (first_packet_ q)); [by case_decide|].
  case_decide as Hj.
  - subst j. by rewrite list_lookup_alter_eq, He.
  - rewrite list_lookup_alter_ne; [done|lia].
Qed.

(** The count after a removal does not wrap around. *)
Lemma removed_number m n number :
  is_Some (m !! n) → number = Z.of_nat (base.size m) → number ≤ max int64_t →
  to_size_t (number - 1) = Z.of_nat (base.size (delete n m)).
Proof.
  intros Hmn -> Hmax. rewrite (map_size_delete_Some n m Hmn).
  assert (base.size m ≠ 0%nat) as Hne.
  { rewrite map_size_ne_0_lookup. by exists n. }
  change (max int64_t) with (2 ^ 63 - 1) in *. unfold to_size_t, u64_modulus.
  rewrite Z.mod_small; lia.
Qed.

(** Cleaning up after the first entry was removed. *)
Lemma Cleanup_ok q m last :
  0 ≤ first_packet_ q → first_packet_ q + lenZ (entries_ q) - 1 = last →
  last < max int64_t → lenZ (entries_ q) ≤ max_slots →
  number_of_present_entries_ q = Z.of_nat (base.size m) →
  (∀ j, m !! j = slot q j) →
  wp (Cleanup q) (λ q', queue_ok q' (MkWindow m last)).
Proof.
  intros Hf Hlast Hmax Hslots Hnum Hm. unfold Cleanup.
  destruct (pop_absent_ok (entries_ q) (first_packet_ q))
    as (l1 & l2 & Hl & -> & Hl1 & Hl2); [done|lia|].
  cbn [mbind outcome_bind wp fst snd].
  assert (∀ number j, m !! j
    = slot (MkPacketQueue l2 number (first_packet_ q + lenZ l1)) j) as Hm'.
  { intros number j. rewrite Hm. destruct q as [l num first]. cbn in *.
    subst l. by apply slot_pop. }
  rewrite Hl, lenZ_app in *. pose proof (lenZ_nonneg l1).
  destruct l2 as [|e2 l2]; cbn [lenZ length].
  - rewrite lenZ_nil in *.
    split_and!; [done| |cbn [entries_]; rewrite lenZ_nil; lia|done].
    intros j. cbn [win_map]. rewrite (Hm' 0). by rewrite !slot_empty.
  - rewrite (proj2 (Z.eqb_neq _ _))
      by (rewrite lenZ_cons; pose proof (lenZ_nonneg l2); lia).
    pose proof (lenZ_nonneg (e2 :: l2)).
    split_and!; [done| |cbn [entries_]; lia|].
    + intros j. by apply Hm'.
    + cbn [entries_ first_packet_ win_last]. split_and!; [done|lia|lia|done].
Qed.

Lemma packet_Remove_ok q w n :
  queue_ok q w → 0 ≤ n < max int64_t →
  wp (packet_queue_Remove n q) (λ '(b, q'), answers (QRemove n) w (ABool b) q').
Proof.
  intros Hq Hn. destruct (GetEntryWrapper_ok q w n Hq) as [Hget Hin]; [lia|].
  pose proof Hq as (Hnum & Hm & Hmax & He). pose proof (size_bound q w Hq) as Hsz.
  unfold packet_queue_Remove, answers. rewrite Hget. destruct w as [m last].
  cbn [window_step win_map win_last mbind outcome_bind] in *.
  destruct (m !! n) as [x|] eqn:Hmn; [|done].
  destruct (Hin ltac:(by eexists)) as (Hge & e & Hen & _ & Hp). clear Hin.
  destruct (entries_ q) as [|e0 l0] eqn:Hl; [done|]. rewrite <- Hl in *.
  destruct He as (Hp0 & Hf & Hlq & Hlm).
  set (number := to_size_t (number_of_present_entries_ q - 1)).
  set (l' := alter _ _ _).
  assert (lenZ l' = lenZ (entries_ q)) as Hlen by (unfold l', lenZ; by rewrite length_alter).
  assert (∀ j, delete n m !! j = slot (MkPacketQueue l' number (first_packet_ q)) j)
    as Hdel.
  { intros j. unfold l'. rewrite (slot_cleared q number n e Hge Hen).
    case_decide as Hj; [subst j; apply lookup_delete_eq|].
    by rewrite lookup_delete_ne. }
  assert (number = Z.of_nat (base.size (delete n m))) as Hsize
    by (apply removed_number; [by rewrite Hmn|done|lia]).
  unfold first_packet. cbn [first_packet_].
  destruct (Z.eqb_spec n (first_packet_ q)) as [Hfirst|Hfirst].
  - apply wp_bind. eapply wp_mono; [|apply (Cleanup_ok _ (delete n m) last);
      cbn [entries_ first_packet_ number_of_present_entries_]; done || lia].
    intros q' Hq'. by split.
  - cbn [wp fst snd]. split; [done|]. split_and!; [done|done|cbn [entries_]; lia|].
    cbn [entries_]. unfold l'. rewrite Hl.
    destruct (Z.to_nat (n - first_packet_ q)) as [|i] eqn:Hi; [lia|]. cbn.
    split_and!; [done|done| |done]. rewrite Hlq, Hl. unfold lenZ. cbn.
    by rewrite length_alter.
Qed.

Lemma GetEntry_ok q w n :
  queue_ok q w → 0 ≤ n < max int64_t → GetEntry n q = Ret (win_map w !! n).
Proof.
  intros Hq Hn. destruct (GetEntryWrapper_ok q w n Hq) as [Hget Hin]; [lia|].
  unfold GetEntry. rewrite Hget. cbn. destruct (win_map w !! n) as [x|]; [|done].
  destruct (Hin ltac:(by eexists)) as (_ & e & He & Hx & _). cbn. by rewrite He, Hx.
Qed.

Lemma queue_step_ok op q w :
  queue_ok q w → packet_number_ok op →
  within (window_slots (window_step op w).1) (queue_step default_data max_slots op q)
    (λ '(q', a), answers op w a q').
Proof.
  intros Hq Hn. pose proof (window_slots_bound q w Hq) as Hbound.
  destruct op as [n x|n|n| | | |]; cbn [queue_step].
  - eapply within_bind; [by apply Emplace_ok|]. by intros [b q'].
  - assert (wp (packet_queue_Remove n q)
      (λ '(b, q'), answers (QRemove n) w (ABool b) q')) as Hr by by apply packet_Remove_ok.
    apply wp_exists in Hr as ([b q'] & Heq & Ha).
    apply within_wp; [apply (window_slots_bound q'), Ha|]. by rewrite Heq.
  - rewrite (GetEntry_ok q w n Hq Hn). apply within_wp; by destruct w.
  - apply within_wp; [by destruct w|].
    cbn. unfold answers. rewrite (first_packet_ok q w Hq). by destruct w.
  - apply within_wp; [by destruct w|].
    cbn. unfold answers. rewrite (last_packet_ok q w Hq). by destruct w.
  - apply within_wp; [by destruct w|].
    cbn. unfold answers, number_of_present_entries. rewrite (proj1 Hq). by destruct w.
  - apply within_wp; [by destruct w|].
    cbn. unfold answers. rewrite <- (window_slots_ok q w Hq). by destruct w.
Qed.

(** C36: A queue of packet numbers is a window on a map from numbers to
    entries.  Whatever is done to a new queue with numbers from zero to below
    the greatest [int64_t], no check fails, nothing overflows and no slot is
    read out of range.  When there is memory for the slots from the lowest to
    the last number at every moment, every operation returns, and every answer
    is the one of a map to which only numbers above the last one are added: an
    entry is found exactly while it is present, the first packet is the lowest
    number present, the counter is the number of entries, and the slots in use
    are those from the first to the last number.  When there is not, the deque
    throws [std::bad_alloc], the only way an operation can fail. *)
Theorem packet_queue_refines ops :
  Forall packet_number_ok ops → 0 ≤ max_slots →
  snd <$> queue_run default_data max_slots ops PacketQueue_new
  = if window_fits max_slots ops (MkWindow ∅ 0)
    then Ret (window_run ops (MkWindow ∅ 0)) else Abort "std::bad_alloc".
Proof.
  intros Hops Hpos.
  assert (∀ q w, queue_ok q w →
    snd <$> queue_run default_data max_slots ops q
    = if window_fits max_slots ops w
      then Ret (window_run ops w) else Abort "std::bad_alloc") as Hrun.
  { induction Hops as [|op ops Hop _ IH]; intros q w Hq; [done|].
    cbn [queue_run window_run window_fits].
    pose proof (queue_step_ok op q w Hq Hop) as Hstep. unfold within in Hstep.
    destruct (window_slots _ <=? max_slots); [|by rewrite Hstep].
    apply wp_exists in Hstep as ([q' a] & -> & -> & Hq').
    cbn [mbind outcome_bind andb]. specialize (IH q' _ Hq').
    destruct (window_step op w) as [w' a']. cbn [fst snd] in *.
    destruct (queue_run _ _ ops q') as [[q'' l]| | |], (window_fits _ ops w');
      cbn in *; congruence. }
  apply Hrun. split_and!; [done| |done|done]. intros n. by rewrite slot_empty.
Qed.
End packet_queue_lemmas.

(** ** Examples *)

#[local] Existing Instance DebugBuild.

Definition packet_ops : list (queue_op Z) :=
  [QEmplace 5 50; QEmplace 8 80; QEmplace 7 70; QSlots; QRemove 5; QFirst; QCount;
   QGet 6; QGet 8; QEmplace 9 90; QRemove 9; QLast; QRemove 8; QLast; QEmplace 3 30;
   QGet 3].

Lemma packet_queue_refines_witness :
  snd <$> queue_run 0 1000 packet_ops PacketQueue_new
  = if window_fits 1000 packet_ops (MkWindow ∅ 0)
    then Ret (window_run packet_ops (MkWindow ∅ 0)) else Abort "std::bad_alloc".
Proof.
  apply (packet_queue_refines 0 1000).
  - change (max int64_t) with (2 ^ 63 - 1). lia.
  - unfold packet_number_ok. change (max int64_t) with (2 ^ 63 - 1).
    repeat constructor; cbn; lia.
  - lia.
Defined.

Example packet_run :
  (snd <$> queue_run 0 1000 packet_ops PacketQueue_new)
  = Ret [ABool true; ABool true; ABool false; ANumber 4; ABool true; ANumber 8;
         ANumber 1; AEntry None; AEntry (Some 80); ABool true; ABool true; ANumber 9;
         ABool true; ANumber 0; ABool true; AEntry (Some 30)].
Proof. vm_compute. reflexivity. Qed.

(** Numbers far apart need a slot for every number between them. *)
Example packet_memory_runs_out :
  queue_run 0 1000 [QEmplace 5 50; QEmplace 1005 60] PacketQueue_new
  = Abort "std::bad_alloc".
Proof. vm_compute. reflexivity. Qed.

(** The numbers that are left out: removing the greatest [int64_t] moves the
    first packet past it, and a negative first packet makes the difference to a
    great number overflow. *)
Example greatest_number_overflows :
  queue_run 0 1000 [QEmplace (2 ^ 63 - 1) 1; QRemove (2 ^ 63 - 1)] PacketQueue_new
  = Undef SignedOverflow.
Proof. vm_compute. reflexivity. Qed.
Example negative_number_overflows :
  queue_run 0 1000 [QEmplace (-2) 1; QGet (2 ^ 63 - 1)] PacketQueue_new
  = Undef SignedOverflow.
Proof. vm_compute. reflexivity. Qed.
