(* ===== verification/Float32.v ===== *)
(** Rounding in binary32: what the headers need about the product of a fraction
    and a count. *)

From Stdlib Require Import SpecFloat.
From S2P Require Import Prelude.
From S2P Require Import AudioFrame.
From S2P Require Import AudioSource.

(** ** Conversions *)

(** An unsigned integer that becomes a [float]: rounded to nearest. *)
Definition f32_of_size (n : Z) : f32 := binary_normalize 24 128 n 0 false.

(** The product of floats. *)
Definition f32_mul (x y : f32) : f32 := SFmul 24 128 x y.

(** [static_cast<int64_t>] of a float drops the fraction; it is undefined if the
    result does not fit. *)
Definition int64_of_f32 (v : f32) : outcome Z :=
  match v with
  | S754_zero _ => Ret 0
  | S754_finite s m e =>
      let z := cond_Zopp s (Z.shiftl (Z.pos m) e) in
      if (- 2 ^ 63 <=? z) && (z <? 2 ^ 63) then Ret z else Undef OutOfBounds
  | _ => Undef OutOfBounds
  end.

(** ** Shifts *)

Lemma iter_pos_nat {A} (f : A → A) (p : positive) (x : A) :
  SpecFloat.iter_pos f p x = Nat.iter (Pos.to_nat p) f x.
Proof.
  revert x. induction p as [p IH|p IH|]; intros x; cbn [SpecFloat.iter_pos].
  - rewrite !IH, Pos2Nat.inj_xI, <- Nat.iter_succ_r, <- Nat.iter_add. f_equal. lia.
  - rewrite !IH, Pos2Nat.inj_xO, <- Nat.iter_add. f_equal. lia.
  - done.
Qed.

(** The record after [i] shifts of [m]. *)
Definition shifted (m : Z) (i : nat) (x : shr_record) : Prop :=
  shr_m x = m / 2 ^ Z.of_nat i
  ∧ (shr_r x || shr_s x = false ↔ m mod 2 ^ Z.of_nat i = 0).

Lemma shifted_step m i x : 0 ≤ m → shifted m i x → shifted m (S i) (shr_1 x).
Proof.
  intros Hm [Hx Hs]. assert (0 < 2 ^ Z.of_nat i) as Hp by (apply Z.pow_pos_nonneg; lia).
  assert (0 ≤ shr_m x) by (rewrite Hx; apply Z.div_pos; lia).
  assert (m / 2 ^ Z.of_nat (S i) = shr_m x / 2) as Hdiv.
  { rewrite Nat2Z.inj_succ, Z.pow_succ_r, Z.mul_comm, <- Z.div_div by lia.
    by rewrite Hx. }
  assert (m mod 2 ^ Z.of_nat (S i) = m mod 2 ^ Z.of_nat i
    + 2 ^ Z.of_nat i * (shr_m x mod 2)) as Hmod.
  { rewrite Nat2Z.inj_succ, Z.pow_succ_r, (Z.mul_comm 2), Z.rem_mul_r by lia.
    by rewrite Hx. }
  pose proof (Z.mod_pos_bound m (2 ^ Z.of_nat i) Hp).
  unfold shifted. rewrite Hdiv, Hmod. clear Hdiv Hmod Hx.
  destruct x as [[|[p|p|]|p] r s]; cbn in *; try lia.
  - rewrite Z.mul_0_r, Z.add_0_r. done.
  - replace (Z.pos p~1 mod 2) with 1 by (rewrite Pos2Z.inj_xI; dlia).
    replace (Z.pos p~1 / 2) with (Z.pos p) by (rewrite Pos2Z.inj_xI; dlia).
    split; [done|]. split; [done|lia].
  - replace (Z.pos p~0 mod 2) with 0 by (rewrite Pos2Z.inj_xO; dlia).
    replace (Z.pos p~0 / 2) with (Z.pos p) by (rewrite Pos2Z.inj_xO; dlia).
    split; [done|]. rewrite Z.mul_0_r, Z.add_0_r. done.
  - split; [done|]. split; [done|]. change (1 mod 2) with 1. lia.
Qed.

Lemma shr_shifted m k :
  0 ≤ m → 0 < k →
  let x := SpecFloat.iter_pos shr_1 (Z.to_pos k) (Build_shr_record m false false) in
  shr_m x = m / 2 ^ k ∧ (loc_of_shr_record x = loc_Exact ↔ m mod 2 ^ k = 0).
Proof.
  intros Hm Hk x. unfold x. rewrite iter_pos_nat.
  assert (∀ i, shifted m i (Nat.iter i shr_1 (Build_shr_record m false false))) as Hi.
  { intros i. induction i as [|i IH].
    - split; cbn; [by rewrite Z.div_1_r|]. rewrite Z.mod_1_r. done.
    - rewrite Nat.iter_succ. by apply shifted_step. }
  destruct (Hi (Pos.to_nat (Z.to_pos k))) as [H1 H2].
  rewrite positive_nat_Z, Z2Pos.id in H1, H2 by lia.
  split; [done|]. rewrite <- H2. by destruct (Nat.iter _ _ _) as [m' [] []].
Qed.

(** ** Rounding *)

Lemma Zdigits2_bounds m : 0 < m → 2 ^ (Zdigits2 m - 1) ≤ m < 2 ^ Zdigits2 m.
Proof. destruct m as [|m|m]; [lia| |lia]. intros _. apply digits2_pos_bounds. Qed.

Lemma Zdigits2_unique m d : 0 < m → 2 ^ (d - 1) ≤ m < 2 ^ d → Zdigits2 m = d.
Proof.
  intros Hm [Hlo Hhi]. destruct (Zdigits2_bounds m Hm) as [Hlo' Hhi'].
  assert (0 ≤ d) by (destruct (Z.lt_ge_cases d 0); [rewrite Z.pow_neg_r in Hhi|]; lia).
  assert (Zdigits2 m - 1 < d) by (apply (Z.pow_lt_mono_r_iff 2); [lia|lia|lia]).
  assert (0 < Zdigits2 m) by (destruct m; cbn; lia).
  assert (d - 1 < Zdigits2 m) by (apply (Z.pow_lt_mono_r_iff 2); [lia|lia|lia]).
  lia.
Qed.

(** Shifting right to the precision of the format keeps the floor. *)
Lemma shr_fexp_floor m e :
  0 ≤ m →
  let '(x, e') := shr_fexp 24 128 m e loc_Exact in
  let k := Z.max 0 (fexp 24 128 (Zdigits2 m + e) - e) in
  e' = e + k ∧ shr_m x = m / 2 ^ k
  ∧ (loc_of_shr_record x = loc_Exact ↔ m mod 2 ^ k = 0).
Proof.
  intros Hm. unfold shr_fexp, shr, shr_record_of_loc.
  set (k := fexp _ _ _ - e). destruct k as [|p|p] eqn:Hk.
  - cbn. rewrite Z.div_1_r, Z.mod_1_r. split_and!; [lia|done|done].
  - rewrite Z.max_r by lia.
    destruct (shr_shifted m (Z.pos p) Hm ltac:(lia)) as [H1 H2]. done.
  - rewrite Z.max_l by lia. cbn. rewrite Z.div_1_r, Z.mod_1_r. split_and!; [lia|done|done].
Qed.

(** The exponents of values below 2^24 are not positive. *)
Lemma small_exponent m e n :
  0 ≤ m → e ≤ 0 → n < 2 ^ 24 → m ≤ n * 2 ^ (- e) →
  fexp 24 128 (Zdigits2 m + e) ≤ 0.
Proof.
  intros Hm He Hn Hle. unfold fexp, SpecFloat.emin.
  assert (Zdigits2 m + e ≤ 24); [|lia].
  destruct (Z.eq_dec m 0) as [->|]; [cbn; lia|].
  destruct (Zdigits2_bounds m ltac:(lia)) as [Hlo _].
  assert (2 ^ (Zdigits2 m - 1) < 2 ^ (24 - e)) as Hlt.
  { replace (24 - e) with (24 + - e) by lia. rewrite Z.pow_add_r by lia.
    assert (0 < 2 ^ (- e)) by (apply Z.pow_pos_nonneg; lia). nia. }
  apply Z.pow_lt_mono_r_iff in Hlt; lia.
Qed.

(** A bound that is a count survives the shift, and rounding up after it. *)
Lemma shifted_bound m e n k :
  0 ≤ m → 0 ≤ k → e + k ≤ 0 → m ≤ n * 2 ^ (- e) →
  m / 2 ^ k ≤ n * 2 ^ (- (e + k))
  ∧ (m mod 2 ^ k ≠ 0 → m / 2 ^ k + 1 ≤ n * 2 ^ (- (e + k))).
Proof.
  intros Hm Hk Hek Hle. replace (- e) with (- (e + k) + k) in Hle by lia.
  rewrite Z.pow_add_r, Z.mul_assoc in Hle by lia.
  assert (0 < 2 ^ k) as Hp by (apply Z.pow_pos_nonneg; lia).
  set (N := n * 2 ^ (- (e + k))) in *.
  pose proof (Z.mod_pos_bound m (2 ^ k) Hp). pose proof (Z.div_mod m (2 ^ k)).
  split; [|intros Hr]; nia.
Qed.

(** Rounding to nearest does not exceed a count that bounds the exact value. *)
Lemma round_bound m e n :
  0 < m → e ≤ 0 → n < 2 ^ 24 → m ≤ n * 2 ^ (- e) →
  ∃ z, int64_of_f32 (binary_round_aux 24 128 false m e loc_Exact) = Ret z
    ∧ 0 ≤ z ≤ n.
Proof.
  intros Hm He Hn Hle. unfold binary_round_aux.
  pose proof (small_exponent m e n ltac:(lia) He Hn Hle) as Hf1.
  pose proof (shr_fexp_floor m e ltac:(lia)) as H1.
  destruct (shr_fexp 24 128 m e loc_Exact) as [x e1].
  set (k1 := Z.max 0 _) in H1. destruct H1 as (-> & Hx & Hloc).
  assert (e + k1 ≤ 0) as He1 by lia.
  destruct (shifted_bound m e n k1 ltac:(lia) ltac:(lia) He1 Hle) as [Hb1 Hb2].
  set (m1 := round_nearest_even _ _).
  assert (0 ≤ m1 ≤ n * 2 ^ (- (e + k1))) as [Hm1 Hle1].
  { assert (0 ≤ m / 2 ^ k1) by (apply Z.div_pos; [lia|apply Z.pow_pos_nonneg; lia]).
    unfold m1, round_nearest_even. rewrite Hx.
    destruct (loc_of_shr_record x) as [|[]] eqn:Hl; try (split; lia).
    - destruct (Z.even _); [split; lia|].
      assert (m mod 2 ^ k1 ≠ 0) by (intros Hz; apply Hloc in Hz; done). split; lia.
    - assert (m mod 2 ^ k1 ≠ 0) by (intros Hz; apply Hloc in Hz; done). split; lia. }
  pose proof (small_exponent m1 (e + k1) n Hm1 He1 Hn Hle1) as Hf2.
  pose proof (shr_fexp_floor m1 (e + k1) Hm1) as H2.
  destruct (shr_fexp 24 128 m1 (e + k1) loc_Exact) as [x2 e2].
  set (k2 := Z.max 0 _) in H2. destruct H2 as (-> & Hx2 & _).
  assert (e + k1 + k2 ≤ 0) as He2 by lia.
  destruct (shifted_bound m1 (e + k1) n k2 Hm1 ltac:(lia) He2 Hle1) as [Hb3 _].
  rewrite Hx2. assert (0 ≤ m1 / 2 ^ k2) by (apply Z.div_pos; [lia|apply Z.pow_pos_nonneg; lia]).
  assert (0 < 2 ^ (- (e + k1 + k2))) by (apply Z.pow_pos_nonneg; lia).
  destruct (m1 / 2 ^ k2) as [|m2|m2] eqn:Hm2; [|rewrite (proj2 (Z.leb_le _ _)) by lia|lia].
  - exists 0. split; [done|nia].
  - cbn [int64_of_f32 cond_Zopp]. set (p := e + k1 + k2) in *.
    assert (0 ≤ Z.shiftl (Z.pos m2) p ≤ n) as Hz.
    { replace p with (- - p) by lia. rewrite Z.shiftl_opp_r.
      rewrite Z.shiftr_div_pow2 by lia. split; [apply Z.div_pos; lia|].
      apply Z.div_le_upper_bound; [lia|]. lia. }
    rewrite (proj2 (Z.leb_le _ _)), (proj2 (Z.ltb_lt _ _)) by lia.
    eexists. split; [done|lia].
Qed.

(** No bit is lost if only zeros are shifted out. *)
Lemma round_exact m e k :
  0 < m → k = Z.max 0 (fexp 24 128 (Zdigits2 m + e) - e) → m mod 2 ^ k = 0 →
  0 < m / 2 ^ k → fexp 24 128 (Zdigits2 (m / 2 ^ k) + (e + k)) ≤ e + k → e + k ≤ 104 →
  binary_round_aux 24 128 false m e loc_Exact
    = S754_finite false (Z.to_pos (m / 2 ^ k)) (e + k).
Proof.
  intros Hm Hk Hmod Hpos Hf He. unfold binary_round_aux.
  pose proof (shr_fexp_floor m e ltac:(lia)) as H1.
  destruct (shr_fexp 24 128 m e loc_Exact) as [x e1]. rewrite <- Hk in H1.
  destruct H1 as (-> & Hx & Hloc). rewrite (proj2 Hloc Hmod), Hx. cbn [round_nearest_even].
  pose proof (shr_fexp_floor (m / 2 ^ k) (e + k) ltac:(lia)) as H2.
  destruct (shr_fexp 24 128 (m / 2 ^ k) (e + k) loc_Exact) as [x2 e2].
  cbv zeta in H2. rewrite Z.max_l, Z.pow_0_r, Z.div_1_r, Z.add_0_r in H2 by lia.
  destruct H2 as (-> & -> & _).
  destruct (m / 2 ^ k) as [|p|p] eqn:Hp; [lia| |lia].
  by rewrite (proj2 (Z.leb_le _ _)) by lia.
Qed.

Lemma shl_align_pos m d : Z.pos (Pos.iter xO m d) = Z.pos m * 2 ^ Z.pos d.
Proof.
  induction d as [|d IH] using Pos.peano_ind; [cbn; lia|].
  rewrite Pos.iter_succ, Pos2Z.inj_xO, IH, Pos2Z.inj_succ, Z.pow_succ_r by lia. lia.
Qed.

Lemma digits_range n : 0 < n < 2 ^ 24 → 0 < Zdigits2 n ≤ 24.
Proof.
  intros Hn. destruct (Zdigits2_bounds n ltac:(lia)) as [Hlo _].
  assert (2 ^ (Zdigits2 n - 1) < 2 ^ 24) as Hlt by lia.
  apply Z.pow_lt_mono_r_iff in Hlt; [|lia..]. split; [destruct n; cbn; lia|lia].
Qed.

(** Counts below 2^24 are converted exactly. *)
Lemma f32_of_size_exact n :
  0 < n < 2 ^ 24 →
  let e := Zdigits2 n - 24 in
  f32_of_size n = S754_finite false (Z.to_pos (n * 2 ^ (- e))) e
  ∧ Zdigits2 (n * 2 ^ (- e)) = 24.
Proof.
  intros Hn e. pose proof (digits_range n Hn) as Hd.
  destruct (Zdigits2_bounds n ltac:(lia)) as [Hlo Hhi].
  assert (0 < 2 ^ (- e)) as Hp by (apply Z.pow_pos_nonneg; lia).
  assert (Zdigits2 (n * 2 ^ (- e)) = 24) as H24.
  { apply Zdigits2_unique; [nia|]. replace (24 - 1) with (Zdigits2 n - 1 + - e) by lia.
    replace (2 ^ 24) with (2 ^ (Zdigits2 n + - e)) by (f_equal; lia).
    rewrite !Z.pow_add_r by lia. nia. }
  split; [|done].
  assert (f32_of_size n = binary_round_aux 24 128 false (n * 2 ^ (- e)) e loc_Exact) as ->.
  { unfold f32_of_size, binary_normalize, binary_round. destruct n as [|p|p]; [lia| |lia].
    unfold shl_align. rewrite Z.sub_0_r, Z.add_0_r.
    change (Z.pos (digits2_pos p)) with (Zdigits2 (Z.pos p)).
    replace (fexp 24 128 (Zdigits2 (Z.pos p))) with e
      by (unfold fexp, SpecFloat.emin, e; lia).
    destruct e as [|d|d] eqn:He; [|lia|].
    - by rewrite Z.mul_1_r.
    - by rewrite shl_align_pos. }
  rewrite (round_exact _ e 0); rewrite ?Z.div_1_r, ?Z.add_0_r, ?Z.mod_1_r, ?H24;
    unfold fexp, SpecFloat.emin; try lia; try done; nia.
Qed.

(** ** The product of a fraction and a count *)

(** [0 ≤ p ≤ 1], as the comparisons of [float] decide it. *)
Definition f32_fraction (p : f32) : bool :=
  SFleb (S754_zero false) p && SFleb p f32_1.

Lemma compare_cont_le a b : Pos.compare_cont Eq a b ≠ Gt → Z.pos a ≤ Z.pos b.
Proof.
  change (Pos.compare_cont Eq a b) with (a ?= b)%positive.
  destruct (Pos.compare_spec a b); [lia|lia|done].
Qed.

Lemma fraction_finite s m e :
  valid_f32 (S754_finite s m e) = true → f32_fraction (S754_finite s m e) = true →
  s = false ∧ e ≤ 0 ∧ Z.pos m ≤ 2 ^ (- e).
Proof.
  intros Hv. unfold f32_fraction. rewrite andb_true_iff. intros [H0 H1].
  destruct s; [done|]. split; [done|]. destruct (valid_finite _ _ _ Hv) as (He & Hm & _).
  unfold f32_1, SFleb, SFcompare in H1. destruct (Z.compare_spec e (-23)) as [->|Hlt|Hgt].
  - split; [lia|]. change (2 ^ (- -23)) with 8388608. apply compare_cont_le.
    intros Hgt. by rewrite Hgt in H1.
  - split; [lia|]. assert (2 ^ 24 ≤ 2 ^ (- e)) by (apply Z.pow_le_mono_r; lia). lia.
  - done.
Qed.

(** The index of a fraction of [n]: between 0 and [n]. *)
Lemma fraction_of_size p n :
  valid_f32 p = true → f32_fraction p = true → 0 ≤ n < 2 ^ 24 →
  ∃ z, int64_of_f32 (f32_mul p (f32_of_size n)) = Ret z ∧ 0 ≤ z ≤ n.
Proof.
  intros Hv Hf Hn. destruct (Z.eq_dec n 0) as [->|Hn0].
  { exists 0. split; [|lia]. by destruct p as [[]|[]| |[] m e]. }
  destruct (f32_of_size_exact n ltac:(lia)) as [-> _].
  pose proof (digits_range n ltac:(lia)) as Hd. set (en := Zdigits2 n - 24) in *.
  destruct p as [s|s| |s m e]; [by exists 0; split; [|lia]|by destruct s|done|].
  destruct (fraction_finite _ _ _ Hv Hf) as (-> & He & Hm).
  unfold f32_mul, SFmul. assert (0 < 2 ^ (- en)) by (apply Z.pow_pos_nonneg; lia).
  rewrite Pos2Z.inj_mul, Z2Pos.id by nia. apply round_bound; [nia|lia|lia|].
  replace (- (e + en)) with (- e + - en) by lia. rewrite Z.pow_add_r by lia. nia.
Qed.

(** [0.5f] *)
Definition f32_half : f32 := S754_finite false 8388608 (-24).

(** Half of a count is exact, its integer part that of the division. *)
Lemma half_of_size n :
  0 ≤ n < 2 ^ 24 → int64_of_f32 (f32_mul f32_half (f32_of_size n)) = Ret (n / 2).
Proof.
  intros Hn. destruct (Z.eq_dec n 0) as [->|Hn0]; [done|].
  destruct (f32_of_size_exact n ltac:(lia)) as [-> H24].
  pose proof (digits_range n ltac:(lia)) as Hd. set (en := Zdigits2 n - 24) in *.
  assert (0 < 2 ^ (- en)) by (apply Z.pow_pos_nonneg; lia).
  set (mn := n * 2 ^ (- en)) in *. assert (0 < mn) as Hmn by nia.
  destruct (Zdigits2_bounds mn Hmn) as [Hlo Hhi]. rewrite H24 in Hlo, Hhi.
  unfold f32_mul, SFmul, f32_half. rewrite Pos2Z.inj_mul, Z2Pos.id by done.
  assert (8388608 * mn / 2 ^ 23 = mn) as Hdiv.
  { rewrite Z.mul_comm. by apply Z.div_mul. }
  assert (Zdigits2 (8388608 * mn) = 47) as H47.
  { apply Zdigits2_unique; [lia|]. split; lia. }
  rewrite (round_exact _ _ 23); rewrite ?Hdiv, ?H47, ?H24;
    unfold fexp, SpecFloat.emin; try lia.
  - cbn [int64_of_f32 cond_Zopp]. rewrite Z2Pos.id by done.
    replace (-24 + en + 23) with (- (1 + - en)) by lia.
    rewrite Z.shiftl_opp_r, Z.shiftr_div_pow2, Z.pow_add_r by lia.
    unfold mn. rewrite Z.div_mul_cancel_r by lia. change (2 ^ 1) with 2.
    rewrite (proj2 (Z.leb_le _ _)), (proj2 (Z.ltb_lt _ _)) by dlia. done.
  - rewrite Z.mul_comm. by apply Z.mod_mul.
Qed.
