(* ===== verification/PercentileFilter.v ===== *)
(** Percentiles of a changing set of observations
    (libs/webrtc/include/rtc_base/numerics/percentile_filter.h) and the median of
    a moving window (moving_median_filter.h), for integer observations.

    A [std::multiset] is the sequence of its nodes in their order.  A node keeps
    its identity while others come and go, so that an iterator, which is a node
    or the end, stays valid as the standard says. *)

From Stdlib Require Import SpecFloat.
From stdpp Require Import sorting.
From S2P Require Import Prelude.
From S2P Require Import AudioFrame.
From S2P Require Import AudioSource.
From S2P Require Import SafeNumerics.
From S2P Require Import Checks.
From S2P Require Import Float32.

(** ** std::multiset *)

Notation node := (nat * Z)%type (only parsing).

Record multiset : Type := MkMultiset { nodes : list node; next_node : nat }.

(** [None] is [end()]. *)
Notation iterator := (option nat) (only parsing).

Definition multiset_empty : multiset := MkMultiset [] 0.

(** The iterator of a position, and the position of an iterator. *)
Definition it_at (i : nat) (l : list node) : iterator := fst <$> l !! i.
Fixpoint node_index (id : nat) (l : list node) : option nat :=
  match l with
  | [] => None
  | x :: l => if decide (x.1 = id) then Some 0%nat else S <$> node_index id l
  end.
Definition it_index (it : iterator) (l : list node) : outcome nat :=
  match it with
  | None => Ret (length l)
  | Some id => match node_index id l with
               | Some i => Ret i | None => Undef DanglingPointer
               end
  end.

Definition set_begin (s : multiset) : iterator := it_at 0 (nodes s).

(** [*it] and [std::advance(it, n)] *)
Definition it_deref (it : iterator) (s : multiset) : outcome Z :=
  i ← it_index it (nodes s);
  match nodes s !! i with Some x => Ret x.2 | None => Undef OutOfBounds end.
Definition it_advance (it : iterator) (n : Z) (s : multiset) : outcome iterator :=
  i ← it_index it (nodes s);
  let j := Z.of_nat i + n in
  _ ← require ((0 <=? j) && (j <=? lenZ (nodes s))) OutOfBounds;
  Ret (it_at (Z.to_nat j) (nodes s)).

(** [insert(value)]: after the equal elements. *)
Fixpoint insert_upper (x : node) (l : list node) : list node :=
  match l with
  | [] => [x]
  | y :: l => if x.2 <? y.2 then x :: y :: l else y :: insert_upper x l
  end.
Definition set_insert (value : Z) (s : multiset) : multiset :=
  MkMultiset (insert_upper (next_node s, value) (nodes s)) (S (next_node s)).

(** [lower_bound(value)]: the first element that is not less. *)
Fixpoint lower_index (value : Z) (l : list node) : nat :=
  match l with
  | [] => 0
  | y :: l => if y.2 <? value then S (lower_index value l) else 0
  end.
Definition set_lower_bound (value : Z) (s : multiset) : iterator :=
  it_at (lower_index value (nodes s)) (nodes s).

(** [erase(it)]: the result is the iterator of the following element. *)
Definition set_erase (it : iterator) (s : multiset) : outcome (iterator * multiset) :=
  i ← it_index it (nodes s);
  _ ← require (i <? length (nodes s))%nat OutOfBounds;
  Ret (it_at (S i) (nodes s), MkMultiset (delete i (nodes s)) (next_node s)).

(** ** PercentileFilter *)

Record PercentileFilter : Type := MkPercentileFilter {
  percentile_ : f32;
  set_ : multiset;
  percentile_it_ : iterator;
  percentile_index_ : Z
}.
Implicit Types (f : PercentileFilter) (s : multiset) (l : list node) (value : Z).

Definition PercentileFilter_new (percentile : f32) : outcome PercentileFilter :=
  let s := multiset_empty in
  _ ← RTC_CHECK (SFleb (S754_zero false) percentile) "percentile >= 0.0f";
  _ ← RTC_CHECK (SFleb percentile f32_1) "percentile <= 1.0f";
  Ret (MkPercentileFilter percentile s (set_begin s) 0).

Definition UpdatePercentileIterator f : outcome PercentileFilter :=
  let s := set_ f in
  if (length (nodes s) =? 0)%nat then Ret f else
  index ← int64_of_f32 (f32_mul (percentile_ f) (f32_of_size (lenZ (nodes s) - 1)));
  distance ← i64_ret (index - percentile_index_ f);
  it ← it_advance (percentile_it_ f) distance s;
  Ret (MkPercentileFilter (percentile_ f) s it index).

Definition pf_Insert f value : outcome PercentileFilter :=
  let s := set_insert value (set_ f) in
  '(it, index) ←
    (if (length (nodes s) =? 1)%nat then Ret (set_begin s, 0) else
     x ← it_deref (percentile_it_ f) s;
     if value <? x
     then index ← i64_ret (percentile_index_ f + 1); Ret (percentile_it_ f, index)
     else Ret (percentile_it_ f, percentile_index_ f));
  UpdatePercentileIterator (MkPercentileFilter (percentile_ f) s it index).

(** Erasing the element at [it], which has the value [value]. *)
Definition erase_node f (it : iterator) value : outcome PercentileFilter :=
  if bool_decide (it = percentile_it_ f) then
    '(next, s) ← set_erase it (set_ f);
    Ret (MkPercentileFilter (percentile_ f) s next (percentile_index_ f))
  else
    '(_, s) ← set_erase it (set_ f);
    x ← it_deref (percentile_it_ f) s;
    index ← (if value <=? x then i64_ret (percentile_index_ f - 1)
             else Ret (percentile_index_ f));
    Ret (MkPercentileFilter (percentile_ f) s (percentile_it_ f) index).
Definition pf_Erase f value : outcome (bool * PercentileFilter) :=
  let s := set_ f in
  let it := set_lower_bound value s in
  found ← (if bool_decide (it = None) then Ret false else
           x ← it_deref it s; Ret (x =? value));
  if negb found then Ret (false, f) else
  f ← erase_node f it value;
  f ← UpdatePercentileIterator f;
  Ret (true, f).

Definition GetPercentileValue f : outcome Z :=
  if (length (nodes (set_ f)) =? 0)%nat then Ret 0
  else it_deref (percentile_it_ f) (set_ f).

Definition pf_Reset f : PercentileFilter :=
  let s := MkMultiset [] (next_node (set_ f)) in
  MkPercentileFilter (percentile_ f) s (set_begin s) 0.

(** ** MovingMedianFilter *)

Record MovingMedianFilter : Type := MkMovingMedianFilter {
  percentile_filter_ : PercentileFilter;
  median_samples_ : list Z;
  samples_stored_ : Z;
  window_size_ : Z
}.
Implicit Types (m : MovingMedianFilter).

Definition MovingMedianFilter_new (window_size : Z) : outcome MovingMedianFilter :=
  f ← PercentileFilter_new f32_half;
  _ ← RTC_CHECK (0 <? window_size) "window_size > 0";
  Ret (MkMovingMedianFilter f [] 0 window_size).

Definition median_Insert m value : outcome MovingMedianFilter :=
  f ← pf_Insert (percentile_filter_ m) value;
  let samples := median_samples_ m ++ [value] in
  let stored := (samples_stored_ m + 1) mod 2 ^ 64 in
  if window_size_ m <? stored then
    match samples with
    | front :: rest =>
        '(_, f) ← pf_Erase f front;
        Ret (MkMovingMedianFilter f rest ((stored - 1) mod 2 ^ 64) (window_size_ m))
    | [] => Undef OutOfBounds
    end
  else Ret (MkMovingMedianFilter f samples stored (window_size_ m)).

Definition GetFilteredValue m : outcome Z := GetPercentileValue (percentile_filter_ m).

Definition median_Reset m : MovingMedianFilter :=
  MkMovingMedianFilter (pf_Reset (percentile_filter_ m)) [] 0 (window_size_ m).

(** ** Specification *)

(** The observations as a list, in any order. *)
Inductive observation : Type := Observe (value : Z) | Forget (value : Z) | ForgetAll.

Fixpoint remove_one (value : Z) (bag : list Z) : list Z :=
  match bag with
  | [] => []
  | x :: bag => if decide (x = value) then bag else x :: remove_one value bag
  end.
Definition bag_step (bag : list Z) (e : observation) : list Z :=
  match e with
  | Observe value => value :: bag
  | Forget value => remove_one value bag
  | ForgetAll => []
  end.

(** The element at the fraction [p] of the sorted observations. *)
Definition percentile_of (p : f32) (bag : list Z) : outcome Z :=
  if (length bag =? 0)%nat then Ret 0 else
  index ← int64_of_f32 (f32_mul p (f32_of_size (lenZ bag - 1)));
  match merge_sort Z.le bag !! Z.to_nat index with
  | Some x => Ret x | None => Undef OutOfBounds
  end.

(** What the filter answers to an observation: whether there was one to
    forget. *)
Definition filter_step f (e : observation) : outcome (bool * PercentileFilter) :=
  match e with
  | Observe value => f ← pf_Insert f value; Ret (true, f)
  | Forget value => pf_Erase f value
  | ForgetAll => Ret (true, pf_Reset f)
  end.
Fixpoint filter_run f (es : list observation) : outcome (list bool * PercentileFilter) :=
  match es with
  | [] => Ret ([], f)
  | e :: es => '(b, f) ← filter_step f e; '(bs, f) ← filter_run f es; Ret (b :: bs, f)
  end.
Fixpoint bag_run (bag : list Z) (es : list observation) : list bool * list Z :=
  match es with
  | [] => ([], bag)
  | e :: es =>
      let b := match e with Forget value => bool_decide (value ∈ bag) | _ => true end in
      let '(bs, bag) := bag_run (bag_step bag e) es in (b :: bs, bag)
  end.

(** The lower median of the last [n] samples. *)
Definition median_of (samples : list Z) : Z :=
  default 0 (merge_sort Z.le samples !! ((length samples - 1) / 2)%nat).
Definition last_samples (n : nat) (samples : list Z) : list Z :=
  drop (length samples - n) samples.

(** ** Positions *)

Lemma node_index_lookup l i x :
  NoDup l.*1 → l !! i = Some x → node_index x.1 l = Some i.
Proof.
  revert i. induction l as [|y l IH]; intros [|i] Hnd Hx; cbn in *; simplify_eq/=.
  - by rewrite decide_True.
  - apply list.NoDup_cons in Hnd as [Hy Hnd]. rewrite decide_False; [by rewrite (IH i)|].
    intros He. apply Hy. rewrite He. apply list_elem_of_fmap. exists x. split; [done|].
    by eapply list_elem_of_lookup_2.
Qed.

Lemma it_index_at l i :
  NoDup l.*1 → (i ≤ length l)%nat → it_index (it_at i l) l = Ret i.
Proof.
  intros Hnd Hi. unfold it_at. destruct (l !! i) as [x|] eqn:Hx; cbn.
  - by rewrite (node_index_lookup l i x).
  - apply lookup_ge_None in Hx. f_equal. lia.
Qed.

(** Two positions of a set with the same iterator are the same. *)
Lemma it_at_inj l i j :
  NoDup l.*1 → (i ≤ length l)%nat → (j ≤ length l)%nat → it_at i l = it_at j l → i = j.
Proof.
  intros Hnd Hi Hj He. pose proof (it_index_at l i Hnd Hi) as H1.
  rewrite He, it_index_at in H1 by done. by injection H1 as ->.
Qed.

(** Sorted by value. *)
Definition ordered l : Prop :=
  ∀ i j x y, (i ≤ j)%nat → l !! i = Some x → l !! j = Some y → x.2 ≤ y.2.

Lemma ordered_cons x l : ordered (x :: l) ↔ (∀ y, y ∈ l → x.2 ≤ y.2) ∧ ordered l.
Proof.
  split.
  - intros Ho. split.
    + intros y [i Hi]%list_elem_of_lookup. by apply (Ho 0%nat (S i) x y); [lia| |].
    + intros i j a b Hij Ha Hb. by apply (Ho (S i) (S j)); [lia| |].
  - intros [Hx Ho] [|i] [|j] a b Hij Ha Hb; cbn in *; simplify_eq/=; [done| |lia|].
    + apply Hx. by eapply list_elem_of_lookup_2.
    + eapply (Ho i j); [lia|done|done].
Qed.

Lemma ordered_sorted l : ordered l → Sorted Z.le l.*2.
Proof.
  induction l as [|x l IH]; [constructor|]. rewrite ordered_cons. intros [Hx Ho].
  cbn. constructor; [by apply IH|]. destruct l as [|y l]; constructor.
  apply Hx. by left.
Qed.

(** ** Inserting *)

(** The number of leading elements that are not greater. *)
Fixpoint upper_index (value : Z) (l : list node) : nat :=
  match l with
  | [] => 0
  | y :: l => if value <? y.2 then 0 else S (upper_index value l)
  end.

Lemma upper_index_le value l : (upper_index value l ≤ length l)%nat.
Proof. induction l as [|y l IH]; cbn; [lia|]. case_match; lia. Qed.

Lemma insert_upper_lookup x l i :
  insert_upper x l !! i =
    let k := upper_index x.2 l in
    if decide (i < k)%nat then l !! i else if decide (i = k) then Some x
    else l !! (i - 1)%nat.
Proof.
  revert i. induction l as [|y l IH]; intros i; cbn.
  - destruct i; cbn; [done|]. by rewrite decide_False by lia.
  - destruct (Z.ltb_spec x.2 y.2) as [Hlt|Hge].
    + rewrite decide_False by lia. destruct i as [|i]; [by rewrite decide_True|].
      rewrite decide_False by lia. cbn. by rewrite Nat.sub_0_r.
    + destruct i as [|i]; cbn; [by rewrite decide_True by lia|].
      rewrite IH, Nat.sub_0_r. cbv zeta. repeat case_decide; try lia; try done;
        (destruct i; [lia|]; cbn; by rewrite Nat.sub_0_r).
Qed.

Lemma insert_upper_length x l : length (insert_upper x l) = S (length l).
Proof. induction l as [|y l IH]; cbn; [done|]. case_match; cbn; lia. Qed.

Lemma insert_upper_perm x l : insert_upper x l ≡ₚ x :: l.
Proof.
  induction l as [|y l IH]; cbn; [done|]. case_match; [done|]. rewrite IH. constructor.
Qed.

Lemma insert_upper_ordered x l : ordered l → ordered (insert_upper x l).
Proof.
  induction l as [|y l IH]; intros Ho; cbn.
  { apply ordered_cons. split; [|done]. intros ? []%elem_of_nil. }
  destruct (Z.ltb_spec x.2 y.2) as [Hlt|Hge]; rewrite ordered_cons.
  - split; [|done]. apply ordered_cons in Ho as [Hy Ho].
    intros z [->|Hz]%elem_of_cons; [lia|]. specialize (Hy _ Hz). lia.
  - apply ordered_cons in Ho as [Hy Ho]. split; [|by apply IH].
    intros z. rewrite insert_upper_perm, elem_of_cons. intros [->|Hz]; [lia|by apply Hy].
Qed.

Lemma upper_index_spec value l i y :
  ordered l → l !! i = Some y → (upper_index value l ≤ i)%nat ↔ value < y.2.
Proof.
  revert i. induction l as [|z l IH]; intros i Ho Hi; [done|].
  pose proof Ho as [Hz Ho']%ordered_cons. cbn.
  destruct (Z.ltb_spec value z.2) as [Hlt|Hge].
  - split; [|lia]. intros _. destruct i as [|i]; cbn in Hi; [by simplify_eq|].
    specialize (Hz y ltac:(by eapply list_elem_of_lookup_2)). lia.
  - destruct i as [|i]; cbn in Hi; [simplify_eq; lia|].
    rewrite <- (IH i) by done. lia.
Qed.

(** Where an element is after the insertion. *)
Lemma insert_upper_at x l i y :
  ordered l → l !! i = Some y →
  insert_upper x l !! (if x.2 <? y.2 then S i else i) = Some y.
Proof.
  intros Ho Hi. pose proof (upper_index_spec x.2 l i y Ho Hi) as Hu.
  rewrite insert_upper_lookup. cbv zeta. destruct (Z.ltb_spec x.2 y.2) as [Hlt|Hge].
  - apply Hu in Hlt. rewrite !decide_False by lia. by replace (S i - 1)%nat with i by lia.
  - rewrite decide_True; [done|]. destruct (decide (i < upper_index x.2 l)%nat); [done|].
    assert (x.2 < y.2) by (apply Hu; lia). lia.
Qed.

(** ** Erasing *)

Lemma lower_index_le value l : (lower_index value l ≤ length l)%nat.
Proof. induction l as [|y l IH]; cbn; [lia|]. case_match; lia. Qed.

Lemma lower_index_spec value l i y :
  ordered l → l !! i = Some y → (i < lower_index value l)%nat ↔ y.2 < value.
Proof.
  revert i. induction l as [|z l IH]; intros i Ho Hi; [done|].
  pose proof Ho as [Hz Ho']%ordered_cons. cbn.
  destruct (Z.ltb_spec z.2 value) as [Hlt|Hge].
  - destruct i as [|i]; cbn in Hi; [simplify_eq; lia|]. rewrite <- (IH i) by done. lia.
  - split; [lia|]. destruct i as [|i]; cbn in Hi; [by simplify_eq; lia|].
    specialize (Hz y ltac:(by eapply list_elem_of_lookup_2)). lia.
Qed.

(** The value is in the set exactly if it is at its lower bound. *)
Lemma lower_index_found value l :
  ordered l → value ∈ l.*2 ↔ ∃ x, l !! lower_index value l = Some x ∧ x.2 = value.
Proof.
  intros Ho. split.
  - intros (y & -> & [i Hi]%list_elem_of_lookup)%list_elem_of_fmap.
    pose proof (lower_index_spec y.2 l i y Ho Hi) as Hl.
    destruct (l !! lower_index y.2 l) as [x|] eqn:Hx.
    + exists x. split; [done|].
      pose proof (lower_index_spec y.2 l _ x Ho Hx) as Hk.
      pose proof (Ho (lower_index y.2 l) i x y ltac:(lia) Hx Hi). lia.
    + apply lookup_ge_None in Hx. apply lookup_lt_Some in Hi. lia.
  - intros (x & Hx & <-). apply list_elem_of_fmap. exists x. split; [done|].
    by eapply list_elem_of_lookup_2.
Qed.

Lemma delete_ordered k l : ordered l → ordered (delete k l).
Proof.
  intros Ho i j x y Hij. rewrite !list_lookup_delete.
  intros Hx Hy. repeat case_decide; (eapply Ho; [|done|done]; lia).
Qed.

(** ** The filter *)

(** The filter with the observations [bag]: the nodes are distinct and sorted,
    and the iterator is at the index of the fraction. *)
Record filter_ok f (bag : list Z) : Prop := {
  fo_percentile : valid_f32 (percentile_ f) = true ∧ f32_fraction (percentile_ f) = true;
  fo_distinct : NoDup (nodes (set_ f)).*1;
  fo_fresh x : x ∈ nodes (set_ f) → (x.1 < next_node (set_ f))%nat;
  fo_ordered : ordered (nodes (set_ f));
  fo_bag : (nodes (set_ f)).*2 ≡ₚ bag;
  fo_index :
    bag ≠ [] →
    int64_of_f32 (f32_mul (percentile_ f) (f32_of_size (lenZ bag - 1)))
      = Ret (percentile_index_ f);
  fo_iterator :
    bag ≠ [] → percentile_it_ f = it_at (Z.to_nat (percentile_index_ f)) (nodes (set_ f))
}.

(** At most 2^24 observations. *)
Definition few (bag : list Z) : Prop := lenZ bag ≤ 2 ^ 24.

Lemma bag_length l (bag : list Z) : l.*2 ≡ₚ bag → length l = length bag.
Proof. intros Hp. by rewrite <- Hp, length_fmap. Qed.

Lemma few_index p (bag : list Z) :
  valid_f32 p = true → f32_fraction p = true → few bag → bag ≠ [] →
  ∃ z, int64_of_f32 (f32_mul p (f32_of_size (lenZ bag - 1))) = Ret z
    ∧ 0 ≤ z < lenZ bag.
Proof.
  intros Hv Hf Hfew Hne. unfold few in Hfew.
  assert (1 ≤ lenZ bag) by (destruct bag; [done|unfold lenZ; cbn; lia]).
  destruct (fraction_of_size p (lenZ bag - 1) Hv Hf ltac:(lia)) as (z & Hz & Hle).
  exists z. split; [done|lia].
Qed.

(** The iterator moves from any position to that of the fraction. *)
Lemma update_ok p s (bag : list Z) (i : nat) :
  valid_f32 p = true → f32_fraction p = true →
  NoDup (nodes s).*1 → (∀ x, x ∈ nodes s → (x.1 < next_node s)%nat) → ordered (nodes s) →
  (nodes s).*2 ≡ₚ bag → few bag → (i ≤ length (nodes s))%nat →
  wp (UpdatePercentileIterator (MkPercentileFilter p s (it_at i (nodes s)) (Z.of_nat i)))
    (λ f, filter_ok f bag ∧ percentile_ f = p).
Proof.
  intros Hv Hf Hnd Hfresh Ho Hbag Hfew Hi. pose proof (bag_length _ _ Hbag) as Hlen.
  unfold UpdatePercentileIterator. cbn [set_ percentile_it_ percentile_index_ percentile_].
  destruct (Nat.eqb_spec (length (nodes s)) 0) as [H0|Hne].
  { split; [|done]. rewrite Hlen in H0. apply nil_length_inv in H0 as ->.
    split; cbn; try done. }
  assert (bag ≠ []) as Hbne by (intros ->; cbn in Hlen; lia).
  destruct (few_index p bag Hv Hf Hfew Hbne) as (z & Hz & Hle). unfold few in Hfew.
  unfold lenZ in *. rewrite Hlen, Hz. cbn [mbind outcome_bind].
  unfold i64_ret. rewrite (proj2 (Z.leb_le _ _)), (proj2 (Z.leb_le _ _))
    by (unfold lowest, max; cbn; lia).
  cbn [andb mbind outcome_bind]. unfold it_advance. rewrite it_index_at by done.
  cbn [mbind outcome_bind]. replace (Z.of_nat i + (z - Z.of_nat i)) with z by lia.
  unfold lenZ. rewrite (proj2 (Z.leb_le _ _)), (proj2 (Z.leb_le _ _)) by lia.
  cbn. split; [|done]. split; cbn; try done.
Qed.

Lemma filter_Insert_ok f bag value :
  filter_ok f bag → few (value :: bag) →
  wp (pf_Insert f value) (λ f', filter_ok f' (value :: bag) ∧ percentile_ f' = percentile_ f).
Proof.
  intros [[Hv Hf] Hnd Hfresh Ho Hbag Hidx Hit] Hfew.
  pose proof (bag_length _ _ Hbag) as Hlen. set (l := nodes (set_ f)) in *.
  set (x := (next_node (set_ f), value) : node).
  assert (insert_upper x l ≡ₚ x :: l) as Hperm by apply insert_upper_perm.
  assert (NoDup (insert_upper x l).*1) as Hnd'.
  { rewrite Hperm. cbn. apply list.NoDup_cons. split; [|done].
    intros (y & Hy & Hin)%list_elem_of_fmap. specialize (Hfresh _ Hin). lia. }
  assert (∀ y, y ∈ insert_upper x l → (y.1 < S (next_node (set_ f)))%nat) as Hfresh'.
  { intros y. rewrite Hperm, elem_of_cons. intros [->|Hy]; [cbn; lia|].
    specialize (Hfresh _ Hy). lia. }
  assert ((insert_upper x l).*2 ≡ₚ value :: bag) as Hbag' by (by rewrite Hperm, <- Hbag).
  pose proof (update_ok (percentile_ f) (set_insert value (set_ f)) (value :: bag)) as Hup.
  unfold pf_Insert. cbn [set_insert nodes]. fold l x. rewrite insert_upper_length.
  destruct (Nat.eqb_spec (S (length l)) 1) as [H1|Hne].
  - cbn [mbind outcome_bind]. apply (Hup 0%nat); try done.
    + by apply insert_upper_ordered.
    + lia.
  - assert (bag ≠ []) as Hbne by (intros ->; cbn in Hlen; lia).
    assert (few bag) as Hfew0 by (unfold few, lenZ in *; cbn in Hfew; lia).
    destruct (few_index _ bag Hv Hf Hfew0 Hbne) as (z & Hz & Hle).
    rewrite Hidx in Hz by done. injection Hz as Hz.
    destruct (lookup_lt_is_Some_2 l (Z.to_nat z)) as [y Hy].
    { unfold lenZ in Hle. lia. }
    pose proof (insert_upper_at x l _ y Ho Hy) as Hat. cbn [snd x] in Hat.
    set (j := if value <? y.2 then S (Z.to_nat z) else Z.to_nat z) in *.
    assert (percentile_it_ f = it_at j (insert_upper x l)) as Hitj.
    { rewrite Hit by done. unfold it_at. by rewrite Hz, Hy, Hat. }
    assert (j ≤ length (insert_upper x l))%nat as Hj by (apply lookup_lt_Some in Hat; lia).
    unfold it_deref. change (nodes (set_insert value (set_ f))) with (insert_upper x l).
    rewrite Hitj, it_index_at by done.
    cbn [mbind outcome_bind]. rewrite Hat. cbn [mbind outcome_bind].
    assert ((if value <? y.2
      then index ← i64_ret (percentile_index_ f + 1); Ret (it_at j (insert_upper x l), index)
      else Ret (it_at j (insert_upper x l), percentile_index_ f))
      = Ret (it_at j (insert_upper x l), Z.of_nat j)) as ->.
    { unfold j. destruct (value <? y.2); [|f_equal; f_equal; lia].
      unfold i64_ret, few, lenZ in *. rewrite (proj2 (Z.leb_le _ _)), (proj2 (Z.leb_le _ _))
        by (unfold lowest, max; cbn in *; lia). cbn. do 2 f_equal. lia. }
    cbn [mbind outcome_bind]. apply Hup; try done. by apply insert_upper_ordered.
Qed.

(** *** Forgetting *)

Lemma remove_one_absent value bag : value ∉ bag → remove_one value bag = bag.
Proof.
  induction bag as [|x bag IH]; cbn; [done|]. rewrite not_elem_of_cons. intros [Hne Hin].
  by rewrite decide_False, IH by done.
Qed.

Lemma remove_one_perm value bag : value ∈ bag → bag ≡ₚ value :: remove_one value bag.
Proof.
  induction bag as [|x bag IH]; cbn; [by intros []%elem_of_nil|].
  rewrite elem_of_cons. intros Hin. case_decide as Hx; [by rewrite Hx|].
  destruct Hin as [->|Hin]; [done|]. rewrite (IH Hin) at 1. apply Permutation_swap.
Qed.

Lemma delete_bag l (bag : list Z) k x :
  l.*2 ≡ₚ bag → l !! k = Some x → (delete k l).*2 ≡ₚ remove_one x.2 bag.
Proof.
  intros Hbag Hk. pose proof (delete_Permutation l k x Hk) as Hl.
  assert (x.2 ∈ bag) as Hin.
  { rewrite <- Hbag. apply list_elem_of_fmap. exists x. split; [done|].
    by eapply list_elem_of_lookup_2. }
  apply (Permutation_cons_inv (a := x.2)). rewrite <- remove_one_perm by done.
  rewrite <- Hbag. by rewrite Hl at 2.
Qed.

Lemma it_at_delete l k i :
  i ≠ k → it_at i l = it_at (if (k <? i)%nat then (i - 1)%nat else i) (delete k l).
Proof.
  intros Hne. unfold it_at. f_equal. rewrite list_lookup_delete.
  destruct (Nat.ltb_spec k i) as [Hlt|Hge]; case_decide; try lia; [|done].
  f_equal. lia.
Qed.

(** The element at the lower bound of its value is erased; the iterator of the
    filter keeps its element, or moves on to the next one. *)
Lemma erase_node_ok f bag k x :
  filter_ok f bag → few bag → nodes (set_ f) !! k = Some x →
  k = lower_index x.2 (nodes (set_ f)) →
  let l := delete k (nodes (set_ f)) in
  ∃ i, (i ≤ length l)%nat
  ∧ erase_node f (it_at k (nodes (set_ f))) x.2
    = Ret (MkPercentileFilter (percentile_ f) (MkMultiset l (next_node (set_ f)))
             (it_at i l) (Z.of_nat i)).
Proof.
  intros [[Hv Hf] Hnd Hfresh Ho Hbag Hidx Hit] Hfew Hx Hlow.
  pose proof (bag_length _ _ Hbag) as Hlen. set (l := nodes (set_ f)) in *. intros l'.
  assert (k < length l)%nat as Hk by by eapply lookup_lt_Some.
  assert (bag ≠ []) as Hbne by (intros ->; cbn in Hlen; lia).
  destruct (few_index _ bag Hv Hf Hfew Hbne) as (z & Hz & Hle).
  rewrite Hidx in Hz by done. injection Hz as Hz. specialize (Hit Hbne). rewrite Hz in Hit.
  assert (Z.to_nat z < length l)%nat as Hi by (unfold lenZ in Hle; lia).
  assert (length l' = (length l - 1)%nat) as Hlen' by by eapply length_delete.
  assert (NoDup l'.*1) as Hnd'.
  { rewrite (delete_Permutation l k x Hx) in Hnd. cbn in Hnd.
    by apply list.NoDup_cons in Hnd as [_ Hnd]. }
  assert (set_erase (it_at k l) (set_ f)
    = Ret (it_at k l', MkMultiset l' (next_node (set_ f)))) as Herase.
  { unfold set_erase. fold l. rewrite it_index_at by (done || lia). cbn [mbind outcome_bind].
    rewrite (proj2 (Nat.ltb_lt _ _)) by done. cbn. do 2 f_equal.
    unfold it_at, l'. rewrite list_lookup_delete, decide_False by lia. done. }
  unfold erase_node. rewrite Hit, Herase. set (i := Z.to_nat z) in *.
  destruct (decide (k = i)) as [Hki|Hki].
  - rewrite bool_decide_eq_true_2 by (by rewrite Hki). exists k. split; [lia|].
    cbn. do 2 f_equal. lia.
  - rewrite bool_decide_eq_false_2.
    2: { intros He. apply it_at_inj in He; [done..|lia|lia]. }
    destruct (lookup_lt_is_Some_2 l i Hi) as [y Hy].
    pose proof (lower_index_spec x.2 l i y Ho Hy) as Hspec. rewrite <- Hlow in Hspec.
    set (j := if (k <? i)%nat then (i - 1)%nat else i).
    assert (it_at i l = it_at j l') as Hj by (apply it_at_delete; lia).
    assert (l' !! j = Some y) as Hy'.
    { unfold l', j. rewrite list_lookup_delete.
      destruct (Nat.ltb_spec k i); case_decide; try lia; [|done].
      by replace (S (i - 1)) with i by lia. }
    assert (j < length l')%nat as Hjl by by eapply lookup_lt_Some.
    exists j. split; [lia|]. cbn [mbind outcome_bind]. unfold it_deref. cbn [nodes].
    rewrite Hj, it_index_at by (done || lia). cbn [mbind outcome_bind].
    rewrite Hy'. cbn [mbind outcome_bind].
    assert ((if x.2 <=? y.2 then i64_ret (percentile_index_ f - 1)
             else Ret (percentile_index_ f)) = Ret (Z.of_nat j)) as ->; [|done].
    unfold j, few, lenZ in *.
    destruct (Z.leb_spec x.2 y.2), (Nat.ltb_spec k i); try lia; [|f_equal; lia].
    unfold i64_ret. rewrite (proj2 (Z.leb_le _ _)), (proj2 (Z.leb_le _ _))
      by (unfold lowest, max; cbn; lia). cbn. f_equal. lia.
Qed.

Lemma filter_Erase_ok f bag value :
  filter_ok f bag → few bag →
  wp (pf_Erase f value) (λ '(b, f'), b = bool_decide (value ∈ bag)
    ∧ filter_ok f' (remove_one value bag) ∧ percentile_ f' = percentile_ f).
Proof.
  intros Hok Hfew. pose proof Hok as [[Hv Hf] Hnd Hfresh Ho Hbag Hidx Hit].
  pose proof (lower_index_found value _ Ho) as Hfound. rewrite Hbag in Hfound.
  pose proof (lower_index_le value (nodes (set_ f))) as Hk.
  unfold pf_Erase, set_lower_bound.
  set (k := lower_index value (nodes (set_ f))) in *.
  assert (value ∉ bag → wp (Ret (false, f)) (λ '(b, f'), b = bool_decide (value ∈ bag)
    ∧ filter_ok f' (remove_one value bag) ∧ percentile_ f' = percentile_ f)) as Hno.
  { intros Hno. cbn. by rewrite bool_decide_eq_false_2, remove_one_absent. }
  destruct (nodes (set_ f) !! k) as [x|] eqn:Hx.
  2: { rewrite bool_decide_eq_true_2 by (unfold it_at; by rewrite Hx). apply Hno.
       rewrite Hfound. by intros (? & ? & _). }
  rewrite bool_decide_eq_false_2 by (unfold it_at; by rewrite Hx).
  unfold it_deref at 1. rewrite it_index_at by done. cbn [mbind outcome_bind].
  rewrite Hx. cbn [mbind outcome_bind].
  destruct (Z.eqb_spec x.2 value) as [Hxv|Hxv]; cbn [negb].
  2: { apply Hno. rewrite Hfound. intros (? & ? & ?). simplify_eq. }
  rewrite (bool_decide_eq_true_2 (value ∈ bag)) by (apply Hfound; eauto).
  subst value. destruct (erase_node_ok f bag k x Hok Hfew Hx eq_refl) as (i & Hi & ->).
  cbn [mbind outcome_bind]. set (l' := delete k _) in *.
  pose proof (delete_Permutation _ k x Hx) as Hperm. fold l' in Hperm.
  apply wp_bind. eapply wp_mono; [|apply (update_ok _ (MkMultiset l' _) (remove_one x.2 bag))].
  - intros f' [Hok' Hp]. cbn. done.
  - done.
  - done.
  - rewrite Hperm in Hnd. by apply list.NoDup_cons in Hnd as [_ Hnd].
  - intros y Hy. apply Hfresh. rewrite Hperm. by right.
  - by apply delete_ordered.
  - by apply delete_bag.
  - pose proof (delete_bag _ _ _ _ Hbag Hx) as Hd. fold l' in Hd.
    apply bag_length in Hd, Hbag. unfold few, lenZ in *. rewrite <- Hd.
    rewrite Hperm in Hbag. cbn in Hbag. lia.
  - done.
Qed.

(** *** Answers *)

(** Sorting does not depend on the order of the observations. *)
Lemma merge_sort_perm (l1 l2 : list Z) : l1 ≡ₚ l2 → merge_sort Z.le l1 = merge_sort Z.le l2.
Proof.
  intros Hp. apply (Sorted_unique Z.le); [apply (Sorted_merge_sort _)..|].
  by rewrite !merge_sort_Permutation.
Qed.

Lemma merge_sort_ordered l : ordered l → merge_sort Z.le l.*2 = l.*2.
Proof.
  intros Ho. apply (Sorted_unique Z.le); [apply (Sorted_merge_sort _)|by apply ordered_sorted|].
  apply merge_sort_Permutation.
Qed.

Lemma percentile_of_perm p (l1 l2 : list Z) :
  l1 ≡ₚ l2 → percentile_of p l1 = percentile_of p l2.
Proof.
  intros Hp. unfold percentile_of, lenZ.
  by rewrite (merge_sort_perm _ _ Hp), (Permutation_length Hp).
Qed.

Lemma GetPercentileValue_ok f bag :
  filter_ok f bag → few bag →
  GetPercentileValue f = percentile_of (percentile_ f) bag
  ∧ ∃ x, GetPercentileValue f = Ret x.
Proof.
  intros [[Hv Hf] Hnd Hfresh Ho Hbag Hidx Hit] Hfew.
  pose proof (bag_length _ _ Hbag) as Hlen. unfold GetPercentileValue, percentile_of.
  rewrite Hlen. destruct (Nat.eqb_spec (length bag) 0) as [H0|Hne]; [by eauto|].
  assert (bag ≠ []) as Hbne by (by intros ->).
  destruct (few_index _ bag Hv Hf Hfew Hbne) as (z & Hz & Hle). rewrite Hz.
  rewrite Hidx in Hz by done. injection Hz as Hz. rewrite Hit, Hz by done.
  unfold lenZ in Hle. rewrite <- (merge_sort_perm _ _ Hbag), merge_sort_ordered by done.
  unfold it_deref. rewrite it_index_at by (done || lia). cbn [mbind outcome_bind].
  rewrite list_lookup_fmap.
  destruct (lookup_lt_is_Some_2 (nodes (set_ f)) (Z.to_nat z)) as [y ->]; [lia|].
  cbn. by eauto.
Qed.

Lemma filter_ok_perm f (l1 l2 : list Z) : l1 ≡ₚ l2 → filter_ok f l1 → filter_ok f l2.
Proof.
  intros Hp [Hpc Hnd Hfresh Ho Hbag Hidx Hit].
  assert (l2 ≠ [] → l1 ≠ []) as Hne.
  { intros Hne ->. apply Hne. symmetry. by apply Permutation_nil_l. }
  split; auto; [by rewrite Hbag|]. unfold lenZ in *.
  rewrite <- (Permutation_length Hp). auto.
Qed.

Lemma filter_new_ok p :
  valid_f32 p = true →
  if f32_fraction p
  then wp (PercentileFilter_new p) (λ f, filter_ok f [] ∧ percentile_ f = p)
  else ∃ msg, PercentileFilter_new p = Abort msg.
Proof.
  intros Hv. unfold PercentileFilter_new, RTC_CHECK, f32_fraction.
  destruct (SFleb _ p) eqn:H0; [|by eexists].
  destruct (SFleb p f32_1) eqn:H1; [|by eexists]. cbn.
  split; [|done]. split; cbn; try done.
  - by rewrite Hv; unfold f32_fraction; rewrite H0, H1.
  - constructor.
  - by intros x []%elem_of_nil.
Qed.

Lemma filter_Reset_ok f bag : filter_ok f bag → filter_ok (pf_Reset f) [].
Proof.
  intros [Hpc _ _ _ _ _ _]. split; cbn; try done; [constructor|].
  by intros x []%elem_of_nil.
Qed.

Lemma bag_step_length bag e : (length (bag_step bag e) ≤ S (length bag))%nat.
Proof.
  destruct e as [v|v|]; cbn; [lia| |lia]. induction bag as [|x bag IH]; cbn; [lia|].
  case_decide; cbn; lia.
Qed.

Lemma filter_run_ok es f bag :
  filter_ok f bag → lenZ bag + lenZ es ≤ 2 ^ 24 →
  wp (filter_run f es) (λ '(bs, f'), bs = (bag_run bag es).1
    ∧ filter_ok f' (bag_run bag es).2 ∧ few (bag_run bag es).2
    ∧ percentile_ f' = percentile_ f).
Proof.
  revert f bag. induction es as [|e es IH]; intros f bag Hok Hfew; cbn.
  { unfold few. unfold lenZ in *. cbn in Hfew. split_and!; done || lia. }
  assert (few bag) as Hfew0 by (unfold few, lenZ in *; cbn in *; lia).
  assert (few (bag_step bag e)) as Hfew1.
  { pose proof (bag_step_length bag e). unfold few, lenZ in *. cbn in *. lia. }
  assert (wp (filter_step f e) (λ '(b, f'),
    b = match e with Forget value => bool_decide (value ∈ bag) | _ => true end
    ∧ filter_ok f' (bag_step bag e) ∧ percentile_ f' = percentile_ f)) as Hstep.
  { destruct e as [v|v|]; cbn in *.
    - apply wp_bind. eapply wp_mono; [|by apply filter_Insert_ok]. by intros f' [? ?].
    - by apply filter_Erase_ok.
    - split_and!; [done|by eapply filter_Reset_ok|done]. }
  apply wp_bind. eapply wp_mono; [|exact Hstep]. intros [b f'] (-> & Hok' & Hp).
  pose proof (bag_step_length bag e) as Hle.
  apply wp_bind. eapply wp_mono; [|apply (IH f' (bag_step bag e) Hok')].
  - intros [bs f2] (-> & Hok2 & Hfew2 & Hp2). cbn.
    destruct (bag_run (bag_step bag e) es). cbn in *. by rewrite Hp2, Hp.
  - unfold lenZ in *. cbn in Hfew. lia.
Qed.

(** C33: The percentile filter answers as a sorted list of the observations does:
    a percentile that is not between 0 and 1 stops the process; otherwise,
    whatever is inserted, erased and reset, up to 2^24 times, no iterator leaves
    the set, erasing tells whether the value was there, and the value of the
    filter is the element of the sorted observations at the percentile of their
    number less one, rounded down. *)
Theorem percentile_filter_refines p es :
  valid_f32 p = true → lenZ es ≤ 2 ^ 24 →
  if f32_fraction p
  then wp (f ← PercentileFilter_new p; filter_run f es) (λ '(bs, f),
         bs = (bag_run [] es).1
         ∧ GetPercentileValue f = percentile_of p (bag_run [] es).2
         ∧ ∃ x, GetPercentileValue f = Ret x)
  else ∃ msg, (f ← PercentileFilter_new p; filter_run f es) = Abort msg.
Proof.
  intros Hv Hes. pose proof (filter_new_ok p Hv) as Hnew.
  destruct (f32_fraction p).
  - apply wp_bind. eapply wp_mono; [|exact Hnew]. intros f [Hok Hp].
    eapply wp_mono; [|apply (filter_run_ok es f [] Hok); unfold lenZ in *; cbn; lia].
    intros [bs f'] (Hbs & Hok' & Hfew & Hp').
    destruct (GetPercentileValue_ok _ _ Hok' Hfew) as [Hget Hret].
    by rewrite Hget, Hp', Hp in *.
  - destruct Hnew as [msg ->]. by exists msg.
Qed.

(** *** The moving median *)

(** Samples, and resets ([None]). *)
Fixpoint median_run m (es : list (option Z)) : outcome MovingMedianFilter :=
  match es with
  | [] => Ret m
  | Some value :: es => m ← median_Insert m value; median_run m es
  | None :: es => median_run (median_Reset m) es
  end.
(** The samples since the last reset. *)
Fixpoint recorded (samples : list Z) (es : list (option Z)) : list Z :=
  match es with
  | [] => samples
  | Some value :: es => recorded (samples ++ [value]) es
  | None :: es => recorded [] es
  end.

Record median_ok m (samples : list Z) : Prop := {
  mo_filter :
    filter_ok (percentile_filter_ m) (last_samples (Z.to_nat (window_size_ m)) samples);
  mo_half : percentile_ (percentile_filter_ m) = f32_half;
  mo_samples : median_samples_ m = last_samples (Z.to_nat (window_size_ m)) samples;
  mo_stored : samples_stored_ m = lenZ (median_samples_ m)
}.

Lemma last_samples_length n (samples : list Z) :
  length (last_samples n samples) = Nat.min n (length samples).
Proof. unfold last_samples. rewrite length_drop. lia. Qed.

(** One more sample: the window grows, or moves. *)
Lemma last_samples_grow n (samples : list Z) value :
  (length samples < n)%nat →
  last_samples n (samples ++ [value]) = last_samples n samples ++ [value].
Proof.
  intros Hn. unfold last_samples. rewrite length_app. cbn.
  replace (length samples + 1 - n)%nat with 0%nat by lia.
  by replace (length samples - n)%nat with 0%nat by lia.
Qed.

Lemma last_samples_move n (samples : list Z) value :
  (0 < n ≤ length samples)%nat →
  ∃ front, last_samples n samples ++ [value] = front :: last_samples n (samples ++ [value]).
Proof.
  intros Hn. unfold last_samples. rewrite length_app. cbn.
  destruct (lookup_lt_is_Some_2 samples (length samples - n)) as [x Hx]; [lia|].
  exists x. rewrite (drop_S _ _ _ Hx). cbn. f_equal.
  replace (length samples + 1 - n)%nat with (S (length samples - n)) by lia.
  rewrite drop_app_le by lia. done.
Qed.

Lemma median_Insert_ok m samples value :
  median_ok m samples → 0 < window_size_ m < 2 ^ 24 →
  wp (median_Insert m value) (λ m', median_ok m' (samples ++ [value])
    ∧ window_size_ m' = window_size_ m).
Proof.
  intros [Hf Hhalf Hsamples Hstored] Hw. set (n := Z.to_nat (window_size_ m)) in *.
  set (win := last_samples n samples) in *.
  assert (length win = Nat.min n (length samples)) as Hlen by apply last_samples_length.
  unfold median_Insert. apply wp_bind. eapply wp_mono; [|apply filter_Insert_ok; [exact Hf|]].
  2: { unfold few, lenZ. cbn. lia. }
  intros f [Hok Hp]. rewrite Hstored, Hsamples. unfold lenZ.
  rewrite Z.mod_small by lia.
  destruct (Z.ltb_spec (window_size_ m) (Z.of_nat (length win) + 1)) as [Hlt|Hge].
  - destruct (last_samples_move n samples value ltac:(lia)) as [front Hfront].
    fold win in Hfront. rewrite Hfront.
    set (rest := last_samples n (samples ++ [value])) in *.
    assert (value :: win ≡ₚ front :: rest) as Hperm.
    { rewrite <- Hfront. apply Permutation_cons_append. }
    apply wp_bind. eapply wp_mono; [|apply filter_Erase_ok; [exact Hok|]].
    2: { unfold few, lenZ. cbn. lia. }
    intros [b f'] (_ & Hok' & Hp'). cbn. split; [|done]. split; cbn; fold n rest.
    + eapply filter_ok_perm; [|exact Hok']. apply (Permutation_cons_inv (a := front)).
      rewrite <- remove_one_perm; [done|]. rewrite Hperm. by left.
    + by rewrite Hp', Hp.
    + done.
    + assert (length (win ++ [value]) = length (front :: rest)) as Hl by by rewrite Hfront.
      rewrite length_app in Hl. cbn in Hl. unfold lenZ.
      rewrite Z.mod_small by lia. lia.
  - assert (last_samples n (samples ++ [value]) = win ++ [value]) as Hgrow.
    { apply last_samples_grow. lia. }
    cbn. split; [|done]. split; cbn; fold n; rewrite ?Hgrow.
    + eapply filter_ok_perm; [|exact Hok]. apply Permutation_cons_append.
    + by rewrite Hp.
    + done.
    + unfold lenZ. rewrite length_app. cbn. lia.
Qed.

Lemma median_Reset_ok m samples : median_ok m samples → median_ok (median_Reset m) [].
Proof.
  intros [Hf Hhalf Hsamples Hstored]. split; cbn; try done. by eapply filter_Reset_ok.
Qed.

Lemma median_run_ok es m samples :
  median_ok m samples → 0 < window_size_ m < 2 ^ 24 →
  wp (median_run m es) (λ m', median_ok m' (recorded samples es)
    ∧ window_size_ m' = window_size_ m).
Proof.
  revert m samples. induction es as [|[value|] es IH]; intros m samples Hok Hw; cbn.
  - done.
  - apply wp_bind. eapply wp_mono; [|by apply median_Insert_ok]. intros m' [Hok' Hw'].
    rewrite <- Hw'. apply IH; [done|lia].
  - apply (IH (median_Reset m)); [by eapply median_Reset_ok|done].
Qed.

Lemma percentile_half (bag : list Z) :
  few bag → percentile_of f32_half bag = Ret (median_of bag).
Proof.
  intros Hfew. unfold percentile_of, median_of, few, lenZ in *.
  destruct (Nat.eqb_spec (length bag) 0) as [H0|Hne].
  { by apply nil_length_inv in H0 as ->. }
  rewrite half_of_size by lia. cbn [mbind outcome_bind].
  replace (Z.to_nat ((Z.of_nat (length bag) - 1) / 2)) with ((length bag - 1) / 2)%nat.
  2: { rewrite <- (Nat2Z.id ((length bag - 1) / 2)), Nat2Z.inj_div. do 2 f_equal. lia. }
  destruct (lookup_lt_is_Some_2 (merge_sort Z.le bag) ((length bag - 1) / 2)) as [x ->];
    [|done].
  rewrite merge_sort_Permutation. pose proof (Nat.div_le_upper_bound (length bag - 1) 2
    (length bag - 1)). lia.
Qed.

(** The value of the median filter is the lower median of the last
    [window_size] samples since it was reset, 0 if there are none: for windows
    of less than 2^24 samples; an empty window stops the process. *)
Theorem moving_median_refines w es :
  w < 2 ^ 24 →
  if 0 <? w
  then wp (m ← MovingMedianFilter_new w; median_run m es) (λ m,
         GetFilteredValue m = Ret (median_of (last_samples (Z.to_nat w) (recorded [] es))))
  else ∃ msg, (m ← MovingMedianFilter_new w; median_run m es) = Abort msg.
Proof.
  intros Hw. unfold MovingMedianFilter_new, RTC_CHECK.
  pose proof (filter_new_ok f32_half eq_refl) as Hnew.
  change (f32_fraction f32_half) with true in Hnew. cbn iota in Hnew.
  destruct (PercentileFilter_new f32_half) as [f| | |]; [|done..]. destruct Hnew as [Hok Hp].
  cbn [mbind outcome_bind]. destruct (Z.ltb_spec 0 w) as [Hpos|]; [|by eexists].
  cbn [mbind outcome_bind].
  eapply wp_mono; [|apply (median_run_ok es (MkMovingMedianFilter f [] 0 w) [])].
  - intros m [[Hf Hhalf Hsamples _] Hwm]. cbn in Hwm. rewrite Hwm in *.
    assert (few (last_samples (Z.to_nat w) (recorded [] es))) as Hfew.
    { unfold few, lenZ. rewrite last_samples_length. lia. }
    destruct (GetPercentileValue_ok _ _ Hf Hfew) as [Hget _].
    unfold GetFilteredValue. by rewrite Hget, Hhalf, percentile_half.
  - by split.
  - done.
Qed.

(** Beyond that the conversion to [float] rounds up: with 2^24 + 4 observations
    the index of the maximum is one past the last element. *)
Lemma index_past_the_end :
  int64_of_f32 (f32_mul f32_1 (f32_of_size (2 ^ 24 + 4 - 1))) = Ret (2 ^ 24 + 4).
Proof. vm_compute. reflexivity. Qed.

(** ** Examples *)

Definition some_observations : list observation :=
  [Observe 5; Observe 1; Observe 5; Observe 9; Forget 5; Forget 7; Observe 2].

Lemma percentile_filter_refines_witness :
  wp (f ← PercentileFilter_new f32_half; filter_run f some_observations) (λ '(bs, f),
    bs = [true; true; true; true; true; false; true]
    ∧ GetPercentileValue f = percentile_of f32_half [2; 9; 1; 5]
    ∧ ∃ x, GetPercentileValue f = Ret x).
Proof.
  apply (percentile_filter_refines f32_half some_observations).
  - vm_compute. reflexivity.
  - vm_compute. discriminate.
Defined.

Lemma moving_median_refines_witness :
  wp (m ← MovingMedianFilter_new 3;
      median_run m [Some 4; None; Some 8; Some 1; Some 9; Some 3]) (λ m,
    GetFilteredValue m = Ret 3).
Proof.
  apply (moving_median_refines 3 [Some 4; None; Some 8; Some 1; Some 9; Some 3]).
  reflexivity.
Defined.
