(* ===== verification/AvCommon.v ===== *)
(** Clipping, saturation and character encodings of FFmpeg
    (libs/ffmpeg/include/libavutil/common.h), for the integer types.

    [int] has 32 bits and its right shift is arithmetic.  [av_log2] is declared
    by the header and defined in the library; it is a parameter. *)

From S2P Require Import Prelude.
From S2P Require Import SafeNumerics.
From S2P Require Import ByteIO.

Definition u32 (x : Z) : Z := convert uint32_t x.
Definition i64_add (a b : Z) : outcome Z :=
  if (lowest int64_t <=? a + b) && (a + b <=? max int64_t)
  then Ret (a + b) else Undef SignedOverflow.

(** ** Macros *)

Definition ROUNDED_DIV (a b : Z) : outcome Z :=
  h ← i32_ret (if 0 <? a then a + Z.shiftr b 1 else a - Z.shiftr b 1);
  i32_div h b.
Definition RSHIFT (a b : Z) : outcome Z :=
  one ← shift_left int32_t 1 b;
  if 0 <? a then s ← i32_ret (a + Z.shiftr one 1); Ret (Z.shiftr s b)
  else s ← i32_ret (a + Z.shiftr one 1); s ← i32_ret (s - 1); Ret (Z.shiftr s b).
Definition FFUDIV (a b : Z) : outcome Z :=
  n ← (if 0 <? a then Ret a else d ← i32_ret (a - b); i32_ret (d + 1));
  i32_div n b.
Definition FFUMOD (a b : Z) : outcome Z :=
  q ← FFUDIV a b; p ← i32_mul b q; i32_ret (a - p).
Definition FFABS (a : Z) : outcome Z := if 0 <=? a then Ret a else i32_ret (- a).
Definition FFSIGN (a : Z) : Z := if 0 <? a then 1 else -1.
Definition FFNABS (a : Z) : outcome Z := if a <=? 0 then Ret a else i32_ret (- a).
Definition FFDIFFSIGN (x y : Z) : Z := Z.b2z (y <? x) - Z.b2z (x <? y).
Definition FFMAX (a b : Z) : Z := if b <? a then a else b.
Definition FFMAX3 (a b c : Z) : Z := FFMAX (FFMAX a b) c.
Definition FFMIN (a b : Z) : Z := if b <? a then b else a.
Definition FFMIN3 (a b c : Z) : Z := FFMIN (FFMIN a b) c.

(** ** Clipping *)

Definition av_clip_c (a amin amax : Z) : Z :=
  if a <? amin then amin else if amax <? a then amax else a.
Definition av_clip64_c (a amin amax : Z) : Z :=
  if a <? amin then amin else if amax <? a then amax else a.

Definition av_clip_uint8_c (a : Z) : outcome Z :=
  if negb (Z.land a (Z.lnot 255) =? 0)
  then n ← i32_ret (- a); Ret (convert uint8_t (Z.shiftr n 31))
  else Ret (convert uint8_t a).
Definition av_clip_int8_c (a : Z) : Z :=
  if negb (Z.land (u32 (u32 a + 128)) (u32 (Z.lnot 255)) =? 0)
  then convert int8_t (Z.lxor (Z.shiftr a 31) 127) else convert int8_t a.
Definition av_clip_uint16_c (a : Z) : outcome Z :=
  if negb (Z.land a (Z.lnot 65535) =? 0)
  then n ← i32_ret (- a); Ret (convert uint16_t (Z.shiftr n 31))
  else Ret (convert uint16_t a).
Definition av_clip_int16_c (a : Z) : Z :=
  if negb (Z.land (u32 (u32 a + 32768)) (u32 (Z.lnot 65535)) =? 0)
  then convert int16_t (Z.lxor (Z.shiftr a 31) 32767) else convert int16_t a.

(** The sum is an [int64_t], then an operand of a [uint64_t] [&]. *)
Definition av_clipl_int32_c (a : Z) : outcome Z :=
  s ← i64_add a 2147483648;
  if negb (Z.land (convert uint64_t s) (convert uint64_t (Z.lnot 4294967295)) =? 0)
  then Ret (convert int32_t (Z.lxor (Z.shiftr a 63) 2147483647))
  else Ret (convert int32_t a).

Definition av_clip_intp2_c (a p : Z) : outcome Z :=
  one ← shift_left int32_t 1 p;
  two ← shift_left int32_t 2 p; m ← i32_ret (two - 1);
  if negb (Z.land (u32 (u32 a + u32 one)) (u32 (Z.lnot m)) =? 0)
  then m1 ← i32_ret (one - 1); Ret (Z.lxor (Z.shiftr a 31) m1)
  else Ret a.
Definition av_clip_uintp2_c (a p : Z) : outcome Z :=
  one ← shift_left int32_t 1 p; m ← i32_ret (one - 1);
  if negb (Z.land a (Z.lnot m) =? 0)
  then n ← i32_ret (- a); Ret (u32 (Z.land (Z.shiftr n 31) m))
  else Ret (u32 a).
Definition av_mod_uintp2_c (a p : Z) : outcome Z :=
  one ← shift_left int32_t 1 p; m ← i32_ret (one - 1); Ret (Z.land a (u32 m)).

(** ** Saturating sums *)

Definition av_sat_add32_c (a b : Z) : outcome Z :=
  s ← i64_add a b; av_clipl_int32_c s.
Definition av_sat_dadd32_c (a b : Z) : outcome Z :=
  d ← av_sat_add32_c b b; av_sat_add32_c a d.

(** ** Bit counts *)

Definition av_popcount_c (x : Z) : Z :=
  let x := u32 (x - Z.land (Z.shiftr x 1) 0x55555555) in
  let x := u32 (Z.land x 0x33333333 + Z.land (Z.shiftr x 2) 0x33333333) in
  let x := Z.land (u32 (x + Z.shiftr x 4)) 0x0F0F0F0F in
  let x := u32 (x + Z.shiftr x 8) in
  Z.land (u32 (x + Z.shiftr x 16)) 0x3F.
Definition av_popcount64_c (x : Z) : Z :=
  av_popcount_c (u32 x) + av_popcount_c (u32 (Z.shiftr x 32)).
Definition av_parity_c (v : Z) : Z := Z.land (av_popcount_c v) 1.

(** ** Character encodings

    [GET_BYTE] takes the next element of a list; [Ret None] is the [ERROR]
    statement, otherwise the value comes with the rest of the input. *)

Definition get_unit (input : list Z) : outcome (Z * list Z) :=
  match input with [] => Undef OutOfBounds | b :: input => Ret (b, input) end.

(** [while (val & top)]: [top] is shifted out after at most six turns. *)
Fixpoint get_utf8_loop (fuel : nat) (val top : Z) (input : list Z)
    : outcome (option (Z * Z * list Z)) :=
  match fuel with
  | O => NoFuel
  | S fuel =>
      if negb (Z.land val top =? 0) then
        '(b, input) ← get_unit input;
        let tmp := b - 128 in
        if negb (Z.shiftr tmp 6 =? 0) then Ret None
        else get_utf8_loop fuel (u32 (u32 (Z.shiftl val 6) + u32 tmp))
               (u32 (Z.shiftl top 5)) input
      else Ret (Some (val, top, input))
  end.

Definition GET_UTF8 (input : list Z) : outcome (option (Z * list Z)) :=
  '(val, input) ← get_unit input;
  let top := Z.shiftr (Z.land val 128) 1 in
  if (Z.land val 0xc0 =? 0x80) || (0xFE <=? val) then Ret None else
  r ← get_utf8_loop 8 val top input;
  match r with
  | None => Ret None
  | Some (val, top, input) =>
      Ret (Some (Z.land val (u32 (u32 (Z.shiftl top 1) - 1)), input))
  end.

Definition GET_UTF16 (input : list Z) : outcome (option (Z * list Z)) :=
  '(val, input) ← get_unit input;
  let hi := u32 (val - 0xD800) in
  if hi <? 0x800 then
    '(v, input) ← get_unit input;
    let val := u32 (v - 0xDC00) in
    if (0x3FF <? val) || (0x3FF <? hi) then Ret None
    else Ret (Some (u32 (val + u32 (u32 (Z.shiftl hi 10) + 0x10000)), input))
  else Ret (Some (val, input)).

(** [in >> shift] on [uint32_t]. *)
Definition shift_right_u32 (x k : Z) : outcome Z :=
  if (0 <=? k) && (k <? 32) then Ret (Z.shiftr x k) else Undef BadShift.

Fixpoint put_utf8_loop (fuel : nat) (inp shift : Z) : outcome (list Z) :=
  match fuel with
  | O => NoFuel
  | S fuel =>
      if 6 <=? shift then
        let shift := shift - 6 in
        x ← shift_right_u32 inp shift;
        let tmp := convert uint8_t (Z.lor 0x80 (Z.land x 0x3f)) in
        rest ← put_utf8_loop fuel inp shift; Ret (tmp :: rest)
      else Ret []
  end.

Definition PUT_UTF8 (av_log2 : Z → Z) (val : Z) : outcome (list Z) :=
  let inp := u32 val in
  if inp <? 0x80 then Ret [convert uint8_t inp] else
  let bytes := Z.quot (av_log2 inp + 4) 5 in
  let shift := (bytes - 1) * 6 in
  x ← shift_right_u32 inp shift;
  let tmp := convert uint8_t (Z.lor (256 - Z.shiftr 256 bytes) x) in
  rest ← put_utf8_loop 8 inp shift; Ret (tmp :: rest).

Definition PUT_UTF16 (val : Z) : list Z :=
  let inp := u32 val in
  if inp <? 0x10000 then [convert uint16_t inp] else
  [convert uint16_t (Z.lor 0xD800 (Z.shiftr (u32 (inp - 0x10000)) 10));
   convert uint16_t (Z.lor 0xDC00 (Z.land (u32 (inp - 0x10000)) 0x3FF))].

Example euro : PUT_UTF8 Z.log2 0x20AC = Ret [0xE2; 0x82; 0xAC].
Proof. reflexivity. Qed.
Example euro_back : GET_UTF8 [0xE2; 0x82; 0xAC; 1] = Ret (Some (0x20AC, [1])).
Proof. reflexivity. Qed.
Example clips :
  (av_clip_uint8_c 300, av_clip_uint8_c (-4), av_clip_int8_c (-200),
   av_clipl_int32_c (2 ^ 40), av_clip_intp2_c 100 5, av_clip_uintp2_c (-1) 5)
  = (Ret 255, Ret 0, -128, Ret (2 ^ 31 - 1), Ret 31, Ret 0).
Proof. reflexivity. Qed.
Example popcounts : map av_popcount_c [0; 255; 2 ^ 32 - 1; 0x80000001] = [0; 8; 32; 2].
Proof. reflexivity. Qed.

(** ** Lemmas *)

Lemma u32_mod x : u32 x = x mod 2 ^ 32.
Proof. unfold u32, convert. cbn [lowest is_signed sizeof]. by rewrite Z.sub_0_r, Z.add_0_r. Qed.

Lemma high_bits n x :
  0 ≤ n → (Z.land x (Z.lnot (2 ^ n - 1)) =? 0) = (0 <=? x) && (x <? 2 ^ n).
Proof.
  intros Hn. rewrite <- Z.ldiff_land.
  replace (2 ^ n - 1) with (Z.ones n) by (rewrite Z.ones_equiv; lia).
  rewrite Z.ldiff_ones_r, Z.shiftr_div_pow2, Z.shiftl_mul_pow2 by done.
  assert (0 < 2 ^ n) by (apply Z.pow_pos_nonneg; lia).
  pose proof (Z.div_mod x (2 ^ n) ltac:(lia)).
  pose proof (Z.mod_pos_bound x (2 ^ n) ltac:(lia)).
  destruct (Z.eqb_spec (x / 2 ^ n * 2 ^ n) 0) as [He|He]; symmetry.
  - apply andb_true_iff. split; nia.
  - apply not_true_iff_false. intros [Hx0 Hx]%andb_true_iff. apply He.
    rewrite Z.div_small by lia. lia.
Qed.

Lemma land_u32 x m : 0 ≤ x < 2 ^ 32 → Z.land x (u32 m) = Z.land x m.
Proof.
  intros Hx. rewrite u32_mod, <- Z.land_ones by done.
  rewrite (Z.land_comm m), Z.land_assoc, Z.land_ones by done.
  by rewrite Z.mod_small.
Qed.

Lemma sign_shift n x :
  0 ≤ n → - 2 ^ n ≤ x < 2 ^ n → Z.shiftr x n = if x <? 0 then -1 else 0.
Proof.
  intros Hn Hx. rewrite Z.shiftr_div_pow2 by done.
  destruct (Z.ltb_spec x 0); symmetry.
  - apply Z.div_unique with (x + 2 ^ n); lia.
  - apply Z.div_unique with x; lia.
Qed.

(** Unfolding the comparisons of a clamp. *)
Ltac clip_cases :=
  unfold clamp, i32_min, i32_max in *;
  repeat match goal with
  | |- context [?x <? ?y] => destruct (Z.ltb_spec x y)
  | |- context [?x <=? ?y] => destruct (Z.leb_spec x y)
  | |- context [?x =? ?y] => destruct (Z.eqb_spec x y)
  end; cbn [andb negb mbind outcome_bind].

Lemma clip_uint_exact t n a :
  is_i32 a → 0 ≤ n < 31 → lowest t = 0 → max t = 2 ^ n - 1 →
  (if negb (Z.land a (Z.lnot (2 ^ n - 1)) =? 0)
   then m ← i32_ret (- a); Ret (convert t (Z.shiftr m 31))
   else Ret (convert t a)) =
  if a =? i32_min then Undef SignedOverflow else Ret (clamp 0 (2 ^ n - 1) a).
Proof.
  intros Ha Hn Hlo Hhi. rewrite high_bits by lia. unfold is_i32 in Ha.
  assert (0 < 2 ^ n < 2 ^ 31) as Hp
    by (split; [apply Z.pow_pos_nonneg; lia|apply Z.pow_lt_mono_r; lia]).
  destruct (Z.eqb_spec a i32_min) as [->|Hne].
  - unfold i32_min. replace (0 <=? - 2 ^ 31) with false by lia. done.
  - rewrite i32_ret_ok by (unfold_i32; lia). cbn [mbind outcome_bind].
    rewrite sign_shift by (unfold_i32; lia).
    assert (convert t (-1) = 2 ^ n - 1) as Hm1.
    { rewrite <- Hhi. unfold convert. rewrite Hlo.
      pose proof (lowest_max t). rewrite Hlo, Hhi in *.
      replace (2 ^ (sizeof t * 8)) with (2 ^ n) by lia.
      symmetry. rewrite Z.add_0_r. apply Z.mod_unique with (-1); lia. }
    clip_cases; rewrite ?convert_id by (unfold has_type; lia); f_equal; lia.
Qed.

Lemma clip_sint_exact t n a :
  is_i32 a → 0 ≤ n < 31 → lowest t = - 2 ^ n → max t = 2 ^ n - 1 →
  (if negb (Z.land (u32 (u32 a + 2 ^ n)) (u32 (Z.lnot (2 ^ (n + 1) - 1))) =? 0)
   then convert t (Z.lxor (Z.shiftr a 31) (2 ^ n - 1)) else convert t a) =
  clamp (- 2 ^ n) (2 ^ n - 1) a.
Proof.
  intros Ha Hn Hlo Hhi. unfold is_i32 in Ha.
  assert (0 < 2 ^ n < 2 ^ 31) as Hp
    by (split; [apply Z.pow_pos_nonneg; lia|apply Z.pow_lt_mono_r; lia]).
  rewrite land_u32 by (rewrite u32_mod; apply Z.mod_pos_bound; lia).
  rewrite high_bits, sign_shift by (unfold_i32; lia).
  assert (u32 (u32 a + 2 ^ n) = (a + 2 ^ n) mod 2 ^ 32) as ->
    by (rewrite !u32_mod; apply Zplus_mod_idemp_l).
  rewrite Z.pow_add_r by lia. change (2 ^ 1) with 2.
  assert ((0 <=? (a + 2 ^ n) mod 2 ^ 32) && ((a + 2 ^ n) mod 2 ^ 32 <? 2 ^ n * 2)
    = (- 2 ^ n <=? a) && (a <=? 2 ^ n - 1)) as ->.
  { unfold_i32. destruct (Z.ltb_spec a (- 2 ^ n)).
    - replace ((a + 2 ^ n) mod 2 ^ 32) with (a + 2 ^ n + 2 ^ 32)
        by (apply Z.mod_unique with (-1); lia). lia.
    - rewrite Z.mod_small by lia. lia. }
  clip_cases; rewrite ?Z.lxor_m1_l, ?Z.lxor_0_l; unfold Z.lnot;
    rewrite ?convert_id by (unfold has_type; lia); lia.
Qed.

Lemma shift_left_int c p :
  0 ≤ p < 32 → 0 ≤ c → c * 2 ^ p < 2 ^ 31 →
  shift_left int32_t c p = Ret (c * 2 ^ p).
Proof.
  intros Hp Hc Hr. unfold shift_left. rewrite Z.shiftl_mul_pow2 by lia.
  assert (0 ≤ c * 2 ^ p)
    by (apply Z.mul_nonneg_nonneg; [done|apply Z.pow_nonneg; lia]).
  cbn [is_signed sizeof make_unsigned].
  replace ((0 <=? p) && (p <? 4 * 8)) with true by lia.
  replace (_ && negb _) with false; [|symmetry].
  - rewrite convert_id; [done|]. limits.
  - change (max uint32_t) with (2 ^ 32 - 1). cbn [andb].
    apply negb_false_iff, andb_true_iff. split; lia.
Qed.

Lemma clipl_exact a :
  has_type int64_t a →
  av_clipl_int32_c a =
    if a <=? max int64_t - 2 ^ 31 then Ret (clamp i32_min i32_max a)
    else Undef SignedOverflow.
Proof.
  intros Ha. unfold av_clipl_int32_c, i64_add. unfold has_type in Ha.
  change (lowest int64_t) with (- 2 ^ 63) in *.
  change (max int64_t) with (2 ^ 63 - 1) in *.
  destruct (Z.leb_spec a (2 ^ 63 - 1 - 2 ^ 31)) as [Hle|Hgt];
    [|by replace ((_ <=? _) && _) with false by lia].
  replace ((- 2 ^ 63 <=? a + 2147483648) && (a + 2147483648 <=? 2 ^ 63 - 1))
    with true by lia. cbn [mbind outcome_bind].
  assert (∀ x, convert uint64_t x = x mod 2 ^ 64) as Hu.
  { intros x. unfold convert. cbn [lowest is_signed sizeof].
    by rewrite Z.sub_0_r, Z.add_0_r. }
  rewrite !Hu. rewrite <- (Z.land_ones (Z.lnot _)) by done.
  rewrite (Z.land_comm (Z.lnot _)), Z.land_assoc, Z.land_ones by done.
  rewrite Z.mod_mod by done. change 4294967295 with (2 ^ 32 - 1).
  rewrite high_bits, sign_shift by lia.
  replace ((0 <=? (a + 2147483648) mod 2 ^ 64) && ((a + 2147483648) mod 2 ^ 64 <? 2 ^ 32))
    with ((- 2 ^ 31 <=? a) && (a <=? 2 ^ 31 - 1)).
  2: { destruct (Z.ltb_spec a (- 2 ^ 31)).
       - replace ((a + 2147483648) mod 2 ^ 64) with (a + 2147483648 + 2 ^ 64)
           by (apply Z.mod_unique with (-1); lia). lia.
       - rewrite Z.mod_small by lia. lia. }
  change 2147483647 with (2 ^ 31 - 1).
  clip_cases; rewrite ?Z.lxor_m1_l, ?Z.lxor_0_l; unfold Z.lnot;
    rewrite ?convert_id by limits; f_equal; lia.
Qed.

(** ** UTF-8 *)

Lemma land_bit k x : 0 ≤ k → (Z.land x (2 ^ k) =? 0) = ((x / 2 ^ k) mod 2 =? 0).
Proof.
  intros Hk. rewrite <- Z.testbit_spec' by done.
  assert (Z.land x (2 ^ k) = if Z.testbit x k then 2 ^ k else 0) as ->.
  { apply Z.bits_inj'. intros i Hi. rewrite Z.land_spec.
    destruct (decide (i = k)) as [->|Hne].
    - rewrite Z.pow2_bits_true, andb_true_r by done.
      destruct (Z.testbit x k); [by rewrite Z.pow2_bits_true|by rewrite Z.bits_0].
    - rewrite Z.pow2_bits_false, andb_false_r by done.
      destruct (Z.testbit x k); [by rewrite Z.pow2_bits_false|by rewrite Z.bits_0]. }
  assert (0 < 2 ^ k) by (apply Z.pow_pos_nonneg; lia).
  destruct (Z.testbit x k); cbn; lia.
Qed.

(** One turn of the decoding loop on a continuation byte. *)
Lemma get_utf8_step fuel val k q input :
  0 ≤ k → (val / 2 ^ k) mod 2 = 1 → 0 ≤ q < 64 →
  get_utf8_loop (S fuel) val (2 ^ k) (128 + q :: input) =
  get_utf8_loop fuel ((val * 64 + q) mod 2 ^ 32) (2 ^ (k + 5) mod 2 ^ 32) input.
Proof.
  intros Hk Hbit Hq. cbn [get_utf8_loop]. rewrite land_bit, Hbit by done.
  cbn [negb Z.eqb get_unit mbind outcome_bind].
  replace (128 + q - 128) with q by lia.
  replace (Z.shiftr q 6) with 0 by (rewrite Z.shiftr_div_pow2 by lia; dlia).
  cbn [negb Z.eqb]. rewrite !u32_mod, !Z.shiftl_mul_pow2 by lia.
  change (2 ^ 6) with 64. rewrite <- Zplus_mod.
  by rewrite <- Z.pow_add_r by lia.
Qed.

Lemma get_utf8_stop fuel val k input :
  0 ≤ k → (val / 2 ^ k) mod 2 = 0 →
  get_utf8_loop (S fuel) val (2 ^ k) input = Ret (Some (val, 2 ^ k, input)).
Proof.
  intros Hk Hbit. cbn [get_utf8_loop]. by rewrite land_bit, Hbit by done.
Qed.

(** The six bits of [v] from bit [s]. *)
Definition sextet (v s : Z) : Z := (v / 2 ^ s) mod 64.

Lemma sextet_range v s : 0 ≤ sextet v s < 64.
Proof. apply Z.mod_pos_bound. lia. Qed.

Lemma put_utf8_step fuel v s :
  0 ≤ s < 32 →
  put_utf8_loop (S fuel) v (s + 6) =
  (rest ← put_utf8_loop fuel v s; Ret (128 + sextet v s :: rest)).
Proof.
  intros Hs. cbn [put_utf8_loop]. replace (6 <=? s + 6) with true by lia.
  replace (s + 6 - 6) with s by lia. unfold shift_right_u32.
  replace ((0 <=? s) && (s <? 32)) with true by lia. cbn [mbind outcome_bind].
  change 63 with (Z.ones 6). rewrite Z.land_ones, Z.shiftr_div_pow2 by lia.
  change (2 ^ 6) with 64. fold (sextet v s). pose proof (sextet_range v s).
  rewrite (lor_disjoint 7) by (done || lia).
  rewrite convert_id; [done|]. limits.
Qed.

Lemma put_utf8_stop fuel v : put_utf8_loop (S fuel) v 0 = Ret [].
Proof. done. Qed.

(** The [m] continuation bytes of [v]. *)
Fixpoint continuation (m : nat) (v : Z) : list Z :=
  match m with
  | O => []
  | S m => 128 + sextet v (6 * Z.of_nat m) :: continuation m v
  end.

Lemma put_utf8_continuation m fuel v :
  (m < fuel)%nat → (m ≤ 5)%nat →
  put_utf8_loop fuel v (6 * Z.of_nat m) = Ret (continuation m v).
Proof.
  revert fuel. induction m as [|m IH]; intros [|fuel] Hf Hm; try lia; [done|].
  replace (6 * Z.of_nat (S m)) with (6 * Z.of_nat m + 6) by lia.
  rewrite put_utf8_step by lia. by rewrite IH by lia.
Qed.

(** The values of [n] bytes, and their first byte. *)
Definition utf8_low (n : Z) : Z := if n =? 2 then 128 else 2 ^ (5 * n - 4).
Definition lead (n v : Z) : Z := 256 - 2 ^ (8 - n) + v / 2 ^ (6 * (n - 1)).

Lemma put_utf8_bytes av_log2 n v :
  (∀ x, 0 < x < 2 ^ 32 → av_log2 x = Z.log2 x) →
  (2 ≤ n ≤ 6)%nat → utf8_low (Z.of_nat n) ≤ v < 2 ^ (5 * Z.of_nat n + 1) →
  PUT_UTF8 av_log2 v = Ret (lead (Z.of_nat n) v :: continuation (n - 1) v).
Proof.
  intros Hlog Hn Hv.
  assert (v < 2 ^ 32)
    by (eapply Z.lt_le_trans; [apply Hv|]; apply Z.pow_le_mono_r; lia).
  assert (128 ≤ v ∧ 2 ^ (5 * Z.of_nat n - 4) ≤ v) as [Hv1 Hv2].
  { destruct Hv as [Hv _]. revert Hv. unfold utf8_low.
    destruct (Z.eqb_spec (Z.of_nat n) 2) as [->|]; intros; [split; [done|lia]|].
    split; [|done]. etransitivity; [|done]. apply (Z.pow_le_mono_r 2 7); lia. }
  unfold PUT_UTF8. rewrite u32_mod, Z.mod_small by lia.
  replace (v <? 128) with false by lia. rewrite Hlog by lia.
  assert (5 * Z.of_nat n - 4 ≤ Z.log2 v) by (apply Z.log2_le_pow2; lia).
  assert (Z.log2 v < 5 * Z.of_nat n + 1) by (apply Z.log2_lt_pow2; lia).
  replace (Z.quot (Z.log2 v + 4) 5) with (Z.of_nat n) by dlia.
  replace ((Z.of_nat n - 1) * 6) with (6 * Z.of_nat (n - 1)) by lia.
  rewrite put_utf8_continuation by lia.
  unfold shift_right_u32.
  rewrite (proj2 (Z.leb_le 0 _)), (proj2 (Z.ltb_lt _ 32)) by lia.
  cbn [andb mbind outcome_bind]. do 2 f_equal. unfold lead.
  replace (6 * (Z.of_nat n - 1)) with (6 * Z.of_nat (n - 1)) by lia.
  rewrite !Z.shiftr_div_pow2 by lia. change 256 with (2 ^ 8).
  rewrite <- Z.pow_sub_r by lia. change (2 ^ 8) with 256.
  assert (0 ≤ v / 2 ^ (6 * Z.of_nat (n - 1)) < 2 ^ (7 - Z.of_nat n)) as Hx.
  { assert (0 < 2 ^ (6 * Z.of_nat (n - 1))) by (apply Z.pow_pos_nonneg; lia).
    split; [apply Z.div_pos; lia|]. apply Z.div_lt_upper_bound; [done|].
    rewrite <- Z.pow_add_r by lia.
    replace (6 * Z.of_nat (n - 1) + (7 - Z.of_nat n)) with (5 * Z.of_nat n + 1) by lia.
    apply Hv. }
  assert (n = 2 ∨ n = 3 ∨ n = 4 ∨ n = 5 ∨ n = 6)%nat as Hcases by lia.
  clear - Hx Hcases. set (x := v / _) in *. clearbody x.
  destruct Hcases as [-> | [-> | [-> | [-> | ->]]]];
    match goal with |- context [8 - Z.of_nat ?n] =>
      replace_by_value (8 - Z.of_nat n) end;
    match type of Hx with context [7 - Z.of_nat ?n] =>
      let k := eval vm_compute in (7 - Z.of_nat n) in
      change (7 - Z.of_nat n) with k in Hx;
      rewrite (lor_disjoint k) by (done || lia)
    end;
    match goal with |- context [2 ^ ?k] => replace_by_value (2 ^ k) end;
    apply convert_id; limits.
Qed.

(** Reading the next six bits. *)
Lemma next_sextet v s : 0 ≤ s → v / 2 ^ (s + 6) * 64 + sextet v s = v / 2 ^ s.
Proof.
  intros Hs. unfold sextet. rewrite Z.pow_add_r, <- Z.div_div by lia.
  change (2 ^ 6) with 64. pose proof (Z.div_mod (v / 2 ^ s) 64). lia.
Qed.

Lemma decode_step fuel H v s k input :
  0 ≤ s → 0 ≤ k →
  ((H + v / 2 ^ (s + 6)) mod 2 ^ 32 / 2 ^ k) mod 2 = 1 →
  get_utf8_loop (S fuel) ((H + v / 2 ^ (s + 6)) mod 2 ^ 32) (2 ^ k)
    (128 + sextet v s :: input) =
  get_utf8_loop fuel ((64 * H + v / 2 ^ s) mod 2 ^ 32) (2 ^ (k + 5) mod 2 ^ 32) input.
Proof.
  intros Hs Hk Hbit.
  rewrite get_utf8_step by (done || apply sextet_range). f_equal.
  rewrite Zplus_mod, Zmult_mod_idemp_l, <- Zplus_mod. f_equal.
  rewrite <- (next_sextet v s) by done. lia.
Qed.

Lemma lead_class n v :
  (2 ≤ n ≤ 6)%nat → 0 ≤ v < 2 ^ (5 * Z.of_nat n + 1) →
  let L := lead (Z.of_nat n) v in
  0 ≤ L < 254 ∧ Z.land L 128 = 128 ∧ Z.land L 0xc0 ≠ 0x80.
Proof.
  intros Hn Hv L.
  assert (0 ≤ L < 254 ∧ (L / 2 ^ 7) mod 2 = 1 ∧ (L / 2 ^ 6) mod 2 = 1)
    as (HL & H7 & H6).
  { unfold L, lead. clear L.
    assert (n = 2 ∨ n = 3 ∨ n = 4 ∨ n = 5 ∨ n = 6)%nat as
      [-> | [-> | [-> | [-> | ->]]]] by lia;
    match goal with |- context [2 ^ (8 - ?k)] => replace_by_value (2 ^ (8 - k)) end;
    match goal with |- context [2 ^ (6 * ?k)] => replace_by_value (2 ^ (6 * k)) end;
    match type of Hv with context [2 ^ ?k] =>
      let w := eval vm_compute in (2 ^ k) in change (2 ^ k) with w in Hv end;
    eval_pow; dlia. }
  split; [done|].
  pose proof (land_bit 7 L ltac:(done)) as E7. rewrite H7 in E7.
  pose proof (land_bit 6 L ltac:(done)) as E6. rewrite H6 in E6.
  split.
  - change 128 with (2 ^ 7). apply Z.bits_inj'. intros i Hi. rewrite Z.land_spec.
    destruct (decide (i = 7)) as [->|Hne].
    + rewrite Z.pow2_bits_true, andb_true_r by done.
      apply Z.testbit_true; done.
    + rewrite Z.pow2_bits_false by done. apply andb_false_r.
  - intros Hc. assert (Z.testbit (Z.land L 192) 6 = false) as Hb by (by rewrite Hc).
    rewrite Z.land_spec in Hb. apply andb_false_iff in Hb as [Hb|Hb]; [|done].
    apply Z.testbit_false in Hb; [|done]. lia.
Qed.

Ltac utf8_numbers Hv :=
  repeat match goal with
  | |- context [2 ^ (8 - ?k)] => replace_by_value (2 ^ (8 - k))
  | |- context [6 * ?k] => replace_by_value (6 * k)
  end;
  match type of Hv with context [2 ^ ?k] =>
    let w := eval vm_compute in (2 ^ k) in change (2 ^ k) with w in Hv end.

Lemma get_utf8_bytes n v input :
  (2 ≤ n ≤ 6)%nat → 0 ≤ v < 2 ^ (5 * Z.of_nat n + 1) →
  GET_UTF8 (lead (Z.of_nat n) v :: continuation (n - 1) v ++ input) =
    Ret (Some (v, input)).
Proof.
  intros Hn Hv. destruct (lead_class n v Hn Hv) as (HL & H7 & H6).
  unfold GET_UTF8. cbn [get_unit mbind outcome_bind]. rewrite H7.
  rewrite (proj2 (Z.eqb_neq _ _) H6), (proj2 (Z.leb_gt _ _)) by lia.
  cbn [orb]. change (Z.shiftr 128 1) with (2 ^ 6).
  rewrite <- (Z.mod_small (lead (Z.of_nat n) v) (2 ^ 32)) by lia.
  clear HL H7 H6. unfold lead.
  assert (n = 2 ∨ n = 3 ∨ n = 4 ∨ n = 5 ∨ n = 6)%nat as
    [-> | [-> | [-> | [-> | ->]]]] by lia;
  cbn [Nat.sub continuation app];
  utf8_numbers Hv;
  repeat
    (match goal with
     | |- context [get_utf8_loop _ ((?H + v / 2 ^ ?s) mod _) _ (128 + sextet v ?s' :: _)] =>
         change (v / 2 ^ s) with (v / 2 ^ (s' + 6));
         rewrite (decode_step _ H v s') by (try done; cbn [Z.add Pos.add Pos.succ]; eval_pow; dlia)
     end;
     match goal with
     | |- context [2 ^ (?k + 5) mod 2 ^ 32] =>
         change (2 ^ (k + 5) mod 2 ^ 32) with (2 ^ (k + 5));
         replace_by_value (k + 5)
     end);
  rewrite get_utf8_stop by (try done; eval_pow; dlia);
  cbn [mbind outcome_bind]; do 3 f_equal;
  match goal with |- context [u32 (u32 ?a - 1)] =>
    replace_by_value (u32 (u32 a - 1)) end.
  - change 4095 with (Z.ones 12). rewrite Z.land_ones by done. eval_pow. dlia.
  - change 131071 with (Z.ones 17). rewrite Z.land_ones by done. eval_pow. dlia.
  - change 4194303 with (Z.ones 22). rewrite Z.land_ones by done. eval_pow. dlia.
  - change 134217727 with (Z.ones 27). rewrite Z.land_ones by done. eval_pow. dlia.
  - change 4294967295 with (Z.ones 32). rewrite Z.land_ones by done. eval_pow. dlia.
Qed.

Ltac utf8_class :=
  split; [lia|];
  match goal with |- context [utf8_low ?n] => replace_by_value (utf8_low n) end;
  match goal with |- context [5 * ?k + 1] => replace_by_value (5 * k + 1) end; lia.

Lemma utf8_length v :
  128 ≤ v < 2 ^ 31 → ∃ n : nat, (2 ≤ n ≤ 6)%nat ∧
    utf8_low (Z.of_nat n) ≤ v < 2 ^ (5 * Z.of_nat n + 1).
Proof.
  intros Hv.
  destruct (Z.lt_ge_cases v (2 ^ 11)); [exists 2%nat; utf8_class|].
  destruct (Z.lt_ge_cases v (2 ^ 16)); [exists 3%nat; utf8_class|].
  destruct (Z.lt_ge_cases v (2 ^ 21)); [exists 4%nat; utf8_class|].
  destruct (Z.lt_ge_cases v (2 ^ 26)); [exists 5%nat; utf8_class|].
  exists 6%nat; utf8_class.
Qed.

Lemma length_continuation m v : length (continuation m v) = m.
Proof. induction m; cbn; congruence. Qed.

Lemma continuation_bytes m v : Forall is_byte (continuation m v).
Proof.
  induction m as [|m IH]; constructor; [|done].
  pose proof (sextet_range v (6 * Z.of_nat m)). unfold is_byte. lia.
Qed.

Lemma get_utf8_ascii v input :
  0 ≤ v < 128 → GET_UTF8 (v :: input) = Ret (Some (v, input)).
Proof.
  intros Hv.
  assert (Z.land v 128 = 0) as H7.
  { pose proof (land_bit 7 v ltac:(done)) as E. rewrite Z.div_small in E by lia.
    apply Z.eqb_eq. change 128 with (2 ^ 7). by rewrite E. }
  assert (Z.land v 0xc0 ≠ 0x80) as H6.
  { intros Hc. assert (Z.testbit (Z.land v 192) 7 = true) as Hb by (by rewrite Hc).
    rewrite Z.land_spec in Hb. apply andb_true_iff in Hb as [Hb _].
    apply Z.testbit_true in Hb; [|done]. rewrite Z.div_small in Hb by lia. done. }
  unfold GET_UTF8. cbn [get_unit mbind outcome_bind].
  rewrite (proj2 (Z.eqb_neq _ _) H6), (proj2 (Z.leb_gt _ _)) by lia.
  rewrite H7. cbn [orb]. change (Z.shiftr 0 1) with 0.
  cbn [get_utf8_loop]. rewrite Z.land_0_r. cbn [Z.eqb negb mbind outcome_bind].
  change (u32 (u32 (Z.shiftl 0 1) - 1)) with (Z.ones 32).
  rewrite Z.land_ones by done.
  rewrite Z.mod_small by lia. done.
Qed.

(** The power-of-two clips. *)
Lemma pow_small p : 0 ≤ p ≤ 30 → 0 < 2 ^ p ≤ 2 ^ 30.
Proof. intros. split; [apply Z.pow_pos_nonneg; lia|apply Z.pow_le_mono_r; lia]. Qed.

Lemma clip_intp2_exact a p :
  is_i32 a → 0 ≤ p ≤ 29 →
  av_clip_intp2_c a p = Ret (clamp (- 2 ^ p) (2 ^ p - 1) a).
Proof.
  intros Ha Hp. unfold av_clip_intp2_c. pose proof (pow_small p ltac:(lia)).
  assert (2 ^ (p + 1) = 2 * 2 ^ p) as Hp1 by (rewrite Z.pow_add_r by lia; lia).
  pose proof (pow_small (p + 1) ltac:(lia)).
  rewrite !shift_left_int by lia. cbn [mbind outcome_bind].
  rewrite !Z.mul_1_l, !i32_ret_ok by (unfold_i32; lia). cbn [mbind outcome_bind].
  rewrite <- Hp1. unfold is_i32 in Ha.
  rewrite land_u32 by (rewrite u32_mod; apply Z.mod_pos_bound; lia).
  rewrite high_bits, sign_shift by (unfold_i32; lia).
  assert (u32 (u32 a + u32 (2 ^ p)) = (a + 2 ^ p) mod 2 ^ 32) as ->
    by (rewrite !u32_mod; by rewrite <- Zplus_mod).
  assert ((0 <=? (a + 2 ^ p) mod 2 ^ 32) && ((a + 2 ^ p) mod 2 ^ 32 <? 2 ^ (p + 1))
    = (- 2 ^ p <=? a) && (a <=? 2 ^ p - 1)) as ->.
  { unfold_i32. destruct (Z.ltb_spec a (- 2 ^ p)).
    - replace ((a + 2 ^ p) mod 2 ^ 32) with (a + 2 ^ p + 2 ^ 32)
        by (apply Z.mod_unique with (-1); lia). lia.
    - rewrite Z.mod_small by lia. lia. }
  clip_cases; rewrite ?Z.lxor_m1_l, ?Z.lxor_0_l; unfold Z.lnot; f_equal; lia.
Qed.

Lemma clip_uintp2_exact a p :
  is_i32 a → 0 ≤ p ≤ 30 →
  av_clip_uintp2_c a p =
    if a =? i32_min then Undef SignedOverflow else Ret (clamp 0 (2 ^ p - 1) a).
Proof.
  intros Ha Hp. unfold av_clip_uintp2_c. pose proof (pow_small p Hp).
  rewrite !shift_left_int by lia. cbn [mbind outcome_bind].
  rewrite !Z.mul_1_l, (i32_ret_ok (2 ^ p - 1)) by (unfold_i32; lia).
  cbn [mbind outcome_bind]. rewrite high_bits by lia. unfold is_i32 in Ha.
  destruct (Z.eqb_spec a i32_min) as [->|Hne].
  - unfold i32_min. replace (0 <=? - 2 ^ 31) with false by lia. done.
  - rewrite i32_ret_ok by (unfold_i32; lia). cbn [mbind outcome_bind].
    rewrite sign_shift by (unfold_i32; lia).
    clip_cases; rewrite ?Z.land_m1_l, ?Z.land_0_l, !u32_mod, ?Z.mod_small
      by (unfold_i32; lia); f_equal; lia.
Qed.

Lemma sat_add32_exact a b :
  is_i32 a → is_i32 b →
  av_sat_add32_c a b = Ret (clamp i32_min i32_max (a + b)).
Proof.
  intros Ha Hb. unfold av_sat_add32_c, i64_add. unfold_i32.
  change (lowest int64_t) with (- 2 ^ 63). change (max int64_t) with (2 ^ 63 - 1).
  replace ((_ <=? _) && _) with true by lia. cbn [mbind outcome_bind].
  rewrite clipl_exact by limits.
  change (max int64_t) with (2 ^ 63 - 1).
  by replace (a + b <=? _) with true by lia.
Qed.

(** ** Properties *)

(** C34: [GET_UTF8] is the inverse of [PUT_UTF8] below 2^31: the value is written
    as one to six bytes, and reading them from the front of any input gives the
    value and the rest of the input.  From 2^31 on, where the documentation
    announces seven bytes, the shift of [PUT_UTF8] is undefined. *)
Theorem utf8_roundtrip av_log2 v :
  (∀ x, 0 < x < 2 ^ 32 → av_log2 x = Z.log2 x) → 0 ≤ v < 2 ^ 32 →
  if v <? 2 ^ 31 then
    ∃ bytes, PUT_UTF8 av_log2 v = Ret bytes ∧ 1 ≤ lenZ bytes ≤ 6 ∧
      Forall is_byte bytes ∧
      ∀ input, GET_UTF8 (bytes ++ input) = Ret (Some (v, input))
  else PUT_UTF8 av_log2 v = Undef BadShift.
Proof.
  intros Hlog Hv. destruct (Z.ltb_spec v (2 ^ 31)).
  - destruct (Z.lt_ge_cases v 128).
    + exists [v]. split_and!; [|unfold lenZ; cbn; lia..| |].
      * unfold PUT_UTF8. rewrite u32_mod, Z.mod_small by lia.
        replace (v <? 128) with true by lia. by rewrite convert_id by limits.
      * constructor; [unfold is_byte; lia|constructor].
      * intros input. apply get_utf8_ascii. lia.
    + destruct (utf8_length v ltac:(lia)) as (n & Hn & Hlow & Hhigh).
      exists (lead (Z.of_nat n) v :: continuation (n - 1) v).
      destruct (lead_class n v Hn ltac:(lia)) as (HL & _).
      split_and!.
      * apply put_utf8_bytes; [exact Hlog|exact Hn|split; [exact Hlow|exact Hhigh]].
      * rewrite lenZ_cons. unfold lenZ. rewrite length_continuation. lia.
      * rewrite lenZ_cons. unfold lenZ. rewrite length_continuation. lia.
      * constructor; [unfold is_byte; lia|apply continuation_bytes].
      * intros input. apply get_utf8_bytes; [done|lia].
  - unfold PUT_UTF8. rewrite u32_mod, Z.mod_small by lia.
    replace (v <? 128) with false by lia. rewrite Hlog by lia.
    assert (Z.log2 v = 31) as -> by (apply Z.log2_unique; lia). done.
Qed.

Lemma utf8_roundtrip_witness :
  (∃ bytes, PUT_UTF8 Z.log2 0x1F3B5 = Ret bytes ∧ bytes = [0xF0; 0x9F; 0x8E; 0xB5]
    ∧ GET_UTF8 (bytes ++ [7]) = Ret (Some (0x1F3B5, [7]))) ∧
  PUT_UTF8 Z.log2 (2 ^ 31) = Undef BadShift.
Proof.
  split.
  - destruct (utf8_roundtrip Z.log2 0x1F3B5 (λ x _, eq_refl)
      ltac:(split; [vm_compute; discriminate|vm_compute; reflexivity]))
      as (bytes & Hput & _ & _ & Hget).
    exists bytes. split; [exact Hput|]. split; [|exact (Hget [7])].
    vm_compute in Hput. congruence.
  - exact (utf8_roundtrip Z.log2 (2 ^ 31) (λ x _, eq_refl)
      ltac:(split; [vm_compute; discriminate|vm_compute; reflexivity])).
Defined.

(** the bit tricks of the clipping functions compute the mathematical
    clamp: to 8 and 16 bits, to a power of two, of a 64-bit value to 32 bits,
    and of a sum to 32 bits; the exceptions are that the unsigned ones negate
    their argument, which is undefined for the least [int], and that the 64-bit
    one adds 2^31, which is undefined near the largest [int64_t]. *)
Theorem clips_exact a :
  is_i32 a →
  av_clip_int8_c a = clamp (- 2 ^ 7) (2 ^ 7 - 1) a ∧
  av_clip_int16_c a = clamp (- 2 ^ 15) (2 ^ 15 - 1) a ∧
  av_clip_uint8_c a =
    (if a =? i32_min then Undef SignedOverflow else Ret (clamp 0 (2 ^ 8 - 1) a)) ∧
  av_clip_uint16_c a =
    (if a =? i32_min then Undef SignedOverflow else Ret (clamp 0 (2 ^ 16 - 1) a)) ∧
  (∀ p, 0 ≤ p ≤ 29 → av_clip_intp2_c a p = Ret (clamp (- 2 ^ p) (2 ^ p - 1) a)) ∧
  (∀ p, 0 ≤ p ≤ 30 → av_clip_uintp2_c a p =
    (if a =? i32_min then Undef SignedOverflow else Ret (clamp 0 (2 ^ p - 1) a))) ∧
  (∀ b, is_i32 b → av_sat_add32_c a b = Ret (clamp i32_min i32_max (a + b))).
Proof.
  intros Ha. split_and!.
  - by apply (clip_sint_exact int8_t 7).
  - by apply (clip_sint_exact int16_t 15).
  - by apply (clip_uint_exact uint8_t 8).
  - by apply (clip_uint_exact uint16_t 16).
  - intros p Hp. by apply clip_intp2_exact.
  - intros p Hp. by apply clip_uintp2_exact.
  - intros b Hb. by apply sat_add32_exact.
Qed.

Lemma clips_exact_witness :
  av_clip_int8_c (-300) = -128 ∧ av_clip_uintp2_c 300 7 = Ret 127 ∧
  av_sat_add32_c (-300) i32_min = Ret i32_min.
Proof.
  destruct (clips_exact (-300) ltac:(split; vm_compute; discriminate))
    as (H8 & _ & _ & _ & _ & _ & Hs).
  destruct (clips_exact 300 ltac:(split; vm_compute; discriminate))
    as (_ & _ & _ & _ & _ & Hu & _).
  split; [rewrite H8; reflexivity|]. split.
  - rewrite (Hu 7 ltac:(split; vm_compute; discriminate)). reflexivity.
  - rewrite (Hs i32_min ltac:(split; vm_compute; discriminate)). reflexivity.
Defined.
