(* ===== verification/CircularDeque.v ===== *)
(** The double-ended queue in a circular buffer
    (libs/webrtc/include/base/containers/circular_deque.h and vector_buffer.h).

    A cell of the buffer is [None] while no object lives in it: reading it or
    destroying its object is undefined.  The element type is one whose moves
    leave an object that is destroyed.  Memory is supposed to suffice; so no
    buffer has more than 2^60 entries, no sum of the code wraps around, and
    indices are natural numbers. *)

From S2P Require Import Prelude.
From S2P Require Import Buffer.

(** [DCHECK] of base/logging.h: on in the builds that have it. *)
Definition DCHECK `{BuildConfig} (b : bool) (msg : string) : outcome unit :=
  RTC_DCHECK b msg.

(** ** VectorBuffer *)

Section VectorBuffer.
Context `{BuildConfig} {T : Type}.

Notation VectorBuffer := (list (option T)).

(** [VectorBuffer(count)] *)
Definition VectorBuffer_new (count : nat) : VectorBuffer := replicate count None.

Definition buffer_capacity (b : VectorBuffer) : nat := length b.

(** [buffer_[i]], for a live object. *)
Definition get_cell (b : VectorBuffer) (i : nat) : outcome T :=
  match b !! i with
  | Some (Some x) => Ret x
  | Some None => Undef Indeterminate
  | None => Undef OutOfBounds
  end.

(** [new (&buffer_[i]) T(x)] *)
Definition construct (b : VectorBuffer) (i : nat) (x : T) : outcome VectorBuffer :=
  if (i <? length b)%nat then Ret (<[i := Some x]> b) else Undef OutOfBounds.

(** [DestructRange(&buffer_[i], &buffer_[i + n])] *)
Fixpoint DestructCells (b : VectorBuffer) (i n : nat) : outcome VectorBuffer :=
  match n with
  | O => Ret b
  | S n => _ ← get_cell b i; DestructCells (<[i := None]> b) (S i) n
  end.

(** [MoveRange(&from[i], &from[i + n], &to[j])] of two buffers. *)
Fixpoint MoveRange (from : VectorBuffer) (i n : nat) (to : VectorBuffer) (j : nat)
    : outcome (VectorBuffer * VectorBuffer) :=
  match n with
  | O => Ret (from, to)
  | S n =>
      x ← get_cell from i; to ← construct to j x;
      MoveRange (<[i := None]> from) (S i) n to (S j)
  end.

(** ** circular_deque *)

Record circular_deque : Type := MkDeque {
  buffer_ : VectorBuffer;
  begin_ : nat;
  end_ : nat;
  generation_ : Z
}.

Definition kCircularBufferInitialCapacity : nat := 3.

Definition deque_empty_new : circular_deque := MkDeque [] 0 0 0.

Definition deque_capacity (d : circular_deque) : nat :=
  if (buffer_capacity (buffer_ d) =? 0)%nat then 0
  else buffer_capacity (buffer_ d) - 1.

Definition deque_empty (d : circular_deque) : bool := (begin_ d =? end_ d)%nat.

Definition deque_size (d : circular_deque) : nat :=
  if (begin_ d <=? end_ d)%nat then end_ d - begin_ d
  else buffer_capacity (buffer_ d) - begin_ d + end_ d.

(** Without checks there is no [generation_]; nothing reads it then. *)
Definition IncrementGeneration (d : circular_deque) : circular_deque :=
  MkDeque (buffer_ d) (begin_ d) (end_ d)
    (if dcheck_is_on then to_size_t (generation_ d + 1) else generation_ d).

(** *** Iterators *)

Record deque_iterator : Type := MkIterator {
  index_ : nat;
  created_generation_ : Z
}.

Definition deque_begin (d : circular_deque) : deque_iterator :=
  MkIterator (begin_ d) (generation_ d).
Definition deque_end (d : circular_deque) : deque_iterator :=
  MkIterator (end_ d) (generation_ d).

Definition CheckUnstableUsage (d : circular_deque) (i : deque_iterator)
    : outcome unit :=
  DCHECK (created_generation_ i =? generation_ d)
    "created_generation_ == parent_deque_->generation_".

Definition valid_index (d : circular_deque) (i : nat) : bool :=
  if (begin_ d <=? end_ d)%nat then (begin_ d <=? i)%nat && (i <? end_ d)%nat
  else ((begin_ d <=? i)%nat && (i <? buffer_capacity (buffer_ d))%nat)
       || (i <? end_ d)%nat.
Definition CheckValidIndex (d : circular_deque) (i : nat) : outcome unit :=
  DCHECK (valid_index d i) "index".
Definition CheckValidIndexOrEnd (d : circular_deque) (i : nat) : outcome unit :=
  if negb (i =? end_ d)%nat then CheckValidIndex d i else Ret tt.

(** [operator*] *)
Definition iterator_get (d : circular_deque) (i : deque_iterator) : outcome T :=
  _ ← CheckUnstableUsage d i; _ ← CheckValidIndex d (index_ i);
  get_cell (buffer_ d) (index_ i).

(** [operator++] and [operator--] *)
Definition Increment (d : circular_deque) (i : deque_iterator)
    : outcome deque_iterator :=
  _ ← CheckUnstableUsage d i; _ ← CheckValidIndex d (index_ i);
  let index := S (index_ i) in
  Ret (MkIterator
         (if (index =? buffer_capacity (buffer_ d))%nat then 0%nat else index)
         (created_generation_ i)).
Definition Decrement (d : circular_deque) (i : deque_iterator)
    : outcome deque_iterator :=
  _ ← CheckUnstableUsage d i; _ ← CheckValidIndexOrEnd d (index_ i);
  Ret (MkIterator
         (if (index_ i =? 0)%nat then buffer_capacity (buffer_ d) - 1
          else index_ i - 1)
         (created_generation_ i)).

Definition OffsetFromBegin (d : circular_deque) (i : deque_iterator) : nat :=
  if (begin_ d <=? index_ i)%nat then index_ i - begin_ d
  else buffer_capacity (buffer_ d) - begin_ d + index_ i.

(** [operator+], [operator-] by an offset. *)
Definition iterator_Add (d : circular_deque) (i : deque_iterator) (delta : Z)
    : outcome deque_iterator :=
  _ ← CheckUnstableUsage d i;
  _ ← (if delta <=? 0 then CheckValidIndexOrEnd d (index_ i)
       else CheckValidIndex d (index_ i));
  if delta =? 0 then Ret i else
  let new_offset := Z.of_nat (OffsetFromBegin d i) + delta in
  _ ← DCHECK ((0 <=? new_offset) && (new_offset <=? Z.of_nat (deque_size d)))
        "new_offset >= 0 && new_offset <= size()";
  if (buffer_capacity (buffer_ d) =? 0)%nat then Undef DivisionByZero else
  Ret (MkIterator
         (Z.to_nat (to_size_t (new_offset + Z.of_nat (begin_ d))
                    mod Z.of_nat (buffer_capacity (buffer_ d))))
         (created_generation_ i)).

(** Comparisons, of two iterators of one deque. *)
Definition CheckComparable (i j : deque_iterator) : outcome unit :=
  DCHECK (created_generation_ i =? created_generation_ j)
    "created_generation_ == other.created_generation_".
Definition iterator_eq (i j : deque_iterator) : outcome bool :=
  _ ← CheckComparable i j; Ret (index_ i =? index_ j)%nat.
Definition iterator_lt (d : circular_deque) (i j : deque_iterator)
    : outcome bool :=
  _ ← CheckComparable i j; Ret (OffsetFromBegin d i <? OffsetFromBegin d j)%nat.
Definition iterator_distance (d : circular_deque) (i j : deque_iterator)
    : outcome Z :=
  _ ← CheckComparable i j;
  Ret (Z.of_nat (OffsetFromBegin d i) - Z.of_nat (OffsetFromBegin d j)).

(** *** Moving to another buffer *)

Definition MoveBuffer (from : VectorBuffer) (from_begin from_end : nat)
    (to : VectorBuffer) : outcome (VectorBuffer * nat * nat) :=
  if (from_begin <? from_end)%nat then
    '(_, to) ← MoveRange from from_begin (from_end - from_begin) to 0;
    Ret (to, 0%nat, (from_end - from_begin)%nat)
  else if (from_end <? from_begin)%nat then
    let right_size := (buffer_capacity from - from_begin)%nat in
    '(from, to) ← MoveRange from from_begin right_size to 0;
    '(_, to) ← MoveRange from 0 from_end to right_size;
    Ret (to, 0%nat, (right_size + from_end)%nat)
  else Ret (to, 0%nat, 0%nat).

Definition SetCapacityTo (d : circular_deque) (new_capacity : nat)
    : outcome circular_deque :=
  let new_buffer := VectorBuffer_new (new_capacity + 1) in
  '(b, bg, en) ← MoveBuffer (buffer_ d) (begin_ d) (end_ d) new_buffer;
  Ret (MkDeque b bg en (generation_ d)).

Definition ExpandCapacityIfNecessary (d : circular_deque) (additional_elts : nat)
    : outcome circular_deque :=
  let min_new_capacity := (deque_size d + additional_elts)%nat in
  if (min_new_capacity <=? deque_capacity d)%nat then Ret d else
  let min_new_capacity :=
    Nat.max min_new_capacity kCircularBufferInitialCapacity in
  SetCapacityTo d
    (Nat.max min_new_capacity (deque_capacity d + deque_capacity d / 4)).

Definition ShrinkCapacityIfNecessary (d : circular_deque)
    : outcome circular_deque :=
  if (deque_capacity d <=? kCircularBufferInitialCapacity)%nat then Ret d else
  let sz := deque_size d in
  let empty_spaces := (deque_capacity d - sz)%nat in
  if (empty_spaces <? sz)%nat then Ret d else
  let new_capacity :=
    Nat.max kCircularBufferInitialCapacity (sz + sz / 4) in
  if (new_capacity <? deque_capacity d)%nat then SetCapacityTo d new_capacity
  else Ret d.

(** *** Access *)

Definition deque_front (d : circular_deque) : outcome T :=
  _ ← DCHECK (negb (deque_empty d)) "!empty()"; get_cell (buffer_ d) (begin_ d).
Definition deque_back (d : circular_deque) : outcome T :=
  _ ← DCHECK (negb (deque_empty d)) "!empty()";
  i ← Decrement d (deque_end d); iterator_get d i.

Definition deque_at (d : circular_deque) (i : nat) : outcome T :=
  _ ← DCHECK (i <? deque_size d)%nat "i < size()";
  let right_size := (buffer_capacity (buffer_ d) - begin_ d)%nat in
  if (begin_ d <=? end_ d)%nat || (i <? right_size)%nat
  then get_cell (buffer_ d) (begin_ d + i)
  else get_cell (buffer_ d) (i - right_size).

(** *** The ends *)

Definition emplace_front (d : circular_deque) (x : T)
    : outcome (circular_deque * T) :=
  d ← ExpandCapacityIfNecessary d 1;
  let bg := if (begin_ d =? 0)%nat then (buffer_capacity (buffer_ d) - 1)%nat
            else (begin_ d - 1)%nat in
  let d := IncrementGeneration (MkDeque (buffer_ d) bg (end_ d) (generation_ d)) in
  b ← construct (buffer_ d) (begin_ d) x;
  let d := MkDeque b (begin_ d) (end_ d) (generation_ d) in
  r ← deque_front d; Ret (d, r).

Definition emplace_back (d : circular_deque) (x : T)
    : outcome (circular_deque * T) :=
  d ← ExpandCapacityIfNecessary d 1;
  b ← construct (buffer_ d) (end_ d) x;
  let en := if (end_ d =? buffer_capacity b - 1)%nat then 0%nat
            else S (end_ d) in
  let d := IncrementGeneration (MkDeque b (begin_ d) en (generation_ d)) in
  r ← deque_back d; Ret (d, r).

Definition push_front (d : circular_deque) (x : T) : outcome circular_deque :=
  '(d, _) ← emplace_front d x; Ret d.
Definition push_back (d : circular_deque) (x : T) : outcome circular_deque :=
  '(d, _) ← emplace_back d x; Ret d.

Definition pop_front (d : circular_deque) : outcome circular_deque :=
  _ ← DCHECK (negb (deque_size d =? 0)%nat) "size()";
  b ← DestructCells (buffer_ d) (begin_ d) 1;
  let bg := if (S (begin_ d) =? buffer_capacity b)%nat then 0%nat
            else S (begin_ d) in
  d ← ShrinkCapacityIfNecessary (MkDeque b bg (end_ d) (generation_ d));
  Ret (IncrementGeneration d).

Definition pop_back (d : circular_deque) : outcome circular_deque :=
  _ ← DCHECK (negb (deque_size d =? 0)%nat) "size()";
  let en := if (end_ d =? 0)%nat then (buffer_capacity (buffer_ d) - 1)%nat
            else (end_ d - 1)%nat in
  b ← DestructCells (buffer_ d) en 1;
  d ← ShrinkCapacityIfNecessary (MkDeque b (begin_ d) en (generation_ d));
  Ret (IncrementGeneration d).

(** *** All the elements *)

Definition DestructRange (d : circular_deque) (bg en : nat)
    : outcome VectorBuffer :=
  if (en =? bg)%nat then Ret (buffer_ d)
  else if (bg <? en)%nat then DestructCells (buffer_ d) bg (en - bg)
  else
    b ← DestructCells (buffer_ d) bg (buffer_capacity (buffer_ d) - bg);
    DestructCells b 0 en.

Definition ClearRetainCapacity (d : circular_deque) : outcome circular_deque :=
  b ← DestructRange d (begin_ d) (end_ d);
  Ret (IncrementGeneration (MkDeque b 0 0 (generation_ d))).

Definition deque_clear (d : circular_deque) : outcome circular_deque :=
  d ← ClearRetainCapacity d;
  Ret (MkDeque [] (begin_ d) (end_ d) (generation_ d)).

Definition deque_reserve (d : circular_deque) (new_capacity : nat)
    : outcome circular_deque :=
  if (deque_capacity d <? new_capacity)%nat then SetCapacityTo d new_capacity
  else Ret d.

Definition shrink_to_fit (d : circular_deque) : outcome circular_deque :=
  if deque_empty d then
    if (buffer_capacity (buffer_ d) =? 0)%nat then Ret d
    else Ret (MkDeque [] (begin_ d) (end_ d) (generation_ d))
  else SetCapacityTo d (deque_size d).

(** The loop of [assign(count, value)]. *)
Fixpoint emplace_copies (count : nat) (d : circular_deque) (value : T)
    : outcome circular_deque :=
  match count with
  | O => Ret d
  | S count => d ← push_back d value; emplace_copies count d value
  end.

Definition deque_assign (d : circular_deque) (count : nat) (value : T)
    : outcome circular_deque :=
  d ← ClearRetainCapacity d; d ← deque_reserve d count;
  d ← emplace_copies count d value; Ret (IncrementGeneration d).

(** [while (size() < count) emplace_back(value);] *)
Fixpoint grow_to (fuel : nat) (d : circular_deque) (count : nat) (value : T)
    : outcome circular_deque :=
  if (deque_size d <? count)%nat then
    match fuel with
    | O => NoFuel
    | S fuel => d ← push_back d value; grow_to fuel d count value
    end
  else Ret d.

Definition deque_resize (d : circular_deque) (count : nat) (value : T)
    : outcome circular_deque :=
  d ← (if (deque_size d <? count)%nat then
         d ← ExpandCapacityIfNecessary d (count - deque_size d);
         grow_to count d count value
       else if (count <? deque_size d)%nat then
         let new_end :=
           ((begin_ d + count) mod buffer_capacity (buffer_ d))%nat in
         b ← DestructRange d new_end (end_ d);
         ShrinkCapacityIfNecessary (MkDeque b (begin_ d) new_end (generation_ d))
       else Ret d);
  Ret (IncrementGeneration d).

(** The destructor leaves the buffer to [free]. *)
Definition deque_delete (d : circular_deque) : outcome VectorBuffer :=
  DestructRange d (begin_ d) (end_ d).

(** *** Ranges and copies *)

(** [for (; first != last; ++first) emplace_back( *first);] with iterators of
    another deque. *)
Fixpoint emplace_range (fuel : nat) (d other : circular_deque)
    (first last : deque_iterator) : outcome circular_deque :=
  e ← iterator_eq first last;
  if (e : bool) then Ret d else
  match fuel with
  | O => NoFuel
  | S fuel =>
      x ← iterator_get other first; d ← push_back d x;
      first ← Increment other first; emplace_range fuel d other first last
  end.

Definition assign_range (d other : circular_deque) (first last : deque_iterator)
    : outcome circular_deque :=
  d ← ClearRetainCapacity d;
  d ← emplace_range (deque_size other) d other first last;
  Ret (IncrementGeneration d).

Definition deque_copy_new (other : circular_deque) : outcome circular_deque :=
  assign_range (MkDeque (VectorBuffer_new (deque_size other + 1)) 0 0 0) other
    (deque_begin other) (deque_end other).

(** [operator=] for two distinct objects. *)
Definition deque_copy_assign (d other : circular_deque)
    : outcome circular_deque :=
  d ← deque_reserve d (deque_size other);
  assign_range d other (deque_begin other) (deque_end other).

(** The new deque and what is left of the other; the generation of the other
    stays. *)
Definition deque_move_new (other : circular_deque)
    : circular_deque * circular_deque :=
  (MkDeque (buffer_ other) (begin_ other) (end_ other) 0,
   MkDeque [] 0 0 (generation_ other)).

Definition deque_move_assign (d other : circular_deque)
    : outcome (circular_deque * circular_deque) :=
  d ← ClearRetainCapacity d;
  Ret (IncrementGeneration
         (MkDeque (buffer_ other) (begin_ other) (end_ other) (generation_ d)),
       MkDeque [] 0 0 (generation_ other)).

Definition deque_swap (d other : circular_deque)
    : circular_deque * circular_deque :=
  (IncrementGeneration
     (MkDeque (buffer_ other) (begin_ other) (end_ other) (generation_ d)),
   MkDeque (buffer_ d) (begin_ d) (end_ d) (generation_ other)).

(** *** Insertion in the middle *)

Definition ValidateIterator (d : circular_deque) (i : deque_iterator)
    : outcome unit := CheckUnstableUsage d i.

(** [iterator(this, index)] *)
Definition deque_iterator_at (d : circular_deque) (index : nat) : deque_iterator :=
  MkIterator index (generation_ d).

Definition with_buffer (d : circular_deque) (b : VectorBuffer) : circular_deque :=
  MkDeque b (begin_ d) (end_ d) (generation_ d).

(** [MoveRange(&buffer_[i], &buffer_[i + 1], &buffer_[j])] *)
Definition move_cell (d : circular_deque) (i j : nat) : outcome circular_deque :=
  _ ← DCHECK (negb (i =? j)%nat) "!RangesOverlap(from_begin, from_end, to)";
  x ← get_cell (buffer_ d) i; b ← construct (buffer_ d) j x;
  Ret (with_buffer d (<[i := None]> b)).

(** The loop of [MakeRoomFor]. *)
Fixpoint shift_elements_right (fuel : nat) (d : circular_deque)
    (insert_begin src dest : deque_iterator) : outcome circular_deque :=
  e ← iterator_eq src insert_begin;
  if (e : bool) then Ret d else
  match fuel with
  | O => NoFuel
  | S fuel =>
      src ← Decrement d src; dest ← Decrement d dest;
      d ← move_cell d (index_ src) (index_ dest);
      shift_elements_right fuel d insert_begin src dest
  end.

Definition MakeRoomFor (d : circular_deque) (count : nat)
    (insert_begin : deque_iterator)
    : outcome (circular_deque * deque_iterator * deque_iterator) :=
  if (count =? 0)%nat then Ret (d, insert_begin, insert_begin) else
  let begin_offset := OffsetFromBegin d insert_begin in
  d ← ExpandCapacityIfNecessary d count;
  let cap := buffer_capacity (buffer_ d) in
  let insert_begin :=
    MkIterator ((begin_ d + begin_offset) mod cap)
      (created_generation_ insert_begin) in
  let insert_end := deque_iterator_at d ((index_ insert_begin + count) mod cap) in
  let src := deque_end d in
  let d := MkDeque (buffer_ d) (begin_ d) ((end_ d + count) mod cap)
             (generation_ d) in
  let dest := deque_end d in
  d ← shift_elements_right (deque_size d) d insert_begin src dest;
  Ret (d, insert_begin, insert_end).

Definition emplace (d : circular_deque) (pos : deque_iterator) (x : T)
    : outcome (circular_deque * deque_iterator) :=
  _ ← ValidateIterator d pos;
  e ← iterator_eq pos (deque_begin d);
  if (e : bool) then
    '(d, _) ← emplace_front d x; Ret (d, deque_begin d)
  else
    let d := IncrementGeneration d in
    '(d, insert_begin, _) ← MakeRoomFor d 1 (deque_iterator_at d (index_ pos));
    b ← construct (buffer_ d) (index_ insert_begin) x;
    Ret (with_buffer d b, insert_begin).

(** [for (size_t i = 0; i < count; i++) push_front(value);] *)
Fixpoint push_front_copies (count : nat) (d : circular_deque) (value : T)
    : outcome circular_deque :=
  match count with
  | O => Ret d
  | S count => d ← push_front d value; push_front_copies count d value
  end.

(** [while (insert_cur < insert_end)] with the items to place. *)
Fixpoint fill_room (items : list T) (d : circular_deque)
    (insert_cur insert_end : deque_iterator) : outcome circular_deque :=
  lt ← iterator_lt d insert_cur insert_end;
  if (lt : bool) then
    match items with
    | [] => NoFuel
    | x :: items =>
        b ← construct (buffer_ d) (index_ insert_cur) x;
        let d := with_buffer d b in
        insert_cur ← Increment d insert_cur;
        fill_room items d insert_cur insert_end
    end
  else Ret d.

(** [insert(pos, count, value)] *)
Definition insert_copies (d : circular_deque) (pos : deque_iterator)
    (count : nat) (value : T) : outcome circular_deque :=
  _ ← ValidateIterator d pos;
  e ← iterator_eq pos (deque_begin d);
  if (e : bool) then
    d ← ExpandCapacityIfNecessary d count; push_front_copies count d value
  else
    '(d, insert_cur, insert_end)
      ← MakeRoomFor d count (deque_iterator_at d (index_ pos));
    d ← fill_room (replicate count value) d insert_cur insert_end;
    Ret (IncrementGeneration d).

(** [insert(pos, first, last)], for the range of the elements [items]. *)
Definition insert_range (d : circular_deque) (pos : deque_iterator)
    (items : list T) : outcome circular_deque :=
  _ ← ValidateIterator d pos;
  let inserted_items := length items in
  if (inserted_items =? 0)%nat then Ret d else
  e ← iterator_eq pos (deque_begin d);
  '(d, insert_cur, insert_end) ←
    (if (e : bool) then
       d ← ExpandCapacityIfNecessary d inserted_items;
       let insert_end := deque_begin d in
       let cap := buffer_capacity (buffer_ d) in
       let d := MkDeque (buffer_ d) ((begin_ d + cap - inserted_items) mod cap)
                  (end_ d) (generation_ d) in
       Ret (d, deque_begin d, insert_end)
     else MakeRoomFor d inserted_items (deque_iterator_at d (index_ pos)));
  d ← fill_room items d insert_cur insert_end;
  Ret (IncrementGeneration d).

(** *** Removal in the middle *)

(** [for (; move_src < move_src_end; move_src++, move_dest++)]; the result is
    the deque and [move_dest]. *)
Fixpoint shift_elements_left (fuel : nat) (d : circular_deque)
    (move_src move_src_end move_dest : deque_iterator)
    : outcome (circular_deque * deque_iterator) :=
  lt ← iterator_lt d move_src move_src_end;
  if (lt : bool) then
    match fuel with
    | O => NoFuel
    | S fuel =>
        d ← move_cell d (index_ move_src) (index_ move_dest);
        move_src ← Increment d move_src; move_dest ← Increment d move_dest;
        shift_elements_left fuel d move_src move_src_end move_dest
    end
  else Ret (d, move_dest).

Definition erase_range (d : circular_deque) (first last : deque_iterator)
    : outcome (circular_deque * deque_iterator) :=
  _ ← ValidateIterator d first; _ ← ValidateIterator d last;
  let d := IncrementGeneration d in
  if (index_ first =? index_ last)%nat
  then Ret (d, deque_iterator_at d (index_ first)) else
  b ← (if (index_ first <? index_ last)%nat
       then DestructCells (buffer_ d) (index_ first) (index_ last - index_ first)
       else
         b ← DestructCells (buffer_ d) (index_ first)
               (buffer_capacity (buffer_ d) - index_ first);
         DestructCells b 0 (index_ last));
  let d := with_buffer d b in
  if (index_ first =? begin_ d)%nat then
    let d := MkDeque (buffer_ d) (index_ last) (end_ d) (generation_ d) in
    Ret (d, deque_iterator_at d (index_ last))
  else
    '(d, move_dest) ←
      shift_elements_left (deque_size d) d (deque_iterator_at d (index_ last))
        (deque_end d) (deque_iterator_at d (index_ first));
    let d := MkDeque (buffer_ d) (begin_ d) (index_ move_dest) (generation_ d) in
    Ret (d, deque_iterator_at d (index_ first)).

Definition erase (d : circular_deque) (pos : deque_iterator)
    : outcome (circular_deque * deque_iterator) :=
  next ← iterator_Add d pos 1; erase_range d pos next.
End VectorBuffer.
