(* ===== verification/DequeInvariant.v ===== *)
(** The invariant of the double-ended queue of CircularDeque.v: turned so that
    its first element comes first, the buffer is the elements and then free
    cells.  The lemmas read and write the buffer in that order. *)

From S2P Require Import Prelude.
From S2P Require Import Buffer.
From S2P Require Import CircularDeque.

#[local] Open Scope nat_scope.

(** The cell of the buffer that is [i] after [bg]. *)
Definition position (cap bg i : nat) : nat :=
  if (bg + i <? cap)%nat then (bg + i)%nat else (bg + i - cap)%nat.

(** The buffer from [bg] around to [bg]. *)
Definition turned {A} (bg : nat) (b : list A) : list A := drop bg b ++ take bg b.

Section turned.
Context {A : Type}.
Implicit Types b : list A.

Lemma position_lt cap bg i : bg < cap → i < cap → position cap bg i < cap.
Proof. unfold position. destruct (Nat.ltb_spec (bg + i) cap); lia. Qed.

Lemma position_0 cap bg : bg < cap → position cap bg 0 = bg.
Proof. unfold position. destruct (Nat.ltb_spec (bg + 0) cap); lia. Qed.

Lemma position_small cap bg i : bg + i < cap → position cap bg i = bg + i.
Proof. intros. unfold position. by rewrite (proj2 (Nat.ltb_lt _ _)). Qed.

Lemma position_position cap bg i j :
  bg < cap → i < cap → j < cap →
  position cap (position cap bg i) j = position cap bg (position cap i j).
Proof.
  unfold position. intros. repeat case_match;
    rewrite ?Nat.ltb_lt, ?Nat.ltb_ge in *; lia.
Qed.

Lemma position_mod cap bg i :
  bg < cap → i < cap → (bg + i) mod cap = position cap bg i.
Proof.
  unfold position. intros. destruct (Nat.ltb_spec (bg + i) cap).
  - by apply Nat.mod_small.
  - symmetry. apply (Nat.mod_unique _ _ 1); lia.
Qed.

Lemma position_inj cap bg i j :
  bg < cap → i < cap → j < cap →
  position cap bg i = position cap bg j → i = j.
Proof.
  unfold position. intros. repeat case_match;
    rewrite ?Nat.ltb_lt, ?Nat.ltb_ge in *; lia.
Qed.

Lemma length_turned bg b : length (turned bg b) = length b.
Proof. unfold turned. rewrite length_app, length_drop, length_take. lia. Qed.

Lemma lookup_turned bg b i :
  bg < length b → i < length b →
  turned bg b !! i = b !! position (length b) bg i.
Proof.
  intros ??. unfold turned, position.
  destruct (Nat.ltb_spec (bg + i) (length b)).
  - rewrite lookup_app_l by (rewrite length_drop; lia). apply lookup_drop.
  - rewrite lookup_app_r, length_drop by (rewrite length_drop; lia).
    rewrite lookup_take_lt by lia. f_equal. lia.
Qed.

Lemma insert_turned bg b i c :
  bg < length b → i < length b →
  turned bg (<[position (length b) bg i := c]> b) = <[i := c]> (turned bg b).
Proof.
  intros ??. unfold turned, position.
  destruct (Nat.ltb_spec (bg + i) (length b)).
  - rewrite drop_insert_ge, take_insert_ge by lia.
    rewrite insert_app_l by (rewrite length_drop; lia).
    by replace (bg + i - bg) with i by lia.
  - rewrite drop_insert_lt, take_insert_lt by lia.
    rewrite insert_app_r_alt by (rewrite length_drop; lia).
    rewrite length_drop.
    by replace (i - (length b - bg)) with (bg + i - length b) by lia.
Qed.

Lemma turned_turned bg b i :
  bg < length b → i < length b →
  turned (position (length b) bg i) b = turned i (turned bg b).
Proof.
  intros. apply list_eq_same_length with (n := length b);
    rewrite ?length_turned; [done..|].
  intros j x y Hj Hx Hy.
  rewrite lookup_turned in Hx by (try apply position_lt; done).
  rewrite lookup_turned in Hy by (rewrite length_turned; lia).
  rewrite length_turned in Hy.
  rewrite lookup_turned in Hy by (try apply position_lt; done).
  rewrite position_position in Hx by done. congruence.
Qed.

Lemma turned_app (l1 l2 : list A) : turned (length l1) (l1 ++ l2) = l2 ++ l1.
Proof. unfold turned. by rewrite drop_app_length, take_app_length. Qed.
End turned.

(** ** Cells *)

Section cells.
Context `{BuildConfig} {T : Type}.
Implicit Types (b pre post : list (option T)) (l xs : list T).

Definition live (l : list T) : list (option T) := Some <$> l.
Definition dead (n : nat) : list (option T) := replicate n None.

Lemma live_app l xs : live (l ++ xs) = live l ++ live xs.
Proof. apply fmap_app. Qed.
Lemma length_live l : length (live l) = length l.
Proof. apply length_fmap. Qed.
Lemma length_dead n : length (dead n) = n.
Proof. apply length_replicate. Qed.
Lemma dead_add n m : dead (n + m) = dead n ++ dead m.
Proof. apply replicate_add. Qed.
Lemma dead_S_end n : dead (S n) = dead n ++ [None].
Proof. unfold dead. by rewrite replicate_S_end. Qed.

Lemma insert_middle pre c c' post :
  <[length pre := c']> (pre ++ c :: post) = pre ++ c' :: post.
Proof. by rewrite insert_app_r_alt, Nat.sub_diag. Qed.

Lemma get_cell_turned bg b i x :
  bg < length b → turned bg b !! i = Some (Some x) →
  get_cell b (position (length b) bg i) = Ret x.
Proof.
  intros Hb Hx. pose proof (lookup_lt_Some _ _ _ Hx) as Hi.
  rewrite length_turned in Hi. rewrite lookup_turned in Hx by done.
  unfold get_cell. by rewrite Hx.
Qed.

Lemma construct_lt b i x :
  i < length b → construct b i x = Ret (<[i := Some x]> b).
Proof. intros. unfold construct. by rewrite (proj2 (Nat.ltb_lt _ _)). Qed.

(** Places [p], [p + 1], … of the buffer are [o], [o + 1], … after [bg]. *)
Definition run_of (cap bg o p n : nat) : Prop :=
  (p = bg + o ∧ p + n ≤ cap) ∨ (p + cap = bg + o ∧ p + n ≤ bg).

Lemma run_of_position cap bg o p n :
  run_of cap bg o p (S n) → bg < cap →
  p = position cap bg o ∧ o < cap ∧ run_of cap bg (S o) (S p) n.
Proof.
  unfold run_of, position. intros.
  destruct (Nat.ltb_spec (bg + o) cap); lia.
Qed.

Lemma DestructCells_turned bg b p pre xs post :
  bg < length b → run_of (length b) bg (length pre) p (length xs) →
  turned bg b = pre ++ live xs ++ post →
  wp (DestructCells b p (length xs)) (λ b', length b' = length b ∧
    turned bg b' = pre ++ dead (length xs) ++ post).
Proof.
  revert b p pre. induction xs as [|x xs IH]; intros b p pre Hbg Hrun Ht; [done|].
  cbn [length] in Hrun. apply run_of_position in Hrun as (-> & Ho & Hrun); [|done].
  cbn [length DestructCells]. rewrite get_cell_turned with (x := x); [|done|].
  2: { rewrite Ht. by apply list_lookup_middle. }
  cbn [mbind outcome_bind].
  eapply wp_mono; [|apply (IH _ _ (pre ++ [None]))].
  - intros b' [Hl Ht']. rewrite length_insert in Hl. split; [done|].
    rewrite Ht', <- app_assoc. done.
  - by rewrite length_insert.
  - rewrite length_insert, length_app, Nat.add_1_r. done.
  - rewrite insert_turned, Ht by done. cbn [live fmap list_fmap app].
    by rewrite insert_middle, <- app_assoc.
Qed.

Lemma MoveRange_turned bg b p pre xs post tpre tpost :
  bg < length b → run_of (length b) bg (length pre) p (length xs) →
  turned bg b = pre ++ live xs ++ post →
  wp (MoveRange b p (length xs) (tpre ++ dead (length xs) ++ tpost) (length tpre))
    (λ '(b', to), length b' = length b ∧
       turned bg b' = pre ++ dead (length xs) ++ post ∧
       to = tpre ++ live xs ++ tpost).
Proof.
  revert b p pre tpre. induction xs as [|x xs IH];
    intros b p pre tpre Hbg Hrun Ht; [done|].
  cbn [length] in Hrun. apply run_of_position in Hrun as (-> & Ho & Hrun); [|done].
  cbn [length MoveRange]. rewrite get_cell_turned with (x := x); [|done|].
  2: { rewrite Ht. by apply list_lookup_middle. }
  cbn [mbind outcome_bind]. rewrite construct_lt.
  2: { rewrite !length_app, length_dead. cbn [length]. lia. }
  cbn [mbind outcome_bind dead replicate app]. rewrite insert_middle.
  specialize (IH (<[position (length b) bg (length pre):=None]> b)
    (S (position (length b) bg (length pre))) (pre ++ [None]) (tpre ++ [Some x])).
  rewrite length_insert, !length_app, <- !app_assoc in IH.
  cbn [length app] in IH. rewrite !Nat.add_1_r in IH. apply IH; [done..|].
  rewrite insert_turned, Ht by done. cbn [live fmap list_fmap app].
  by rewrite insert_middle.
Qed.
End cells.

(** ** The invariant *)

Section invariant.
Context `{BuildConfig} {T : Type}.
Implicit Types (d : @circular_deque T) (l xs : list T) (k : nat).

(** The deque holds [l], and [k] cells are free, of which there is at least
    one unless there is no buffer. *)
Record deque_ok d l k : Prop := {
  ok_turned : turned (begin_ d) (buffer_ d) = live l ++ dead k;
  ok_buffer : (begin_ d < length (buffer_ d) ∧ 1 ≤ k
                 ∧ end_ d = position (length (buffer_ d)) (begin_ d) (length l))
              ∨ (buffer_ d = [] ∧ end_ d = begin_ d)
}.

Lemma ok_length d l k : deque_ok d l k → length (buffer_ d) = length l + k.
Proof.
  intros [Ht _]. apply (f_equal length) in Ht.
  by rewrite length_turned, length_app, length_live, length_dead in Ht.
Qed.

Lemma ok_no_buffer d l k :
  deque_ok d l k → buffer_ d = [] → l = [] ∧ k = 0.
Proof.
  intros Hok Hb. apply ok_length in Hok. rewrite Hb in Hok. cbn in Hok.
  destruct l; cbn in Hok; [split; [done|lia]|lia].
Qed.

Lemma ok_begin_lt d l k :
  deque_ok d l k → 1 ≤ k → begin_ d < length (buffer_ d)
    ∧ end_ d = position (length (buffer_ d)) (begin_ d) (length l).
Proof.
  intros Hok Hk. pose proof (ok_length _ _ _ Hok) as Hlen.
  destruct Hok as [_ [(? & _ & ?)|[Hb _]]]; [done|].
  rewrite Hb in Hlen. cbn in Hlen. lia.
Qed.

(** The case without a buffer, and the other one. *)
Lemma ok_cases d l k :
  deque_ok d l k →
  (buffer_ d = [] ∧ l = [] ∧ k = 0 ∧ end_ d = begin_ d) ∨
  (1 ≤ k ∧ length (buffer_ d) = length l + k ∧ begin_ d < length (buffer_ d)
   ∧ end_ d = position (length (buffer_ d)) (begin_ d) (length l)).
Proof.
  intros Hok. pose proof (ok_length _ _ _ Hok) as Hlen.
  destruct (Hok) as [_ [(? & ? & ?)|[Hb ?]]]; [by right|left].
  by destruct (ok_no_buffer _ _ _ Hok Hb).
Qed.

Lemma ok_empty_new : deque_ok deque_empty_new [] 0.
Proof. split; [done|by right]. Qed.

Lemma ok_size d l k : deque_ok d l k → deque_size d = length l.
Proof.
  intros Hok. unfold deque_size, buffer_capacity.
  destruct (ok_cases _ _ _ Hok) as [(Hb & -> & -> & ->)|(Hk & Hlen & Hb & ->)].
  - rewrite Nat.leb_refl. cbn. lia.
  - unfold position. destruct (Nat.ltb_spec (begin_ d + length l) (length (buffer_ d)));
      case_match; rewrite ?Nat.leb_le, ?Nat.leb_gt in *; lia.
Qed.

Lemma ok_empty d l k :
  deque_ok d l k → deque_empty d = (length l =? 0).
Proof.
  intros Hok. unfold deque_empty.
  destruct (ok_cases _ _ _ Hok) as [(Hb & -> & -> & ->)|(Hk & Hlen & Hb & ->)].
  - by rewrite Nat.eqb_refl.
  - apply Bool.eq_iff_eq_true. rewrite !Nat.eqb_eq. unfold position.
    destruct (Nat.ltb_spec (begin_ d + length l) (length (buffer_ d))); lia.
Qed.

Lemma ok_capacity d l k :
  deque_ok d l k → deque_capacity d = length l + (k - 1).
Proof.
  intros Hok. unfold deque_capacity, buffer_capacity.
  destruct (ok_cases _ _ _ Hok) as [(-> & -> & -> & _)|(Hk & Hlen & _ & _)].
  - done.
  - rewrite Hlen. rewrite (proj2 (Nat.eqb_neq _ _)) by lia. lia.
Qed.

(** Only the buffer and the ends matter. *)
Lemma ok_generation d l k g :
  deque_ok d l k → deque_ok (MkDeque (buffer_ d) (begin_ d) (end_ d) g) l k.
Proof. intros [Ht Hb]. by split. Qed.

Lemma ok_IncrementGeneration d l k :
  deque_ok d l k → deque_ok (IncrementGeneration d) l k.
Proof. apply ok_generation. Qed.

Lemma ok_intro b bg en g l k :
  1 ≤ k → turned bg b = live l ++ dead k → bg < length b →
  en = position (length b) bg (length l) → deque_ok (MkDeque b bg en g) l k.
Proof. intros. split; [done|]. left. done. Qed.

Lemma ok_lookup d l k i x :
  deque_ok d l k → l !! i = Some x →
  turned (begin_ d) (buffer_ d) !! i = Some (Some x).
Proof.
  intros Hok Hi. rewrite (ok_turned _ _ _ Hok).
  unfold live. rewrite lookup_app_l by (rewrite length_fmap; by eapply lookup_lt_Some).
  by rewrite list_lookup_fmap, Hi.
Qed.

Lemma ok_get d l k i x :
  deque_ok d l k → l !! i = Some x →
  get_cell (buffer_ d) (position (length (buffer_ d)) (begin_ d) i) = Ret x.
Proof.
  intros Hok Hi. apply get_cell_turned; [|by eapply ok_lookup].
  apply lookup_lt_Some in Hi.
  destruct (ok_cases _ _ _ Hok) as [(? & -> & ?)|(_ & _ & ? & _)]; [cbn in Hi; lia|done].
Qed.

(** ** Destroying elements *)

Lemma DestructRange_turned d pre xs post :
  begin_ d < length (buffer_ d) →
  length pre + length xs < length (buffer_ d) →
  turned (begin_ d) (buffer_ d) = pre ++ live xs ++ post →
  wp (DestructRange d
        (position (length (buffer_ d)) (begin_ d) (length pre))
        (position (length (buffer_ d)) (begin_ d) (length pre + length xs)))
    (λ b, length b = length (buffer_ d) ∧
       turned (begin_ d) b = pre ++ dead (length xs) ++ post).
Proof.
  set (bg := begin_ d). set (b := buffer_ d). intros Hbg Hlen Ht.
  unfold DestructRange, buffer_capacity. fold b.
  set (i := position (length b) bg (length pre)).
  set (j := position (length b) bg (length pre + length xs)).
  assert (Hij : (j = i + length xs ∧ run_of (length b) bg (length pre) i (length xs))
    ∨ (i = bg + length pre ∧ bg + length pre < length b
       ∧ j + length b = bg + length pre + length xs)).
  { subst i j. unfold position, run_of.
    destruct (Nat.ltb_spec (bg + length pre) (length b)),
      (Nat.ltb_spec (bg + (length pre + length xs)) (length b)); lia. }
  destruct Hij as [[-> Hrun]|(Hi & Hlt & Hj)].
  - destruct (Nat.eqb_spec (i + length xs) i).
    { destruct xs; cbn in *; [|lia]. by split. }
    rewrite (proj2 (Nat.ltb_lt _ _)) by lia.
    rewrite Nat.add_comm, Nat.add_sub. by apply DestructCells_turned.
  - rewrite (proj2 (Nat.eqb_neq _ _)), (proj2 (Nat.ltb_ge _ _)) by lia.
    set (r := length b - i).
    assert (length (take r xs) = r) as Hr by (rewrite length_take; lia).
    assert (length (drop r xs) = j) as Hdr by (rewrite length_drop; lia).
    apply wp_bind. rewrite <- Hr at 1.
    eapply wp_mono; [|apply DestructCells_turned with
      (bg := bg) (pre := pre) (post := live (drop r xs) ++ post)];
      [|done| |].
    + intros b' [Hb' Ht']. rewrite <- Hdr at 1.
      eapply wp_mono; [|apply DestructCells_turned with
        (bg := bg) (pre := pre ++ dead (length (take r xs))) (post := post)].
      * intros b'' [Hb'' Ht'']. split; [congruence|].
        rewrite Ht'', <- app_assoc. f_equal.
        rewrite (app_assoc (dead _)), <- dead_add, <- length_app, take_drop. done.
      * lia.
      * rewrite length_app, length_dead, Hdr, Hr, Hb'. unfold run_of. lia.
      * by rewrite Ht', <- app_assoc.
    + unfold run_of. lia.
    + by rewrite Ht, (app_assoc (live _) (live _)), <- live_app, take_drop.
Qed.

Lemma DestructRange_all d l k :
  deque_ok d l k →
  wp (DestructRange d (begin_ d) (end_ d)) (λ b, b = dead (length l + k)).
Proof.
  intros Hok.
  destruct (ok_cases _ _ _ Hok) as [(Hb & -> & -> & ->)|(Hk & Hlen & Hb & He)].
  { unfold DestructRange. by rewrite Nat.eqb_refl. }
  pose proof (DestructRange_turned d [] l (dead k)) as Hd. cbn [length] in Hd.
  rewrite position_0 in Hd by done. rewrite He.
  eapply wp_mono; [|apply Hd; [done|lia|apply Hok]].
  intros b [Hl Ht]. cbn [app] in Ht. rewrite <- dead_add in Ht.
  apply list_eq_same_length with (n := length l + k); [by rewrite length_dead|congruence|].
  intros i x y Hi Hx Hy. unfold dead in *. apply lookup_replicate in Hy as [-> _].
  assert (x ∈ turned (begin_ d) b) as Hin.
  { unfold turned. apply list_elem_of_lookup_2 in Hx.
    rewrite <- (take_drop (begin_ d) b) in Hx. rewrite elem_of_app in *. tauto. }
  rewrite Ht in Hin. by apply elem_of_replicate_inv in Hin.
Qed.

(** ** Moving to another buffer *)

Lemma MoveBuffer_ok d l k m :
  deque_ok d l k → length l ≤ m →
  MoveBuffer (buffer_ d) (begin_ d) (end_ d) (dead m)
    = Ret (live l ++ dead (m - length l), 0, length l).
Proof.
  intros Hok Hm. unfold MoveBuffer, buffer_capacity.
  destruct (ok_cases _ _ _ Hok) as [(Hb & -> & -> & ->)|(Hk & Hlen & Hb & He)].
  { rewrite Nat.ltb_irrefl. cbn. by rewrite Nat.sub_0_r. }
  destruct Hok as [Ht _]. set (b := buffer_ d) in *. set (bg := begin_ d) in *.
  unfold position in He.
  destruct (Nat.ltb_spec (bg + length l) (length b)) as [Hlt|Hge].
  - rewrite He. destruct (Nat.ltb_spec bg (bg + length l)).
    2: { destruct l; cbn [length] in *; [|lia].
         rewrite Nat.add_0_r, Nat.ltb_irrefl. cbn. by rewrite Nat.sub_0_r. }
    pose proof (MoveRange_turned bg b bg [] l (dead k) [] (dead (m - length l))) as Hmv.
    cbn [app length] in Hmv. rewrite <- dead_add in Hmv.
    replace (length l + (m - length l)) with m in Hmv by lia.
    rewrite Nat.add_comm, Nat.add_sub.
    apply wp_exists in Hmv as ([b' to] & -> & _ & _ & ->); [done|done| |done].
    unfold run_of. lia.
  - rewrite (proj2 (Nat.ltb_ge bg _)), (proj2 (Nat.ltb_lt _ bg)) by lia.
    set (r := length b - bg).
    assert (length (take r l) = r) as Hr by (rewrite length_take; lia).
    assert (length (drop r l) = end_ d) as Hdr by (rewrite length_drop; lia).
    pose proof (MoveRange_turned bg b bg [] (take r l) (live (drop r l) ++ dead k)
      [] (dead (m - r))) as Hmv.
    cbn [app length] in Hmv. rewrite <- dead_add, Hr in Hmv.
    replace (r + (m - r)) with m in Hmv by lia.
    apply wp_exists in Hmv as ([b' to] & -> & Hb' & Ht' & ->); [|done| |].
    2: { unfold run_of. lia. }
    2: { by rewrite Ht, (app_assoc (live _) (live _)), <- live_app, take_drop. }
    cbn [mbind outcome_bind].
    pose proof (MoveRange_turned bg b' 0 (dead r) (drop r l) (dead k)
      (live (take r l)) (dead (m - length l))) as Hmv.
    rewrite <- dead_add, length_live, Hr, Hdr in Hmv.
    replace (end_ d + (m - length l)) with (m - r) in Hmv by lia.
    apply wp_exists in Hmv as ([b'' to] & -> & _ & _ & ->); [|lia| |done].
    2: { rewrite length_dead, Hb'. unfold run_of. lia. }
    cbn. rewrite app_assoc, <- live_app, take_drop. do 3 f_equal. lia.
Qed.

Lemma SetCapacityTo_ok d l k n :
  deque_ok d l k → length l ≤ n →
  SetCapacityTo d n
    = Ret (MkDeque (live l ++ dead (S n - length l)) 0 (length l) (generation_ d)).
Proof.
  intros Hok Hn. unfold SetCapacityTo, VectorBuffer_new. fold (@dead T (n + 1)).
  rewrite (MoveBuffer_ok _ _ _ _ Hok) by lia. cbn. by rewrite Nat.add_1_r.
Qed.

Lemma ok_fresh l k g : 1 ≤ k →
  deque_ok (MkDeque (live l ++ dead k) 0 (length l) g) l k.
Proof.
  intros Hk. apply ok_intro; [done|by unfold turned; rewrite app_nil_r| |];
    rewrite length_app, length_live, length_dead; [lia|].
  unfold position. rewrite (proj2 (Nat.ltb_lt _ _)); lia.
Qed.

(** The same contents and generation, in a buffer with room. *)
Definition refreshed d l d' k' : Prop :=
  deque_ok d' l k' ∧ generation_ d' = generation_ d.

Lemma refreshed_refl d l k : deque_ok d l k → refreshed d l d k.
Proof. by split. Qed.

Lemma SetCapacityTo_wp d l k n :
  deque_ok d l k → length l ≤ n →
  wp (SetCapacityTo d n) (λ d', refreshed d l d' (S n - length l)).
Proof.
  intros Hok Hn. rewrite (SetCapacityTo_ok _ _ _ _ Hok Hn). cbn.
  split; [|done]. apply ok_fresh. lia.
Qed.

Lemma ExpandCapacityIfNecessary_wp d l k n :
  deque_ok d l k →
  wp (ExpandCapacityIfNecessary d n) (λ d', ∃ k', refreshed d l d' k'
    ∧ (1 ≤ n → n < k')).
Proof.
  intros Hok. unfold ExpandCapacityIfNecessary.
  rewrite (ok_size _ _ _ Hok), (ok_capacity _ _ _ Hok).
  destruct (Nat.leb_spec (length l + n) (length l + (k - 1))).
  - cbn. exists k. split; [by apply refreshed_refl|]. lia.
  - eapply wp_mono; [|eapply SetCapacityTo_wp; [done|lia]].
    intros d' Hd'. eexists. split; [exact Hd'|]. lia.
Qed.

Lemma ShrinkCapacityIfNecessary_wp d l k :
  deque_ok d l k →
  wp (ShrinkCapacityIfNecessary d) (λ d', ∃ k', refreshed d l d' k' ∧ k' ≤ k).
Proof.
  intros Hok. unfold ShrinkCapacityIfNecessary.
  pose proof (ok_length _ _ _ Hok).
  rewrite (ok_size _ _ _ Hok), (ok_capacity _ _ _ Hok).
  repeat case_match; rewrite ?Nat.leb_le, ?Nat.ltb_lt in *;
    try (exists k; split; [by apply refreshed_refl|done]).
  eapply wp_mono; [|eapply SetCapacityTo_wp; [done|]].
  - intros d' Hd'. eexists. split; [exact Hd'|]. lia.
  - pose proof (Nat.div_le_upper_bound (length l) 4 (length l)). lia.
Qed.
End invariant.
