(* ===== verification/DequeEnds.v ===== *)
(** The double-ended queue of CircularDeque.v is a sequence: its iterators are
    offsets into it, and each operation at the ends, on the whole deque and
    from one deque to another is the operation on the sequence, without a
    failed check and without undefined behaviour. *)

From S2P Require Import Prelude.
From S2P Require Import Buffer.
From S2P Require Import CircularDeque.
From S2P Require Import DequeInvariant.

#[local] Open Scope nat_scope.

Section iterators.
Context `{BuildConfig} {T : Type}.
Implicit Types (d : @circular_deque T) (l : list T) (i j : deque_iterator).

Definition deque_holds d l : Prop := ∃ k, deque_ok d l k.

(** The iterator is [o] after the beginning and not stale. *)
Definition iterates d i (o : nat) : Prop :=
  created_generation_ i = generation_ d
  ∧ index_ i = position (length (buffer_ d)) (begin_ d) o.

Lemma DCHECK_true b msg : b = true → DCHECK b msg = Ret tt.
Proof. intros ->. unfold DCHECK, RTC_DCHECK. by destruct dcheck_is_on. Qed.

(** What the iterators need: there are [n] places from the beginning to the
    end. *)
Definition spans d (n : nat) : Prop :=
  (buffer_ d = [] ∧ end_ d = begin_ d ∧ n = 0) ∨
  (begin_ d < length (buffer_ d) ∧ n < length (buffer_ d)
   ∧ end_ d = position (length (buffer_ d)) (begin_ d) n).

Lemma holds_spans d l : deque_holds d l → spans d (length l).
Proof.
  intros [k Hok]. destruct (ok_cases _ _ _ Hok) as [(? & -> & _ & ?)|(? & ? & ? & ?)];
    [by left|right; split; [done|split; [lia|done]]].
Qed.

Lemma spans_size d n : spans d n → deque_size d = n.
Proof.
  unfold deque_size, buffer_capacity. intros [(_ & -> & ->)|(Hb & Hn & ->)].
  - rewrite Nat.leb_refl. lia.
  - unfold position. destruct (Nat.ltb_spec (begin_ d + n) (length (buffer_ d)));
      case_match; rewrite ?Nat.leb_le, ?Nat.leb_gt in *; lia.
Qed.

(** [begin()] and [end()] are the two ends. *)
Lemma begin_iterates d n : spans d n → iterates d (deque_begin d) 0.
Proof.
  intros Hd. split; [done|]. cbn. destruct Hd as [(-> & _)|(? & _)].
  - unfold position. cbn. lia.
  - by rewrite position_0.
Qed.

Lemma end_iterates d n : spans d n → iterates d (deque_end d) n.
Proof.
  intros Hd. split; [done|]. cbn. destruct Hd as [(-> & -> & ->)|(_ & _ & ->)]; [|done].
  unfold position. cbn. lia.
Qed.

Lemma iterates_CheckUnstableUsage d i o :
  iterates d i o → CheckUnstableUsage d i = Ret tt.
Proof. intros [Hg _]. apply DCHECK_true. by rewrite Hg, Z.eqb_refl. Qed.

Lemma iterates_CheckComparable d i j o o' :
  iterates d i o → iterates d j o' → CheckComparable i j = Ret tt.
Proof. intros [Hg _] [Hg' _]. apply DCHECK_true. by rewrite Hg, Hg', Z.eqb_refl. Qed.

Lemma iterates_CheckValidIndex d n i o :
  spans d n → iterates d i o → o < n → CheckValidIndex d (index_ i) = Ret tt.
Proof.
  intros [(_ & _ & ->)|(Hb & Hn & He)] [_ Hi] Ho; [lia|]. apply DCHECK_true.
  unfold valid_index, buffer_capacity. rewrite Hi, He. unfold position.
  destruct (Nat.ltb_spec (begin_ d + o) (length (buffer_ d))),
    (Nat.ltb_spec (begin_ d + n) (length (buffer_ d)));
    match goal with |- context [if ?a <=? ?b then _ else _] =>
      destruct (Nat.leb_spec a b) end;
    rewrite ?andb_true_iff, ?orb_true_iff, ?andb_true_iff, ?Nat.leb_le, ?Nat.ltb_lt; lia.
Qed.

Lemma iterates_OffsetFromBegin d n i o :
  spans d n → iterates d i o → o ≤ n → OffsetFromBegin d i = o.
Proof.
  intros Hd [_ Hi] Ho. unfold OffsetFromBegin, buffer_capacity. rewrite Hi.
  destruct Hd as [(-> & _ & ->)|(? & ? & _)]; unfold position.
  - cbn in *. destruct (Nat.leb_spec (begin_ d) (begin_ d + o - 0)); lia.
  - destruct (Nat.ltb_spec (begin_ d + o) (length (buffer_ d)));
      case_match; rewrite ?Nat.leb_le, ?Nat.leb_gt in *; lia.
Qed.

(** Two iterators are equal when their offsets are. *)
Lemma iterates_eqb d n i j o o' :
  spans d n → iterates d i o → iterates d j o' → o ≤ n → o' ≤ n →
  (index_ i =? index_ j) = (o =? o').
Proof.
  intros Hd Hi Hj Ho Ho'. apply Bool.eq_iff_eq_true. rewrite !Nat.eqb_eq. split; intros E.
  - rewrite <- (iterates_OffsetFromBegin d n i o), <- (iterates_OffsetFromBegin d n j o')
      by done. unfold OffsetFromBegin. by rewrite E.
  - subst. by destruct Hi as [_ ->], Hj as [_ ->].
Qed.

Lemma iterates_CheckValidIndexOrEnd d n i o :
  spans d n → iterates d i o → o ≤ n → CheckValidIndexOrEnd d (index_ i) = Ret tt.
Proof.
  intros Hd Hi Ho. unfold CheckValidIndexOrEnd.
  pose proof (iterates_eqb d n i (deque_end d) o n Hd Hi (end_iterates d n Hd) Ho (le_n n)) as E.
  cbn [deque_end index_] in E. rewrite E.
  destruct (Nat.eqb_spec o n); [done|]. cbn. eapply iterates_CheckValidIndex; [done..|lia].
Qed.

Lemma iterator_get_ok d l i o x :
  deque_holds d l → iterates d i o → l !! o = Some x → iterator_get d i = Ret x.
Proof.
  intros Hd Hi Hx. unfold iterator_get.
  rewrite (iterates_CheckUnstableUsage _ _ _ Hi). cbn [mbind outcome_bind].
  rewrite (iterates_CheckValidIndex d (length l) i o)
    by (first [by apply holds_spans|done|by eapply lookup_lt_Some]).
  cbn [mbind outcome_bind]. destruct Hi as [_ ->], Hd as [k Hok].
  by eapply ok_get.
Qed.

Lemma Increment_ok d n i o :
  spans d n → iterates d i o → o < n → wp (Increment d i) (λ i', iterates d i' (S o)).
Proof.
  intros Hd Hi Ho. unfold Increment.
  rewrite (iterates_CheckUnstableUsage _ _ _ Hi). cbn [mbind outcome_bind].
  rewrite (iterates_CheckValidIndex d n i o) by done. cbn [mbind outcome_bind].
  destruct Hi as [Hg Hi]. split; [done|]. cbn [index_]. rewrite Hi.
  destruct Hd as [(_ & _ & ->)|(? & ? & _)]; [lia|].
  unfold position, buffer_capacity.
  destruct (Nat.ltb_spec (begin_ d + o) (length (buffer_ d))),
    (Nat.ltb_spec (begin_ d + S o) (length (buffer_ d)));
    case_match; rewrite ?Nat.eqb_eq, ?Nat.eqb_neq in *; lia.
Qed.

Lemma Decrement_ok d n i o :
  spans d n → iterates d i (S o) → S o ≤ n → wp (Decrement d i) (λ i', iterates d i' o).
Proof.
  intros Hd Hi Ho. unfold Decrement.
  rewrite (iterates_CheckUnstableUsage _ _ _ Hi). cbn [mbind outcome_bind].
  rewrite (iterates_CheckValidIndexOrEnd d n i (S o)) by done. cbn [mbind outcome_bind].
  destruct Hi as [Hg Hi]. split; [done|]. cbn [index_]. rewrite Hi.
  destruct Hd as [(_ & _ & ->)|(? & ? & _)]; [lia|].
  unfold position, buffer_capacity.
  destruct (Nat.ltb_spec (begin_ d + o) (length (buffer_ d))),
    (Nat.ltb_spec (begin_ d + S o) (length (buffer_ d)));
    case_match; rewrite ?Nat.eqb_eq, ?Nat.eqb_neq in *; lia.
Qed.

Lemma iterator_eq_ok d n i j o o' :
  spans d n → iterates d i o → iterates d j o' →
  o ≤ n → o' ≤ n → iterator_eq i j = Ret (o =? o').
Proof.
  intros Hd Hi Hj Ho Ho'. unfold iterator_eq.
  rewrite (iterates_CheckComparable _ _ _ _ _ Hi Hj). cbn [mbind outcome_bind].
  by rewrite (iterates_eqb d n i j o o').
Qed.

Lemma iterator_lt_ok d n i j o o' :
  spans d n → iterates d i o → iterates d j o' →
  o ≤ n → o' ≤ n → iterator_lt d i j = Ret (o <? o').
Proof.
  intros Hd Hi Hj Ho Ho'. unfold iterator_lt.
  rewrite (iterates_CheckComparable _ _ _ _ _ Hi Hj). cbn [mbind outcome_bind].
  by rewrite (iterates_OffsetFromBegin d n i o), (iterates_OffsetFromBegin d n j o').
Qed.

Lemma iterator_distance_ok d n i j o o' :
  spans d n → iterates d i o → iterates d j o' → o ≤ n → o' ≤ n →
  iterator_distance d i j = Ret (Z.of_nat o - Z.of_nat o')%Z.
Proof.
  intros Hd Hi Hj Ho Ho'. unfold iterator_distance.
  rewrite (iterates_CheckComparable _ _ _ _ _ Hi Hj). cbn [mbind outcome_bind].
  by rewrite (iterates_OffsetFromBegin d n i o), (iterates_OffsetFromBegin d n j o').
Qed.

(** Offsets of deques in memory; [ptrdiff_t] holds them. *)
Lemma iterator_Add_ok d l i o delta :
  deque_holds d l → iterates d i o → o ≤ length l →
  (0 ≤ Z.of_nat o + delta ≤ Z.of_nat (length l))%Z →
  (2 * Z.of_nat (length (buffer_ d)) < 2 ^ 64)%Z →
  wp (iterator_Add d i delta) (λ i', iterates d i' (Z.to_nat (Z.of_nat o + delta))).
Proof.
  intros Hd Hi Ho Hr Hm. unfold iterator_Add. pose proof (holds_spans _ _ Hd) as Hs.
  rewrite (iterates_CheckUnstableUsage _ _ _ Hi). cbn [mbind outcome_bind].
  assert ((if (delta <=? 0)%Z then CheckValidIndexOrEnd d (index_ i)
           else CheckValidIndex d (index_ i)) = Ret tt) as ->.
  { destruct (Z.leb_spec delta 0).
    - by eapply iterates_CheckValidIndexOrEnd.
    - eapply iterates_CheckValidIndex; [done..|lia]. }
  cbn [mbind outcome_bind]. destruct (Z.eqb_spec delta 0) as [->|Hne].
  { cbn. by rewrite Z.add_0_r, Nat2Z.id. }
  rewrite (iterates_OffsetFromBegin d (length l) i o) by done.
  destruct Hd as [k Hok]. rewrite (ok_size _ _ _ Hok).
  rewrite DCHECK_true by (apply andb_true_iff; rewrite !Z.leb_le; lia).
  cbn [mbind outcome_bind].
  destruct Hs as [(_ & _ & ?)|(Hb & Hn & _)]; [lia|].
  unfold buffer_capacity. rewrite (proj2 (Nat.eqb_neq _ _)) by lia.
  split; [apply Hi|]. cbn [index_].
  set (n := Z.to_nat (Z.of_nat o + delta)).
  replace (Z.of_nat o + delta + Z.of_nat (begin_ d))%Z with (Z.of_nat (begin_ d + n)) by lia.
  rewrite to_size_t_small by (unfold is_size_t, u64_modulus; lia).
  rewrite <- Nat2Z.inj_mod, Nat2Z.id. apply position_mod; lia.
Qed.
End iterators.

(** [wp_step L]: the first call of the sequence meets its specification [L]. *)
Tactic Notation "wp_step" uconstr(L) :=
  apply wp_bind; eapply wp_mono; [|eapply L].

Ltac positions :=
  unfold position, buffer_capacity in *;
  repeat match goal with
  | |- context [(?a <? ?b)] => destruct (Nat.ltb_spec a b)
  | |- context [(?a =? ?b)] => destruct (Nat.eqb_spec a b)
  | |- context [(?a <=? ?b)] => destruct (Nat.leb_spec a b)
  end; lia.

Section operations.
Context `{BuildConfig} {T : Type}.
Implicit Types (d other : @circular_deque T) (l xs : list T) (x v : T).

Lemma turned_place bg (b : list (option T)) l k x :
  bg < length b → turned bg b = live l ++ dead (S k) →
  turned bg (<[position (length b) bg (length l) := Some x]> b)
    = live (l ++ [x]) ++ dead k.
Proof.
  intros Hb Ht. pose proof (f_equal length Ht) as Hl.
  rewrite length_turned, length_app, length_live, length_dead in Hl.
  rewrite insert_turned, Ht, live_app, <- app_assoc by lia.
  rewrite <- (length_live l). apply insert_middle.
Qed.

(** *** Access *)

Lemma deque_front_ok d l x : deque_holds d (x :: l) → deque_front d = Ret x.
Proof.
  intros [k Hok]. unfold deque_front. rewrite (ok_empty _ _ _ Hok). cbn [length].
  rewrite DCHECK_true by done. cbn [mbind outcome_bind].
  rewrite <- (ok_get _ _ _ 0 x Hok) by done. f_equal.
  destruct (ok_cases _ _ _ Hok) as [(_ & ? & _)|(_ & _ & ? & _)]; [done|].
  by rewrite position_0.
Qed.

Lemma deque_back_ok d l x : deque_holds d (l ++ [x]) → deque_back d = Ret x.
Proof.
  intros Hd. unfold deque_back. pose proof (holds_spans _ _ Hd) as Hs.
  rewrite length_app, Nat.add_1_r in Hs.
  pose proof (Decrement_ok d _ _ _ Hs (end_iterates _ _ Hs) (le_n _)) as Hdec.
  apply wp_exists in Hdec as (i & Hdec & Hi).
  destruct (Hd) as [k Hok]. rewrite (ok_empty _ _ _ Hok), length_app, Nat.add_1_r.
  rewrite DCHECK_true by done. cbn [mbind outcome_bind].
  rewrite Hdec. cbn [mbind outcome_bind].
  eapply iterator_get_ok; [done..|]. by apply list_lookup_middle.
Qed.

Lemma deque_at_ok d l i x :
  deque_holds d l → l !! i = Some x → deque_at d i = Ret x.
Proof.
  intros [k Hok] Hx. pose proof (lookup_lt_Some _ _ _ Hx) as Hi.
  unfold deque_at. rewrite (ok_size _ _ _ Hok), DCHECK_true by by apply Nat.ltb_lt.
  cbn [mbind outcome_bind]. rewrite <- (ok_get _ _ _ i x Hok) by done.
  destruct (ok_cases _ _ _ Hok) as [(_ & -> & _)|(? & Hl & ? & He)]; [done|].
  unfold buffer_capacity. rewrite He. unfold position.
  destruct (Nat.ltb_spec (begin_ d + length l) (length (buffer_ d))),
    (Nat.ltb_spec (begin_ d + i) (length (buffer_ d))),
    (Nat.ltb_spec i (length (buffer_ d) - begin_ d)); try lia;
    match goal with |- context [?a <=? ?b] => destruct (Nat.leb_spec a b) end;
    cbn [orb]; try lia; f_equal; lia.
Qed.

(** *** The ends *)

Lemma emplace_back_ok d l x :
  deque_holds d l →
  wp (emplace_back d x) (λ '(d', r), r = x ∧ deque_holds d' (l ++ [x])).
Proof.
  intros [k Hok]. unfold emplace_back.
  wp_step ExpandCapacityIfNecessary_wp; [|done]. intros d1 (k1 & [Hok1 _] & Hk1).
  specialize (Hk1 (le_n 1)). pose proof (ok_length _ _ _ Hok1) as Hl.
  destruct (ok_begin_lt _ _ _ Hok1) as [Hb He]; [lia|].
  destruct k1 as [|k1]; [lia|]. rewrite He.
  rewrite construct_lt by (apply position_lt; lia). cbn [mbind outcome_bind].
  unfold buffer_capacity. rewrite length_insert.
  match goal with |- wp (r ← deque_back ?dd; _) _ => set (d2 := dd) end.
  assert (deque_holds d2 (l ++ [x])) as Hd2.
  { exists k1. apply ok_IncrementGeneration, ok_intro; [lia|..].
    - apply turned_place; [done|apply Hok1].
    - by rewrite length_insert.
    - rewrite length_insert, length_app. cbn [length]. positions. }
  by rewrite (deque_back_ok _ _ _ Hd2).
Qed.

Lemma push_back_ok d l x :
  deque_holds d l → wp (push_back d x) (λ d', deque_holds d' (l ++ [x])).
Proof.
  intros Hd. wp_step emplace_back_ok; [|done]. intros [d' r] [_ Hd']. exact Hd'.
Qed.

Lemma emplace_front_ok d l x :
  deque_holds d l →
  wp (emplace_front d x) (λ '(d', r), r = x ∧ deque_holds d' (x :: l)).
Proof.
  intros [k Hok]. unfold emplace_front.
  wp_step ExpandCapacityIfNecessary_wp; [|done]. intros d1 (k1 & [Hok1 _] & Hk1).
  specialize (Hk1 (le_n 1)). pose proof (ok_length _ _ _ Hok1) as Hl.
  destruct (ok_begin_lt _ _ _ Hok1) as [Hb He]; [lia|].
  destruct k1 as [|k1]; [lia|]. unfold buffer_capacity.
  set (cap := length (buffer_ d1)) in *.
  set (bg := if begin_ d1 =? 0 then cap - 1 else begin_ d1 - 1).
  assert (bg = position cap (begin_ d1) (cap - 1)) as Hbg by (subst bg; positions).
  assert (bg < cap) as Hlt by (subst bg; positions).
  cbn [IncrementGeneration buffer_ begin_ end_ generation_].
  rewrite construct_lt by done. cbn [mbind outcome_bind].
  match goal with |- wp (r ← deque_front ?dd; _) _ => set (d2 := dd) end.
  assert (deque_holds d2 (x :: l)) as Hd2.
  { exists k1. apply ok_intro; rewrite ?length_insert; [lia| |done|].
    - rewrite <- (position_0 (length (buffer_ d1)) bg) at 2 by done.
      rewrite insert_turned by lia. rewrite Hbg. subst cap.
      rewrite turned_turned, (ok_turned _ _ _ Hok1), dead_S_end, app_assoc by lia.
      replace (length (buffer_ d1) - 1) with (length (live l ++ dead k1))
        by (rewrite length_app, length_live, length_dead; lia).
      by rewrite turned_app.
    - fold cap. rewrite He, Hbg. cbn [length]. positions. }
  by rewrite (deque_front_ok _ _ _ Hd2).
Qed.

Lemma push_front_ok d l x :
  deque_holds d l → wp (push_front d x) (λ d', deque_holds d' (x :: l)).
Proof.
  intros Hd. wp_step emplace_front_ok; [|done]. intros [d' r] [_ Hd']. exact Hd'.
Qed.

(** What the two [pop] functions do after they have destroyed an element. *)
Lemma shrink_after_pop d l k :
  deque_ok d l k →
  wp (d ← ShrinkCapacityIfNecessary d; Ret (IncrementGeneration d))
    (λ d', deque_holds d' l).
Proof.
  intros Hok. wp_step ShrinkCapacityIfNecessary_wp; [|done].
  intros d' (k' & [Hd' _] & _). exists k'. by apply ok_IncrementGeneration.
Qed.

Lemma pop_front_ok d l x :
  deque_holds d (x :: l) → wp (pop_front d) (λ d', deque_holds d' l).
Proof.
  intros [k Hok]. unfold pop_front. rewrite (ok_size _ _ _ Hok), DCHECK_true by done.
  cbn [mbind outcome_bind].
  destruct (ok_cases _ _ _ Hok) as [(_ & ? & _)|(Hk & Hl & Hb & He)]; [done|].
  cbn [length] in Hl.
  wp_step (DestructCells_turned (begin_ d) (buffer_ d) (begin_ d) [] [x]
    (live l ++ dead k)); [|done|unfold run_of; cbn; lia|apply Hok].
  intros b [Hlb Ht]. cbn [length dead replicate app] in Ht.
  unfold buffer_capacity. rewrite Hlb.
  apply (shrink_after_pop _ _ (S k)), ok_intro; rewrite ?Hlb; [lia|..].
  - replace (if S (begin_ d) =? length (buffer_ d) then 0 else S (begin_ d))
      with (position (length b) (begin_ d) (length [@None T]))
      by (rewrite Hlb; cbn [length]; positions).
    rewrite turned_turned, Ht by (cbn; lia).
    change (None :: ?r) with ([None] ++ r). rewrite turned_app, dead_S_end.
    by rewrite app_assoc.
  - positions.
  - rewrite He. cbn [length]. positions.
Qed.

Lemma pop_back_ok d l x :
  deque_holds d (l ++ [x]) → wp (pop_back d) (λ d', deque_holds d' l).
Proof.
  intros [k Hok]. pose proof (length_app l [x]) as Hlx. cbn [length] in Hlx.
  unfold pop_back. rewrite (ok_size _ _ _ Hok), Hlx, DCHECK_true
    by (by rewrite Nat.add_1_r).
  cbn [mbind outcome_bind].
  destruct (ok_cases _ _ _ Hok) as [(_ & ? & _)|(Hk & Hl & Hb & He)];
    [by destruct l|].
  unfold buffer_capacity.
  set (en := if end_ d =? 0 then _ else _).
  assert (en = position (length (buffer_ d)) (begin_ d) (length l)) as Hen.
  { subst en. rewrite He, Hlx. positions. }
  rewrite Hen. clear en Hen.
  wp_step (DestructCells_turned (begin_ d) (buffer_ d)
    (position (length (buffer_ d)) (begin_ d) (length l)) (live l) [x] (dead k));
    [|done| |].
  - intros b [Hlb Ht].
    apply (shrink_after_pop _ _ (S k)), ok_intro; rewrite ?Hlb; [lia| |done|done].
    by rewrite Ht.
  - rewrite length_live. unfold run_of. cbn [length].
    unfold position. destruct (Nat.ltb_spec (begin_ d + length l) (length (buffer_ d))); lia.
  - by rewrite (ok_turned _ _ _ Hok), live_app, <- app_assoc.
Qed.
End operations.

(** ** The whole deque *)

Section whole.
Context `{BuildConfig} {T : Type}.
Implicit Types (d other : @circular_deque T) (l xs : list T) (x v : T).

Lemma holds_empty_new : deque_holds (@deque_empty_new T) [].
Proof. exists 0. apply ok_empty_new. Qed.

Lemma holds_IncrementGeneration d l :
  deque_holds d l → deque_holds (IncrementGeneration d) l.
Proof. intros [k Hok]. exists k. by apply ok_IncrementGeneration. Qed.

Lemma deque_delete_ok d l :
  deque_holds d l → wp (deque_delete d) (Forall (.= None)).
Proof.
  intros [k Hok]. unfold deque_delete.
  eapply wp_mono; [|eapply DestructRange_all, Hok].
  intros b ->. by apply Forall_replicate.
Qed.

Lemma ok_all_dead n g : deque_ok (MkDeque (@dead T n) 0 0 g) [] n.
Proof.
  split; cbn; [by unfold turned; rewrite drop_0, take_0, app_nil_r|].
  destruct n; [by right|left]. rewrite length_dead. split; [lia|]. split; [lia|].
  by rewrite position_0 by lia.
Qed.

Lemma ClearRetainCapacity_ok d l :
  deque_holds d l → wp (ClearRetainCapacity d) (λ d', deque_holds d' []).
Proof.
  intros [k Hok]. unfold ClearRetainCapacity.
  wp_step DestructRange_all; [|done]. intros b ->.
  apply holds_IncrementGeneration. eexists. apply ok_all_dead.
Qed.

Lemma deque_clear_ok d l :
  deque_holds d l →
  wp (deque_clear d) (λ d', deque_holds d' [] ∧ deque_capacity d' = 0).
Proof.
  intros [k Hok]. unfold deque_clear, ClearRetainCapacity. rewrite wp_bind.
  wp_step DestructRange_all; [|done]. intros b ->. cbn. split; [|done].
  exists 0. split; [done|by right].
Qed.

Lemma deque_reserve_ok d l n :
  deque_holds d l →
  wp (deque_reserve d n) (λ d', deque_holds d' l ∧ n ≤ deque_capacity d').
Proof.
  intros [k Hok]. unfold deque_reserve. rewrite (ok_capacity _ _ _ Hok).
  destruct (Nat.ltb_spec (length l + (k - 1)) n).
  - eapply wp_mono; [|eapply SetCapacityTo_wp; [done|lia]].
    intros d' [Hd' _]. split; [by eexists|]. rewrite (ok_capacity _ _ _ Hd'). lia.
  - cbn. split; [by exists k|]. by rewrite (ok_capacity _ _ _ Hok).
Qed.

Lemma shrink_to_fit_ok d l :
  deque_holds d l →
  wp (shrink_to_fit d) (λ d', deque_holds d' l ∧ deque_capacity d' = length l).
Proof.
  intros [k Hok]. unfold shrink_to_fit. rewrite (ok_empty _ _ _ Hok).
  destruct (Nat.eqb_spec (length l) 0) as [Hl|Hl].
  - destruct l; [|done]. unfold buffer_capacity.
    destruct (Nat.eqb_spec (length (buffer_ d)) 0) as [Hb|Hb]; cbn.
    + split; [by exists k|]. unfold deque_capacity, buffer_capacity. by rewrite Hb.
    + split; [|done]. exists 0. split; cbn.
      { unfold turned. by rewrite drop_nil, take_nil. }
      right. split; [done|]. pose proof (ok_empty _ _ _ Hok) as He.
      unfold deque_empty in He. symmetry. by apply Nat.eqb_eq.
  - rewrite (ok_size _ _ _ Hok).
    eapply wp_mono; [|eapply SetCapacityTo_wp; [done|lia]].
    intros d' [Hd' _]. split; [by eexists|]. rewrite (ok_capacity _ _ _ Hd'). lia.
Qed.

Lemma emplace_copies_ok n d l v :
  deque_holds d l →
  wp (emplace_copies n d v) (λ d', deque_holds d' (l ++ replicate n v)).
Proof.
  revert d l. induction n as [|n IH]; intros d l Hd; cbn.
  { by rewrite app_nil_r. }
  wp_step push_back_ok; [|done]. intros d' Hd'.
  specialize (IH _ _ Hd'). by rewrite <- app_assoc in IH.
Qed.

Lemma deque_assign_ok d l n v :
  deque_holds d l →
  wp (deque_assign d n v) (λ d', deque_holds d' (replicate n v)).
Proof.
  intros Hd. wp_step ClearRetainCapacity_ok; [|done]. intros d1 Hd1.
  wp_step deque_reserve_ok; [|exact Hd1]. intros d2 [Hd2 _].
  wp_step emplace_copies_ok; [|exact Hd2]. intros d3 Hd3.
  by apply holds_IncrementGeneration.
Qed.

Lemma grow_to_ok fuel d l n v :
  deque_holds d l → n - length l ≤ fuel →
  wp (grow_to fuel d n v) (λ d', deque_holds d' (l ++ replicate (n - length l) v)).
Proof.
  revert d l. induction fuel as [|fuel IH]; intros d l [k Hok] Hf;
    cbn [grow_to]; rewrite (ok_size _ _ _ Hok);
    destruct (Nat.ltb_spec (length l) n);
    [lia| |
     |replace (n - length l) with 0 by lia; cbn; rewrite app_nil_r; by exists k].
  { replace (n - length l) with 0 by lia. cbn. rewrite app_nil_r. by exists k. }
  wp_step push_back_ok; [|by exists k]. intros d' Hd'.
  replace (n - length l) with (S (n - length (l ++ [v])))
    by (rewrite length_app; cbn; lia).
  eapply wp_mono; [|apply (IH _ _ Hd'); rewrite length_app; cbn; lia].
  intros d''. by rewrite <- app_assoc.
Qed.

(** [resize] keeps the first [n] elements and adds copies of [v]. *)
Lemma deque_resize_ok d l n v :
  deque_holds d l →
  wp (deque_resize d n v)
    (λ d', deque_holds d' (take n l ++ replicate (n - length l) v)).
Proof.
  intros [k Hok]. unfold deque_resize. rewrite (ok_size _ _ _ Hok). apply wp_bind.
  match goal with |- wp ?m _ =>
    cut (wp m (λ d', deque_holds d' (take n l ++ replicate (n - length l) v)));
    [intros Hm; eapply wp_mono; [|exact Hm]; intros d' Hd';
     by apply holds_IncrementGeneration|]
  end.
  destruct (Nat.ltb_spec (length l) n) as [Hlt|Hge].
  { wp_step ExpandCapacityIfNecessary_wp; [|done]. intros d1 (k1 & [Hok1 _] & _).
    rewrite take_ge by lia. apply grow_to_ok; [by exists k1|lia]. }
  replace (n - length l) with 0 by lia. cbn [replicate]. rewrite app_nil_r.
  destruct (Nat.ltb_spec n (length l)) as [Hlt|Hge'].
  2: { rewrite take_ge by lia. by exists k. }
  destruct (ok_cases _ _ _ Hok) as [(_ & -> & _)|(Hk & Hl & Hb & He)]; [cbn in *; lia|].
  unfold buffer_capacity. rewrite position_mod by lia.
  pose proof (DestructRange_turned d (live (take n l)) (drop n l) (dead k) Hb) as Hd.
  rewrite length_live, length_take, length_drop in Hd.
  replace (n `min` length l) with n in Hd by lia.
  replace (n + (length l - n)) with (length l) in Hd by lia.
  rewrite <- He in Hd. apply wp_bind. eapply wp_mono; [|apply Hd].
  - intros b [Hlb Ht]. rewrite <- dead_add in Ht.
    eapply wp_mono; [|eapply ShrinkCapacityIfNecessary_wp, ok_intro].
    + intros d' (k' & [Hd' _] & _). by exists k'.
    + apply (Nat.le_trans _ k); [done|]. apply Nat.le_add_l.
    + exact Ht.
    + lia.
    + rewrite Hlb, length_take. f_equal. lia.
  - lia.
  - by rewrite (ok_turned _ _ _ Hok), (app_assoc (live _) (live _)), <- live_app, take_drop.
Qed.

(** ** From one deque to another *)

Lemma emplace_range_ok fuel d other l xs i o :
  deque_holds d l → deque_holds other xs → iterates other i o →
  o ≤ length xs → length xs - o ≤ fuel →
  wp (emplace_range fuel d other i (deque_end other))
    (λ d', deque_holds d' (l ++ drop o xs)).
Proof.
  intros Hd Ho. pose proof (holds_spans _ _ Ho) as Hs. revert d l i o Hd.
  induction fuel as [|fuel IH]; intros d l i o Hd Hi Hle Hf; cbn;
    rewrite (iterator_eq_ok other (length xs) i _ o (length xs))
      by (try done; by apply end_iterates);
    cbn [mbind outcome_bind];
    destruct (Nat.eqb_spec o (length xs)); try lia;
    try (rewrite drop_ge by lia; cbn; by rewrite app_nil_r).
  assert (o < length xs) as Hlt by lia.
  destruct (lookup_lt_is_Some_2 _ _ Hlt) as [x Hx].
  rewrite (iterator_get_ok other xs i o x) by done. cbn [mbind outcome_bind].
  wp_step push_back_ok; [|done]. intros d1 Hd1.
  wp_step (Increment_ok other (length xs) i o); [|done..]. intros i' Hi'.
  specialize (IH d1 (l ++ [x]) i' (S o) Hd1 Hi').
  rewrite <- app_assoc in IH. cbn [app] in IH.
  rewrite (drop_S xs x o) by done. apply IH; lia.
Qed.

Lemma assign_range_ok d other l xs :
  deque_holds d l → deque_holds other xs →
  wp (assign_range d other (deque_begin other) (deque_end other))
    (λ d', deque_holds d' xs).
Proof.
  intros Hd Ho. pose proof (begin_iterates _ _ (holds_spans _ _ Ho)) as Hb.
  wp_step ClearRetainCapacity_ok; [|done]. intros d1 Hd1.
  wp_step (emplace_range_ok _ _ _ [] xs _ 0); [|try done..].
  - intros d2 Hd2. by apply holds_IncrementGeneration.
  - lia.
  - destruct Ho as [k Hok]. rewrite (ok_size _ _ _ Hok). lia.
Qed.

Lemma deque_copy_new_ok other xs :
  deque_holds other xs → wp (deque_copy_new other) (λ d', deque_holds d' xs).
Proof.
  intros Ho. apply (assign_range_ok _ _ []); [|done].
  eexists. apply ok_all_dead.
Qed.

Lemma deque_copy_assign_ok d other l xs :
  deque_holds d l → deque_holds other xs →
  wp (deque_copy_assign d other) (λ d', deque_holds d' xs).
Proof.
  intros Hd Ho. wp_step deque_reserve_ok; [|done]. intros d1 [Hd1 _].
  by eapply assign_range_ok.
Qed.

Lemma deque_move_new_ok other xs :
  deque_holds other xs →
  deque_holds (fst (deque_move_new other)) xs
  ∧ deque_holds (snd (deque_move_new other)) [].
Proof.
  intros [k Hok]. split; [exists k; by apply ok_generation|].
  exists 0. apply (ok_all_dead 0).
Qed.

Lemma deque_move_assign_ok d other l xs :
  deque_holds d l → deque_holds other xs →
  wp (deque_move_assign d other)
    (λ '(d', other'), deque_holds d' xs ∧ deque_holds other' []).
Proof.
  intros Hd [k Hok]. wp_step ClearRetainCapacity_ok; [|done]. intros d1 _. cbn.
  split; [exists k; by apply ok_IncrementGeneration, ok_generation|].
  exists 0. apply (ok_all_dead 0).
Qed.

Lemma deque_swap_ok d other l xs :
  deque_holds d l → deque_holds other xs →
  deque_holds (fst (deque_swap d other)) xs
  ∧ deque_holds (snd (deque_swap d other)) l.
Proof.
  intros [k Hok] [k' Hok']. split.
  - exists k'. by apply ok_IncrementGeneration, ok_generation.
  - exists k. by apply ok_generation.
Qed.
End whole.
