(* ===== verification/DequeMiddle.v ===== *)
(** Insertion and removal in the middle of the double-ended queue of
    CircularDeque.v, and the property of the whole component: it refines a
    sequence. *)

From S2P Require Import Prelude.
From S2P Require Import Buffer.
From S2P Require Import CircularDeque.
From S2P Require Import DequeInvariant.
From S2P Require Import DequeEnds.

#[local] Open Scope nat_scope.

Section middle.
Context `{BuildConfig} {T : Type}.
Implicit Types (d : @circular_deque T) (l xs : list T) (x v : T).
Implicit Types (c rest : list (option T)) (i j n m k : nat).

(** Only the objects in the cells may differ. *)
Definition same_shape d d' : Prop :=
  length (buffer_ d') = length (buffer_ d) ∧ begin_ d' = begin_ d
  ∧ end_ d' = end_ d ∧ generation_ d' = generation_ d.

Lemma same_shape_refl d : same_shape d d.
Proof. done. Qed.

Lemma same_shape_trans d d' d'' :
  same_shape d d' → same_shape d' d'' → same_shape d d''.
Proof. unfold same_shape. intros (? & ? & ? & ?) (? & ? & ? & ?). by repeat split; etrans. Qed.

Lemma same_shape_spans d d' n : same_shape d d' → spans d n → spans d' n.
Proof.
  intros (Hl & Hb & He & _). unfold spans. rewrite Hl, Hb, He.
  intros [(Hn & ? & ?)|?]; [left|by right]. rewrite Hn in Hl.
  split; [|done]. by destruct (buffer_ d').
Qed.

Lemma same_shape_iterates d d' p o :
  same_shape d d' → iterates d p o → iterates d' p o.
Proof. intros (Hl & Hb & _ & Hg). unfold iterates. by rewrite Hl, Hb, Hg. Qed.

Lemma spans_lt d n o : spans d n → o < n → begin_ d < length (buffer_ d) ∧ n < length (buffer_ d).
Proof. intros [(_ & _ & ->)|(? & ? & _)]; [lia|done]. Qed.

Lemma turned_spans_ok d l k :
  1 ≤ k → spans d (length l) → turned (begin_ d) (buffer_ d) = live l ++ dead k →
  deque_ok d l k.
Proof.
  intros Hk Hs Ht. split; [done|]. destruct Hs as [(Hb & -> & Hl)|(? & ? & ?)]; [|by left].
  destruct l; [|done]. rewrite Hb in Ht. unfold turned in Ht.
  rewrite drop_nil, take_nil in Ht. destruct k; [lia|done].
Qed.

(** *** Moving one object *)

Lemma move_cell_ok d n i j x :
  spans d n → i < length (buffer_ d) → j < length (buffer_ d) → i ≠ j → 0 < n →
  turned (begin_ d) (buffer_ d) !! i = Some (Some x) →
  wp (move_cell d (position (length (buffer_ d)) (begin_ d) i)
        (position (length (buffer_ d)) (begin_ d) j))
    (λ d', same_shape d d' ∧ turned (begin_ d') (buffer_ d')
       = <[i := None]> (<[j := Some x]> (turned (begin_ d) (buffer_ d)))).
Proof.
  intros Hs Hi Hj Hne Hn Hx. destruct (spans_lt _ _ _ Hs Hn) as [Hb _]. unfold move_cell.
  rewrite DCHECK_true.
  2: { apply negb_true_iff, Nat.eqb_neq. intros E. apply Hne. by eapply position_inj. }
  cbn [mbind outcome_bind]. rewrite get_cell_turned with (x := x) by done.
  cbn [mbind outcome_bind]. rewrite construct_lt by by apply position_lt.
  cbn [mbind outcome_bind with_buffer]. split.
  - repeat split. cbn. by rewrite !length_insert.
  - pose proof (insert_turned (begin_ d)
      (<[position (length (buffer_ d)) (begin_ d) j := Some x]> (buffer_ d)) i None) as E.
    rewrite length_insert in E. cbn [with_buffer begin_ buffer_]. rewrite E by done. by rewrite insert_turned.
Qed.

(** A live cell and the free cells after it change places. *)
Lemma move_past c m x rest :
  <[length c := None]> (<[length c + S m := Some x]> (c ++ Some x :: dead (S m) ++ rest))
    = c ++ dead (S m) ++ Some x :: rest.
Proof.
  pose proof (insert_middle (dead m) None (Some x) rest) as E. rewrite length_dead in E.
  rewrite insert_app_r.
  change (<[S m := Some x]> (Some x :: dead (S m) ++ rest))
    with (Some x :: <[m := Some x]> (dead (S m) ++ rest)).
  rewrite insert_middle, (dead_S_end m), <- app_assoc. cbn [app]. rewrite E.
  by rewrite <- (dead_S_end m).
Qed.

Lemma move_back c m x rest :
  <[length c + S m := None]> (<[length c := Some x]> (c ++ dead (S m) ++ Some x :: rest))
    = c ++ Some x :: dead (S m) ++ rest.
Proof.
  pose proof (insert_middle (dead m) (Some x) None rest) as E. rewrite length_dead in E.
  cbn [dead replicate app]. rewrite insert_middle, insert_app_r.
  fold (@dead T m).
  change (<[S m := None]> (Some x :: dead m ++ Some x :: rest))
    with (Some x :: <[m := None]> (dead m ++ Some x :: rest)). rewrite E.
  change (None :: dead m ++ rest) with (dead (S m) ++ rest). by rewrite (dead_S_end m), <- app_assoc.
Qed.

(** *** The loops *)

Lemma shift_elements_right_ok fuel n m l1 d l2 rest ib src dest :
  length l2 ≤ fuel → spans d n → length l1 + length l2 + S m ≤ n →
  iterates d ib (length l1) → iterates d src (length l1 + length l2) →
  iterates d dest (length l1 + length l2 + S m) →
  turned (begin_ d) (buffer_ d) = live (l1 ++ l2) ++ dead (S m) ++ rest →
  wp (shift_elements_right fuel d ib src dest) (λ d', same_shape d d' ∧
    turned (begin_ d') (buffer_ d') = live l1 ++ dead (S m) ++ live l2 ++ rest).
Proof.
  revert fuel d rest src dest. induction l2 as [|x l2 IH] using rev_ind;
    intros fuel d rest src dest Hf Hs Hn Hib Hsrc Hdest Ht.
  { cbn [length] in *. rewrite Nat.add_0_r in *. rewrite app_nil_r in Ht.
    destruct fuel; cbn [shift_elements_right];
      rewrite (iterator_eq_ok d n src ib (length l1) (length l1)), Nat.eqb_refl
        by (done || lia); by split. }
  rewrite length_app in *. cbn [length] in *. destruct fuel as [|fuel]; [lia|].
  cbn [shift_elements_right].
  rewrite (iterator_eq_ok d n src ib (length l1 + (length l2 + 1)) (length l1))
    by (done || lia).
  cbn [mbind outcome_bind]. rewrite (proj2 (Nat.eqb_neq _ _)) by lia.
  wp_step (Decrement_ok d n src (length l1 + length l2));
    [|done|by replace (S (length l1 + length l2)) with (length l1 + (length l2 + 1)) by lia|lia].
  intros src' Hsrc'.
  wp_step (Decrement_ok d n dest (length l1 + length l2 + S m)); [|done| |lia].
  2: { by replace (S (length l1 + length l2 + S m))
         with (length l1 + (length l2 + 1) + S m) by lia. }
  intros dest' Hdest'. pose proof Hsrc' as [_ ->]. pose proof Hdest' as [_ ->].
  destruct (spans_lt d n 0 Hs) as [Hb Hnl]; [lia|].
  assert (Ht' : turned (begin_ d) (buffer_ d)
    = live (l1 ++ l2) ++ Some x :: dead (S m) ++ rest).
  { by rewrite Ht, (app_assoc l1), live_app, <- app_assoc. }
  wp_step (move_cell_ok d n _ _ x); [|done|lia..|].
  2: { rewrite Ht'. rewrite <- length_app, <- (length_live (l1 ++ l2)).
       by apply list_lookup_middle. }
  intros d' [Hsh Htd]. rewrite Ht' in Htd.
  rewrite <- length_app, <- (length_live (l1 ++ l2)), move_past in Htd.
  eapply wp_mono; [|apply (IH fuel d' (Some x :: rest) src' dest');
    [lia| |lia|by eapply same_shape_iterates..|done]].
  - intros d'' [Hsh' ->]. split; [by eapply same_shape_trans|].
    by rewrite live_app, <- app_assoc.
  - by eapply same_shape_spans.
Qed.

Lemma shift_elements_left_ok fuel n m l1 d l2 rest src dest :
  length l2 ≤ fuel → spans d n → length l1 + S m + length l2 = n →
  iterates d src (length l1 + S m) → iterates d dest (length l1) →
  turned (begin_ d) (buffer_ d) = live l1 ++ dead (S m) ++ live l2 ++ rest →
  wp (shift_elements_left fuel d src (deque_end d) dest) (λ '(d', p), same_shape d d' ∧
    iterates d p (length (l1 ++ l2)) ∧
    turned (begin_ d') (buffer_ d') = live (l1 ++ l2) ++ dead (S m) ++ rest).
Proof.
  revert fuel d l1 src dest. induction l2 as [|x l2 IH];
    intros fuel d l1 src dest Hf Hs Hn Hsrc Hdest Ht; cbn [length] in *.
  { destruct fuel; cbn [shift_elements_left];
      rewrite (iterator_lt_ok d n src _ (length l1 + S m) n)
        by (done || lia || by apply end_iterates);
      rewrite (proj2 (Nat.ltb_ge _ _)) by lia; rewrite app_nil_r;
      (split; [apply same_shape_refl|by split]). }
  destruct fuel as [|fuel]; [lia|]. cbn [shift_elements_left].
  rewrite (iterator_lt_ok d n src _ (length l1 + S m) n)
    by (done || lia || by apply end_iterates).
  cbn [mbind outcome_bind]. rewrite (proj2 (Nat.ltb_lt _ _)) by lia.
  destruct (spans_lt d n 0 Hs) as [Hb Hnl]; [lia|].
  pose proof Hsrc as [_ ->]. pose proof Hdest as [_ ->].
  wp_step (move_cell_ok d n _ _ x); [|done|lia..|].
  2: { rewrite Ht, app_assoc. apply list_lookup_middle.
       by rewrite length_app, length_live, length_dead. }
  intros d' [Hsh Htd]. rewrite Ht in Htd. cbn [live fmap list_fmap app] in Htd.
  rewrite <- (length_live l1), move_back in Htd.
  assert (Hs' : spans d' n) by by eapply same_shape_spans.
  wp_step (Increment_ok d' n src (length l1 + S m));
    [|done|by eapply same_shape_iterates|lia].
  intros src' Hsrc'.
  wp_step (Increment_ok d' n dest (length l1));
    [|done|by eapply same_shape_iterates|lia].
  intros dest' Hdest'.
  assert (deque_end d = deque_end d') as ->.
  { destruct Hsh as (_ & _ & He & Hg). unfold deque_end. by rewrite He, Hg. }
  assert (Hl1 : length (l1 ++ [x]) = S (length l1)) by (rewrite length_app; cbn; lia).
  eapply wp_mono; [|apply (IH fuel d' (l1 ++ [x]) src' dest'); [lia|done| | | |]].
  - intros [d'' p] (Hsh' & Hi & Ht''). rewrite <- app_assoc in Hi, Ht''.
    split; [by eapply same_shape_trans|]. split; [|done].
    destruct Hsh as (Hl & Hb' & _ & Hg). unfold iterates in *. by rewrite <- Hl, <- Hb', <- Hg.
  - rewrite Hl1. lia.
  - by rewrite Hl1.
  - by rewrite Hl1.
  - by rewrite Htd, live_app, <- app_assoc.
Qed.

Lemma fill_room_ok n d l1 xs rest cur last :
  spans d n → length l1 + length xs ≤ n →
  iterates d cur (length l1) → iterates d last (length l1 + length xs) →
  turned (begin_ d) (buffer_ d) = live l1 ++ dead (length xs) ++ rest →
  wp (fill_room xs d cur last) (λ d', same_shape d d' ∧
    turned (begin_ d') (buffer_ d') = live (l1 ++ xs) ++ rest).
Proof.
  revert d l1 cur. induction xs as [|x xs IH]; intros d l1 cur Hs Hn Hcur Hlast Ht;
    cbn [fill_room length] in *.
  { rewrite (iterator_lt_ok d n cur last (length l1) (length l1 + 0)) by (done || lia).
    rewrite (proj2 (Nat.ltb_ge _ _)) by lia. rewrite app_nil_r. by split. }
  rewrite (iterator_lt_ok d n cur last (length l1) (length l1 + S (length xs)))
    by (done || lia).
  cbn [mbind outcome_bind]. rewrite (proj2 (Nat.ltb_lt _ _)) by lia.
  destruct (spans_lt d n 0 Hs) as [Hb Hnl]; [lia|].
  pose proof Hcur as [_ ->]. rewrite construct_lt by (apply position_lt; lia).
  cbn [mbind outcome_bind].
  match goal with |- context [with_buffer d ?b] => set (d1 := with_buffer d b) end.
  assert (Hsh : same_shape d d1) by (repeat split; cbn; by rewrite length_insert).
  assert (Hs1 : spans d1 n) by by eapply same_shape_spans.
  wp_step (Increment_ok d1 n cur (length l1)); [|done|by eapply same_shape_iterates|lia].
  intros cur' Hcur'.
  assert (Hl1 : length (l1 ++ [x]) = S (length l1)) by (rewrite length_app; cbn; lia).
  eapply wp_mono; [|apply (IH d1 (l1 ++ [x]) cur'); [done| | | |]].
  - intros d2 [Hsh' Ht']. rewrite <- app_assoc in Ht'.
    split; [by eapply same_shape_trans|done].
  - rewrite Hl1. lia.
  - by rewrite Hl1.
  - rewrite Hl1, Nat.add_succ_comm. by eapply same_shape_iterates.
  - cbn [d1 with_buffer begin_ buffer_]. rewrite insert_turned, Ht by lia.
    cbn [dead replicate app].
    rewrite <- (length_live l1), insert_middle, live_app, <- app_assoc. done.
Qed.
End middle.

(** ** Insertion *)

Section insertion.
Context `{BuildConfig} {T : Type}.
Implicit Types (d : @circular_deque T) (l xs : list T) (x v : T).
Implicit Types (p : deque_iterator).

Lemma MakeRoomFor_ok d l1 l2 m p :
  deque_holds d (l1 ++ l2) → iterates d p (length l1) →
  wp (MakeRoomFor d (S m) p) (λ '(d', cur, last), ∃ k,
    1 ≤ k ∧ spans d' (length l1 + S m + length l2) ∧
    generation_ d' = generation_ d ∧
    iterates d' cur (length l1) ∧ iterates d' last (length l1 + S m) ∧
    turned (begin_ d') (buffer_ d') = live l1 ++ dead (S m) ++ live l2 ++ dead k).
Proof.
  intros Hd Hp. unfold MakeRoomFor. cbn [Nat.eqb].
  rewrite (iterates_OffsetFromBegin d (length (l1 ++ l2)) p (length l1));
    [|by apply holds_spans|done|rewrite length_app; lia].
  destruct Hd as [k Hok]. wp_step (ExpandCapacityIfNecessary_wp d _ k (S m)); [|done].
  intros d1 (k1 & [Hok1 Hg1] & Hk1). specialize (Hk1 ltac:(lia)).
  pose proof (ok_length _ _ _ Hok1) as Hl. rewrite length_app in Hl.
  destruct (ok_begin_lt _ _ _ Hok1) as [Hb He]; [lia|]. rewrite length_app in He.
  unfold buffer_capacity. rewrite position_mod by lia.
  assert (Hle : (end_ d1 + S m) mod length (buffer_ d1)
    = position (length (buffer_ d1)) (begin_ d1) (length l1 + S m + length l2)).
  { rewrite He, position_mod, position_position by (try apply position_lt; lia).
    rewrite (position_small _ (_ + _)) by lia. f_equal. lia. }
  cbn [index_]. rewrite Hle.
  match goal with |- wp (d ← shift_elements_right _ ?dd ?ib ?src ?dest; _) _ =>
    set (d2 := dd); set (cur := ib) end.
  assert (Hs2 : spans d2 (length l1 + S m + length l2)).
  { right. subst d2. cbn. split; [done|]. split; [lia|done]. }
  assert (Hcur : iterates d2 cur (length l1)).
  { split; [|done]. subst d2 cur. cbn. rewrite Hg1. apply Hp. }
  wp_step (shift_elements_right_ok (deque_size d2) (length l1 + S m + length l2) m l1 d2 l2
    (dead (k1 - S m)) cur (deque_end d1) (deque_end d2)); [|try done..].
  - intros d3 [Hsh Ht]. cbn. exists (k1 - S m). split; [lia|].
    split; [by eapply same_shape_spans|].
    pose proof Hsh as (Hl3 & Hb3 & _ & Hg3). cbn in Hl3, Hb3, Hg3.
    split; [congruence|]. split; [by eapply same_shape_iterates|]. split; [|done].
    split; [done|]. cbn [index_]. rewrite Hl3, Hb3.
    change (index_ cur) with (position (length (buffer_ d1)) (begin_ d1) (length l1)).
    rewrite position_mod, position_position by (try apply position_lt; lia).
    by rewrite (position_small _ (length l1)) by lia.
  - rewrite (spans_size _ _ Hs2). lia.
  - lia.
  - pose proof (end_iterates _ _ Hs2) as Hend.
    by replace (length l1 + length l2 + S m) with (length l1 + S m + length l2) by lia.
  - cbn [d2 begin_ buffer_]. rewrite (ok_turned _ _ _ Hok1). f_equal.
    rewrite <- dead_add. f_equal. lia.
Qed.

(** [pos == begin()] *)
Lemma at_begin d l p o :
  deque_holds d l → iterates d p o → o ≤ length l →
  iterator_eq p (deque_begin d) = Ret (o =? 0).
Proof.
  intros Hd Hp Ho. pose proof (holds_spans _ _ Hd) as Hs.
  eapply iterator_eq_ok; [done..|by eapply begin_iterates|done|lia].
Qed.

Lemma spans_IncrementGeneration d n : spans d n → spans (IncrementGeneration d) n.
Proof. done. Qed.

Lemma iterates_restamped d p o :
  iterates d p o →
  iterates (IncrementGeneration d)
    (deque_iterator_at (IncrementGeneration d) (index_ p)) o.
Proof. intros [_ Hp]. by split. Qed.

(** [insert] of one element returns an iterator to it. *)
Lemma emplace_ok d l1 l2 p x :
  deque_holds d (l1 ++ l2) → iterates d p (length l1) →
  wp (emplace d p x) (λ '(d', q),
    deque_holds d' (l1 ++ x :: l2) ∧ iterates d' q (length l1)).
Proof.
  intros Hd Hp. unfold emplace, ValidateIterator.
  rewrite (iterates_CheckUnstableUsage _ _ _ Hp). cbn [mbind outcome_bind].
  rewrite (at_begin _ _ _ _ Hd Hp) by (rewrite length_app; lia).
  cbn [mbind outcome_bind]. destruct (Nat.eqb_spec (length l1) 0) as [Hl|Hl].
  - destruct l1; [|done]. wp_step emplace_front_ok; [|exact Hd].
    intros [d' r] [_ Hd']. split; [done|]. by eapply begin_iterates, holds_spans.
  - wp_step (MakeRoomFor_ok (IncrementGeneration d) l1 l2 0);
      [|by apply holds_IncrementGeneration|by apply iterates_restamped].
    intros [[d1 cur] last] (k & Hk & Hs & Hg & Hcur & _ & Ht).
    destruct (spans_lt _ _ 0 Hs) as [Hb Hn]; [lia|].
    pose proof Hcur as [_ ->]. rewrite construct_lt by (apply position_lt; lia).
    cbn [mbind outcome_bind].
    assert (Hsh : same_shape d1 (with_buffer d1
      (<[position (length (buffer_ d1)) (begin_ d1) (length l1) := Some x]> (buffer_ d1)))).
    { repeat split. cbn. by rewrite length_insert. }
    split; [|by eapply same_shape_iterates].
    exists k. apply turned_spans_ok; [done|..].
    + eapply same_shape_spans; [done|]. rewrite length_app. cbn [length].
      by replace (length l1 + S (length l2)) with (length l1 + 1 + length l2) by lia.
    + cbn [with_buffer begin_ buffer_]. rewrite insert_turned, Ht by lia.
      cbn [dead replicate app]. rewrite <- (length_live l1), insert_middle.
      by rewrite live_app, <- app_assoc.
Qed.

Lemma push_front_copies_ok n d l v :
  deque_holds d l →
  wp (push_front_copies n d v) (λ d', deque_holds d' (replicate n v ++ l)).
Proof.
  revert d l. induction n as [|n IH]; intros d l Hd; [done|].
  cbn [push_front_copies]. wp_step push_front_ok; [|done]. intros d' Hd'.
  eapply wp_mono; [|apply (IH _ _ Hd')]. intros d''.
  by rewrite replicate_S_end, <- app_assoc.
Qed.

(** What both range insertions do in the room they have made. *)
Lemma fill_room_finish d l1 xs l2 k cur last :
  1 ≤ k → spans d (length l1 + length xs + length l2) →
  iterates d cur (length l1) → iterates d last (length l1 + length xs) →
  turned (begin_ d) (buffer_ d) = live l1 ++ dead (length xs) ++ live l2 ++ dead k →
  wp (d ← fill_room xs d cur last; Ret (IncrementGeneration d))
    (λ d', deque_holds d' (l1 ++ xs ++ l2)).
Proof.
  intros Hk Hs Hcur Hlast Ht. wp_step (fill_room_ok (length l1 + length xs + length l2) d l1 xs
    (live l2 ++ dead k)); [|done|lia|done..].
  intros d' [Hsh Ht']. apply holds_IncrementGeneration. exists k.
  apply turned_spans_ok; [done|..].
  - eapply same_shape_spans; [done|]. rewrite !length_app. by rewrite Nat.add_assoc.
  - by rewrite Ht', !live_app, <- !app_assoc.
Qed.

Lemma insert_copies_ok d l1 l2 p n v :
  deque_holds d (l1 ++ l2) → iterates d p (length l1) →
  wp (insert_copies d p n v) (λ d', deque_holds d' (l1 ++ replicate n v ++ l2)).
Proof.
  intros Hd Hp. unfold insert_copies, ValidateIterator.
  rewrite (iterates_CheckUnstableUsage _ _ _ Hp). cbn [mbind outcome_bind].
  rewrite (at_begin _ _ _ _ Hd Hp) by (rewrite length_app; lia).
  cbn [mbind outcome_bind]. destruct (Nat.eqb_spec (length l1) 0) as [Hl|Hl].
  - destruct l1; [|done]. destruct Hd as [k Hok].
    wp_step (ExpandCapacityIfNecessary_wp d _ k n); [|done].
    intros d1 (k1 & [Hok1 _] & _). apply push_front_copies_ok. by exists k1.
  - destruct n as [|n].
    { cbn [MakeRoomFor Nat.eqb mbind outcome_bind replicate fill_room].
      assert (Hp' : iterates d (deque_iterator_at d (index_ p)) (length l1)).
      { split; [done|]. apply Hp. }
      rewrite (iterator_lt_ok d (length (l1 ++ l2)) _ _ (length l1) (length l1));
        [|by apply holds_spans|done..|rewrite length_app; lia|rewrite length_app; lia].
      rewrite Nat.ltb_irrefl. by apply holds_IncrementGeneration. }
    wp_step (MakeRoomFor_ok d l1 l2 n); [|done|split; [done|apply Hp]].
    intros [[d1 cur] last] (k & Hk & Hs & Hg & Hcur & Hlast & Ht).
    apply (fill_room_finish d1 l1 (replicate (S n) v) l2 k);
      by rewrite ?length_replicate.
Qed.

Lemma insert_range_ok d l1 l2 p xs :
  deque_holds d (l1 ++ l2) → iterates d p (length l1) →
  wp (insert_range d p xs) (λ d', deque_holds d' (l1 ++ xs ++ l2)).
Proof.
  intros Hd Hp. unfold insert_range, ValidateIterator.
  rewrite (iterates_CheckUnstableUsage _ _ _ Hp). cbn [mbind outcome_bind].
  destruct xs as [|x xs']; [done|]. set (xs := x :: xs').
  assert (exists m, length xs = S m) as [m Hm] by (by eexists). rewrite Hm. cbn [Nat.eqb].
  rewrite (at_begin _ _ _ _ Hd Hp) by (rewrite length_app; lia).
  cbn [mbind outcome_bind]. destruct (Nat.eqb_spec (length l1) 0) as [Hl|Hl].
  - destruct l1; [|done]. cbn [app length] in *. destruct Hd as [k Hok].
    apply wp_bind. wp_step (ExpandCapacityIfNecessary_wp d _ k (S m)); [|done].
    intros d1 (k1 & [Hok1 _] & Hk1). specialize (Hk1 ltac:(lia)).
    pose proof (ok_length _ _ _ Hok1) as Hlen.
    destruct (ok_begin_lt _ _ _ Hok1) as [Hb He]; [lia|].
    unfold buffer_capacity.
    assert (Hbg : (begin_ d1 + length (buffer_ d1) - S m) mod length (buffer_ d1)
      = position (length (buffer_ d1)) (begin_ d1) (length l2 + (k1 - S m))).
    { rewrite <- position_mod by lia. f_equal. lia. }
    rewrite Hbg. cbn [mbind outcome_bind wp].
    apply (fill_room_finish _ [] xs l2 (k1 - S m)); rewrite ?Hm; cbn [length].
    + lia.
    + right. cbn. split; [apply position_lt; lia|]. split; [lia|].
      rewrite position_position, He by lia. f_equal. positions.
    + apply (begin_iterates _ (S m + length l2)). right. cbn.
      split; [apply position_lt; lia|]. split; [lia|].
      rewrite position_position, He by lia. f_equal. positions.
    + split; [done|]. cbn. rewrite position_position by lia.
      symmetry. rewrite <- (position_0 (length (buffer_ d1)) (begin_ d1)) at 2 by done.
      f_equal. positions.
    + cbn [begin_ buffer_]. rewrite turned_turned, (ok_turned _ _ _ Hok1) by lia.
      replace k1 with ((k1 - S m) + S m) at 2 by lia.
      rewrite dead_add, app_assoc.
      replace (length l2 + (k1 - S m)) with (length (live l2 ++ dead (k1 - S m)))
        by (by rewrite length_app, length_live, length_dead).
      by rewrite turned_app.
  - wp_step (MakeRoomFor_ok d l1 l2 m); [|done|split; [done|apply Hp]].
    intros [[d1 cur] last] (k & Hk & Hs & Hg & Hcur & Hlast & Ht).
    apply (fill_room_finish d1 l1 xs l2 k); by rewrite ?Hm.
Qed.
End insertion.

(** ** Removal *)

Section removal.
Context `{BuildConfig} {T : Type}.
Implicit Types (d : @circular_deque T) (l xs : list T) (x v : T).
Implicit Types (p q first last : deque_iterator).

(** A gap at the beginning: the deque begins after it. *)
Lemma erase_front_gap (b : list (option T)) bg en g m k l :
  1 ≤ k → bg < length b → length b = S m + length l + k →
  turned bg b = dead (S m) ++ live l ++ dead k →
  en = position (length b) bg (S m + length l) →
  deque_ok (MkDeque b (position (length b) bg (S m)) en g) l (k + S m).
Proof.
  intros Hk Hb Hl Ht He. apply ok_intro; [lia| |apply position_lt; lia|].
  - rewrite turned_turned, Ht by lia. rewrite <- (@length_dead T (S m)) at 1.
    by rewrite turned_app, <- app_assoc, dead_add.
  - rewrite He, position_position by lia. by rewrite (position_small _ (S m)) by lia.
Qed.

(** A gap after [l1]: the elements after it move down. *)
Lemma erase_inner_gap d m k l1 l2 src dest :
  1 ≤ k → spans d (length l1 + S m + length l2) →
  turned (begin_ d) (buffer_ d) = live l1 ++ dead (S m) ++ live l2 ++ dead k →
  iterates d src (length l1 + S m) → iterates d dest (length l1) →
  wp ('(d', p) ← shift_elements_left (deque_size d) d src (deque_end d) dest;
      Ret (MkDeque (buffer_ d') (begin_ d') (index_ p) (generation_ d')))
    (λ d', deque_holds d' (l1 ++ l2) ∧ length (buffer_ d') = length (buffer_ d)
       ∧ begin_ d' = begin_ d ∧ generation_ d' = generation_ d).
Proof.
  intros Hk Hs Ht Hsrc Hdest.
  wp_step (shift_elements_left_ok (deque_size d) (length l1 + S m + length l2) m l1 d l2
    (dead k) src dest); [|rewrite (spans_size _ _ Hs); lia|done|lia|done..].
  intros [d' p] (Hsh & Hp & Ht'). pose proof Hsh as (Hl & Hb & _ & Hg).
  pose proof Hp as [_ Hpi].
  destruct (spans_lt d _ 0 Hs) as [Hlt _]; [lia|].
  split; [|done]. exists (S m + k). apply ok_intro; [lia| | |].
  - by rewrite Ht', dead_add.
  - by rewrite Hl, Hb.
  - by rewrite Hpi, Hl, Hb.
Qed.

(** The destruction of a range, as [erase] writes it. *)
Lemma erase_destructs d l1 l2 l3 first last k :
  deque_ok d (l1 ++ l2 ++ l3) k → 1 ≤ k → (0 < length l2) →
  iterates d first (length l1) → iterates d last (length l1 + length l2) →
  wp (if (index_ first <? index_ last)
      then DestructCells (buffer_ d) (index_ first) (index_ last - index_ first)
      else
        b ← DestructCells (buffer_ d) (index_ first)
              (buffer_capacity (buffer_ d) - index_ first);
        DestructCells b 0 (index_ last))
    (λ b, length b = length (buffer_ d) ∧
       turned (begin_ d) b = live l1 ++ dead (length l2) ++ live l3 ++ dead k).
Proof.
  intros Hok Hk Hl2 [_ Hf] [_ Hl]. destruct (ok_begin_lt _ _ _ Hok Hk) as [Hb _].
  pose proof (ok_length _ _ _ Hok) as Hlen. rewrite !length_app in Hlen.
  pose proof (DestructRange_turned d (live l1) l2 (live l3 ++ dead k) Hb) as Hde.
  rewrite length_live, <- Hf, <- Hl in Hde. unfold DestructRange in Hde.
  destruct (Nat.eqb_spec (index_ last) (index_ first)) as [E|Hne].
  - exfalso. rewrite Hf, Hl in E. apply position_inj in E; lia.
  - apply Hde; [lia|]. by rewrite (ok_turned _ _ _ Hok), !live_app, <- !app_assoc.
Qed.

(** [erase] returns an iterator to what followed the range. *)
Lemma erase_range_ok d l1 l2 l3 first last :
  deque_holds d (l1 ++ l2 ++ l3) →
  iterates d first (length l1) → iterates d last (length l1 + length l2) →
  wp (erase_range d first last) (λ '(d', p),
    deque_holds d' (l1 ++ l3) ∧ iterates d' p (length l1)).
Proof.
  intros Hd Hf Hl. pose proof (holds_spans _ _ Hd) as Hs. rewrite !length_app in Hs.
  unfold erase_range, ValidateIterator.
  rewrite (iterates_CheckUnstableUsage _ _ _ Hf), (iterates_CheckUnstableUsage _ _ _ Hl).
  cbn [mbind outcome_bind].
  rewrite (iterates_eqb d (length l1 + (length l2 + length l3)) _ _
    (length l1) (length l1 + length l2)) by (done || lia).
  destruct (Nat.eqb_spec (length l1) (length l1 + length l2)) as [E|Hne].
  { destruct l2; [|cbn in E; lia]. split; [by apply holds_IncrementGeneration|].
    by apply iterates_restamped. }
  assert (∃ m, length l2 = S m) as [m Hm] by (destruct l2; cbn in *; [lia|by eexists]).
  destruct (spans_lt d _ 0 Hs) as [Hb Hn]; [lia|]. pose proof Hd as [k Hok].
  pose proof (ok_length _ _ _ Hok) as Hlen. rewrite !length_app in Hlen.
  assert (1 ≤ k) as Hk by lia. destruct (ok_begin_lt _ _ _ Hok Hk) as [_ He].
  rewrite !length_app in He. pose proof Hf as [_ Hfi]. pose proof Hl as [_ Hli].
  cbn [IncrementGeneration buffer_ begin_ end_ generation_].
  wp_step (erase_destructs d l1 l2 l3 first last k); [|done|done|lia|done..].
  intros b [Hlb Ht]. rewrite Hm in Ht.
  cbn [with_buffer IncrementGeneration buffer_ begin_ end_ generation_].
  pose proof (iterates_eqb d _ first (deque_begin d) (length l1) 0 Hs Hf
    (begin_iterates _ _ Hs) ltac:(lia) ltac:(lia)) as Eb.
  cbn [deque_begin index_] in Eb. rewrite Eb. set (g := if dcheck_is_on then _ else _).
  destruct (Nat.eqb_spec (length l1) 0) as [Hl1|Hl1].
  - destruct l1; [|done]. cbn [app length Nat.add] in *.
    pose proof (erase_front_gap b (begin_ d) (end_ d) g m k l3) as Hgap.
    rewrite Hlb, <- Hm, <- Hli in Hgap.
    specialize (Hgap Hk Hb ltac:(lia) ltac:(by rewrite Hm) He).
    split; [by eexists|]. eapply (begin_iterates (MkDeque b _ _ _)), holds_spans. by eexists.
  - set (d1 := with_buffer _ b).
    pose proof (erase_inner_gap d1 m k l1 l3 (deque_iterator_at d1 (index_ last))
      (deque_iterator_at d1 (index_ first)) Hk) as Hgap.
    apply wp_bind in Hgap.
    + apply wp_bind. eapply wp_mono; [|exact Hgap]. intros [d2 p] (Hd2 & Hl2 & Hb2 & Hg2).
      split; [done|]. split; [done|]. cbn in Hl2, Hb2 |- *. by rewrite Hl2, Hb2, Hlb.
    + right. cbn. rewrite Hlb. split; [done|]. split; [lia|]. rewrite He. f_equal. lia.
    + done.
    + split; [done|]. cbn. by rewrite Hlb, Hli, Hm.
    + split; [done|]. cbn. by rewrite Hlb.
Qed.

Lemma erase_ok d l1 x l2 p :
  deque_holds d (l1 ++ x :: l2) → iterates d p (length l1) →
  (2 * Z.of_nat (length (buffer_ d)) < 2 ^ 64)%Z →
  wp (erase d p) (λ '(d', q), deque_holds d' (l1 ++ l2) ∧ iterates d' q (length l1)).
Proof.
  intros Hd Hp Hm. unfold erase.
  wp_step (iterator_Add_ok d (l1 ++ x :: l2) p (length l1) 1);
    [|done|done|rewrite length_app; cbn; lia..|done].
  intros q Hq. apply (erase_range_ok d l1 [x] l2); [done..|].
  cbn [length]. by replace (length l1 + 1) with (Z.to_nat (Z.of_nat (length l1) + 1)) by lia.
Qed.
End removal.

(** ** The component *)

Section component.
Context `{BuildConfig} {T : Type}.
Implicit Types (d : @circular_deque T) (l : list T).

(** [first] moved on [n] times by [++]. *)
Fixpoint advance d (n : nat) (first : deque_iterator) : outcome deque_iterator :=
  match n with
  | O => Ret first
  | S n => first ← Increment d first; advance d n first
  end.

Lemma advance_ok d l n o p :
  deque_holds d l → iterates d p o → o + n ≤ length l →
  wp (advance d n p) (λ q, iterates d q (o + n)).
Proof.
  intros Hd. revert o p. induction n as [|n IH]; intros o p Hp Hn; cbn [advance].
  { by rewrite Nat.add_0_r. }
  wp_step (Increment_ok d (length l) p o); [|by apply holds_spans|done|lia].
  intros q Hq. rewrite <- Nat.add_succ_comm. apply IH; [done|lia].
Qed.

(** The operations that change one deque; positions are offsets. *)
Inductive deque_op : Type :=
| OpPushFront (x : T)
| OpPushBack (x : T)
| OpPopFront
| OpPopBack
| OpInsert (o : nat) (x : T)
| OpInsertCopies (o n : nat) (x : T)
| OpInsertRange (o : nat) (xs : list T)
| OpErase (o n : nat)
| OpResize (n : nat) (x : T)
| OpAssign (n : nat) (x : T)
| OpReserve (n : nat)
| OpShrinkToFit
| OpClear.

Definition deque_run (op : deque_op) d : outcome (@circular_deque T) :=
  match op with
  | OpPushFront x => push_front d x
  | OpPushBack x => push_back d x
  | OpPopFront => pop_front d
  | OpPopBack => pop_back d
  | OpInsert o x =>
      p ← advance d o (deque_begin d); '(d, _) ← emplace d p x; Ret d
  | OpInsertCopies o n x =>
      p ← advance d o (deque_begin d); insert_copies d p n x
  | OpInsertRange o xs =>
      p ← advance d o (deque_begin d); insert_range d p xs
  | OpErase o n =>
      p ← advance d o (deque_begin d); q ← advance d n p;
      '(d, _) ← erase_range d p q; Ret d
  | OpResize n x => deque_resize d n x
  | OpAssign n x => deque_assign d n x
  | OpReserve n => deque_reserve d n
  | OpShrinkToFit => shrink_to_fit d
  | OpClear => deque_clear d
  end.

(** The same operations on a sequence, where they are allowed. *)
Definition sequence_run (op : deque_op) l : option (list T) :=
  match op with
  | OpPushFront x => Some (x :: l)
  | OpPushBack x => Some (l ++ [x])
  | OpPopFront => match l with [] => None | _ :: l => Some l end
  | OpPopBack => match l with [] => None | _ => Some (take (length l - 1) l) end
  | OpInsert o x =>
      if o <=? length l then Some (take o l ++ x :: drop o l) else None
  | OpInsertCopies o n x =>
      if o <=? length l then Some (take o l ++ replicate n x ++ drop o l) else None
  | OpInsertRange o xs =>
      if o <=? length l then Some (take o l ++ xs ++ drop o l) else None
  | OpErase o n =>
      if o + n <=? length l then Some (take o l ++ drop (o + n) l) else None
  | OpResize n x => Some (take n l ++ replicate (n - length l) x)
  | OpAssign n x => Some (replicate n x)
  | OpReserve _ | OpShrinkToFit => Some l
  | OpClear => Some []
  end.

Fixpoint deque_runs (ops : list deque_op) d : outcome circular_deque :=
  match ops with
  | [] => Ret d
  | op :: ops => d ← deque_run op d; deque_runs ops d
  end.
Fixpoint sequence_runs (ops : list deque_op) l : option (list T) :=
  match ops with
  | [] => Some l
  | op :: ops => l ← sequence_run op l; sequence_runs ops l
  end.

(** The iterator [o] places after [begin()]. *)
Lemma advance_begin d l o :
  deque_holds d l → o ≤ length l →
  wp (advance d o (deque_begin d)) (λ p, iterates d p o).
Proof.
  intros Hd Ho. apply (advance_ok d l o 0); [done| |done].
  by eapply begin_iterates, holds_spans.
Qed.

Lemma deque_run_ok op d l l' :
  deque_holds d l → sequence_run op l = Some l' →
  wp (deque_run op d) (λ d', deque_holds d' l').
Proof.
  intros Hd Hop. destruct op; cbn in *; simplify_eq.
  - by apply push_front_ok.
  - by apply push_back_ok.
  - destruct l; simplify_eq. by eapply pop_front_ok.
  - destruct l as [|x l _] using rev_ind; [done|]. rewrite length_app, Nat.add_sub in Hop.
    rewrite take_app_length in Hop. destruct l; cbn in *; simplify_eq; by eapply pop_back_ok.
  - destruct (Nat.leb_spec o (length l)); simplify_eq.
    rewrite <- (take_drop o l) in Hd.
    wp_step advance_begin; [|exact Hd|by rewrite take_drop].
    intros p Hp. wp_step (emplace_ok d (take o l) (drop o l) p x); [|done|by rewrite length_take_le].
    intros [d' q] [Hd' _]. exact Hd'.
  - destruct (Nat.leb_spec o (length l)); simplify_eq.
    rewrite <- (take_drop o l) in Hd.
    wp_step advance_begin; [|exact Hd|by rewrite take_drop].
    intros p Hp. apply insert_copies_ok; [done|by rewrite length_take_le].
  - destruct (Nat.leb_spec o (length l)); simplify_eq.
    rewrite <- (take_drop o l) in Hd.
    wp_step advance_begin; [|exact Hd|by rewrite take_drop].
    intros p Hp. apply insert_range_ok; [done|by rewrite length_take_le].
  - destruct (Nat.leb_spec (o + n) (length l)); simplify_eq.
    wp_step (advance_begin d l o); [|exact Hd|lia]. intros p Hp.
    wp_step (advance_ok d l n o p); [|done..]. intros q Hq.
    wp_step (erase_range_ok d (take o l) (take n (drop o l)) (drop (o + n) l) p q).
    + intros [d' r] [Hd' _]. exact Hd'.
    + by rewrite <- drop_drop, !take_drop.
    + by rewrite length_take_le by lia.
    + rewrite !length_take, length_drop.
      by replace (o `min` length l + n `min` (length l - o)) with (o + n) by lia.
  - by apply deque_resize_ok.
  - by eapply deque_assign_ok.
  - eapply wp_mono; [|by apply deque_reserve_ok]. by intros d' [Hd' _].
  - eapply wp_mono; [|by apply shrink_to_fit_ok]. by intros d' [Hd' _].
  - eapply wp_mono; [|by eapply deque_clear_ok]. by intros d' [Hd' _].
Qed.

Lemma deque_runs_ok ops d l l' :
  deque_holds d l → sequence_runs ops l = Some l' →
  wp (deque_runs ops d) (λ d', deque_holds d' l').
Proof.
  revert d l. induction ops as [|op ops IH]; intros d l Hd Hops; cbn in *.
  { by simplify_eq. }
  destruct (sequence_run op l) as [l1|] eqn:E; [|done].
  wp_step deque_run_ok; [|exact Hd|exact E]. intros d1 Hd1. exact (IH _ _ Hd1 Hops).
Qed.

(** What a client sees of a deque that holds [l]. *)
Definition shows d l : Prop :=
  deque_size d = length l ∧ deque_empty d = (length l =? 0)
  ∧ (∀ x, head l = Some x → deque_front d = Ret x)
  ∧ (∀ x, list.last l = Some x → deque_back d = Ret x)
  ∧ (∀ o x, l !! o = Some x → deque_at d o = Ret x)
  ∧ (∀ o x, l !! o = Some x →
       wp (p ← advance d o (deque_begin d); iterator_get d p) (.= x)).

Lemma holds_shows d l : deque_holds d l → shows d l.
Proof.
  intros Hd. destruct (Hd) as [k Hok].
  split; [by eapply ok_size|]. split; [by eapply ok_empty|].
  split; [|split; [|split]].
  - intros x Hx. destruct l; simplify_eq/=. by eapply deque_front_ok.
  - intros x [l' ->]%last_Some. by eapply deque_back_ok.
  - intros o x Hx. by eapply deque_at_ok.
  - intros o x Hx. pose proof (lookup_lt_Some _ _ _ Hx).
    wp_step (advance_begin d l o); [|done|lia]. intros p Hp.
    by rewrite (iterator_get_ok d l p o x).
Qed.

(** C35: a deque is a sequence: whatever operations run on an empty deque, each
    of them allowed on the sequence, the deque fails no check and has no
    undefined behaviour, shows exactly the sequence, and its destructor
    destroys every object once: it finds the objects where they are and leaves
    no object in the buffer. *)
Theorem deque_refines_sequence (ops : list deque_op) (l : list T) :
  sequence_runs ops [] = Some l →
  wp (deque_runs ops deque_empty_new) (λ d,
    shows d l ∧ wp (deque_delete d) (Forall (.= None))).
Proof.
  intros Hops. eapply wp_mono; [|eapply deque_runs_ok; [apply holds_empty_new|done]].
  intros d Hd. split; [by apply holds_shows|exact (deque_delete_ok d l Hd)].
Qed.
End component.

(** Six elements pushed on both sides of a deque that grows and wraps around,
    some put in the middle, some erased. *)
Lemma deque_refines_sequence_witness :
  let C : BuildConfig := {| dcheck_is_on := true; alloc_limit := 0 |} in
  ∃ l, sequence_runs
    [OpPushBack 1%Z; OpPushFront 2%Z; OpPushFront 3%Z; OpPushBack 4%Z;
     OpInsertCopies 2 3 5%Z; OpErase 1 2; OpPopFront; OpInsert 1 6%Z;
     OpShrinkToFit; OpResize 4 7%Z; OpInsertRange 4 [8%Z; 9%Z]; OpPopBack] []
      = Some l ∧ l = [5; 6; 5; 1; 8]%Z ∧
    wp (deque_runs
      [OpPushBack 1%Z; OpPushFront 2%Z; OpPushFront 3%Z; OpPushBack 4%Z;
       OpInsertCopies 2 3 5%Z; OpErase 1 2; OpPopFront; OpInsert 1 6%Z;
       OpShrinkToFit; OpResize 4 7%Z; OpInsertRange 4 [8%Z; 9%Z]; OpPopBack]
      deque_empty_new) (λ d,
      shows d l ∧ wp (deque_delete d) (Forall (.= None))).
Proof.
  intros C. eexists. split; [reflexivity|]. split; [reflexivity|].
  apply deque_refines_sequence. reflexivity.
Defined.

(** *** A stale iterator the generation does not catch *)

(** [reserve] moves the elements of a deque that has wrapped around, and the
    generation stays: an iterator made before is not caught by the check and
    reads another element. *)
Example reserve_keeps_generation :
  let C : BuildConfig := {| dcheck_is_on := true; alloc_limit := 0 |} in
  ∃ d d' : @circular_deque Z,
    deque_runs [OpPushBack 1%Z; OpPushBack 2%Z; OpPushFront 3%Z] deque_empty_new = Ret d
    ∧ deque_reserve d 10 = Ret d'
    ∧ iterator_get d (deque_iterator_at d 1) = Ret 2%Z
    ∧ iterator_get d' (deque_iterator_at d 1) = Ret 1%Z.
Proof. intros C. do 2 eexists. repeat split; reflexivity. Qed.
