(* ===== verification/StdAlgorithms.v ===== *)
(** The algorithms of the C++ standard library that the sorted containers of
    Chromium's base use: bisection, stable sorting, removal of duplicates and
    merging, on the elements of a vector, with what the standard promises of
    them. *)

From stdpp Require Import sorting.
From S2P Require Import Prelude.

#[local] Open Scope nat_scope.

(** ** Orders *)

(** "Compare" of the standard: a strict weak ordering. *)
Class StrictWeakOrder {K} (lt : K → K → bool) : Prop := {
  lt_irrefl a : lt a a = false;
  lt_trans a b c : lt a b = true → lt b c = true → lt a c = true;
  incomparable_trans a b c :
    lt a b = false → lt b a = false → lt b c = false → lt c b = false →
    lt a c = false ∧ lt c a = false
}.

(** Equivalent keys. *)
Definition same {K} (lt : K → K → bool) (a b : K) : bool :=
  negb (lt a b) && negb (lt b a).

Section order.
Context {K : Type} (lt : K → K → bool) `{!StrictWeakOrder lt}.
Implicit Types (a b c : K).

Lemma same_spec a b : same lt a b = true ↔ lt a b = false ∧ lt b a = false.
Proof. unfold same. destruct (lt a b), (lt b a); cbn; naive_solver. Qed.

Lemma lt_asym a b : lt a b = true → lt b a = false.
Proof.
  intros Hab. destruct (lt b a) eqn:Hba; [|done].
  pose proof (lt_trans _ _ _ Hab Hba) as H. by rewrite lt_irrefl in H.
Qed.

(** Everything is on one side or the other of a gap. *)
Lemma lt_gap a b c : lt a c = true → lt a b = true ∨ lt b c = true.
Proof.
  intros Hac. destruct (lt a b) eqn:Hab; [by left|]. right.
  destruct (lt b c) eqn:Hbc; [done|].
  destruct (lt b a) eqn:Hba; [by rewrite (lt_trans _ _ _ Hba Hac) in Hbc|].
  destruct (lt c b) eqn:Hcb; [by rewrite (lt_trans _ _ _ Hac Hcb) in Hab|].
  destruct (incomparable_trans a b c) as [H _]; [done..|]. congruence.
Qed.

Lemma same_refl a : same lt a a = true.
Proof. unfold same. by rewrite (lt_irrefl (lt := lt)). Qed.

Lemma same_sym a b : same lt a b = same lt b a.
Proof. unfold same. apply andb_comm. Qed.

Lemma same_trans a b c :
  same lt a b = true → same lt b c = true → same lt a c = true.
Proof.
  rewrite !same_spec. intros [??] [??]. by apply (incomparable_trans _ b).
Qed.

Lemma lt_same_l a b c : same lt a b = true → lt a c = lt b c.
Proof.
  rewrite same_spec. intros [H1 H2].
  destruct (lt a c) eqn:Hac, (lt b c) eqn:Hbc; try done.
  - destruct (lt_gap a b c Hac); congruence.
  - destruct (lt_gap b a c Hbc); congruence.
Qed.

Lemma lt_same_r a b c : same lt a b = true → lt c a = lt c b.
Proof.
  rewrite same_spec. intros [H1 H2].
  destruct (lt c a) eqn:Hac, (lt c b) eqn:Hbc; try done.
  - destruct (lt_gap c b a Hac); congruence.
  - destruct (lt_gap c a b Hbc); congruence.
Qed.

Lemma lt_not_same a b : lt a b = true → same lt a b = false.
Proof. unfold same. by intros ->. Qed.

(** Of two keys that are not equivalent, one is before the other. *)
Lemma lt_total a b : lt a b = false → same lt a b = false → lt b a = true.
Proof. unfold same. intros ->. by destruct (lt b a). Qed.

Lemma same_same a b c : same lt a b = true → same lt c a = same lt c b.
Proof. intros Hs. unfold same. by rewrite (lt_same_l a b), (lt_same_r a b). Qed.
End order.

(** ** Bisection *)

(** Dereferencing an iterator. *)
Definition deref {A} (v : list A) (i : nat) : outcome A :=
  match v !! i with Some x => Ret x | None => Undef OutOfBounds end.

Lemma vector_deref_ok {A} (v : list A) i x : v !! i = Some x → deref v i = Ret x.
Proof. unfold deref. by intros ->. Qed.

(** The loop of [std::partition_point]: [std::lower_bound] runs it with the
    predicate "less than the value", [std::upper_bound] with the predicate
    "the value is not less". *)
Fixpoint partition_loop {A} (p : A → bool) (v : list A) (fuel first len : nat)
    : outcome nat :=
  match fuel with
  | 0 => NoFuel
  | S fuel =>
      if len =? 0 then Ret first else
      let half := len / 2 in
      let middle := first + half in
      x ← deref v middle;
      if p x : bool
      then partition_loop p v fuel (middle + 1) (len - half - 1)
      else partition_loop p v fuel first half
  end.
Definition std_partition_point {A} (p : A → bool) (v : list A)
    (first last : nat) : outcome nat :=
  partition_loop p v (S (last - first)) first (last - first).

(** The length of the longest prefix whose elements satisfy [p]. *)
Fixpoint leading {A} (p : A → bool) (v : list A) : nat :=
  match v with [] => 0 | x :: v => if p x then S (leading p v) else 0 end.

Section bisection.
Context {A : Type} (p : A → bool).
Implicit Types (v : list A).

Lemma leading_le v : leading p v ≤ length v.
Proof. induction v as [|x v IH]; cbn; [lia|]. destruct (p x); lia. Qed.

Lemma leading_before v i x :
  v !! i = Some x → i < leading p v → p x = true.
Proof.
  revert i. induction v as [|y v IH]; intros i; [done|]. cbn.
  destruct (p y) eqn:Hy; [|lia]. destruct i as [|i]; cbn.
  - by intros [= <-].
  - intros Hi Hlt. apply (IH i); [done|lia].
Qed.

Lemma leading_at v x : v !! leading p v = Some x → p x = false.
Proof.
  induction v as [|y v IH]; [done|]. cbn. destruct (p y) eqn:Hy; cbn; [done|].
  by intros [= <-].
Qed.

Lemma leading_unique v i :
  i ≤ length v → (∀ j x, v !! j = Some x → j < i → p x = true) →
  (∀ x, v !! i = Some x → p x = false) → leading p v = i.
Proof.
  intros Hi Hb Ha. destruct (lt_eq_lt_dec (leading p v) i) as [[H| ->]|H];
    [|done|].
  - destruct (lookup_lt_is_Some_2 v (leading p v)) as [x Hx]; [lia|].
    pose proof (leading_at _ _ Hx). rewrite (Hb _ _ Hx H) in *. done.
  - pose proof (leading_le v). destruct (lookup_lt_is_Some_2 v i) as [x Hx]; [lia|].
    pose proof (leading_before _ _ _ Hx H). rewrite (Ha _ Hx) in *. done.
Qed.

(** "partitioned with respect to the expression": no element that satisfies
    the predicate comes after one that does not. *)
Definition partitioned v : Prop :=
  ∀ i j x y, v !! i = Some x → v !! j = Some y → i < j → p y = true → p x = true.

Lemma partition_loop_ok v fuel first len :
  partitioned v → len < fuel → first + len ≤ length v →
  first ≤ leading p v ≤ first + len →
  partition_loop p v fuel first len = Ret (leading p v).
Proof.
  intros Hp. revert first len.
  induction fuel as [|fuel IH]; intros first len Hfuel Hlen Hl; [lia|].
  cbn [partition_loop]. destruct (Nat.eqb_spec len 0) as [->|Hn].
  { f_equal. lia. }
  assert (len / 2 < len) as Hhalf by (apply Nat.div_lt; lia).
  destruct (lookup_lt_is_Some_2 v (first + len / 2)) as [x Hx]; [lia|].
  cbn zeta. rewrite (vector_deref_ok _ _ _ Hx). cbn [mbind outcome_bind].
  destruct (p x) eqn:Hpx.
  - apply IH; [lia|lia|]. split; [|lia].
    destruct (le_lt_dec (leading p v) (first + len / 2)) as [Hle|]; [|lia].
    destruct (lookup_lt_is_Some_2 v (leading p v)) as [y Hy]; [lia|].
    pose proof (leading_at _ _ Hy) as Hpy.
    destruct (decide (leading p v = first + len / 2)) as [He|Hne].
    + rewrite He, Hx in Hy. injection Hy as ->. congruence.
    + rewrite (Hp _ _ _ _ Hy Hx) in Hpy; [done|lia|done].
  - apply IH; [lia|lia|]. split; [lia|].
    destruct (le_lt_dec (leading p v) (first + len / 2)) as [|Hlt]; [done|].
    rewrite (leading_before _ _ _ Hx Hlt) in Hpx. done.
Qed.

Lemma std_partition_point_ok v last :
  partitioned v → last ≤ length v → leading p v ≤ last →
  std_partition_point p v 0 last = Ret (leading p v).
Proof. intros. apply partition_loop_ok; [done|lia..]. Qed.
End bisection.

(** ** Sorting, removing duplicates, merging *)

Section by_key.
Context {A K : Type} (get : A → K) (lt : K → K → bool).
Implicit Types (l : list A) (k : K) (x y : A).

Definition before x y : bool := lt (get x) (get y).

(** The elements with a key equivalent to [k]. *)
Definition matches k l : list A := filter (λ v, same lt k (get v) = true) l.

(** Sorted, with and without equivalent elements. *)
Definition sorted_le l : Prop := StronglySorted (λ x y, before y x = false) l.
Definition sorted_lt l : Prop := StronglySorted (λ x y, before x y = true) l.

(** [std::stable_sort]: elements that are equivalent keep their order, which
    determines the result. *)
Fixpoint insert_stable x l : list A :=
  match l with
  | [] => [x]
  | y :: l' => if before y x then y :: insert_stable x l' else x :: l
  end.
Definition std_stable_sort l : list A := foldr insert_stable [] l.

(** [std::unique]: of every group of consecutive equal elements the first. *)
Fixpoint unique_from (equal : A → A → bool) x l : list A :=
  match l with
  | [] => []
  | y :: l =>
      if equal x y then unique_from equal x l else y :: unique_from equal y l
  end.
Definition std_unique (equal : A → A → bool) l : list A :=
  match l with [] => [] | x :: l => x :: unique_from equal x l end.

(** [std::adjacent_find]: the position of the first element that equals its
    successor, or the end. *)
Fixpoint std_adjacent_find (equal : A → A → bool) l : nat :=
  match l with
  | [] => 0
  | x :: l =>
      match l with
      | [] => 1
      | y :: _ => if equal x y then 0 else S (std_adjacent_find equal l)
      end
  end.

(** [std::inplace_merge]: of equivalent elements those of the first range come
    first. *)
Fixpoint std_merge l1 l2 {struct l1} : list A :=
  match l1 with
  | [] => l2
  | x :: l1' =>
      (fix go l2 :=
         match l2 with
         | [] => l1
         | y :: l2' =>
             if before y x then y :: go l2' else x :: std_merge l1' l2
         end) l2
  end.
End by_key.

Section by_key_lemmas.
Context {A K : Type} (get : A → K) (lt : K → K → bool) `{!StrictWeakOrder lt}.
Implicit Types (l : list A) (k : K) (x y : A).

#[local] Notation before := (before get lt).
#[local] Notation matches := (matches get lt).
#[local] Notation sorted_le := (sorted_le get lt).
#[local] Notation sorted_lt := (sorted_lt get lt).

(** *** The elements with a key *)

Lemma matches_nil k : matches k [] = [].
Proof. done. Qed.

Lemma matches_app k l1 l2 : matches k (l1 ++ l2) = matches k l1 ++ matches k l2.
Proof. apply list.filter_app. Qed.

Lemma matches_cons k x l :
  matches k (x :: l) = (if same lt k (get x) then [x] else []) ++ matches k l.
Proof.
  unfold StdAlgorithms.matches. rewrite list.filter_cons.
  destruct (same lt k (get x)); by case_decide.
Qed.

Lemma elem_of_matches k x l :
  x ∈ matches k l ↔ same lt k (get x) = true ∧ x ∈ l.
Proof. unfold StdAlgorithms.matches. by rewrite list_elem_of_filter. Qed.

Lemma elem_of_matches_self x l : x ∈ l ↔ x ∈ matches (get x) l.
Proof. rewrite elem_of_matches. rewrite same_refl; naive_solver. Qed.

Lemma matches_same k k' l : same lt k k' = true → matches k l = matches k' l.
Proof.
  intros Hs. induction l as [|x l IH]; [done|]. rewrite !matches_cons, IH.
  by rewrite !(same_sym lt _ (get x)), (same_same lt k k' (get x)).
Qed.

Lemma matches_none k l :
  (∀ x, x ∈ l → same lt k (get x) = false) → matches k l = [].
Proof.
  intros Hn. induction l as [|x l IH]; [done|]. rewrite matches_cons.
  rewrite Hn by by left. apply IH. intros y Hy. apply Hn. by right.
Qed.

Lemma matches_nil_iff k l :
  matches k l = [] ↔ ∀ x, x ∈ l → same lt k (get x) = false.
Proof.
  split; [|apply matches_none]. intros Hm x Hx.
  destruct (same lt k (get x)) eqn:Hs; [|done].
  assert (x ∈ matches k l) as H by by apply elem_of_matches.
  rewrite Hm in H. by apply elem_of_nil in H.
Qed.

(** *** Sorted lists *)

Lemma sorted_lt_le l : sorted_lt l → sorted_le l.
Proof.
  induction 1 as [|x l Hs IH Hx]; constructor;
    [done|]. eapply list.Forall_impl; [exact Hx|]. intros y. apply (lt_asym lt).
Qed.

(** A sorted tree has at most one element with a key. *)
Lemma sorted_lt_matches k l :
  sorted_lt l → matches k l = [] ∨ ∃ x, matches k l = [x].
Proof.
  induction 1 as [|x l Hs IH Hx]; [by left|]. rewrite matches_cons.
  destruct (same lt k (get x)) eqn:Hk; [|done]. right. exists x.
  rewrite matches_none; [done|]. intros y Hy.
  rewrite list.Forall_forall in Hx. apply Hx in Hy. unfold StdAlgorithms.before in Hy.
  destruct (same lt k (get y)) eqn:Hky; [|done].
  rewrite same_sym in Hk. pose proof (same_trans lt _ _ _ Hk Hky) as H.
  by rewrite (lt_not_same lt _ _ Hy) in H.
Qed.

(** A key is below every element of a sorted list if below the first. *)
Lemma sorted_le_cons x l :
  sorted_le (x :: l) ↔ sorted_le l ∧ ∀ y, y ∈ l → before y x = false.
Proof.
  unfold StdAlgorithms.sorted_le. split.
  - intros Hs. apply StronglySorted_inv in Hs as [Hs Hx].
    by rewrite list.Forall_forall in Hx.
  - intros [Hs Hx]. constructor; [done|]. by rewrite list.Forall_forall.
Qed.
Lemma sorted_lt_cons x l :
  sorted_lt (x :: l) ↔ sorted_lt l ∧ ∀ y, y ∈ l → before x y = true.
Proof.
  unfold StdAlgorithms.sorted_lt. split.
  - intros Hs. apply StronglySorted_inv in Hs as [Hs Hx].
    by rewrite list.Forall_forall in Hx.
  - intros [Hs Hx]. constructor; [done|]. by rewrite list.Forall_forall.
Qed.

Lemma sorted_lt_app l1 l2 :
  sorted_lt (l1 ++ l2) ↔
  sorted_lt l1 ∧ sorted_lt l2 ∧ ∀ x y, x ∈ l1 → y ∈ l2 → before x y = true.
Proof.
  induction l1 as [|z l1 IH]; cbn [app].
  { split; [|naive_solver]. intros Hs. split_and!; [constructor|done|].
    by intros x y ?%elem_of_nil. }
  rewrite !sorted_lt_cons, IH. setoid_rewrite elem_of_app.
  setoid_rewrite elem_of_cons. naive_solver.
Qed.

(** *** Stable sorting *)

Lemma matches_insert_stable k x l :
  matches k (insert_stable get lt x l) = matches k (x :: l).
Proof.
  induction l as [|y l IH]; [done|]. cbn [insert_stable].
  destruct (before y x) eqn:Hyx; [|done].
  rewrite matches_cons, IH, !matches_cons.
  destruct (same lt k (get x)) eqn:Hx, (same lt k (get y)) eqn:Hy; try done.
  rewrite same_sym in Hy. pose proof (same_trans lt _ _ _ Hy Hx) as H.
  unfold StdAlgorithms.before in Hyx. by rewrite (lt_not_same lt _ _ Hyx) in H.
Qed.

Lemma elem_of_insert_stable y x l :
  y ∈ insert_stable get lt x l ↔ y = x ∨ y ∈ l.
Proof.
  rewrite elem_of_matches_self, matches_insert_stable, <- elem_of_matches_self.
  apply elem_of_cons.
Qed.

Lemma insert_stable_sorted x l :
  sorted_le l → sorted_le (insert_stable get lt x l).
Proof.
  induction l as [|y l IH]; cbn; intros Hs.
  { apply sorted_le_cons. split; [done|]. by intros y ?%elem_of_nil. }
  pose proof Hs as [Hl Hy]%sorted_le_cons. destruct (before y x) eqn:Hyx.
  - apply sorted_le_cons. split; [by apply IH|].
    intros z [-> |Hz]%elem_of_insert_stable; [by apply (lt_asym lt)|auto].
  - apply sorted_le_cons. split; [done|].
    intros z [-> |Hz]%elem_of_cons; [done|]. specialize (Hy _ Hz).
    unfold StdAlgorithms.before in *. destruct (lt (get z) (get x)) eqn:Hzx; [|done].
    destruct (lt_gap lt _ (get y) _ Hzx); congruence.
Qed.

Lemma matches_stable_sort k l : matches k (std_stable_sort get lt l) = matches k l.
Proof.
  induction l as [|x l IH]; [done|].
  change (std_stable_sort get lt (x :: l))
    with (insert_stable get lt x (std_stable_sort get lt l)).
  by rewrite matches_insert_stable, !matches_cons, IH.
Qed.

Lemma stable_sort_sorted l : sorted_le (std_stable_sort get lt l).
Proof. induction l; cbn; [constructor|]. by apply insert_stable_sorted. Qed.

Lemma length_stable_sort l : length (std_stable_sort get lt l) = length l.
Proof.
  assert (∀ x l, length (insert_stable get lt x l) = S (length l)) as Hi.
  { intros x k. induction k as [|y k IH]; [done|]. cbn.
    destruct (before y x); cbn; by rewrite ?IH. }
  induction l as [|x l IH]; [done|]. cbn. rewrite Hi. f_equal. exact IH.
Qed.

(** *** Removing duplicates *)

Lemma length_std_unique equal l : length (std_unique equal l) ≤ length l.
Proof.
  destruct l as [|x l]; [done|]. cbn. apply le_n_S. revert x.
  induction l as [|y l IH]; intros x; [done|]. cbn.
  destruct (equal x y); [pose proof (IH x)|pose proof (IH y)]; cbn; lia.
Qed.

(** The predicate of [sort_and_unique] on sorted elements. *)
Definition equal_sorted x y : bool := negb (before x y).

Lemma equal_sorted_same x y :
  before y x = false → equal_sorted x y = same lt (get x) (get y).
Proof.
  unfold equal_sorted, same, StdAlgorithms.before. intros ->. by rewrite andb_true_r.
Qed.

Lemma unique_from_spec x l :
  sorted_le (x :: l) →
  sorted_lt (x :: unique_from equal_sorted x l)
  ∧ ∀ k, matches k (x :: unique_from equal_sorted x l) = take 1 (matches k (x :: l)).
Proof.
  revert x. induction l as [|y l IH]; intros x Hs.
  { split; [by repeat constructor|]. intros k. rewrite matches_cons. cbn.
    by destruct (same lt k (get x)). }
  pose proof Hs as [[Hl Hy]%sorted_le_cons Hx]%sorted_le_cons. cbn [unique_from].
  pose proof (Hx y ltac:(by left)) as Hyx.
  rewrite (equal_sorted_same x y Hyx).
  destruct (same lt (get x) (get y)) eqn:Hxy.
  - destruct (IH x) as [IH1 IH2].
    { apply sorted_le_cons. split; [done|]. intros z Hz. apply Hx. by right. }
    split; [done|]. intros k. rewrite IH2, !matches_cons.
    rewrite (same_same lt _ _ k Hxy).
    by destruct (same lt k (get y)).
  - destruct (IH y) as [IH1 IH2]; [by apply sorted_le_cons|].
    pose proof (lt_total lt _ _ Hyx ltac:(by rewrite same_sym)) as Hlt.
    split.
    + apply sorted_lt_cons. split; [done|].
      intros z [-> |Hz]%elem_of_cons; [done|].
      apply sorted_lt_cons in IH1 as [_ IH1]. unfold StdAlgorithms.before in *.
      by apply (lt_trans _ (get y)), IH1.
    + intros k. rewrite matches_cons, IH2, (matches_cons k x).
      destruct (same lt k (get x)) eqn:Hk; [|done].
      rewrite (matches_none k (y :: l)); [done|]. intros z Hz.
      destruct (same lt k (get z)) eqn:Hkz; [|done].
      rewrite same_sym in Hk. pose proof (same_trans lt _ _ _ Hk Hkz) as H.
      apply elem_of_cons in Hz as [-> |Hz]; [congruence|].
      pose proof (Hy z Hz) as Hzy. unfold StdAlgorithms.before in *.
      rewrite (lt_same_l lt _ _ (get y) H) in Hlt. congruence.
Qed.

Lemma std_unique_spec l :
  sorted_le l →
  sorted_lt (std_unique equal_sorted l)
  ∧ ∀ k, matches k (std_unique equal_sorted l) = take 1 (matches k l).
Proof.
  destruct l as [|x l]; [|apply unique_from_spec]. split; [constructor|done].
Qed.

(** *** Merging *)

Lemma std_merge_nil_r l : std_merge get lt l [] = l.
Proof. by destruct l. Qed.

Lemma std_merge_cons x l1 y l2 :
  std_merge get lt (x :: l1) (y :: l2)
    = if before y x then y :: std_merge get lt (x :: l1) l2
      else x :: std_merge get lt l1 (y :: l2).
Proof. done. Qed.

Lemma std_merge_prefix l l1 l2 :
  (∀ x y, x ∈ l → y ∈ l2 → before x y = true) →
  std_merge get lt (l ++ l1) l2 = l ++ std_merge get lt l1 l2.
Proof.
  intros Hl. induction l as [|x l IH]; [done|]. cbn [app].
  destruct l2 as [|y l2]; [by rewrite !std_merge_nil_r|].
  rewrite std_merge_cons. unfold StdAlgorithms.before.
  rewrite (lt_asym lt) by (apply Hl; by left). f_equal.
  apply IH. intros x' y' Hx'. apply Hl. by right.
Qed.

Lemma elem_of_std_merge z l1 l2 :
  z ∈ std_merge get lt l1 l2 ↔ z ∈ l1 ∨ z ∈ l2.
Proof.
  revert l2. induction l1 as [|x l1 IH1]; intros l2.
  { rewrite elem_of_nil. naive_solver. }
  induction l2 as [|y l2 IH2].
  { rewrite std_merge_nil_r, elem_of_nil. naive_solver. }
  rewrite std_merge_cons. destruct (before y x);
    rewrite !elem_of_cons, ?IH2, ?IH1, ?elem_of_cons; tauto.
Qed.

Lemma std_merge_spec l1 l2 :
  sorted_lt l1 → sorted_lt l2 →
  (∀ x y, x ∈ l1 → y ∈ l2 → same lt (get x) (get y) = false) →
  sorted_lt (std_merge get lt l1 l2)
  ∧ ∀ k, matches k (std_merge get lt l1 l2) = matches k l1 ++ matches k l2.
Proof.
  revert l2. induction l1 as [|x l1 IH1]; intros l2 H1 H2 Hn; [done|].
  induction l2 as [|y l2 IH2].
  { rewrite std_merge_nil_r. split; [done|]. intros k. by rewrite app_nil_r. }
  pose proof H1 as [H1' Hx]%sorted_lt_cons. pose proof H2 as [H2' Hy]%sorted_lt_cons.
  rewrite std_merge_cons. destruct (before y x) eqn:Hyx.
  - destruct IH2 as [Hs Hm]; [done| |].
    { intros x' y' Hx' Hy'. apply Hn; [done|by right]. }
    split.
    + apply sorted_lt_cons. split; [done|].
      intros z [[-> |Hz]%elem_of_cons|Hz]%elem_of_std_merge; [done| |auto].
      specialize (Hx z Hz). unfold StdAlgorithms.before in *.
      by apply (lt_trans _ (get x)).
    + intros k. rewrite matches_cons, Hm, (matches_cons k y).
      destruct (same lt k (get y)) eqn:Hk; [|done].
      rewrite (matches_none k (x :: l1)); [done|]. intros z Hz.
      destruct (same lt k (get z)) eqn:Hkz; [|done].
      rewrite same_sym in Hkz. pose proof (same_trans lt _ _ _ Hkz Hk) as H.
      by rewrite Hn in H by (done || by left).
  - destruct (IH1 (y :: l2)) as [Hs Hm]; [done|done| |].
    { intros x' y' Hx' Hy'. apply Hn; [by right|done]. }
    assert (before x y = true) as Hxy.
    { apply (lt_total lt); [done|]. rewrite same_sym. apply Hn; by left. }
    split.
    + apply sorted_lt_cons. split; [done|].
      intros z [Hz|[-> |Hz]%elem_of_cons]%elem_of_std_merge; [auto|done|].
      specialize (Hy z Hz). unfold StdAlgorithms.before in *.
      by apply (lt_trans _ (get y)).
    + intros k. by rewrite matches_cons, Hm, (matches_cons k x), app_assoc.
Qed.
End by_key_lemmas.
