(* ===== verification/FlatTree.v ===== *)
(** [base::internal::flat_tree] (src/libs/webrtc/include/base/containers/
    flat_tree.h): a set or map kept as a sorted vector, and the operations
    [flat_map] (flat_map.h) adds.  A [flat_set] is a tree whose values are
    their own keys.

    Iterators are positions in the vector; an iterator is only dereferenced in
    range, and a moved-from element is never read, or the behaviour is
    undefined. *)

From stdpp Require Import sorting.
From S2P Require Import Prelude.
From S2P Require Import StdAlgorithms.

#[local] Open Scope nat_scope.

Inductive FlatContainerDupes : Set := KEEP_FIRST_OF_DUPES | KEEP_LAST_OF_DUPES.

(** ** Vectors *)

Definition vector_emplace {V} (v : list V) (i : nat) (x : V)
    : outcome (list V) :=
  _ ← require (i <=? length v) OutOfBounds; Ret (take i v ++ x :: drop i v).
Definition vector_assign {V} (v : list V) (i : nat) (x : V)
    : outcome (list V) :=
  _ ← deref v i; Ret (<[i := x]> v).
Definition vector_erase {V} (v : list V) (first last : nat)
    : outcome (list V) :=
  _ ← require ((first <=? last) && (last <=? length v)) OutOfBounds;
  Ret (take first v ++ drop last v).

(** Elements that may have been moved away. *)
Definition read_cell {V} (cells : list (option V)) (i : nat) : outcome V :=
  x ← deref cells i;
  match x with Some x => Ret x | None => Undef Indeterminate end.
Definition move_to {V} (cells : list (option V)) (from to : nat)
    : outcome (list (option V)) :=
  x ← read_cell cells from; Ret (<[to := Some x]> (<[from := None]> cells)).
Fixpoint whole_cells {V} (cells : list (option V)) : outcome (list V) :=
  match cells with
  | [] => Ret []
  | Some x :: cells => l ← whole_cells cells; Ret (x :: l)
  | None :: _ => Undef Indeterminate
  end.

(** The loop of [LastUnique], with [n] elements between [next] and [last]. *)
Fixpoint last_unique_loop {V} (compare : V → V → bool) (n : nat)
    (cells : list (option V)) (next first replacable : nat)
    : outcome (list (option V) * nat * nat) :=
  match n with
  | 0 => Ret (cells, first, replacable)
  | S n =>
      x ← read_cell cells first;
      y ← read_cell cells next;
      if negb (compare x y) then
        cells ← move_to cells first replacable;
        last_unique_loop compare n cells (S next) (S first) (S replacable)
      else last_unique_loop compare n cells (S next) (S first) replacable
  end.

(** [LastUnique] on the whole of a range: the elements afterwards, and the end
    of those to keep. *)
Definition LastUnique {V} (compare : V → V → bool) (range : list V)
    : outcome (list (option V) * nat) :=
  let cells := Some <$> range in
  let last := length range in
  let replacable := std_adjacent_find compare range in
  if replacable =? last then Ret (cells, last) else
  let first := replacable + 1 in
  if first =? last then Ret (cells, replacable) else
  '(cells, first, replacable) ←
    last_unique_loop compare (last - (first + 1)) cells (first + 1) first
      replacable;
  cells ← move_to cells first replacable;
  Ret (cells, replacable + 1).

(** ** The tree *)

Record flat_tree (Value : Type) : Type := MkFlatTree { body_ : list Value }.
Arguments MkFlatTree {_} _.
Arguments body_ {_} _.

Section flat_tree.
Context {Key Value : Type}.
Context (GetKeyFromValue : Value → Key) (key_comp : Key → Key → bool).
Implicit Types (t : flat_tree Value) (key : Key) (val : Value).

Definition value_comp val val' : bool :=
  key_comp (GetKeyFromValue val) (GetKeyFromValue val').

Definition tree_begin t : nat := 0.
Definition tree_end t : nat := length (body_ t).
Definition tree_size t : nat := length (body_ t).
Definition tree_empty t : bool := length (body_ t) =? 0.
Definition tree_clear t : flat_tree Value := MkFlatTree [].

(** *** Search *)

Definition lower_bound key t : outcome nat :=
  std_partition_point (λ val, key_comp (GetKeyFromValue val) key) (body_ t)
    (tree_begin t) (tree_end t).
Definition upper_bound key t : outcome nat :=
  std_partition_point (λ val, negb (key_comp key (GetKeyFromValue val)))
    (body_ t) (tree_begin t) (tree_end t).

(** [it == last || key_comp(key, *it)] *)
Definition at_end_or_less (v : list Value) key (it last : nat) : outcome bool :=
  if it =? last then Ret true else
  val ← deref v it; Ret (key_comp key (GetKeyFromValue val)).

Definition equal_range key t : outcome (nat * nat) :=
  lower ← lower_bound key t;
  absent ← at_end_or_less (body_ t) key lower (tree_end t);
  if absent : bool then Ret (lower, lower) else Ret (lower, lower + 1).

Definition tree_count key t : outcome nat :=
  '(first, second) ← equal_range key t; Ret (second - first).

Definition tree_find key t : outcome nat :=
  '(first, second) ← equal_range key t;
  Ret (if first =? second then tree_end t else first).

(** *** Insertion of one element *)

Definition unsafe_emplace (position : nat) val t
    : outcome (flat_tree Value * nat) :=
  v ← vector_emplace (body_ t) position val; Ret (MkFlatTree v, position).

Definition emplace_key_args key val t
    : outcome (flat_tree Value * (nat * bool)) :=
  lower ← lower_bound key t;
  absent ← at_end_or_less (body_ t) key lower (tree_end t);
  if absent : bool then
    '(t, it) ← unsafe_emplace lower val t; Ret (t, (it, true))
  else Ret (t, (lower, false)).

Definition emplace_hint_key_args (hint : nat) key val t
    : outcome (flat_tree Value * (nat * bool)) :=
  after_previous ←
    (if hint =? tree_begin t then Ret true else
     previous ← deref (body_ t) (hint - 1);
     Ret (key_comp (GetKeyFromValue previous) key));
  if after_previous : bool then
    absent ← at_end_or_less (body_ t) key hint (tree_end t);
    if absent : bool then
      '(t, it) ← unsafe_emplace hint val t; Ret (t, (it, true))
    else
      at_hint ← deref (body_ t) hint;
      if negb (key_comp (GetKeyFromValue at_hint) key)
      then Ret (t, (hint, false))
      else emplace_key_args key val t
  else emplace_key_args key val t.

Definition tree_insert val t : outcome (flat_tree Value * (nat * bool)) :=
  emplace_key_args (GetKeyFromValue val) val t.
Definition tree_insert_hint (position_hint : nat) val t
    : outcome (flat_tree Value * nat) :=
  '(t, (it, _)) ← emplace_hint_key_args position_hint (GetKeyFromValue val) val t;
  Ret (t, it).

Definition insert_or_assign val t : outcome (flat_tree Value * (nat * bool)) :=
  position ← lower_bound (GetKeyFromValue val) t;
  absent ← at_end_or_less (body_ t) (GetKeyFromValue val) position (tree_end t);
  if absent : bool then
    v ← vector_emplace (body_ t) position val;
    Ret (MkFlatTree v, (position, true))
  else
    v ← vector_assign (body_ t) position val;
    Ret (MkFlatTree v, (position, false)).

(** *** Insertion of a range *)

(** [append_or_assign] if [assign], else [append_unique]. *)
Definition append_new (assign : bool) (first last : nat) val t
    : outcome (flat_tree Value * (nat * bool)) :=
  position ← std_partition_point (λ val', value_comp val' val) (body_ t)
               first last;
  absent ← at_end_or_less (body_ t) (GetKeyFromValue val) position last;
  if absent : bool then
    Ret (MkFlatTree (body_ t ++ [val]), (position, true))
  else if assign then
    v ← vector_assign (body_ t) position val;
    Ret (MkFlatTree v, (position, false))
  else Ret (t, (position, false)).
Definition append_or_assign := append_new true.
Definition append_unique := append_new false.

Definition equal_comparator val val' : bool := negb (value_comp val val').

(** The [switch]: the sorted elements afterwards, those to keep in front. *)
Definition remove_duplicates (dupes : FlatContainerDupes) (range : list Value)
    : outcome (list (option Value) * nat) :=
  match dupes with
  | KEEP_FIRST_OF_DUPES =>
      let kept := std_unique equal_comparator range in
      Ret (Some <$> kept ++ drop (length kept) range, length kept)
  | KEEP_LAST_OF_DUPES => LastUnique equal_comparator range
  end.

Definition sort_and_unique (first last : nat) (dupes : FlatContainerDupes) t
    : outcome (flat_tree Value) :=
  let v := body_ t in
  let range := std_stable_sort GetKeyFromValue key_comp
                 (take (last - first) (drop first v)) in
  '(cells, erase_after) ← remove_duplicates dupes range;
  cells ← vector_erase ((Some <$> take first v) ++ cells ++ (Some <$> drop last v))
            (first + erase_after) last;
  v ← whole_cells cells;
  Ret (MkFlatTree v).

(** The loops over the input range. *)
Fixpoint insert_all (input : list Value) t : outcome (flat_tree Value) :=
  match input with
  | [] => Ret t
  | val :: input => '(t, _) ← insert_or_assign val t; insert_all input t
  end.
(** [std::copy] to an inserter at [end()]: an element goes before the
    position, which then moves past it. *)
Fixpoint copy_to_inserter (input : list Value) (it : nat) t
    : outcome (flat_tree Value) :=
  match input with
  | [] => Ret t
  | val :: input =>
      '(t, it) ← tree_insert_hint it val t; copy_to_inserter input (it + 1) t
  end.
Fixpoint append_all (assign : bool) (original_size : nat) (input : list Value)
    (pos_first_new : nat) t : outcome (flat_tree Value * nat) :=
  match input with
  | [] => Ret (t, pos_first_new)
  | val :: input =>
      '(t, (it, inserted)) ← append_new assign (tree_begin t) original_size val t;
      append_all assign original_size input
        (if inserted : bool then Nat.min pos_first_new it else pos_first_new) t
  end.

(** [insert(first, last, dupes)]; [multipass]: the iterators of the input are
    forward iterators. *)
Definition tree_insert_range (multipass : bool) (input : list Value)
    (dupes : FlatContainerDupes) t : outcome (flat_tree Value) :=
  if length input =? 0 then Ret t else
  let overwrite_existing :=
    match dupes with KEEP_LAST_OF_DUPES => true | _ => false end in
  let insert_inplace := multipass && (length input =? 1) in
  if insert_inplace then
    if overwrite_existing then insert_all input t
    else copy_to_inserter input (tree_end t) t
  else
  let original_size := tree_size t in
  '(t, pos_first_new) ← append_all overwrite_existing original_size input
                          original_size t;
  t ← sort_and_unique original_size (tree_end t) dupes t;
  let v := body_ t in
  Ret (MkFlatTree (take pos_first_new v
    ++ std_merge GetKeyFromValue key_comp
         (drop pos_first_new (take original_size v)) (drop original_size v))).

(** *** Construction and assignment *)

Definition tree_new : flat_tree Value := MkFlatTree [].
Definition tree_from_range (items : list Value) (dupes : FlatContainerDupes)
    : outcome (flat_tree Value) :=
  let t := MkFlatTree items in
  sort_and_unique (tree_begin t) (tree_end t) dupes t.
Definition tree_assign_list (ilist : list Value) t : outcome (flat_tree Value) :=
  let t := MkFlatTree ilist in
  sort_and_unique (tree_begin t) (tree_end t) KEEP_FIRST_OF_DUPES t.
Definition tree_swap t (other : flat_tree Value) := (other, t).

(** *** Erasure *)

(** The iterator after the erased elements is where they began. *)
Definition erase_position (position : nat) t
    : outcome (flat_tree Value * nat) :=
  _ ← deref (body_ t) position;
  v ← vector_erase (body_ t) position (position + 1);
  Ret (MkFlatTree v, position).
Definition tree_erase_range (first last : nat) t
    : outcome (flat_tree Value * nat) :=
  v ← vector_erase (body_ t) first last; Ret (MkFlatTree v, first).
Definition erase_key key t : outcome (flat_tree Value * nat) :=
  '(first, second) ← equal_range key t;
  let res := second - first in
  '(t, _) ← tree_erase_range first second t;
  Ret (t, res).

(** [EraseIf]; [std::remove_if] moves the elements to keep to the front. *)
Definition tree_EraseIf (pred : Value → bool) t : outcome (flat_tree Value) :=
  let kept := filter (λ val, pred val = false) (body_ t) in
  let v := kept ++ drop (length kept) (body_ t) in
  '(t, _) ← tree_erase_range (length kept) (tree_end t) (MkFlatTree v);
  Ret t.
End flat_tree.

(** ** Comparison of trees: that of the vectors *)

Section comparison.
Context {Value : Type} (eq less : Value → Value → bool).
Implicit Types (lhs rhs : flat_tree Value).

Fixpoint vector_eq (v w : list Value) : bool :=
  match v, w with
  | [], [] => true
  | x :: v, y :: w => eq x y && vector_eq v w
  | _, _ => false
  end.
Fixpoint vector_less (v w : list Value) : bool :=
  match v, w with
  | [], [] => false
  | [], _ :: _ => true
  | _ :: _, [] => false
  | x :: v, y :: w => less x y || (negb (less y x) && vector_less v w)
  end.
Definition tree_eq lhs rhs : bool := vector_eq (body_ lhs) (body_ rhs).
Definition tree_ne lhs rhs : bool := negb (tree_eq lhs rhs).
Definition tree_lt lhs rhs : bool := vector_less (body_ lhs) (body_ rhs).
Definition tree_gt lhs rhs : bool := tree_lt rhs lhs.
Definition tree_ge lhs rhs : bool := negb (tree_lt lhs rhs).
Definition tree_le lhs rhs : bool := negb (tree_gt lhs rhs).
End comparison.

(** ** [flat_map] *)

Section flat_map.
Context {Key Mapped : Type} (key_comp : Key → Key → bool).
Implicit Types (t : flat_tree (Key * Mapped)) (key : Key) (obj : Mapped).

(** [GetKeyFromValuePairFirst] *)
Definition pair_first (p : Key * Mapped) : Key := p.1.

(** [operator[]]: the reference is the position of the element. *)
Definition map_subscript key (mapped_type : Mapped) t
    : outcome (flat_tree (Key * Mapped) * nat) :=
  found ← lower_bound pair_first key_comp key t;
  absent ← at_end_or_less pair_first key_comp (body_ t) key found (tree_end t);
  if absent : bool then unsafe_emplace found (key, mapped_type) t
  else Ret (t, found).

(** [it->second = obj] *)
Definition assign_second (it : nat) obj t
    : outcome (flat_tree (Key * Mapped)) :=
  p ← deref (body_ t) it;
  v ← vector_assign (body_ t) it (p.1, obj);
  Ret (MkFlatTree v).

Definition map_insert_or_assign key obj t
    : outcome (flat_tree (Key * Mapped) * (nat * bool)) :=
  '(t, (it, inserted)) ← emplace_key_args pair_first key_comp key (key, obj) t;
  if inserted : bool then Ret (t, (it, inserted)) else
  t ← assign_second it obj t; Ret (t, (it, inserted)).
Definition map_insert_or_assign_hint (hint : nat) key obj t
    : outcome (flat_tree (Key * Mapped) * nat) :=
  '(t, (it, inserted)) ←
    emplace_hint_key_args pair_first key_comp hint key (key, obj) t;
  if inserted : bool then Ret (t, it) else
  t ← assign_second it obj t; Ret (t, it).

Definition try_emplace key obj t
    : outcome (flat_tree (Key * Mapped) * (nat * bool)) :=
  emplace_key_args pair_first key_comp key (key, obj) t.
Definition try_emplace_hint (hint : nat) key obj t
    : outcome (flat_tree (Key * Mapped) * nat) :=
  '(t, (it, _)) ← emplace_hint_key_args pair_first key_comp hint key (key, obj) t;
  Ret (t, it).
End flat_map.
