(* ===== verification/FlatTreeSearch.v ===== *)
(** The parts of a flat tree (FlatTree.v): what [LastUnique] keeps, where a
    search in a sorted vector ends, and the map from keys to values a tree
    stands for. *)

From stdpp Require Import sorting.
From S2P Require Import Prelude.
From S2P Require Import StdAlgorithms.
From S2P Require Import FlatTree.

#[local] Open Scope nat_scope.

(** ** [LastUnique] *)

(** Of every group of consecutive equal elements the last. *)
Fixpoint lasts {V} (equal : V → V → bool) (l : list V) : list V :=
  match l with
  | [] => []
  | x :: l' =>
      match l' with
      | [] => [x]
      | y :: _ => if equal x y then lasts equal l' else x :: lasts equal l'
      end
  end.

Section last_unique.
Context {V : Type} (equal : V → V → bool).
Implicit Types (l rest : list V) (cells : list (option V)).

Lemma lasts_cons x y l :
  lasts equal (x :: y :: l)
    = if equal x y then lasts equal (y :: l) else x :: lasts equal (y :: l).
Proof. done. Qed.

Lemma adjacent_find_spec l :
  std_adjacent_find equal l = length l ∧ lasts equal l = l
  ∨ ∃ a x y rest, l = a ++ x :: y :: rest
      ∧ std_adjacent_find equal l = length a
      ∧ lasts equal l = a ++ lasts equal (y :: rest).
Proof.
  induction l as [|x [|y l] IH]; [by left|by left|]. rewrite lasts_cons.
  change (std_adjacent_find equal (x :: y :: l))
    with (if equal x y then 0 else S (std_adjacent_find equal (y :: l))).
  destruct (equal x y) eqn:Hxy.
  - right. by exists [], x, y, l.
  - destruct IH as [[H1 H2]|(a & x' & y' & rest & H1 & H2 & H3)].
    + left. by rewrite H1, H2.
    + right. exists (x :: a), x', y', rest. by rewrite H1 at 1; rewrite H2, H3.
Qed.

Lemma read_cell_at cells i x rest :
  drop i cells = Some <$> x :: rest → read_cell cells i = Ret x.
Proof.
  intros Hd. unfold read_cell, deref.
  by rewrite <- (Nat.add_0_r i), <- lookup_drop, Hd.
Qed.

Lemma drop_next {A} (l k : list A) i x :
  drop i l = x :: k → drop (S i) l = k.
Proof. intros Hd. by rewrite <- Nat.add_1_r, <- drop_drop, Hd. Qed.

Lemma drop_cons_length {A} (l k : list A) i x : drop i l = x :: k → i < length l.
Proof. intros Hd. apply (f_equal length) in Hd. rewrite length_drop in Hd. cbn in Hd. lia. Qed.

(** Moving an element to an earlier place. *)
Lemma move_to_spec cells first to x rest :
  drop first cells = Some <$> x :: rest → to < first →
  ∃ cells', move_to cells first to = Ret cells'
    ∧ length cells' = length cells
    ∧ drop (S first) cells' = Some <$> rest
    ∧ take (S to) cells' = take to cells ++ [Some x].
Proof.
  intros Hd Hto. unfold move_to. rewrite (read_cell_at _ _ _ _ Hd). cbn.
  pose proof (drop_cons_length _ _ _ _ Hd).
  eexists. split; [done|]. rewrite !length_insert. split_and!; [done|..].
  - rewrite !drop_insert_lt by lia. by apply (drop_next _ _ _ (Some x)).
  - rewrite (take_S_r _ _ (Some x)).
    + by rewrite !take_insert_ge by lia.
    + rewrite list_lookup_insert_eq; [done|]. rewrite length_insert. lia.
Qed.

Lemma last_unique_loop_spec n cells first to x rest :
  drop first cells = Some <$> x :: rest → length rest = n → to < first →
  ∃ cells' first' to' cells'',
    last_unique_loop equal n cells (S first) first to = Ret (cells', first', to')
    ∧ move_to cells' first' to' = Ret cells''
    ∧ length cells'' = length cells ∧ to' < length cells
    ∧ take (S to') cells'' = take to cells ++ (Some <$> lasts equal (x :: rest)).
Proof.
  revert n cells first to x. induction rest as [|y rest IH];
    intros n cells first to x Hd <- Hto.
  { destruct (move_to_spec _ _ _ _ _ Hd Hto) as (c & Hc & Hl & _ & Ht).
    pose proof (drop_cons_length _ _ _ _ Hd).
    exists cells, first, to, c. split_and!; [done..|lia|done]. }
  cbn [length last_unique_loop]. rewrite (read_cell_at _ _ _ _ Hd). cbn [mbind outcome_bind].
  pose proof (drop_next _ _ _ _ Hd) as Hd'.
  rewrite (read_cell_at _ _ _ _ Hd'). cbn [mbind outcome_bind]. rewrite lasts_cons.
  destruct (equal x y) eqn:Hxy; cbn [negb].
  - apply (IH _ _ (S first)); [done|done|lia].
  - destruct (move_to_spec _ _ _ _ _ Hd Hto) as (c & -> & Hl & Hdc & Ht).
    cbn [mbind outcome_bind].
    destruct (IH _ c (S first) (S to) y Hdc eq_refl) as (c' & f' & t' & c'' & H1 & H2 & H3 & Hlt & H4);
      [lia|].
    exists c', f', t', c''. split_and!; [done|done|congruence|lia|].
    rewrite H4, Ht, <- app_assoc. done.
Qed.

Lemma LastUnique_spec l :
  ∃ cells, LastUnique equal l = Ret (cells, length (lasts equal l))
    ∧ length cells = length l
    ∧ take (length (lasts equal l)) cells = Some <$> lasts equal l.
Proof.
  unfold LastUnique.
  destruct (adjacent_find_spec l) as [[-> ->]|(a & x & y & rest & Hl & -> & Hls)].
  { rewrite Nat.eqb_refl. eexists. split; [done|]. rewrite length_fmap.
    split; [done|]. by rewrite take_ge by by rewrite length_fmap. }
  assert (length l = length a + (2 + length rest)) as Hlen
    by (rewrite Hl, length_app; cbn; lia).
  rewrite !(proj2 (Nat.eqb_neq _ _)) by lia.
  assert (drop (length a + 1) (Some <$> l) = Some <$> y :: rest) as Hd.
  { by rewrite Hl, <- fmap_drop, <- drop_drop, drop_app_length. }
  destruct (last_unique_loop_spec (length rest) _ _ (length a) _ _ Hd eq_refl)
    as (c & f & t & c' & H1 & H2 & H3 & Hlt & H4); [lia|].
  rewrite length_fmap in H3, Hlt.
  replace (length l - (length a + 1 + 1)) with (length rest) by lia.
  replace (length a + 1 + 1) with (S (length a + 1)) by lia.
  rewrite H1. cbn [mbind outcome_bind]. rewrite H2. cbn [mbind outcome_bind].
  assert (take (S t) c' = Some <$> lasts equal l) as Ht.
  { rewrite H4, Hls, fmap_app, Hl, <- fmap_take, take_app_length. done. }
  assert (S t = length (lasts equal l)) as Hn.
  { apply (f_equal length) in Ht. rewrite length_take, length_fmap in Ht. lia. }
  exists c'. rewrite Nat.add_1_r, Hn. split_and!; [done|done|]. by rewrite <- Hn.
Qed.
End last_unique.

(** ** Searching *)

Section flat_tree_lemmas.
Context {Key Value : Type}.
Context (GetKeyFromValue : Value → Key) (key_comp : Key → Key → bool).
Context `{!StrictWeakOrder key_comp}.
Implicit Types (t : flat_tree Value) (key : Key) (val : Value) (v l r : list Value).

#[local] Notation get := GetKeyFromValue.
#[local] Notation matches := (matches get key_comp).
#[local] Notation sorted_le := (sorted_le get key_comp).
#[local] Notation sorted_lt := (sorted_lt get key_comp).
#[local] Notation same := (same key_comp).
#[local] Notation before := (before get key_comp).

(** The last element of a list, as a list. *)
Definition last1 l : list Value := match list.last l with Some x => [x] | None => [] end.

Lemma last1_cons x y l : last1 (x :: y :: l) = last1 (y :: l).
Proof. done. Qed.

Lemma lasts_spec l :
  sorted_le l →
  sorted_lt (lasts (equal_comparator get key_comp) l)
  ∧ ∀ k, matches k (lasts (equal_comparator get key_comp) l) = last1 (matches k l).
Proof.
  induction l as [|x [|y l] IH]; intros Hs; [split; [constructor|done]|..].
  { split; [repeat constructor|]. intros k. rewrite matches_cons. cbn.
    by destruct (same k (get x)). }
  pose proof Hs as [Hl Hx]%sorted_le_cons. destruct (IH Hl) as [IH1 IH2].
  pose proof Hl as [_ Hy]%sorted_le_cons.
  pose proof (Hx y ltac:(by left)) as Hyx. rewrite lasts_cons.
  change (equal_comparator get key_comp x y) with (equal_sorted get key_comp x y).
  rewrite (equal_sorted_same _ _ x y Hyx). destruct (same (get x) (get y)) eqn:Hxy.
  - split; [done|]. intros k. rewrite IH2, (matches_cons _ _ k x), (matches_cons _ _ k y).
    rewrite (same_same key_comp _ _ k Hxy). by destruct (same k (get y)).
  - pose proof (lt_total key_comp _ _ Hyx ltac:(by rewrite same_sym)) as Hlt.
    assert (∀ z, z ∈ y :: l → before x z = true) as Hall.
    { intros z [-> |Hz]%elem_of_cons; [done|]. specialize (Hy z Hz).
      unfold StdAlgorithms.before in *.
      destruct (lt_gap key_comp _ (get z) _ Hlt); congruence. }
    split.
    + apply sorted_lt_cons. split; [done|]. intros z Hz. apply Hall.
      rewrite (elem_of_matches_self get key_comp), IH2 in Hz.
      unfold last1 in Hz. destruct (list.last _) as [z'|] eqn:Hlast; [|by apply elem_of_nil in Hz].
      apply list_elem_of_singleton in Hz as ->. apply last_Some_elem_of in Hlast.
      by apply elem_of_matches in Hlast as [_ ?].
    + intros k. rewrite matches_cons, IH2, (matches_cons _ _ k x).
      destruct (same k (get x)) eqn:Hk; [|done].
      rewrite (matches_none _ _ k (y :: l)); [done|]. intros z Hz.
      destruct (same k (get z)) eqn:Hkz; [|done].
      rewrite same_sym in Hk. pose proof (same_trans key_comp _ _ _ Hk Hkz) as H.
      specialize (Hall z Hz). unfold StdAlgorithms.before in Hall.
      by rewrite (lt_not_same key_comp _ _ Hall) in H.
Qed.

(** A search for [key] in a sorted vector, which may be the front of a longer
    one, finds the place between the elements that are less and the others,
    the first of which is the only one that can be equivalent. *)
Definition splits key v (i : nat) (absent : bool) : Prop :=
  ∃ l r, v = l ++ r ∧ i = length l
    ∧ (∀ x, x ∈ l → key_comp (get x) key = true)
    ∧ (absent = true ∧ (∀ y, y ∈ r → key_comp key (get y) = true)
       ∨ absent = false ∧ ∃ y r', r = y :: r' ∧ same key (get y) = true
           ∧ ∀ z, z ∈ r' → key_comp key (get z) = true).

Lemma partition_loop_app {A} (p : A → bool) (u w : list A) fuel first len :
  first + len ≤ length u →
  partition_loop p (u ++ w) fuel first len = partition_loop p u fuel first len.
Proof.
  revert first len. induction fuel as [|fuel IH]; intros first len Hlen; [done|].
  cbn [partition_loop]. destruct (Nat.eqb_spec len 0) as [|Hn]; [done|]. cbn zeta.
  assert (len / 2 < len) by (apply Nat.div_lt; lia).
  unfold deref. rewrite lookup_app_l by lia.
  destruct (u !! _); [|done]. cbn [mbind outcome_bind].
  destruct (p a); apply IH; lia.
Qed.

Lemma leading_app {A} (p : A → bool) (l r : list A) :
  (∀ x, x ∈ l → p x = true) → leading p (l ++ r) = length l + leading p r.
Proof.
  intros Hl. induction l as [|x l IH]; [done|]. cbn.
  rewrite Hl by by left. rewrite IH; [done|]. intros y Hy. apply Hl. by right.
Qed.

(** The split of a sorted vector at a partition point of the keys. *)
Lemma sorted_partition (p : Value → bool) v :
  sorted_lt v → (∀ x y, before x y = true → p y = true → p x = true) →
  ∃ l r, v = l ++ r ∧ leading p v = length l
    ∧ (∀ x, x ∈ l → p x = true) ∧ (∀ x, x ∈ r → p x = false) ∧ partitioned p v.
Proof.
  intros Hs Hp. induction v as [|x v IH].
  { exists [], []. split_and!; try done; by intros x ?%elem_of_nil. }
  apply sorted_lt_cons in Hs as [Hs Hx]. destruct (p x) eqn:Hpx.
  - destruct (IH Hs) as (l & r & -> & Hl & Hbl & Hbr & Hpart).
    exists (x :: l), r. split_and!; [done|cbn; by rewrite Hpx, Hl| |done|].
    + by intros y [-> |Hy]%elem_of_cons; auto.
    + intros [|i] [|j] a b; cbn; try lia; [by intros [= ->]|].
      intros Ha Hb Hij. apply (Hpart i j); [done|done|lia].
  - assert (∀ y, y ∈ v → p y = false) as Hv.
    { intros y Hy. destruct (p y) eqn:Hpy; [|done].
      by rewrite (Hp x y) in Hpx by auto. }
    exists [], (x :: v). split_and!; [done|cbn; by rewrite Hpx|by intros y ?%elem_of_nil|..].
    + by intros y [-> |Hy]%elem_of_cons; auto.
    + intros i j a b Ha Hb _ Hpb. exfalso.
      apply list_elem_of_lookup_2, elem_of_cons in Hb as [-> |Hb]; [congruence|].
      by rewrite (Hv b) in Hpb.
Qed.

Lemma search_splits key v w :
  sorted_lt v →
  ∃ i absent,
    std_partition_point (λ val, key_comp (get val) key) (v ++ w) 0 (length v) = Ret i
    ∧ at_end_or_less get key_comp (v ++ w) key i (length v) = Ret absent
    ∧ splits key v i absent.
Proof.
  intros Hs. set (p := λ val, key_comp (get val) key).
  destruct (sorted_partition p v Hs) as (l & r & -> & Hl & Hbl & Hbr & Hpart).
  { intros x y Hxy Hy. by apply (lt_trans _ (get y)). }
  exists (length l). unfold std_partition_point.
  rewrite partition_loop_app by (rewrite Nat.sub_0_r; lia).
  pose proof (std_partition_point_ok p (l ++ r) (length (l ++ r)) Hpart) as Hpp.
  unfold std_partition_point in Hpp. rewrite Hpp by (rewrite ?Hl, ?length_app; lia).
  rewrite Hl. unfold at_end_or_less. rewrite length_app.
  destruct r as [|y r]; cbn [length].
  { exists true. rewrite Nat.add_0_r, Nat.eqb_refl. split_and!; [done|done|].
    exists l, []. split_and!; [done..|]. left. split; [done|].
    by intros y ?%elem_of_nil. }
  rewrite (proj2 (Nat.eqb_neq _ _)) by lia.
  rewrite (vector_deref_ok _ _ y) by (rewrite <- app_assoc; by apply list_lookup_middle).
  cbn [mbind outcome_bind]. eexists. split_and!; [done|done|].
  exists l, (y :: r). split_and!; [done..|].
  apply sorted_lt_app in Hs as (_ & [_ Hr]%sorted_lt_cons & _).
  destruct (key_comp key (get y)) eqn:Hky; [left|right]; split; try done.
  - intros z [-> |Hz]%elem_of_cons; [done|]. apply (lt_trans _ (get y)); [done|].
    by apply Hr.
  - exists y, r. split; [done|].
    assert (same key (get y) = true) as Hsame.
    { apply same_spec. split; [done|]. apply Hbr. by left. }
    split; [done|]. intros z Hz. rewrite (lt_same_l key_comp _ _ _ Hsame).
    by apply Hr.
Qed.

Lemma splits_le key v i absent : splits key v i absent → i ≤ length v.
Proof. intros (l & r & -> & -> & _). rewrite length_app. lia. Qed.

Lemma below_not_same key x : key_comp (get x) key = true → same key (get x) = false.
Proof. intros Hx. rewrite same_sym. by apply lt_not_same. Qed.

Lemma splits_matches key v i absent :
  splits key v i absent →
  if absent then matches key v = [] else ∃ x, v !! i = Some x ∧ matches key v = [x].
Proof.
  intros (l & r & -> & -> & Hl & [[-> Hr]|(-> & y & r' & -> & Hy & Hr)]).
  - apply matches_none. intros x [Hx|Hx]%elem_of_app; [by apply below_not_same, Hl|].
    by apply lt_not_same, Hr.
  - exists y. split; [by apply list_lookup_middle|].
    rewrite matches_app, matches_cons, Hy.
    rewrite (matches_none _ _ key l) by (intros x Hx; by apply below_not_same, Hl).
    by rewrite (matches_none _ _ key r') by (intros x Hx; by apply lt_not_same, Hr).
Qed.

(** Inserting at a split, replacing and removing an element. *)
Lemma sorted_insert_at v i val :
  sorted_lt v → splits (get val) v i true →
  sorted_lt (take i v ++ val :: drop i v)
  ∧ ∀ k, matches k (take i v ++ val :: drop i v)
         = if same k (get val) then [val] else matches k v.
Proof.
  intros Hs Hsp. pose proof (splits_matches _ _ _ _ Hsp) as Hm. cbn in Hm.
  destruct Hsp as (l & r & -> & -> & Hl & [[_ Hr]|[? _]]); [|done].
  rewrite take_app_length, drop_app_length.
  apply sorted_lt_app in Hs as (Hs1 & Hs2 & Hs3). split.
  - apply sorted_lt_app. split_and!; [done|by apply sorted_lt_cons|].
    intros x y Hx [-> |Hy]%elem_of_cons; [by apply Hl|by apply Hs3].
  - intros k. rewrite matches_app, matches_cons. destruct (same k (get val)) eqn:Hk.
    + rewrite matches_app in Hm. apply app_nil in Hm as [Hm1 Hm2].
      by rewrite (matches_same _ _ _ _ l Hk), (matches_same _ _ _ _ r Hk), Hm1, Hm2.
    + by rewrite matches_app.
Qed.

Lemma sorted_replace v i val x :
  sorted_lt v → v !! i = Some x → same (get val) (get x) = true →
  sorted_lt (<[i := val]> v)
  ∧ ∀ k, matches k (<[i := val]> v)
         = if same k (get val) then [val] else matches k v.
Proof.
  intros Hs Hi Hx. rewrite (insert_take_drop v i val) by by eapply lookup_lt_Some.
  rewrite <- (take_drop_middle v i x Hi) in Hs.
  apply sorted_lt_app in Hs as (Hs1 & [Hs2 Hs3]%sorted_lt_cons & Hs4). split.
  - apply sorted_lt_app. split_and!; [done|apply sorted_lt_cons; split; [done|]|].
    + intros y Hy. unfold StdAlgorithms.before. rewrite (lt_same_l key_comp _ _ _ Hx).
      by apply Hs3.
    + intros y z Hy [-> |Hz]%elem_of_cons; [|apply Hs4; [done|by right]].
      unfold StdAlgorithms.before. rewrite (lt_same_r key_comp _ _ _ Hx).
      apply Hs4; [done|by left].
  - intros k. rewrite <- (take_drop_middle v i x Hi) at 3.
    rewrite !matches_app, !matches_cons, (same_same key_comp _ _ k Hx).
    destruct (same k (get x)) eqn:Hk; [|done].
    rewrite (matches_none _ _ k (take i v)), (matches_none _ _ k (drop (S i) v)); [done|..];
      intros y Hy; destruct (same k (get y)) eqn:Hky; try done;
      rewrite same_sym in Hk; pose proof (same_trans key_comp _ _ _ Hk Hky) as Hxy.
    + apply Hs3 in Hy. unfold StdAlgorithms.before in Hy.
      by rewrite (lt_not_same key_comp _ _ Hy) in Hxy.
    + assert (before y x = true) as Hyx by (apply Hs4; [done|by left]).
      unfold StdAlgorithms.before in Hyx. rewrite same_sym in Hxy.
      by rewrite (lt_not_same key_comp _ _ Hyx) in Hxy.
Qed.

Lemma sorted_remove l x r :
  sorted_lt (l ++ x :: r) →
  sorted_lt (l ++ r)
  ∧ ∀ k, matches k (l ++ r)
         = if same k (get x) then [] else matches k (l ++ x :: r).
Proof.
  intros (Hs1 & [Hs2 Hs3]%sorted_lt_cons & Hs4)%sorted_lt_app. split.
  - apply sorted_lt_app. split_and!; [done|done|].
    intros y z Hy Hz. apply Hs4; [done|by right].
  - intros k. rewrite !matches_app, matches_cons. destruct (same k (get x)) eqn:Hk; [|done].
    rewrite (matches_none _ _ k l), (matches_none _ _ k r); [done|..];
      intros y Hy; destruct (same k (get y)) eqn:Hky; try done;
      rewrite same_sym in Hk; pose proof (same_trans key_comp _ _ _ Hk Hky) as Hxy.
    + apply Hs3 in Hy. unfold StdAlgorithms.before in Hy.
      by rewrite (lt_not_same key_comp _ _ Hy) in Hxy.
    + assert (before y x = true) as Hyx by (apply Hs4; [done|by left]).
      unfold StdAlgorithms.before in Hyx. rewrite same_sym in Hxy.
      by rewrite (lt_not_same key_comp _ _ Hyx) in Hxy.
Qed.

(** ** The operations on a finite map *)

(** The map a tree stands for. *)
Definition represents t (m : Key → option Value) : Prop :=
  sorted_lt (body_ t) ∧ ∀ k, head (matches k (body_ t)) = m k.
Definition put key val (m : Key → option Value) : Key → option Value :=
  λ k, if same k key then Some val else m k.
Definition remove key (m : Key → option Value) : Key → option Value :=
  λ k, if same k key then None else m k.

Lemma represents_same t m k k' : represents t m → same k k' = true → m k = m k'.
Proof. intros [_ Hm] Hk. by rewrite <- !Hm, (matches_same _ _ _ _ _ Hk). Qed.

(** Both tests of a search, on the whole tree. *)
Lemma lower_bound_ok key t m :
  represents t m →
  ∃ i, lower_bound get key_comp key t = Ret i
    ∧ at_end_or_less get key_comp (body_ t) key i (tree_end t)
        = Ret (bool_decide (m key = None))
    ∧ splits key (body_ t) i (bool_decide (m key = None))
    ∧ (∀ x, m key = Some x → body_ t !! i = Some x ∧ same key (get x) = true).
Proof.
  intros [Hs Hm].
  destruct (search_splits key (body_ t) [] Hs) as (i & absent & Hp & Ha & Hsp).
  rewrite app_nil_r in *. exists i.
  pose proof (splits_matches _ _ _ _ Hsp) as Hmat. rewrite <- Hm.
  assert (absent = bool_decide (head (matches key (body_ t)) = None)) as <-.
  { destruct absent; [by rewrite Hmat|]. by destruct Hmat as (x & _ & ->). }
  split_and!; [done|done|done|]. intros x Hx. destruct absent.
  { by rewrite Hmat in Hx. }
  destruct Hmat as (y & Hy & Hmy). rewrite Hmy in Hx. injection Hx as ->.
  split; [done|]. assert (x ∈ matches key (body_ t)) as H by (rewrite Hmy; by left).
  by apply elem_of_matches in H as [? _].
Qed.

Lemma represents_insert_at t m i val :
  represents t m → splits (get val) (body_ t) i true →
  represents (MkFlatTree (take i (body_ t) ++ val :: drop i (body_ t)))
    (put (get val) val m).
Proof.
  intros [Hs Hm] Hsp. destruct (sorted_insert_at _ _ _ Hs Hsp) as [Hs' Hm'].
  split; [done|]. intros k. cbn [body_]. rewrite Hm'. unfold put.
  by destruct (same k (get val)).
Qed.

Lemma represents_replace t m i val x :
  represents t m → body_ t !! i = Some x → same (get val) (get x) = true →
  represents (MkFlatTree (<[i := val]> (body_ t))) (put (get val) val m).
Proof.
  intros [Hs Hm] Hi Hx. destruct (sorted_replace _ _ _ _ Hs Hi Hx) as [Hs' Hm'].
  split; [done|]. intros k. cbn [body_]. rewrite Hm'. unfold put.
  by destruct (same k (get val)).
Qed.

Lemma represents_keep t m key x :
  represents t m → m key = Some x → represents t (put key x m).
Proof.
  intros Hr Hx. pose proof Hr as [Hs Hm]. split; [done|]. intros k. unfold put.
  destruct (same k key) eqn:Hk; [|done]. by rewrite Hm, (represents_same _ _ _ _ Hr Hk).
Qed.

Lemma vector_emplace_ok {V} (v : list V) i x :
  i ≤ length v → vector_emplace v i x = Ret (take i v ++ x :: drop i v).
Proof. intros Hi. unfold vector_emplace. by rewrite (proj2 (Nat.leb_le _ _)). Qed.

Lemma lookup_inserted {V} (v : list V) i x :
  i ≤ length v → (take i v ++ x :: drop i v) !! i = Some x.
Proof. intros Hi. apply list_lookup_middle. by rewrite length_take_le. Qed.

(** What a conditional insertion does: the element with the key afterwards is
    the old one, if there was any. *)
Definition emplaced key val m (x : flat_tree Value * (nat * bool)) : Prop :=
  let '(t, (it, inserted)) := x in
  represents t (put key (default val (m key)) m)
  ∧ body_ t !! it = Some (default val (m key))
  ∧ inserted = bool_decide (m key = None).

Lemma unsafe_emplace_ok t m i key val :
  key = get val → represents t m → splits key (body_ t) i true → m key = None →
  wp ('(t, it) ← unsafe_emplace i val t; Ret (t, (it, true))) (emplaced key val m).
Proof.
  intros -> Hr Hsp Hn. unfold unsafe_emplace.
  pose proof (splits_le _ _ _ _ Hsp). rewrite vector_emplace_ok by done. cbn.
  rewrite Hn. split_and!; [by apply represents_insert_at|by apply lookup_inserted|done].
Qed.

Lemma emplace_key_args_ok t m key val :
  key = get val → represents t m →
  wp (emplace_key_args get key_comp key val t) (emplaced key val m).
Proof.
  intros Hk Hr. unfold emplace_key_args.
  destruct (lower_bound_ok key t m Hr) as (i & -> & Ha & Hsp & Hx). cbn.
  rewrite Ha. cbn. case_bool_decide as Hn.
  - by apply unsafe_emplace_ok.
  - destruct (m key) as [x|] eqn:Hmk; [|done]. destruct (Hx x eq_refl) as [Hi _].
    cbn. rewrite Hmk. split_and!; [by apply represents_keep|done|done].
Qed.
End flat_tree_lemmas.
