(* ===== verification/FlatTreeProperties.v ===== *)
(** What the sorted vector of FlatTree promises: every operation keeps it
    sorted without equivalent keys, and behaves as on a finite map from keys to
    values. *)

From stdpp Require Import sorting.
From S2P Require Import Prelude.
From S2P Require Import StdAlgorithms.
From S2P Require Import FlatTree.
From S2P Require Import FlatTreeSearch.

#[local] Open Scope nat_scope.

Section flat_tree_operations.
Context {Key Value : Type}.
Context (GetKeyFromValue : Value → Key) (key_comp : Key → Key → bool).
Context `{!StrictWeakOrder key_comp}.
Implicit Types (t : flat_tree Value) (key : Key) (val : Value) (v l r : list Value).

#[local] Notation get := GetKeyFromValue.
#[local] Notation matches := (matches get key_comp).
#[local] Notation sorted_le := (sorted_le get key_comp).
#[local] Notation sorted_lt := (sorted_lt get key_comp).
#[local] Notation same := (same key_comp).
#[local] Notation before := (before get key_comp).

#[local] Notation represents := (represents get key_comp).
#[local] Notation put := (put key_comp).
#[local] Notation remove := (remove key_comp).
#[local] Notation splits := (splits get key_comp).
#[local] Notation emplaced := (emplaced get key_comp).
#[local] Notation lasts_spec := (lasts_spec get key_comp).
#[local] Notation sorted_partition := (sorted_partition get key_comp).
#[local] Notation search_splits := (search_splits get key_comp).
#[local] Notation splits_le := (splits_le get key_comp).
#[local] Notation splits_matches := (splits_matches get key_comp).
#[local] Notation sorted_replace := (sorted_replace get key_comp).
#[local] Notation sorted_remove := (sorted_remove get key_comp).
#[local] Notation represents_same := (represents_same get key_comp).
#[local] Notation lower_bound_ok := (lower_bound_ok get key_comp).
#[local] Notation represents_insert_at := (represents_insert_at get key_comp).
#[local] Notation represents_replace := (represents_replace get key_comp).
#[local] Notation represents_keep := (represents_keep get key_comp).
#[local] Notation unsafe_emplace_ok := (unsafe_emplace_ok get key_comp).
#[local] Notation emplace_key_args_ok := (emplace_key_args_ok get key_comp).

(** A gap of a sorted vector where a key fits, seen from its neighbours. *)
Lemma neighbours_split key v i :
  sorted_lt v → i ≤ length v →
  (i = 0 ∨ ∃ x, v !! (i - 1) = Some x ∧ key_comp (get x) key = true) →
  (∀ x, x ∈ take i v → key_comp (get x) key = true).
Proof.
  intros Hs Hi Hprev x Hx. destruct Hprev as [-> |(y & Hy & Hyk)].
  { by apply elem_of_nil in Hx. }
  apply list_elem_of_lookup in Hx as [j Hj].
  apply lookup_take_Some in Hj as [Hj Hji].
  destruct (decide (j = i - 1)) as [-> |Hne]; [congruence|].
  apply (lt_trans _ (get y)); [|done].
  rewrite <- (take_drop_middle v (i - 1) y Hy) in Hs.
  apply sorted_lt_app in Hs as (_ & _ & Hs). apply Hs; [|by left].
  apply list_elem_of_lookup. exists j. rewrite lookup_take_lt by lia. done.
Qed.

Lemma represents_elem t m i x key :
  represents t m → body_ t !! i = Some x → same key (get x) = true → m key = Some x.
Proof.
  intros [Hs Hm] Hi Hk. rewrite <- Hm.
  assert (x ∈ matches key (body_ t)) as Hin.
  { apply elem_of_matches. split; [done|]. by eapply list_elem_of_lookup_2. }
  destruct (sorted_lt_matches get key_comp key _ Hs) as [Hn|[y Hy]].
  - rewrite Hn in Hin. by apply elem_of_nil in Hin.
  - rewrite Hy in Hin |- *. by apply list_elem_of_singleton in Hin as ->.
Qed.

Lemma emplace_hint_key_args_ok t m hint key val :
  key = get val → represents t m → hint ≤ tree_end t →
  wp (emplace_hint_key_args get key_comp hint key val t) (emplaced key val m).
Proof.
  intros Hk Hr Hh. pose proof Hr as [Hs Hm]. unfold emplace_hint_key_args.
  assert (∃ b, (if hint =? tree_begin t then Ret true else
             previous ← deref (body_ t) (hint - 1);
             Ret (key_comp (get previous) key)) = Ret b
    ∧ (b = true → ∀ x, x ∈ take hint (body_ t) → key_comp (get x) key = true))
    as (b & -> & Hb).
  { destruct (Nat.eqb_spec hint (tree_begin t)) as [Hz|Hz].
    - exists true. split; [done|]. intros _. apply neighbours_split; auto.
    - unfold tree_begin, tree_end in *.
      destruct (lookup_lt_is_Some_2 (body_ t) (hint - 1)) as [x Hx]; [lia|].
      rewrite (vector_deref_ok _ _ _ Hx). cbn. eexists. split; [done|]. intros Hb.
      apply neighbours_split; eauto. }
  cbn. destruct b; [|by apply emplace_key_args_ok].
  specialize (Hb eq_refl). unfold at_end_or_less.
  destruct (Nat.eqb_spec hint (tree_end t)) as [He|He]; cbn.
  - assert (splits key (body_ t) hint true) as Hsp.
    { exists (body_ t), []. unfold tree_end in He. rewrite He, take_ge in Hb by done.
      rewrite app_nil_r. split_and!; [done|done|done|]. left. split; [done|].
      by intros y ?%elem_of_nil. }
    apply unsafe_emplace_ok; [done|done|done|]. rewrite <- Hm.
    by rewrite (splits_matches _ _ _ _ Hsp).
  - unfold tree_end in *. destruct (lookup_lt_is_Some_2 (body_ t) hint) as [x Hx]; [lia|].
    rewrite (vector_deref_ok _ _ _ Hx). cbn.
    pose proof (take_drop_middle _ _ _ Hx) as Hv.
    assert (∀ z, z ∈ drop (S hint) (body_ t) → before x z = true) as Hafter.
    { rewrite <- Hv in Hs. apply sorted_lt_app in Hs as (_ & [_ Hs]%sorted_lt_cons & _).
      exact Hs. }
    destruct (key_comp key (get x)) eqn:Hkx.
    + assert (splits key (body_ t) hint true) as Hsp.
      { exists (take hint (body_ t)), (x :: drop (S hint) (body_ t)).
        split_and!; [done|by rewrite length_take_le|done|]. left. split; [done|].
        intros z [-> |Hz]%elem_of_cons; [done|].
        apply (lt_trans _ (get x)); [done|by apply Hafter]. }
      apply unsafe_emplace_ok; [done|done|done|]. rewrite <- Hm.
      by rewrite (splits_matches _ _ _ _ Hsp).
    + destruct (key_comp (get x) key) eqn:Hxk; cbn; [by apply emplace_key_args_ok|].
      assert (same key (get x) = true) as Hsame by by apply same_spec.
      pose proof (represents_elem _ _ _ _ _ Hr Hx Hsame) as Hmx.
      rewrite Hmx. cbn. split_and!; [by apply represents_keep|done|done].
Qed.

Lemma insert_or_assign_ok t m val :
  represents t m →
  wp (insert_or_assign get key_comp val t) (λ '(t', (it, inserted)),
    represents t' (put (get val) val m) ∧ body_ t' !! it = Some val
    ∧ inserted = bool_decide (m (get val) = None)).
Proof.
  intros Hr. unfold insert_or_assign.
  destruct (lower_bound_ok (get val) t m Hr) as (i & -> & Ha & Hsp & Hx). cbn.
  rewrite Ha. cbn. pose proof (splits_le _ _ _ _ Hsp). case_bool_decide as Hn.
  - rewrite vector_emplace_ok by done. cbn.
    split_and!; [by apply represents_insert_at|by apply lookup_inserted|done].
  - destruct (m (get val)) as [x|] eqn:Hmk; [|done]. destruct (Hx x eq_refl) as [Hi Hxs].
    unfold vector_assign. rewrite (vector_deref_ok _ _ _ Hi). cbn.
    split_and!; [by eapply represents_replace|by eapply list_lookup_insert_eq, lookup_lt_Some|done].
Qed.

(** *** Search *)

Lemma equal_range_ok t m key :
  represents t m →
  wp (equal_range get key_comp key t) (λ '(first, second),
    match m key with
    | None => second = first ∧ first ≤ tree_end t
    | Some x => second = first + 1 ∧ body_ t !! first = Some x
    end).
Proof.
  intros Hr. unfold equal_range.
  destruct (lower_bound_ok key t m Hr) as (i & -> & Ha & Hsp & Hx). cbn.
  rewrite Ha. cbn. pose proof (splits_le _ _ _ _ Hsp).
  destruct (m key) as [x|]; cbn; [|done]. by destruct (Hx x eq_refl).
Qed.

Lemma tree_find_ok t m key :
  represents t m →
  wp (tree_find get key_comp key t) (λ it,
    match m key with
    | None => it = tree_end t
    | Some x => body_ t !! it = Some x
    end).
Proof.
  intros Hr. unfold tree_find. apply wp_bind.
  eapply wp_mono; [|by apply equal_range_ok]. intros [first second] He. cbn.
  destruct (m key); destruct He as [-> He].
  - by rewrite (proj2 (Nat.eqb_neq _ _)) by lia.
  - by rewrite Nat.eqb_refl.
Qed.

Lemma tree_count_ok t m key :
  represents t m →
  wp (tree_count get key_comp key t) (λ n,
    n = match m key with None => 0 | Some _ => 1 end).
Proof.
  intros Hr. unfold tree_count. apply wp_bind.
  eapply wp_mono; [|by apply equal_range_ok]. intros [first second] He. cbn.
  destruct (m key); destruct He as [-> _]; lia.
Qed.

(** *** Erasure *)

Lemma vector_erase_ok {V} (l x r : list V) :
  vector_erase (l ++ x ++ r) (length l) (length l + length x) = Ret (l ++ r).
Proof.
  unfold vector_erase. rewrite !length_app.
  rewrite (proj2 (Nat.leb_le _ _)), (proj2 (Nat.leb_le (length l + length x) _)) by lia.
  cbn. rewrite take_app_length, <- drop_drop, drop_app_length, drop_app_length. done.
Qed.

Lemma represents_remove t m l x r :
  represents t m → body_ t = l ++ x :: r →
  represents (MkFlatTree (l ++ r)) (remove (get x) m).
Proof.
  intros [Hs Hm] Hb. rewrite Hb in Hs. destruct (sorted_remove _ _ _ Hs) as [Hs' Hm'].
  split; [done|]. intros k. cbn [body_]. rewrite Hm', <- Hb. unfold remove.
  by destruct (same k (get x)).
Qed.

Lemma represents_absent t m key :
  represents t m → m key = None → represents t (remove key m).
Proof.
  intros Hr Hn. pose proof Hr as [Hs Hm]. split; [done|]. intros k. unfold remove.
  destruct (same k key) eqn:Hk; [|done]. by rewrite Hm, (represents_same _ _ _ _ Hr Hk).
Qed.

Lemma represents_remove_same t m key key' :
  same key key' = true → represents t (remove key m) → represents t (remove key' m).
Proof.
  intros Hk [Hs Hm]. split; [done|]. intros k. rewrite Hm. unfold remove.
  by rewrite (same_same key_comp _ _ k Hk).
Qed.

Lemma erase_position_ok t m i x :
  represents t m → body_ t !! i = Some x →
  wp (erase_position i t) (λ '(t', it),
    represents t' (remove (get x) m) ∧ it = i
    ∧ body_ t' = take i (body_ t) ++ drop (S i) (body_ t)).
Proof.
  intros Hr Hi. unfold erase_position. rewrite (vector_deref_ok _ _ _ Hi). cbn.
  pose proof (take_drop_middle _ _ _ Hi) as Hv.
  pose proof (vector_erase_ok (take i (body_ t)) [x] (drop (S i) (body_ t))) as He.
  rewrite length_take_le in He by by apply Nat.lt_le_incl; eapply lookup_lt_Some.
  cbn [app length] in He. rewrite Hv in He. rewrite He. cbn.
  split_and!; [by eapply represents_remove|done|done].
Qed.

Lemma erase_key_ok t m key :
  represents t m →
  wp (erase_key get key_comp key t) (λ '(t', n),
    represents t' (remove key m) ∧ n = match m key with None => 0 | Some _ => 1 end).
Proof.
  intros Hr. unfold erase_key. apply wp_bind.
  eapply wp_mono; [|by apply equal_range_ok]. intros [first second] He. cbn.
  unfold tree_erase_range. destruct (m key) as [x|] eqn:Hk; destruct He as [-> He].
  - pose proof (take_drop_middle _ _ _ He) as Hv.
    pose proof (vector_erase_ok (take first (body_ t)) [x] (drop (S first) (body_ t))) as Hve.
    rewrite length_take_le in Hve by by apply Nat.lt_le_incl; eapply lookup_lt_Some.
    cbn [app length] in Hve. rewrite Hv in Hve. rewrite Hve. cbn. split; [|lia].
    apply (represents_remove_same _ _ (get x)); [|by eapply represents_remove].
    destruct (lower_bound_ok key t m Hr) as (? & _ & _ & _ & Hx).
    rewrite same_sym. by apply Hx.
  - unfold vector_erase, tree_end in *. rewrite Nat.leb_refl, (proj2 (Nat.leb_le _ _)) by done.
    cbn. rewrite take_drop. split; [|lia]. destruct t. by apply represents_absent.
Qed.

Lemma matches_filter (P : Value → Prop) `{∀ x, Decision (P x)} k v :
  matches k (filter P v) = filter P (matches k v).
Proof.
  unfold StdAlgorithms.matches. rewrite !list_filter_filter.
  apply list_filter_iff. tauto.
Qed.

Lemma sorted_filter (P : Value → Prop) `{∀ x, Decision (P x)} v :
  sorted_lt v → sorted_lt (filter P v).
Proof.
  induction v as [|x v IH]; [done|]. intros [Hs Hx]%sorted_lt_cons.
  rewrite list.filter_cons. case_decide; [|by apply IH].
  apply sorted_lt_cons. split; [by apply IH|]. intros y [_ Hy]%list_elem_of_filter. auto.
Qed.

Lemma tree_EraseIf_ok t m pred :
  represents t m →
  wp (tree_EraseIf pred t) (λ t', represents t' (λ k,
    match m k with Some x => if pred x then None else Some x | None => None end)).
Proof.
  intros [Hs Hm]. unfold tree_EraseIf, tree_erase_range, tree_end. cbn [body_].
  set (kept := filter _ _).
  pose proof (vector_erase_ok kept (drop (length kept) (body_ t)) []) as He.
  rewrite app_nil_r, length_drop in He.
  assert (length kept ≤ length (body_ t)) by apply length_filter.
  replace (length kept + (length (body_ t) - length kept)) with (length (body_ t)) in He by lia.
  rewrite He, app_nil_r. cbn. split; [by apply sorted_filter|]. intros k. cbn [body_].
  subst kept. rewrite matches_filter, <- Hm.
  destruct (sorted_lt_matches get key_comp k _ Hs) as [-> |[x ->]]; [done|].
  rewrite list.filter_cons. cbn. destruct (pred x); by case_decide.
Qed.

(** *** Ranges *)

(** The elements a range contributes for a key. *)
Definition pick (dupes : FlatContainerDupes) (l : list Value) : list Value :=
  match dupes with KEEP_FIRST_OF_DUPES => take 1 l | KEEP_LAST_OF_DUPES => last1 l end.

Lemma whole_cells_some {V} (l : list V) : whole_cells (Some <$> l) = Ret l.
Proof. induction l as [|x l IH]; [done|]. cbn. by rewrite IH. Qed.

Lemma pick_elem dupes x l : x ∈ pick dupes l → x ∈ l.
Proof.
  destruct dupes, l as [|y l]; cbn; try done.
  - intros ->%list_elem_of_singleton. by left.
  - unfold last1. destruct (list.last (y :: l)) eqn:Hl; [|by intros ?%elem_of_nil].
    intros ->%list_elem_of_singleton. by apply last_Some_elem_of.
Qed.

Lemma remove_duplicates_ok dupes range :
  sorted_le range →
  ∃ kept cells,
    remove_duplicates get key_comp dupes range = Ret (cells, length kept)
    ∧ length cells = length range ∧ length kept ≤ length range
    ∧ take (length kept) cells = Some <$> kept
    ∧ sorted_lt kept ∧ ∀ k, matches k kept = pick dupes (matches k range).
Proof.
  intros Hs. destruct dupes.
  - pose proof (length_std_unique (equal_comparator get key_comp) range) as Hle.
    destruct (std_unique_spec get key_comp range Hs) as [H1 H2].
    eexists _, _. split; [done|]. rewrite length_fmap, length_app, length_drop.
    rewrite <- fmap_take, take_app_length. split_and!; [lia|done..].
  - destruct (LastUnique_spec (equal_comparator get key_comp) range) as (c & H1 & H2 & H3).
    destruct (lasts_spec range Hs) as [H4 H5]. eexists _, c.
    split_and!; try done. rewrite <- (length_fmap Some), <- H3, length_take. lia.
Qed.

(** [sort_and_unique] on the end of a vector. *)
Lemma sort_and_unique_ok front news dupes t :
  body_ t = front ++ news →
  ∃ kept,
    sort_and_unique get key_comp (length front) (tree_end t) dupes t
      = Ret (MkFlatTree (front ++ kept))
    ∧ sorted_lt kept ∧ (∀ k, matches k kept = pick dupes (matches k news))
    ∧ (∀ x, x ∈ kept → x ∈ news).
Proof.
  intros Hb. unfold sort_and_unique, tree_end. rewrite Hb.
  rewrite drop_app_length, take_app_length, drop_all.
  rewrite (take_ge news) by (rewrite length_app; lia).
  set (range := std_stable_sort get key_comp news).
  pose proof (stable_sort_sorted get key_comp news) as Hsort. fold range in Hsort.
  assert (length range = length news) as Hlen by apply length_stable_sort.
  assert (∀ k, matches k range = matches k news) as Hmr by (intros k; apply (matches_stable_sort get key_comp)).
  destruct (remove_duplicates_ok dupes range Hsort)
    as (kept & cells & -> & Hcl & Hkl & Hck & Hks & Hkm).
  cbn [mbind outcome_bind]. exists kept. split_and!; [|done|..].
  - rewrite <- (take_drop (length kept) cells), Hck, app_nil_r.
    pose proof (vector_erase_ok ((Some <$> front) ++ (Some <$> kept))
      (drop (length kept) cells) []) as He.
    rewrite <- !app_assoc, app_nil_r, !length_app, !length_fmap, length_drop in He.
    rewrite length_app. cbn [app] in He.
    replace (length front + length kept + (length cells - length kept))
      with (length front + length news) in He by lia.
    rewrite app_nil_r in He. rewrite He. cbn [mbind outcome_bind].
    by rewrite <- fmap_app, whole_cells_some.
  - intros k. by rewrite Hkm, Hmr.
  - intros x Hx. rewrite (elem_of_matches_self get key_comp), Hkm, Hmr in Hx.
    apply pick_elem in Hx. by apply elem_of_matches in Hx as [_ ?].
Qed.

(** One step of the batch: [orig] are the elements that were there before. *)
Lemma append_new_ok assign orig news val t :
  body_ t = orig ++ news → sorted_lt orig →
  ∃ i, 
    (append_new get key_comp assign 0 (length orig) val t
       = Ret (MkFlatTree (orig ++ news ++ [val]), (i, true))
     ∧ matches (get val) orig = []
     ∧ ∀ j x, orig !! j = Some x → j < i → before x val = true)
    ∨ ∃ x, orig !! i = Some x ∧ same (get val) (get x) = true
      ∧ matches (get val) orig = [x]
      ∧ append_new get key_comp assign 0 (length orig) val t
          = Ret (MkFlatTree ((if assign then <[i := val]> orig else orig) ++ news),
                 (i, false)).
Proof.
  intros Hb Hs. unfold append_new. rewrite Hb.
  destruct (search_splits (get val) orig news Hs) as (i & absent & Hp & Ha & Hsp).
  unfold value_comp. rewrite Hp. cbn [mbind outcome_bind]. rewrite Ha.
  cbn [mbind outcome_bind]. exists i.
  pose proof (splits_matches _ _ _ _ Hsp) as Hm. destruct absent.
  - left. rewrite <- app_assoc. split_and!; [done|done|].
    destruct Hsp as (l & r & -> & -> & Hl & _). intros j x Hx Hj.
    rewrite lookup_app_l in Hx by done. apply Hl. by eapply list_elem_of_lookup_2.
  - right. destruct Hm as (x & Hx & Hm). exists x.
    assert (x ∈ matches (get val) orig) as Hin by (rewrite Hm; by left).
    apply elem_of_matches in Hin as [Hin _].
    split_and!; [done|done|done|]. destruct assign.
    + unfold vector_assign. rewrite (vector_deref_ok _ _ x).
      * cbn. rewrite insert_app_l; [done|]. by eapply lookup_lt_Some.
      * rewrite lookup_app_l; [done|]. by eapply lookup_lt_Some.
    + destruct t. cbn in *. by rewrite Hb.
Qed.

(** The elements before position [pos] are less than everything appended, and
    none of the old elements is equivalent to an appended one. *)
Definition appended_ok (orig news : list Value) (pos : nat) : Prop :=
  ∀ x, x ∈ news →
    (∀ j y, orig !! j = Some y → j < pos → before y x = true)
    ∧ matches (get x) orig = [].

Lemma appended_ok_le orig news pos pos' :
  pos' ≤ pos → appended_ok orig news pos → appended_ok orig news pos'.
Proof.
  intros Hle Ha x Hx. destruct (Ha x Hx) as [Hb Hm]. split; [|done].
  intros j y Hy Hj. apply (Hb j); [done|lia].
Qed.

(** Overwriting an element by an equivalent one does not disturb them. *)
Lemma appended_ok_replace orig news pos i val x :
  sorted_lt orig → orig !! i = Some x → same (get val) (get x) = true →
  appended_ok orig news pos → appended_ok (<[i := val]> orig) news pos.
Proof.
  intros Hs Hi Hx Ha z Hz. destruct (Ha z Hz) as [Hb Hm]. split.
  - intros j y Hy Hj. destruct (decide (j = i)) as [-> |Hne].
    + rewrite list_lookup_insert_eq in Hy by by eapply lookup_lt_Some.
      injection Hy as <-. unfold StdAlgorithms.before.
      rewrite (lt_same_l key_comp _ _ _ Hx). by apply (Hb i).
    + rewrite list_lookup_insert_ne in Hy by done. by apply (Hb j).
  - destruct (sorted_replace _ _ _ _ Hs Hi Hx) as [_ ->].
    destruct (same (get z) (get val)) eqn:Hzv; [|done].
    pose proof (same_trans key_comp _ _ _ Hzv Hx) as Hzx.
    rewrite matches_nil_iff in Hm. rewrite Hm in Hzx; [done|].
    by eapply list_elem_of_lookup_2.
Qed.

(** What the loop leaves of the old elements for a key. *)
Definition kept_old (assign : bool) (old input : list Value) : list Value :=
  match old with
  | [] => []
  | _ => if assign then last1 (old ++ input) else old
  end.
Definition new_ones (old input : list Value) : list Value :=
  match old with [] => input | _ => [] end.

Lemma append_all_ok assign input orig news pos t :
  body_ t = orig ++ news → sorted_lt orig → pos ≤ length orig →
  appended_ok orig news pos →
  ∃ orig' news' pos',
    append_all get key_comp assign (length orig) input pos t
      = Ret (MkFlatTree (orig' ++ news ++ news'), pos')
    ∧ length orig' = length orig ∧ sorted_lt orig' ∧ pos' ≤ pos
    ∧ appended_ok orig' (news ++ news') pos'
    ∧ ∀ k, matches k orig' = kept_old assign (matches k orig) (matches k input)
        ∧ matches k news' = new_ones (matches k orig) (matches k input).
Proof.
  revert orig news pos t. induction input as [|val input IH];
    intros orig news pos t Hb Hs Hpos Ha.
  { exists orig, [], pos. rewrite app_nil_r. destruct t as [b]. cbn in Hb. subst b.
    split_and!; [done..|]. intros k. rewrite matches_nil.
    destruct (sorted_lt_matches get key_comp k _ Hs) as [-> |[x ->]]; [done|].
    by destruct assign. }
  cbn [append_all]. unfold tree_begin.
  destruct (append_new_ok assign orig news val t Hb Hs)
    as [i [(-> & Hm & Hbef)|(x & Hi & Hx & Hm & ->)]]; cbn [mbind outcome_bind].
  - destruct (IH orig (news ++ [val]) (Nat.min pos i)
      (MkFlatTree (orig ++ news ++ [val])))
      as (o' & n' & p' & -> & Hl & Hs' & Hp' & Ha' & Hk'); [done|done|lia| |].
    { intros z [Hz|Hz%list_elem_of_singleton]%elem_of_app.
      - by apply (appended_ok_le _ _ _ (Nat.min pos i)) in Ha; [apply Ha|lia].
      - subst z. split; [|done]. intros j y Hy Hj. apply (Hbef j); [done|lia]. }
    exists o', (val :: n'), p'. rewrite <- !app_assoc in *. cbn [app] in *.
    split_and!; [done|done|done|lia|done|].
    intros k. rewrite !matches_cons. destruct (Hk' k) as [-> ->].
    destruct (same k (get val)) eqn:Hkv; [|done].
    by rewrite (matches_same _ _ _ _ orig Hkv), Hm.
  - destruct (IH (if assign then <[i := val]> orig else orig) news pos
      (MkFlatTree ((if assign then <[i := val]> orig else orig) ++ news)))
      as (o' & n' & p' & H1 & Hl & Hs' & Hp' & Ha' & Hk').
    { done. }
    { destruct assign; [by eapply sorted_replace|done]. }
    { destruct assign; by rewrite ?length_insert. }
    { destruct assign; [by eapply appended_ok_replace|done]. }
    assert (length (if assign then <[i := val]> orig else orig) = length orig) as Hlen
      by (destruct assign; by rewrite ?length_insert).
    rewrite Hlen in *. exists o', n', p'. rewrite H1.
    split_and!; [done|done|done|done|done|].
    intros k. destruct (Hk' k) as [-> ->]. rewrite matches_cons. destruct assign.
    + rewrite (proj2 (sorted_replace _ _ _ _ Hs Hi Hx) k).
      destruct (same k (get val)) eqn:Hkv; [|done].
      by rewrite (matches_same _ _ _ _ orig Hkv), Hm.
    + destruct (same k (get val)) eqn:Hkv; [|done].
      by rewrite (matches_same _ _ _ _ orig Hkv), Hm.
Qed.

(** The map after a range: existing elements win, or the range does. *)
Definition put_range (dupes : FlatContainerDupes) (input : list Value)
    (m : Key → option Value) : Key → option Value :=
  λ k, match dupes with
       | KEEP_FIRST_OF_DUPES =>
           match m k with Some x => Some x | None => head (matches k input) end
       | KEEP_LAST_OF_DUPES =>
           match list.last (matches k input) with Some x => Some x | None => m k end
       end.

Lemma put_range_one dupes val m k :
  put_range dupes [val] m k
    = put (get val) (match dupes with
                     | KEEP_FIRST_OF_DUPES => default val (m k)
                     | KEEP_LAST_OF_DUPES => val
                     end) m k.
Proof.
  unfold put_range, put. rewrite matches_cons, matches_nil, app_nil_r.
  destruct dupes, (same k (get val)), (m k); done.
Qed.

(** The merge of the old elements with the new ones, from the first insertion
    point on. *)
Lemma merge_ok orig kept pos :
  sorted_lt orig → sorted_lt kept → pos ≤ length orig →
  appended_ok orig kept pos →
  let v := take pos orig ++ std_merge get key_comp (drop pos orig) kept in
  sorted_lt v ∧ ∀ k, matches k v = matches k orig ++ matches k kept.
Proof.
  intros Hs Hk Hpos Ha v.
  assert (v = std_merge get key_comp orig kept) as ->.
  { unfold v. rewrite <- (take_drop pos orig) at 3.
    rewrite (std_merge_prefix get key_comp (take pos orig)); [done|].
    intros x y Hx Hy. apply list_elem_of_lookup in Hx as [j Hj].
    apply lookup_take_Some in Hj as [Hj Hlt]. by apply (proj1 (Ha y Hy) j). }
  apply (std_merge_spec get key_comp); [done|done|].
  intros x y Hx Hy. destruct (Ha y Hy) as [_ Hn].
  rewrite matches_nil_iff in Hn. rewrite same_sym. by apply Hn.
Qed.

(** The batch: append, sort the new elements, merge. *)
Definition overwrites (dupes : FlatContainerDupes) : bool :=
  match dupes with KEEP_LAST_OF_DUPES => true | _ => false end.

Lemma put_range_matches dupes input m old k :
  m k = head old → (old = [] ∨ ∃ x, old = [x]) →
  head (kept_old (overwrites dupes) old (matches k input)
        ++ pick dupes (new_ones old (matches k input)))
  = put_range dupes input m k.
Proof.
  intros Hm Hold. unfold put_range. rewrite Hm.
  destruct Hold as [-> |[x ->]], dupes; cbn.
  - by destruct (matches k input).
  - unfold last1. by destruct (list.last (matches k input)).
  - done.
  - rewrite app_nil_r. unfold last1.
    destruct (matches k input) as [|y l]; [done|].
    change (list.last (x :: y :: l)) with (list.last (y :: l)).
    destruct (list.last (y :: l)) eqn:Hl; [done|]. by apply last_None in Hl.
Qed.

Lemma batch_insert_ok t m input dupes :
  represents t m →
  wp ('(t1, pos) ← append_all get key_comp (overwrites dupes) (tree_size t) input
                     (tree_size t) t;
      t2 ← sort_and_unique get key_comp (tree_size t) (tree_end t1) dupes t1;
      Ret (MkFlatTree (take pos (body_ t2)
        ++ std_merge get key_comp (drop pos (take (tree_size t) (body_ t2)))
             (drop (tree_size t) (body_ t2)))))
    (λ t', represents t' (put_range dupes input m)).
Proof.
  intros Hr. pose proof Hr as [Hs Hm]. unfold tree_size.
  destruct (append_all_ok (overwrites dupes) input (body_ t) [] (length (body_ t)) t)
    as (o & n & pos & -> & Hl & Hso & Hpos & Ha & Hk);
    [by rewrite app_nil_r|done|done|by intros x ?%elem_of_nil|].
  cbn [mbind outcome_bind app] in *.
  destruct (sort_and_unique_ok o n dupes (MkFlatTree (o ++ n)) eq_refl)
    as (kept & Hsort & Hsk & Hmk & Hin).
  rewrite <- Hl, Hsort. cbn [mbind outcome_bind body_ wp].
  rewrite take_app_length, drop_app_length, take_app_le by lia.
  destruct (merge_ok o kept pos Hso Hsk) as [Hsv Hmv]; [lia| |].
  { intros x Hx. by apply Ha, Hin. }
  split; [done|]. intros k. cbn [body_]. destruct (Hk k) as [Hk1 Hk2].
  rewrite Hmv, Hmk, Hk1, Hk2. apply put_range_matches; [by rewrite Hm|].
  by apply (sorted_lt_matches get key_comp).
Qed.

Lemma represents_ext t m m' :
  (∀ k, m k = m' k) → represents t m → represents t m'.
Proof. intros He [Hs Hm]. split; [done|]. intros k. by rewrite Hm. Qed.

Lemma tree_insert_range_ok t m multipass input dupes :
  represents t m →
  wp (tree_insert_range get key_comp multipass input dupes t)
    (λ t', represents t' (put_range dupes input m)).
Proof.
  intros Hr. unfold tree_insert_range. destruct (Nat.eqb_spec (length input) 0) as [Hn|Hn].
  { destruct input; [|done]. cbn. eapply represents_ext; [|done].
    intros k. unfold put_range. rewrite matches_nil. destruct dupes; [by destruct (m k)|done]. }
  destruct (multipass && (length input =? 1)) eqn:Hone.
  2: { destruct dupes; by apply batch_insert_ok. }
  apply andb_true_iff in Hone as [_ Hone%Nat.eqb_eq].
  destruct input as [|val [|? ?]]; try done.
  eapply wp_mono; [intros t' Ht'; eapply represents_ext;
    [intros k; symmetry; apply put_range_one|exact Ht']|].
  destruct dupes; cbn [copy_to_inserter insert_all].
  - unfold tree_insert_hint. apply wp_bind, wp_bind.
    eapply wp_mono; [|by apply (emplace_hint_key_args_ok t m)].
    intros [t' [it b]] (Ht' & _ & _). cbn. eapply represents_ext; [|exact Ht'].
    intros k. unfold put. destruct (same k (get val)) eqn:Hk; [|done].
    by rewrite (represents_same _ _ _ _ Hr Hk).
  - apply wp_bind. eapply wp_mono; [|by apply insert_or_assign_ok].
    intros [t' [it b]] (Ht' & _ & _). done.
Qed.

(** Construction from a range: as inserting it into an empty tree. *)
Lemma tree_from_range_ok items dupes :
  wp (tree_from_range get key_comp items dupes)
    (λ t', represents t' (put_range dupes items (λ _, None))).
Proof.
  unfold tree_from_range.
  destruct (sort_and_unique_ok [] items dupes (MkFlatTree items) eq_refl)
    as (kept & Hsort & Hsk & Hmk & _).
  cbn [length app] in Hsort. unfold tree_begin. rewrite Hsort. cbn [wp].
  split; [done|]. intros k. cbn [body_]. rewrite Hmk. unfold put_range.
  destruct dupes; cbn; [by destruct (matches k items)|].
  unfold last1. by destruct (list.last _).
Qed.

Lemma tree_assign_list_ok ilist t :
  wp (tree_assign_list get key_comp ilist t)
    (λ t', represents t' (put_range KEEP_FIRST_OF_DUPES ilist (λ _, None))).
Proof. apply tree_from_range_ok. Qed.

(** *** Bounds *)

Lemma length_filter_split (p : Value → bool) l r :
  (∀ x, x ∈ l → p x = true) → (∀ x, x ∈ r → p x = false) →
  length (filter (λ x, p x = true) (l ++ r)) = length l.
Proof.
  intros Hl Hr. induction l as [|x l IH]; cbn [app].
  - induction r as [|y r IH]; [done|]. rewrite list.filter_cons.
    rewrite Hr by by left. case_decide; [done|]. apply IH. intros z Hz. apply Hr. by right.
  - rewrite list.filter_cons, Hl by by left. case_decide; [|done]. cbn. f_equal.
    apply IH. intros z Hz. apply Hl. by right.
Qed.

(** [lower_bound] is preceded by the elements that are less than the key,
    [upper_bound] by those that are not greater. *)
Lemma lower_upper_bound_ok t key :
  sorted_lt (body_ t) →
  lower_bound get key_comp key t
    = Ret (length (filter (λ x, key_comp (get x) key = true) (body_ t)))
  ∧ upper_bound get key_comp key t
    = Ret (length (filter (λ x, key_comp key (get x) = false) (body_ t))).
Proof.
  intros Hs.
  assert (∀ p : Value → bool, (∀ x y, before x y = true → p y = true → p x = true) →
    std_partition_point p (body_ t) 0 (length (body_ t))
      = Ret (length (filter (λ x, p x = true) (body_ t)))) as Hp.
  { intros p Hp. destruct (sorted_partition p _ Hs Hp) as (l & r & Hb & Hl & Hbl & Hbr & Hpart).
    rewrite std_partition_point_ok by (done || apply leading_le).
    rewrite Hl, Hb. f_equal. symmetry. by apply length_filter_split. }
  split; [apply Hp|etrans; [apply Hp|]].
  - intros x y Hxy. by apply (lt_trans _ (get y)).
  - intros x y Hxy Hy. destruct (key_comp key (get x)) eqn:Hx; [|done].
    by rewrite (lt_trans _ _ _ Hx Hxy) in Hy.
  - do 2 f_equal. apply list_filter_iff. intros x. by destruct (key_comp key (get x)).
Qed.

(** ** Any use of a tree *)

Inductive tree_op : Type :=
| OpInsert (val : Value)
| OpInsertHint (place : nat) (val : Value)
| OpInsertOrAssign (val : Value)
| OpInsertRange (multipass : bool) (input : list Value) (dupes : FlatContainerDupes)
| OpAssignList (ilist : list Value)
| OpFind (key : Key)
| OpCount (key : Key)
| OpErase (key : Key)
| OpEraseFound (key : Key)
| OpEraseIf (pred : Value → bool)
| OpClear.

(** What the caller sees: the element behind the returned iterator. *)
Inductive tree_result : Type :=
| RInserted (x : Value) (inserted : bool)
| RFound (x : option Value)
| RCount (n : nat)
| RDone.

Definition found_at (it : nat) t : outcome (option Value) :=
  if it =? tree_end t then Ret None else x ← deref (body_ t) it; Ret (Some x).

(** A hint is any iterator of the tree. *)
Definition tree_step (op : tree_op) t : outcome (flat_tree Value * tree_result) :=
  match op with
  | OpInsert val =>
      '(t, (it, b)) ← tree_insert get key_comp val t;
      x ← deref (body_ t) it; Ret (t, RInserted x b)
  | OpInsertHint place val =>
      '(t, it) ← tree_insert_hint get key_comp (place `min` tree_end t) val t;
      x ← deref (body_ t) it; Ret (t, RFound (Some x))
  | OpInsertOrAssign val =>
      '(t, (it, b)) ← insert_or_assign get key_comp val t;
      x ← deref (body_ t) it; Ret (t, RInserted x b)
  | OpInsertRange multipass input dupes =>
      t ← tree_insert_range get key_comp multipass input dupes t; Ret (t, RDone)
  | OpAssignList ilist => t ← tree_assign_list get key_comp ilist t; Ret (t, RDone)
  | OpFind key =>
      it ← tree_find get key_comp key t; x ← found_at it t; Ret (t, RFound x)
  | OpCount key => n ← tree_count get key_comp key t; Ret (t, RCount n)
  | OpErase key => '(t, n) ← erase_key get key_comp key t; Ret (t, RCount n)
  | OpEraseFound key =>
      it ← tree_find get key_comp key t; x ← found_at it t;
      match x with
      | None => Ret (t, RFound None)
      | Some x => '(t, _) ← erase_position it t; Ret (t, RFound (Some x))
      end
  | OpEraseIf pred => t ← tree_EraseIf pred t; Ret (t, RDone)
  | OpClear => Ret (tree_clear t, RDone)
  end.

(** The same on a map from keys to values. *)
Definition map_step (op : tree_op) (m : Key → option Value)
    : (Key → option Value) * tree_result :=
  match op with
  | OpInsert val =>
      let x := default val (m (get val)) in
      (put (get val) x m, RInserted x (bool_decide (m (get val) = None)))
  | OpInsertHint _ val =>
      let x := default val (m (get val)) in (put (get val) x m, RFound (Some x))
  | OpInsertOrAssign val =>
      (put (get val) val m, RInserted val (bool_decide (m (get val) = None)))
  | OpInsertRange _ input dupes => (put_range dupes input m, RDone)
  | OpAssignList ilist => (put_range KEEP_FIRST_OF_DUPES ilist (λ _, None), RDone)
  | OpFind key => (m, RFound (m key))
  | OpCount key => (m, RCount (match m key with None => 0 | Some _ => 1 end))
  | OpErase key =>
      (remove key m, RCount (match m key with None => 0 | Some _ => 1 end))
  | OpEraseFound key => (remove key m, RFound (m key))
  | OpEraseIf pred =>
      (λ k, match m k with Some x => if pred x then None else Some x | None => None end,
       RDone)
  | OpClear => (λ _, None, RDone)
  end.

Fixpoint tree_run (ops : list tree_op) t
    : outcome (flat_tree Value * list tree_result) :=
  match ops with
  | [] => Ret (t, [])
  | op :: ops =>
      '(t, r) ← tree_step op t; '(t, rs) ← tree_run ops t; Ret (t, r :: rs)
  end.
Fixpoint map_run (ops : list tree_op) (m : Key → option Value)
    : (Key → option Value) * list tree_result :=
  match ops with
  | [] => (m, [])
  | op :: ops =>
      let '(m, r) := map_step op m in
      let '(m, rs) := map_run ops m in (m, r :: rs)
  end.

Lemma found_at_ok t m key it :
  match m key with None => it = tree_end t | Some x => body_ t !! it = Some x end →
  found_at it t = Ret (m key).
Proof.
  unfold found_at. destruct (m key) as [x|]; [|intros ->; by rewrite Nat.eqb_refl].
  intros Hx. rewrite (proj2 (Nat.eqb_neq _ _)), (vector_deref_ok _ _ _ Hx); [done|].
  apply lookup_lt_Some in Hx. unfold tree_end. lia.
Qed.

Lemma tree_step_ok op t m :
  represents t m →
  wp (tree_step op t) (λ '(t', r), represents t' (map_step op m).1 ∧ r = (map_step op m).2).
Proof.
  intros Hr. destruct op; cbn [tree_step map_step fst snd].
  - apply wp_bind. eapply wp_mono; [|by apply emplace_key_args_ok].
    intros [t' [it b]] (Ht' & Hx & ->). cbn. by rewrite (vector_deref_ok _ _ _ Hx).
  - unfold tree_insert_hint. apply wp_bind, wp_bind.
    eapply wp_mono; [|apply (emplace_hint_key_args_ok t m); [done|done|lia]].
    intros [t' [it b]] (Ht' & Hx & ->). cbn. by rewrite (vector_deref_ok _ _ _ Hx).
  - apply wp_bind. eapply wp_mono; [|by apply insert_or_assign_ok].
    intros [t' [it b]] (Ht' & Hx & ->). cbn. by rewrite (vector_deref_ok _ _ _ Hx).
  - apply wp_bind. eapply wp_mono; [|by apply tree_insert_range_ok]. done.
  - apply wp_bind. eapply wp_mono; [|apply tree_assign_list_ok]. done.
  - apply wp_bind. eapply wp_mono; [|by apply tree_find_ok].
    intros it Hit. by rewrite (found_at_ok _ _ _ _ Hit).
  - apply wp_bind. eapply wp_mono; [|by apply tree_count_ok]. by intros n ->.
  - apply wp_bind. eapply wp_mono; [|by apply erase_key_ok]. by intros [t' n] [Ht' ->].
  - apply wp_bind. eapply wp_mono; [|by apply tree_find_ok].
    intros it Hit. rewrite (found_at_ok _ _ _ _ Hit). cbn [mbind outcome_bind].
    destruct (m key) as [x|] eqn:Hk; [|split; [by apply represents_absent|done]].
    apply wp_bind. eapply wp_mono; [|by apply erase_position_ok].
    intros [t' it'] (Ht' & _ & _). split; [|done].
    destruct (lower_bound_ok key t m Hr) as (? & _ & _ & _ & Hx).
    apply (represents_remove_same _ _ (get x)); [|done].
    rewrite same_sym. by apply Hx.
  - apply wp_bind. eapply wp_mono; [|by apply tree_EraseIf_ok]. done.
  - split; [|done]. by split; [constructor|].
Qed.

(** A map has one tree: comparing vectors compares maps. *)
Lemma represents_unique t t' m :
  represents t m → represents t' m → body_ t = body_ t'.
Proof.
  intros [Hs Hm] [Hs' Hm']. assert (∀ k, head (matches k (body_ t)) = head (matches k (body_ t')))
    as He by (intros k; by rewrite Hm, Hm'). clear m Hm Hm'.
  revert He Hs Hs'. generalize (body_ t) as v, (body_ t') as w. clear t t'.
  induction v as [|x v IH]; intros [|y w] He Hs Hs'; [done|..].
  - specialize (He (get y)). by rewrite matches_cons, same_refl in He.
  - specialize (He (get x)). by rewrite matches_cons, same_refl in He.
  - pose proof Hs as [Hv Hx]%sorted_lt_cons. pose proof Hs' as [Hw Hy]%sorted_lt_cons.
    assert (x = y) as ->.
    { pose proof (He (get x)) as H1. pose proof (He (get y)) as H2.
      rewrite !matches_cons, same_refl in H1 by done.
      rewrite !matches_cons, (same_refl _ (get y)) in H2 by done.
      destruct (same (get x) (get y)) eqn:Hxy; [by injection H1|].
      rewrite same_sym, Hxy in H2. cbn [app head] in H1, H2.
      symmetry in H1. apply head_Some_elem_of, elem_of_matches in H1 as [_ H1].
      apply head_Some_elem_of, elem_of_matches in H2 as [_ H2].
      pose proof (Hx _ H2) as H3. pose proof (Hy _ H1) as H4.
      unfold StdAlgorithms.before in *. by rewrite (lt_asym _ _ _ H3) in H4. }
    f_equal. apply IH; [|done|done]. intros k.
    destruct (same k (get y)) eqn:Hk.
    + rewrite !matches_none; [done|..]; intros z Hz;
        [pose proof (Hy z Hz) as Hlt|pose proof (Hx z Hz) as Hlt];
        unfold StdAlgorithms.before in Hlt; destruct (same k (get z)) eqn:Hkz; try done;
        rewrite same_sym in Hk; pose proof (same_trans key_comp _ _ _ Hk Hkz) as Hs3;
        by rewrite (lt_not_same key_comp _ _ Hlt) in Hs3.
    + specialize (He k). by rewrite !matches_cons, Hk in He.
Qed.

(** C39: A flat tree is a finite map.  Whatever operations are run on an empty
    tree, with hints anywhere in it, it has no undefined behaviour (no
    iterator is dereferenced out of range, no element is read after it was
    moved away), every answer is the one of a map from keys to values, in
    which inserting a range lets the existing elements win or the last of the
    range, the tree holds exactly the elements of that map, and its vector
    stays sorted, with no two equivalent keys. *)
Theorem tree_refines_map ops :
  wp (tree_run ops tree_new) (λ '(t, results),
    results = (map_run ops (λ _, None)).2
    ∧ represents t (map_run ops (λ _, None)).1).
Proof.
  assert (∀ t m, represents t m → wp (tree_run ops t) (λ '(t, results),
    results = (map_run ops m).2 ∧ represents t (map_run ops m).1)) as H.
  { induction ops as [|op ops IH]; intros t m Hr; [done|]. cbn [tree_run map_run].
    apply wp_bind. eapply wp_mono; [|by apply tree_step_ok]. intros [t1 r] [Ht1 ->].
    destruct (map_step op m) as [m1 r1]. cbn [fst snd] in *.
    apply wp_bind. eapply wp_mono; [|by apply IH]. intros [t2 rs] [-> Ht2].
    by destruct (map_run ops m1). }
  apply H. by split; [constructor|].
Qed.
End flat_tree_operations.

(** ** [flat_map] *)

Section flat_map_lemmas.
Context {Key Mapped : Type} (key_comp : Key → Key → bool) `{!StrictWeakOrder key_comp}.
Implicit Types (t : flat_tree (Key * Mapped)) (key : Key) (obj : Mapped).
Implicit Types (m : Key → option (Key * Mapped)).

#[local] Notation represents := (represents (@pair_first Key Mapped) key_comp).
#[local] Notation put := (put key_comp).

(** [operator[]] makes the element if there is none. *)
Lemma map_subscript_ok t m key d :
  represents t m →
  wp (map_subscript key_comp key d t) (λ '(t', it),
    represents t' (put key (default (key, d) (m key)) m)
    ∧ body_ t' !! it = Some (default (key, d) (m key))).
Proof.
  intros Hr. unfold map_subscript.
  destruct (lower_bound_ok pair_first key_comp key t m Hr) as (i & -> & Ha & Hsp & Hx). cbn.
  rewrite Ha. cbn. case_bool_decide as Hn.
  - pose proof (unsafe_emplace_ok pair_first key_comp t m i key (key, d) eq_refl Hr Hsp Hn) as Hw.
    unfold unsafe_emplace in *. destruct (vector_emplace _ _ _); try done.
    destruct Hw as (? & ? & _). done.
  - destruct (m key) as [x|] eqn:Hmk; [|done]. destruct (Hx x eq_refl) as [Hi _]. cbn.
    split; [by apply represents_keep|done].
Qed.

(** Assigning keeps the key of the element that was there. *)
Definition assigned key obj m : Key * Mapped :=
  match m key with Some (k, _) => (k, obj) | None => (key, obj) end.

Lemma assign_second_ok t m key it x obj :
  represents t m → body_ t !! it = Some x → m key = Some x →
  wp (assign_second it obj t) (λ t',
    represents t' (put key (x.1, obj) m) ∧ body_ t' !! it = Some (x.1, obj)).
Proof.
  intros Hr Hi Hk. unfold assign_second, vector_assign. rewrite !(vector_deref_ok _ _ _ Hi). cbn.
  destruct (lower_bound_ok pair_first key_comp key t m Hr) as (? & ? & ? & ? & Hx).
  destruct (Hx x Hk) as [_ Hsame]. split.
  - eapply represents_ext; [|eapply (represents_replace pair_first key_comp t m it (x.1, obj) x);
      [done|done|apply (same_refl key_comp)]].
    intros k. unfold FlatTreeSearch.put, pair_first. cbn.
    by rewrite (same_same key_comp _ _ k Hsame).
  - by eapply list_lookup_insert_eq, lookup_lt_Some.
Qed.

Lemma finish_assign_ok key obj t m x :
  represents t m →
  emplaced pair_first key_comp key (key, obj) m x →
  wp (let '(t, (it, inserted)) := x in
      if inserted : bool then Ret (t, (it, inserted)) else
      t ← assign_second it obj t; Ret (t, (it, inserted)))
    (λ '(t', (it, inserted)),
      represents t' (put key (assigned key obj m) m)
      ∧ body_ t' !! it = Some (assigned key obj m)
      ∧ inserted = bool_decide (m key = None)).
Proof.
  intros Hr. destruct x as [t' [it b]]. intros (Ht' & Hx & ->). unfold assigned.
  case_bool_decide as Hn; [by rewrite Hn in *|].
  destruct (m key) as [[k o]|] eqn:Hmk; [|done]. cbn [default] in *.
  apply wp_bind. eapply wp_mono; [|eapply (assign_second_ok t' _ key); [done|done|]].
  - intros t'' [Ht'' Hx'']. cbn in *. split_and!; [|done|done].
    eapply represents_ext; [|done]. intros k'. unfold FlatTreeSearch.put.
    by destruct (same key_comp k' key).
  - unfold FlatTreeSearch.put. by rewrite (same_refl key_comp).
Qed.

Lemma map_insert_or_assign_ok t m key obj :
  represents t m →
  wp (map_insert_or_assign key_comp key obj t) (λ '(t', (it, inserted)),
    represents t' (put key (assigned key obj m) m)
    ∧ body_ t' !! it = Some (assigned key obj m)
    ∧ inserted = bool_decide (m key = None)).
Proof.
  intros Hr. unfold map_insert_or_assign. apply wp_bind.
  eapply wp_mono; [|by apply (emplace_key_args_ok pair_first key_comp t m)].
  intros x Hx. by eapply finish_assign_ok in Hx.
Qed.
End flat_map_lemmas.

(** ** Examples *)

#[export] Instance nat_ltb_order : StrictWeakOrder Nat.ltb.
Proof.
  split; [apply Nat.ltb_irrefl|intros a b c; rewrite !Nat.ltb_lt; lia|].
  intros a b c. rewrite !Nat.ltb_ge. lia.
Qed.

(** Keys with payloads: a range overwrites, another does not. *)
Definition demo_ops : list (@tree_op nat (nat * nat)) :=
  [OpInsertRange true [(5, 0); (3, 1); (5, 2); (9, 3)] KEEP_FIRST_OF_DUPES;
   OpInsertHint 1 (4, 4); OpInsertHint 0 (7, 5);
   OpInsertRange false [(1, 6); (9, 7); (2, 8); (1, 9)] KEEP_LAST_OF_DUPES;
   OpFind 9; OpInsert (2, 0); OpErase 3; OpEraseFound 4; OpCount 4;
   OpEraseIf (λ x, 5 =? x.1)].

Lemma tree_refines_map_witness :
  wp (tree_run pair_first Nat.ltb demo_ops tree_new) (λ '(t, results),
    results = (map_run pair_first Nat.ltb demo_ops (λ _, None)).2
    ∧ represents pair_first Nat.ltb t
        (map_run pair_first Nat.ltb demo_ops (λ _, None)).1).
Proof. apply (tree_refines_map pair_first Nat.ltb). Defined.

Example demo_run :
  (tree_run pair_first Nat.ltb demo_ops tree_new)
  = Ret (MkFlatTree [(1, 9); (2, 8); (7, 5); (9, 7)],
         [RDone; RFound (Some (4, 4)); RFound (Some (7, 5)); RDone;
          RFound (Some (9, 7)); RInserted (2, 8) false; RCount 1;
          RFound (Some (4, 4)); RCount 0; RDone]).
Proof. vm_compute. reflexivity. Qed.
