(* ===== verification/G711.v ===== *)
(** The G.711 codecs
    (libs/webrtc/include/modules/audio_coding/codecs/g711/g711.h).

    [int] is a 32-bit integer; [uint8_t] and [int16_t] values are converted as
    the casts of the source do.  The searches for a bit are those written in C,
    for processors the header has no assembly for (as those of the phones), and
    ULAW_ZEROTRAP is not defined, as in the header.  No left shift leaves the
    range of [int]: the shifted values have at most 8 bits and the distances
    are at most 7. *)

From S2P Require Import Prelude.

(** ** Searching for a bit *)

(** A step of the two searches: [if (bits & m) { bits &= m; i += k; }]. *)
Definition bit_step (m k : Z) (x : Z * Z) : Z * Z :=
  let '(i, bits) := x in
  if Z.land bits m =? 0 then (i, bits) else (i + k, Z.land bits m).

Definition top_bit (bits : Z) : Z :=
  if bits =? 0 then -1 else
  (bit_step 0xAAAAAAAA 1 (bit_step 0xCCCCCCCC 2 (bit_step 0xF0F0F0F0 4
    (bit_step 0xFF00FF00 8 (bit_step 0xFFFF0000 16 (0, bits)))))).1.

Definition bottom_bit (bits : Z) : Z :=
  if bits =? 0 then -1 else
  (bit_step 0x55555555 (-1) (bit_step 0x33333333 (-2) (bit_step 0x0F0F0F0F (-4)
    (bit_step 0x00FF00FF (-8) (bit_step 0x0000FFFF (-16) (32, bits)))))).1.

(** ** The codecs *)

(** Conversions to [unsigned int], [uint8_t] and [int16_t]. *)
Definition as_u32 (z : Z) : Z := z mod 2 ^ 32.
Definition as_u8 (z : Z) : Z := z mod 2 ^ 8.
Definition as_i16 (z : Z) : Z := (z + 2 ^ 15) mod 2 ^ 16 - 2 ^ 15.

Definition ULAW_BIAS : Z := 0x84.
Definition ALAW_AMI_MASK : Z := 0x55.

Definition linear_to_ulaw (linear : Z) : outcome Z :=
  '(linear, mask) ←
    (if linear <? 0 then
       x ← i32_ret (ULAW_BIAS - linear); x ← i32_ret (x - 1); Ret (x, 0x7F)
     else x ← i32_ret (ULAW_BIAS + linear); Ret (x, 0xFF));
  let seg := top_bit (as_u32 (Z.lor linear 0xFF)) - 7 in
  if 8 <=? seg then Ret (as_u8 (Z.lxor 0x7F mask))
  else Ret (as_u8 (Z.lxor (Z.lor (Z.shiftl seg 4)
                             (Z.land (Z.shiftr linear (seg + 3)) 0xF)) mask)).

Definition ulaw_to_linear (ulaw : Z) : Z :=
  let ulaw := as_u8 (Z.lnot ulaw) in
  let t := Z.shiftl (Z.shiftl (Z.land ulaw 0x0F) 3 + ULAW_BIAS)
             (Z.shiftr (Z.land ulaw 0x70) 4) in
  as_i16 (if negb (Z.land ulaw 0x80 =? 0) then ULAW_BIAS - t else t - ULAW_BIAS).

Definition linear_to_alaw (linear : Z) : outcome Z :=
  '(linear, mask) ←
    (if 0 <=? linear then Ret (linear, Z.lor ALAW_AMI_MASK 0x80)
     else x ← i32_ret (- linear); x ← i32_ret (x - 1); Ret (x, ALAW_AMI_MASK));
  let seg := top_bit (as_u32 (Z.lor linear 0xFF)) - 7 in
  if 8 <=? seg then
    if 0 <=? linear then Ret (as_u8 (Z.lxor 0x7F mask))
    else Ret (as_u8 (Z.lxor 0x00 mask))
  else
    Ret (as_u8 (Z.lxor (Z.lor (Z.shiftl seg 4)
           (Z.land (Z.shiftr linear (if negb (seg =? 0) then seg + 3 else 4)) 0x0F))
           mask)).

Definition alaw_to_linear (alaw : Z) : Z :=
  let alaw := Z.lxor alaw ALAW_AMI_MASK in
  let i := Z.shiftl (Z.land alaw 0x0F) 4 in
  let seg := Z.shiftr (Z.land alaw 0x70) 4 in
  let i := if negb (seg =? 0) then Z.shiftl (i + 0x108) (seg - 1) else i + 8 in
  as_i16 (if negb (Z.land alaw 0x80 =? 0) then i else - i).

(** ** The searches *)

Lemma land_mask_bits m i n c :
  0 ≤ i → 0 ≤ n → 0 ≤ c < 2 ^ n →
  Z.land (c * 2 ^ i) m = Z.land c (Z.shiftr m i mod 2 ^ n) * 2 ^ i.
Proof.
  intros Hi Hn Hc. apply Z.bits_inj'. intros j Hj.
  rewrite Z.land_spec, !Z.mul_pow2_bits by lia.
  destruct (Z.ltb_spec j i) as [Hji|Hji].
  { by rewrite !(Z.testbit_neg_r _ (j - i)) by lia. }
  rewrite Z.land_spec. destruct (Z.ltb_spec (j - i) n) as [Hjn|Hjn].
  - rewrite Z.mod_pow2_bits_low, Z.shiftr_spec by lia. do 2 f_equal. lia.
  - rewrite <- (Z.mod_small c (2 ^ n)) by done.
    by rewrite !Z.mod_pow2_bits_high by lia.
Qed.

(** The upper half of a word of [2 * k] bits. *)
Lemma land_upper k c :
  0 ≤ k → 0 ≤ c < 2 ^ (2 * k) →
  Z.land c (2 ^ (2 * k) - 2 ^ k) = c / 2 ^ k * 2 ^ k.
Proof.
  intros Hk Hc.
  replace (2 ^ (2 * k) - 2 ^ k) with (Z.ones k * 2 ^ k).
  2: { rewrite Z.ones_equiv, <- Z.sub_1_r. rewrite Z.mul_sub_distr_r, <- Z.pow_add_r by lia.
       f_equal; [f_equal; lia|lia]. }
  apply Z.bits_inj'. intros j Hj.
  rewrite Z.land_spec, !Z.mul_pow2_bits by lia.
  destruct (Z.ltb_spec j k).
  { by rewrite !(Z.testbit_neg_r _ (j - k)), andb_false_r by lia. }
  rewrite Z.div_pow2_bits by lia. replace (j - k + k) with j by lia.
  destruct (Z.ltb_spec j (2 * k)).
  - by rewrite Z.ones_spec_low, andb_true_r by lia.
  - rewrite <- (Z.mod_small c (2 ^ (2 * k))) by done.
    by rewrite Z.mod_pow2_bits_high by lia.
Qed.

Lemma land_lower k c : 0 ≤ k → Z.land c (2 ^ k - 1) = c mod 2 ^ k.
Proof. intros. by rewrite <- Z.land_ones, Z.ones_equiv, Z.sub_1_r by done. Qed.

(** A step of [top_bit]: of the [2 * k] bits [c] from [i] on it keeps the upper
    half if there is a bit in it. *)
Lemma upper_step m k i c :
  0 < k → 0 ≤ i → 0 < c < 2 ^ (2 * k) →
  Z.shiftr m i mod 2 ^ (2 * k) = 2 ^ (2 * k) - 2 ^ k →
  ∃ j c', bit_step m k (i, c * 2 ^ i) = (i + j, c' * 2 ^ (i + j))
    ∧ 0 < c' < 2 ^ k ∧ (j = 0 ∨ j = k) ∧ j + Z.log2 c' = Z.log2 c.
Proof.
  intros Hk Hi Hc Hm. unfold bit_step.
  rewrite (land_mask_bits m i (2 * k) c), Hm, land_upper by lia.
  assert (2 ^ (2 * k) = 2 ^ k * 2 ^ k) as Hpow.
  { rewrite <- Z.pow_add_r by lia. f_equal. lia. }
  assert (0 < 2 ^ k) by lia. assert (0 < 2 ^ i) by lia.
  destruct (Z.eqb_spec (c / 2 ^ k * 2 ^ k * 2 ^ i) 0) as [E|E].
  - exists 0, c. assert (c / 2 ^ k = 0) as E0 by nia.
    apply Z.div_small_iff in E0; [|lia].
    rewrite Z.add_0_r. split_and!; [done|lia|lia|by left|lia].
  - exists k, (c / 2 ^ k).
    assert (0 < c / 2 ^ k) as Hpos.
    { pose proof (Z.div_pos c (2 ^ k)). nia. }
    split_and!; [f_equal; rewrite Z.pow_add_r by lia; lia|done| |by right|].
    + apply Z.div_lt_upper_bound; lia.
    + rewrite <- Z.shiftr_div_pow2, Z.log2_shiftr by lia.
      assert (k ≤ Z.log2 c); [|lia]. apply Z.log2_le_pow2; [lia|].
      destruct (Z.le_gt_cases (2 ^ k) c) as [|Hlt]; [done|].
      rewrite Z.div_small in Hpos by lia. lia.
Qed.

(** A step of [bottom_bit]: of the [2 * k] bits [c] from [p] on it keeps the
    lower half if there is a bit in it. *)
Lemma lower_step m k' i k p c bits :
  k' = - k → i = p + 2 * k → 0 < k → 0 ≤ p → 0 < c < 2 ^ (2 * k) →
  Z.shiftr m p mod 2 ^ (2 * k) = 2 ^ k - 1 →
  (∃ q, bits = (c + 2 ^ (2 * k) * q) * 2 ^ p) →
  ∃ j c', bit_step m k' (i, c * 2 ^ p) = (p + j + k, c' * 2 ^ (p + j))
    ∧ 0 < c' < 2 ^ k ∧ (j = 0 ∨ j = k)
    ∧ ∃ q, bits = (c' + 2 ^ k * q) * 2 ^ (p + j).
Proof.
  intros -> -> Hk Hp Hc Hm [q Hq]. unfold bit_step.
  rewrite (land_mask_bits m p (2 * k) c), Hm, land_lower by lia.
  assert (2 ^ (2 * k) = 2 ^ k * 2 ^ k) as Hpow.
  { rewrite <- Z.pow_add_r by lia. f_equal. lia. }
  assert (0 < 2 ^ k) by lia. assert (0 < 2 ^ p) by lia.
  pose proof (Z.mod_pos_bound c (2 ^ k)). pose proof (Z.div_mod c (2 ^ k)).
  destruct (Z.eqb_spec (c mod 2 ^ k * 2 ^ p) 0) as [E|E].
  - assert (c mod 2 ^ k = 0) as E0 by nia. exists k, (c / 2 ^ k).
    rewrite Z.pow_add_r by lia.
    split_and!; [f_equal; [lia|nia]|nia|apply Z.div_lt_upper_bound; lia|by right|].
    exists q. rewrite Hq, Hpow. nia.
  - exists 0, (c mod 2 ^ k). rewrite Z.add_0_r.
    split_and!; [f_equal; lia|nia|lia|by left|].
    exists (c / 2 ^ k + 2 ^ k * q). rewrite Hq, Hpow. nia.
Qed.

Lemma bit_searches_aux bits :
  0 < bits < 2 ^ 32 →
  top_bit bits = Z.log2 bits
  ∧ ∃ q, bits = (1 + 2 * q) * 2 ^ (bottom_bit bits - 1).
Proof.
  intros Hb. split.
  - unfold top_bit. rewrite (proj2 (Z.eqb_neq _ _)) by lia.
    replace bits with (bits * 2 ^ 0) at 1 by lia.
    destruct (upper_step 0xFFFF0000 16 0 bits) as (j1 & c1 & -> & H1 & D1 & L1); [lia..|done|].
    destruct (upper_step 0xFF00FF00 8 (0 + j1) c1) as (j2 & c2 & -> & H2 & D2 & L2);
      [lia..|by destruct D1 as [->| ->]|].
    destruct (upper_step 0xF0F0F0F0 4 (0 + j1 + j2) c2) as (j3 & c3 & -> & H3 & D3 & L3);
      [lia..|by destruct D1 as [->| ->], D2 as [->| ->]|].
    destruct (upper_step 0xCCCCCCCC 2 (0 + j1 + j2 + j3) c3) as (j4 & c4 & -> & H4 & D4 & L4);
      [lia..|by destruct D1 as [->| ->], D2 as [->| ->], D3 as [->| ->]|].
    destruct (upper_step 0xAAAAAAAA 1 (0 + j1 + j2 + j3 + j4) c4)
      as (j5 & c5 & -> & H5 & D5 & L5);
      [lia..|by destruct D1 as [->| ->], D2 as [->| ->], D3 as [->| ->], D4 as [->| ->]|].
    cbn [fst]. assert (c5 = 1) as -> by lia. cbn in L5. lia.
  - unfold bottom_bit. rewrite (proj2 (Z.eqb_neq _ _)) by lia.
    assert (∃ q, bits = (bits + 2 ^ (2 * 16) * q) * 2 ^ 0) as Q0 by (exists 0; lia).
    replace (32, bits) with (32, bits * 2 ^ 0) by (f_equal; lia).
    destruct (lower_step 0x0000FFFF (-16) 32 16 0 bits bits)
      as (j1 & c1 & -> & H1 & D1 & Q1); [lia..|done|done|].
    destruct (lower_step 0x00FF00FF (-8) (0 + j1 + 16) 8 (0 + j1) c1 bits)
      as (j2 & c2 & -> & H2 & D2 & Q2); [lia..|by destruct D1 as [->| ->]|done|].
    destruct (lower_step 0x0F0F0F0F (-4) (0 + j1 + j2 + 8) 4 (0 + j1 + j2) c2 bits)
      as (j3 & c3 & -> & H3 & D3 & Q3);
      [lia..|by destruct D1 as [->| ->], D2 as [->| ->]|done|].
    destruct (lower_step 0x33333333 (-2) (0 + j1 + j2 + j3 + 4) 2 (0 + j1 + j2 + j3) c3 bits)
      as (j4 & c4 & -> & H4 & D4 & Q4);
      [lia..|by destruct D1 as [->| ->], D2 as [->| ->], D3 as [->| ->]|done|].
    destruct (lower_step 0x55555555 (-1) (0 + j1 + j2 + j3 + j4 + 2) 1
        (0 + j1 + j2 + j3 + j4) c4 bits) as (j5 & c5 & -> & H5 & D5 & q & Hq);
      [lia..|by destruct D1 as [->| ->], D2 as [->| ->], D3 as [->| ->], D4 as [->| ->]
      |done|].
    cbn [fst]. assert (c5 = 1) as -> by lia. exists q. rewrite Hq.
    do 2 f_equal; lia.
Qed.

(** ** The codecs *)

(** A property of the numbers below [n], checked on each. *)
Lemma below_check n (f : Z → bool) :
  forallb f (seqZ 0 n) = true → ∀ i, 0 ≤ i < n → f i = true.
Proof.
  rewrite forallb_forall. intros Hf i Hi. apply Hf.
  apply list_elem_of_In, elem_of_seqZ. lia.
Qed.

Lemma below_check2 n m (f : Z → Z → bool) :
  forallb (λ i, forallb (f i) (seqZ 0 m)) (seqZ 0 n) = true →
  ∀ i j, 0 ≤ i < n → 0 ≤ j < m → f i j = true.
Proof.
  intros Hf i j Hi Hj. apply (below_check m); [|done].
  by apply (below_check n (λ i, forallb (f i) (seqZ 0 m))).
Qed.

(** The code for segment [seg] and quantum [q]. *)
Definition code seg q mask : Z := as_u8 (Z.lxor (Z.lor (Z.shiftl seg 4) q) mask).

Lemma code_range seg q mask : 0 ≤ code seg q mask < 256.
Proof. by apply Z.mod_pos_bound. Qed.

Lemma ulaw_code seg q :
  0 ≤ seg < 8 → 0 ≤ q < 16 →
  0 ≤ code seg q 0xFF < 256 ∧ 0 ≤ code seg q 0x7F < 256
  ∧ ulaw_to_linear (code seg q 0xFF) = (8 * q + 132) * 2 ^ seg - 132
  ∧ ulaw_to_linear (code seg q 0x7F) = 132 - (8 * q + 132) * 2 ^ seg.
Proof.
  intros Hs Hq.
  pose proof (below_check2 8 16 (λ seg q,
    (ulaw_to_linear (code seg q 0xFF) =? (8 * q + 132) * 2 ^ seg - 132)
    && (ulaw_to_linear (code seg q 0x7F) =? 132 - (8 * q + 132) * 2 ^ seg))
    ltac:(vm_compute; reflexivity) seg q Hs Hq) as E.
  apply andb_true_iff in E as [E1 E2]. rewrite Z.eqb_eq in E1, E2.
  split_and!; (done || apply code_range).
Qed.

Lemma alaw_code seg q :
  0 ≤ seg < 8 → 0 ≤ q < 16 →
  let t := if seg =? 0 then 16 * q + 8 else (16 * q + 264) * 2 ^ (seg - 1) in
  0 ≤ code seg q 0xD5 < 256 ∧ 0 ≤ code seg q 0x55 < 256
  ∧ alaw_to_linear (code seg q 0xD5) = t ∧ alaw_to_linear (code seg q 0x55) = - t.
Proof.
  intros Hs Hq t.
  pose proof (below_check2 8 16 (λ seg q,
    let t := if seg =? 0 then 16 * q + 8 else (16 * q + 264) * 2 ^ (seg - 1) in
    (alaw_to_linear (code seg q 0xD5) =? t) && (alaw_to_linear (code seg q 0x55) =? - t))
    ltac:(vm_compute; reflexivity) seg q Hs Hq) as E.
  apply andb_true_iff in E as [E1 E2]. rewrite Z.eqb_eq in E1, E2.
  split_and!; (done || apply code_range).
Qed.

(** The segment of a magnitude. *)
Lemma segment x :
  0 ≤ x < 2 ^ 31 → top_bit (as_u32 (Z.lor x 0xFF)) - 7 = Z.max 0 (Z.log2 x - 7).
Proof.
  intros Hx. assert (Z.log2 (Z.lor x 0xFF) = Z.max (Z.log2 x) 7) as Hl
    by (apply Z.log2_lor; lia).
  assert (0 < Z.lor x 0xFF) as Hpos.
  { assert (0 ≤ Z.lor x 0xFF) by (apply Z.lor_nonneg; lia).
    destruct (Z.eq_dec (Z.lor x 0xFF) 0) as [E|]; [|lia].
    apply Z.lor_eq_0_iff in E. lia. }
  assert (Z.log2 x < 31).
  { destruct (Z.eq_dec x 0) as [->|]; [done|]. apply Z.log2_lt_pow2; lia. }
  assert (Z.lor x 0xFF < 2 ^ 31) by (apply Z.log2_lt_pow2; lia).
  unfold as_u32. rewrite Z.mod_small by lia.
  destruct (bit_searches_aux (Z.lor x 0xFF)) as [-> _]; lia.
Qed.

(** A magnitude in a segment lies in the interval of its quantum. *)
Lemma quantum x seg :
  0 ≤ seg → 2 ^ (seg + 7) ≤ x < 2 ^ (seg + 8) →
  ∃ q, Z.land (Z.shiftr x (seg + 3)) 0xF = q ∧ 0 ≤ q < 16
    ∧ (q + 16) * (8 * 2 ^ seg) ≤ x < (q + 17) * (8 * 2 ^ seg).
Proof.
  intros Hs. rewrite !Z.pow_add_r by lia. intros Hx.
  rewrite Z.shiftr_div_pow2, Z.pow_add_r by lia.
  change 0xF with (2 ^ 4 - 1). rewrite land_lower by done.
  set (d := 2 ^ seg * 2 ^ 3). assert (0 < 2 ^ seg) by lia.
  pose proof (Z.div_mod x d). pose proof (Z.mod_pos_bound x d).
  assert (16 ≤ x / d < 32) as Hq.
  { split; [apply Z.div_le_lower_bound|apply Z.div_lt_upper_bound]; subst d; lia. }
  exists (x / d - 16). rewrite <- (Z.mod_unique (x / d) (2 ^ 4) 1 (x / d - 16)) by lia.
  subst d. split_and!; nia.
Qed.

(** The segment [seg] of a magnitude of fewer than 16 bits. *)
Lemma magnitude x :
  2 ^ 7 ≤ x < 2 ^ 15 → ∃ seg q,
    top_bit (as_u32 (Z.lor x 0xFF)) - 7 = seg ∧ 0 ≤ seg < 8
    ∧ Z.land (Z.shiftr x (seg + 3)) 0xF = q ∧ 0 ≤ q < 16
    ∧ (q + 16) * (8 * 2 ^ seg) ≤ x < (q + 17) * (8 * 2 ^ seg) ∧ 0 < 2 ^ seg.
Proof.
  intros Hx. rewrite segment by lia.
  assert (7 ≤ Z.log2 x) by (apply Z.log2_le_pow2; lia).
  assert (Z.log2 x < 15) by (apply Z.log2_lt_pow2; lia).
  pose proof (Z.log2_spec x ltac:(lia)) as Hl. set (seg := Z.log2 x - 7).
  assert (2 ^ (seg + 7) ≤ x < 2 ^ (seg + 8)) as Hseg.
  { subst seg. replace (Z.log2 x - 7 + 7) with (Z.log2 x) by lia.
    replace (Z.log2 x - 7 + 8) with (Z.succ (Z.log2 x)) by lia. lia. }
  destruct (quantum x seg ltac:(lia) Hseg) as (q & Hq & Hq16 & Hint).
  exists seg, q. split_and!; (done || lia).
Qed.

Lemma ulaw_saturated :
  ulaw_to_linear (as_u8 (Z.lxor 0x7F 0x7F)) = -32124
  ∧ ulaw_to_linear (as_u8 (Z.lxor 0x7F 0xFF)) = 32124.
Proof. done. Qed.

Lemma linear_to_ulaw_near x :
  - 2 ^ 15 ≤ x < 2 ^ 15 →
  wp (linear_to_ulaw x) (λ c,
    0 ≤ c < 256 ∧ 32 * Z.abs (ulaw_to_linear c - x) ≤ Z.abs x + 132).
Proof.
  intros Hx. unfold linear_to_ulaw.
  unfold ULAW_BIAS.
  destruct ulaw_saturated as [Esn Esp]. destruct (Z.ltb_spec x 0) as [Hneg|Hpos];
    (rewrite i32_ret_ok by (unfold_i32; lia)); cbn [mbind outcome_bind].
  - rewrite i32_ret_ok by (unfold_i32; lia). cbn [mbind outcome_bind].
    destruct (Z.le_gt_cases (2 ^ 15) (132 - x - 1)) as [Hbig|Hsmall].
    + rewrite segment by lia.
      assert (15 ≤ Z.log2 (132 - x - 1)) by (apply Z.log2_le_pow2; lia).
      rewrite (proj2 (Z.leb_le _ _)) by lia. cbn [wp]. rewrite Esn.
      split; [by apply Z.mod_pos_bound|lia].
    + destruct (magnitude (132 - x - 1)) as (seg & q & -> & Hs & -> & Hq & Hint & Hp); [lia|].
      rewrite (proj2 (Z.leb_gt _ _)) by lia. cbn [wp]. fold (code seg q 0x7F).
      destruct (ulaw_code seg q Hs Hq) as (_ & ? & _ & ->). split; [done|]. lia.
  - destruct (Z.le_gt_cases (2 ^ 15) (132 + x)) as [Hbig|Hsmall].
    + rewrite segment by lia.
      assert (15 ≤ Z.log2 (132 + x)) by (apply Z.log2_le_pow2; lia).
      rewrite (proj2 (Z.leb_le _ _)) by lia. cbn [wp]. rewrite Esp.
      split; [by apply Z.mod_pos_bound|lia].
    + destruct (magnitude (132 + x)) as (seg & q & -> & Hs & -> & Hq & Hint & Hp); [lia|].
      rewrite (proj2 (Z.leb_gt _ _)) by lia. cbn [wp]. fold (code seg q 0xFF).
      destruct (ulaw_code seg q Hs Hq) as (? & _ & -> & _). split; [done|]. lia.
Qed.

(** The A-law code of a magnitude, up to the sign. *)
Lemma alaw_magnitude m :
  0 ≤ m < 2 ^ 15 → ∃ seg q t,
    top_bit (as_u32 (Z.lor m 0xFF)) - 7 = seg ∧ 0 ≤ seg < 8
    ∧ Z.land (Z.shiftr m (if negb (seg =? 0) then seg + 3 else 4)) 0x0F = q
    ∧ 0 ≤ q < 16
    ∧ t = (if seg =? 0 then 16 * q + 8 else (16 * q + 264) * 2 ^ (seg - 1))
    ∧ 32 * Z.abs (t - m) ≤ Z.max 256 m ∧ 32 * Z.abs (t - (m + 1)) ≤ Z.max 256 (m + 1).
Proof.
  intros Hm. destruct (Z.lt_ge_cases m 256) as [Hlt|Hge].
  - exists 0, (m / 16), (16 * (m / 16) + 8).
    assert (Z.log2 m < 8).
    { destruct (Z.eq_dec m 0) as [->|]; [done|]. apply Z.log2_lt_pow2; lia. }
    rewrite segment by lia. cbn [Z.eqb negb].
    rewrite Z.shiftr_div_pow2 by done. change 0x0F with (2 ^ 4 - 1).
    rewrite land_lower by done. change (2 ^ 4) with 16.
    pose proof (Z.div_mod m 16). pose proof (Z.mod_pos_bound m 16).
    rewrite Z.mod_small by lia. split_and!; (done || lia).
  - destruct (magnitude m) as (seg & q & Hseg & Hs & Hq' & Hq & Hint & Hp); [lia|].
    assert (seg ≠ 0) as Hs0.
    { intros ->. cbn in Hint. lia. }
    exists seg, q, ((16 * q + 264) * 2 ^ (seg - 1)).
    rewrite (proj2 (Z.eqb_neq _ _)) by done. cbn [negb].
    replace (2 ^ seg) with (2 * 2 ^ (seg - 1)) in *
      by (rewrite <- Z.pow_succ_r by lia; f_equal; lia).
    split_and!; (done || lia).
Qed.

Lemma linear_to_alaw_near x :
  - 2 ^ 15 ≤ x < 2 ^ 15 →
  wp (linear_to_alaw x) (λ c,
    0 ≤ c < 256 ∧ 32 * Z.abs (alaw_to_linear c - x) ≤ Z.max 256 (Z.abs x)).
Proof.
  intros Hx. unfold linear_to_alaw.
  change (Z.lor ALAW_AMI_MASK 0x80) with 0xD5. change ALAW_AMI_MASK with 0x55.
  destruct (Z.leb_spec 0 x) as [Hpos|Hneg].
  - cbn [mbind outcome_bind].
    destruct (alaw_magnitude x) as (seg & q & t & -> & Hs & -> & Hq & -> & Ht & _); [lia|].
    rewrite (proj2 (Z.leb_gt _ _)) by lia. cbn [wp]. fold (code seg q 0xD5).
    destruct (alaw_code seg q Hs Hq) as (? & _ & -> & _). split; [done|]. lia.
  - rewrite i32_ret_ok by (unfold_i32; lia). cbn [mbind outcome_bind].
    rewrite i32_ret_ok by (unfold_i32; lia). cbn [mbind outcome_bind].
    destruct (alaw_magnitude (- x - 1)) as (seg & q & t & -> & Hs & -> & Hq & -> & _ & Ht); [lia|].
    rewrite (proj2 (Z.leb_gt _ _)) by lia. cbn [wp]. fold (code seg q 0x55).
    destruct (alaw_code seg q Hs Hq) as (_ & ? & _ & ->). split; [done|]. lia.
Qed.

Lemma ulaw_roundtrip c :
  0 ≤ c < 256 → linear_to_ulaw (ulaw_to_linear c) = Ret (if c =? 0x7F then 0xFF else c).
Proof.
  intros Hc. eapply bool_decide_eq_true_1. revert c Hc. apply (below_check 256 (λ c, bool_decide
    (linear_to_ulaw (ulaw_to_linear c) = Ret (if c =? 0x7F then 0xFF else c)))).
  vm_compute. reflexivity.
Qed.

Lemma alaw_roundtrip c :
  0 ≤ c < 256 → linear_to_alaw (alaw_to_linear c) = Ret c.
Proof.
  intros Hc. eapply bool_decide_eq_true_1. revert c Hc.
  apply (below_check 256 (λ c, bool_decide (linear_to_alaw (alaw_to_linear c) = Ret c))).
  vm_compute. reflexivity.
Qed.

(** ** Properties *)

(** C38: The two codecs compress 16-bit samples with a relative error of 1/32:
    the encoder never overflows, its code fits a byte and decodes to a value
    within a 32nd of the sample, plus 132/32 for u-law and with at least 8 for
    A-law; and every code that is decoded and encoded again comes back, except
    that the u-law code of minus zero becomes that of zero. *)
Theorem companding x c :
  - 2 ^ 15 ≤ x < 2 ^ 15 → 0 ≤ c < 256 →
  wp (linear_to_ulaw x) (λ c,
    0 ≤ c < 256 ∧ 32 * Z.abs (ulaw_to_linear c - x) ≤ Z.abs x + 132)
  ∧ wp (linear_to_alaw x) (λ c,
    0 ≤ c < 256 ∧ 32 * Z.abs (alaw_to_linear c - x) ≤ Z.max 256 (Z.abs x))
  ∧ linear_to_ulaw (ulaw_to_linear c) = Ret (if c =? 0x7F then 0xFF else c)
  ∧ linear_to_alaw (alaw_to_linear c) = Ret c.
Proof.
  intros Hx Hc. split_and!; [by apply linear_to_ulaw_near|by apply linear_to_alaw_near
    |by apply ulaw_roundtrip|by apply alaw_roundtrip].
Qed.

Lemma companding_witness :
  wp (linear_to_ulaw (-1000)) (λ c,
    0 ≤ c < 256 ∧ 32 * Z.abs (ulaw_to_linear c - -1000) ≤ Z.abs (-1000) + 132)
  ∧ wp (linear_to_alaw (-1000)) (λ c,
    0 ≤ c < 256 ∧ 32 * Z.abs (alaw_to_linear c - -1000) ≤ Z.max 256 (Z.abs (-1000)))
  ∧ linear_to_ulaw (ulaw_to_linear 0x7F) = Ret (if 0x7F =? 0x7F then 0xFF else 0x7F)
  ∧ linear_to_alaw (alaw_to_linear 0x7F) = Ret 0x7F.
Proof. apply companding; lia. Defined.

(** The bit searches of the G.711 header: [top_bit] is the position of the
    highest set bit, and [bottom_bit], documented to be the position of the
    lowest one, is one more than it. *)
Theorem bit_searches bits :
  0 < bits < 2 ^ 32 →
  top_bit bits = Z.log2 bits
  ∧ ∃ q, bits = (1 + 2 * q) * 2 ^ (bottom_bit bits - 1).
Proof. apply bit_searches_aux. Qed.

Lemma bit_searches_witness :
  top_bit 0x1400 = Z.log2 0x1400
  ∧ ∃ q, 0x1400 = (1 + 2 * q) * 2 ^ (bottom_bit 0x1400 - 1).
Proof. apply bit_searches. lia. Defined.

Example bottom_bit_of_one : bottom_bit 1 = 1 ∧ top_bit 1 = 0.
Proof. done. Qed.
