(* ===== verification/RefCount.v ===== *)
(** Reference counting (libs/webrtc/include/rtc_base/atomicops.h, refcounter.h,
    refcount.h, refcountedobject.h, scoped_ref_ptr.h, api/refcountedbase.h):
    the mixer holds the WebRTC mixer by an [rtc::scoped_refptr].

    Threads share the objects; each thread has its own scoped_refptr variables.
    The accesses to a counter are atomic, so an execution interleaves them: a
    member function is cut into the steps that touch an object, and between two
    of them any other thread may take steps. *)

From stdpp Require Import gmap.
From S2P Require Import Prelude.

(** ** Counters and objects *)

Notation loc := positive.

(** The objects that exist, with their [ref_count_]. *)
Notation objects := (gmap loc Z).

(** [AtomicOps]: the compiler's builtins wrap around. *)
Definition AtomicIncrement (i : Z) : Z := as_i32 (i + 1).
Definition AtomicDecrement (i : Z) : Z := as_i32 (i - 1).

Inductive RefCountReleaseStatus : Set := kDroppedLastRef | kOtherRefsRemained.

(** [RefCounter] *)
Definition IncRef (ref_count : Z) : Z := AtomicIncrement ref_count.
Definition DecRef (ref_count : Z) : RefCountReleaseStatus * Z :=
  let ref_count := AtomicDecrement ref_count in
  (if ref_count =? 0 then kDroppedLastRef else kOtherRefsRemained, ref_count).
Definition HasOneRef (ref_count : Z) : bool := ref_count =? 1.

(** An access to an object that does not exist is undefined. *)
Definition ref_count_of (h : objects) (l : loc) : outcome Z :=
  match h !! l with Some n => Ret n | None => Undef DanglingPointer end.

Definition AddRef (h : objects) (l : loc) : outcome objects :=
  n ← ref_count_of h l; Ret (<[l := IncRef n]> h).

(** [Release], up to [delete this] and that. *)
Definition release_count (h : objects) (l : loc)
    : outcome (RefCountReleaseStatus * objects) :=
  n ← ref_count_of h l;
  let '(status, n) := DecRef n in Ret (status, <[l := n]> h).
Definition delete_this (h : objects) (l : loc) : outcome objects :=
  _ ← ref_count_of h l; Ret (delete l h).
Definition Release (h : objects) (l : loc)
    : outcome (RefCountReleaseStatus * objects) :=
  '(status, h) ← release_count h l;
  match status with
  | kDroppedLastRef => h ← delete_this h l; Ret (status, h)
  | kOtherRefsRemained => Ret (status, h)
  end.

(** [if (p) p->AddRef();] and [if (p) p->Release();] *)
Definition add_ref_if (h : objects) (p : option loc) : outcome objects :=
  match p with Some l => AddRef h l | None => Ret h end.
Definition release_if (h : objects) (p : option loc) : outcome objects :=
  match p with Some l => '(_, h) ← Release h l; Ret h | None => Ret h end.

(** ** scoped_refptr: the value of [ptr_] before and after each member *)

Definition refptr_new (h : objects) (p : option loc) : outcome (objects * option loc) :=
  h ← add_ref_if h p; Ret (h, p).
Definition refptr_copy (h : objects) (r : option loc) : outcome (objects * option loc) :=
  h ← add_ref_if h r; Ret (h, r).
(** The new pointer, and what is left of the old one. *)
Definition refptr_release (ptr : option loc) : option loc * option loc := (ptr, None).
Definition refptr_move (r : option loc) : option loc * option loc := refptr_release r.
Definition refptr_delete (h : objects) (ptr : option loc) : outcome objects :=
  release_if h ptr.
Definition refptr_assign (h : objects) (ptr p : option loc)
    : outcome (objects * option loc) :=
  h ← add_ref_if h p; h ← release_if h ptr; Ret (h, p).
Definition refptr_swap (p q : option loc) : option loc * option loc := (q, p).
(** [operator=(scoped_refptr&&)]: the temporary takes the pointer of [r], is
    swapped with this one and destroyed. *)
Definition refptr_assign_move (h : objects) (ptr r : option loc)
    : outcome (objects * option loc * option loc) :=
  let '(tmp, r) := refptr_move r in
  let '(tmp, ptr) := refptr_swap tmp ptr in
  h ← refptr_delete h tmp; Ret (h, ptr, r).

(** ** Threads *)

(** Where a thread is inside of a member function. *)
Inductive pending : Type :=
| Idle
| Taking (x : nat) (from : option nat)  (* ptr_ of x is set, AddRef to come *)
| Assigning (x : nat) (p : option loc)  (* p has its reference, ptr_ of x not *)
| Storing (x : nat) (p : option loc)    (* ptr_ of x is released, to become p *)
| Dropping (l : loc)                    (* the destructor of a temporary *)
| Deleting (l : loc) (next : option (nat * option loc)).

(** A variable that holds no pointer is a null one, or one not constructed. *)
Record thread : Type := MkThread {
  vars : list (option loc);
  at_ : pending
}.

(** The statements a thread can execute, and [Continue]: the next step of the
    one it is in. *)
Inductive statement : Type :=
| Make (x : nat) (l : loc)      (* scoped_refptr<T> x(new T), at address l *)
| Copy (x y : nat)              (* scoped_refptr<T> x(y) *)
| Move (x y : nat)              (* scoped_refptr<T> x(std::move(y)) *)
| Assign (x y : nat)            (* x = y *)
| Reset (x : nat)               (* x = nullptr *)
| AssignMove (x y : nat)        (* x = std::move(y) *)
| Destroy (x : nat)             (* the end of the scope of x *)
| Use (x : nat)                 (* x-> *)
| Continue.

Definition var (t : thread) (x : nat) : option loc := default None (vars t !! x).
Definition set_var (t : thread) (x : nat) (p : option loc) (a : pending) : thread :=
  MkThread (<[x := p]> (vars t)) a.
Definition goto (t : thread) (a : pending) : thread := MkThread (vars t) a.

(** A statement can start: its variables exist, those it constructs hold
    nothing, a new object has an address of its own. *)
Definition enabled (h : objects) (t : thread) (s : statement) : Prop :=
  match s, at_ t with
  | Continue, Idle => False
  | Continue, _ => True
  | Make x l, Idle => vars t !! x = Some None ∧ h !! l = None
  | Copy x y, Idle | Move x y, Idle =>
      vars t !! x = Some None ∧ is_Some (vars t !! y) ∧ x ≠ y
  | Assign x y, Idle | AssignMove x y, Idle =>
      is_Some (vars t !! x) ∧ is_Some (vars t !! y)
  | Reset x, Idle | Destroy x, Idle => is_Some (vars t !! x)
  | Use x, Idle => ∃ l, vars t !! x = Some (Some l)
  | _, _ => False
  end.

(** The step after a reference of [l] is given up. *)
Definition after_release (h : objects) (l : loc) (t : thread)
    (next : option (nat * option loc)) : outcome (objects * thread) :=
  '(status, h) ← release_count h l;
  Ret (h, goto t
    match status with
    | kDroppedLastRef => Deleting l next
    | kOtherRefsRemained =>
        match next with Some (x, p) => Storing x p | None => Idle end
    end).

(** One step of a thread. *)
Definition thread_step (h : objects) (t : thread) (s : statement)
    : outcome (objects * thread) :=
  match s with
  | Make x l => Ret (<[l := 0]> h, set_var t x (Some l) (Taking x None))
  | Copy x y =>
      match var t y with
      | Some l => Ret (h, set_var t x (Some l) (Taking x (Some y)))
      | None => Ret (h, t)
      end
  | Move x y =>
      let '(p, q) := refptr_move (var t y) in
      Ret (h, set_var (set_var t y q Idle) x p Idle)
  | Assign x y =>
      h ← add_ref_if h (var t y); Ret (h, goto t (Assigning x (var t y)))
  | Reset x => Ret (h, goto t (Assigning x None))
  | AssignMove x y =>
      let '(tmp, q) := refptr_move (var t y) in
      let t := set_var t y q Idle in
      let '(tmp, p) := refptr_swap tmp (var t x) in
      let t := set_var t x p Idle in
      Ret (h, goto t match tmp with Some l => Dropping l | None => Idle end)
  | Destroy x =>
      Ret (h, set_var t x None
                match var t x with Some l => Dropping l | None => Idle end)
  | Use x =>
      match var t x with
      | Some l => _ ← ref_count_of h l; Ret (h, t)
      | None => Undef NullPointer
      end
  | Continue =>
      match at_ t with
      | Idle => Ret (h, t)
      | Taking x _ => h ← add_ref_if h (var t x); Ret (h, goto t Idle)
      | Assigning x p =>
          match var t x with
          | Some l => after_release h l t (Some (x, p))
          | None => Ret (h, goto t (Storing x p))
          end
      | Storing x p => Ret (h, set_var t x p Idle)
      | Dropping l => after_release h l t None
      | Deleting l next =>
          h ← delete_this h l;
          Ret (h, goto t match next with Some (x, p) => Storing x p | None => Idle end)
      end
  end.

(** ** The whole program *)

Definition config : Type := objects * list thread.

Fixpoint total {A} (f : A → Z) (l : list A) : Z :=
  match l with [] => 0 | x :: l => f x + total f l end.

Definition at_loc (l : loc) (p : option loc) : Z := if decide (p = Some l) then 1 else 0.

(** The references to [l] that a thread has: those of its variables, corrected
    by what the member function it is in has already done. *)
Definition references (l : loc) (t : thread) : Z :=
  total (at_loc l) (vars t)
  + match at_ t with
    | Idle => 0
    | Taking x _ => - at_loc l (var t x)
    | Assigning x p => at_loc l p
    | Storing x p | Deleting _ (Some (x, p)) => at_loc l p - at_loc l (var t x)
    | Dropping l' => at_loc l (Some l')
    | Deleting _ None => 0
    end.

(** Every thread may take a step, or hand a reference of a variable to a
    variable of another thread.  The memory has no room for 2^31 references to
    an object. *)
Inductive prog_step : config → config → Prop :=
| step_thread h ts i t s h' t' :
    ts !! i = Some t → enabled h t s → thread_step h t s = Ret (h', t') →
    (∀ l, total (references l) (<[i := t']> ts) ≤ i32_max) →
    prog_step (h, ts) (h', <[i := t']> ts)
| step_send h ts i j ti tj x y p q :
    ts !! i = Some ti → ts !! j = Some tj → i ≠ j →
    at_ ti = Idle → at_ tj = Idle →
    vars ti !! x = Some p → vars tj !! y = Some None → refptr_move p = (p, q) →
    prog_step (h, ts)
      (h, <[j := set_var tj y p Idle]> (<[i := set_var ti x q Idle]> ts)).

Definition idle (t : thread) : Prop := at_ t = Idle.

(** Threads start without references. *)
Inductive reachable : config → Prop :=
| reach_init ts :
    Forall (λ t, idle t ∧ Forall (.= None) (vars t)) ts → reachable (∅, ts)
| reach_step c c' : reachable c → prog_step c c' → reachable c'.

(** ** Counting *)

Section total.
Context {A : Type} (f : A → Z).
Implicit Types l : list A.

Lemma total_insert l i x y :
  l !! i = Some x → total f (<[i := y]> l) = total f l - f x + f y.
Proof.
  revert i. induction l as [|z l IH]; intros [|i] Hi; simplify_eq/=; [lia|].
  change (f z + total f (<[i := y]> l) = f z + total f l - f x + f y).
  rewrite (IH i Hi). lia.
Qed.

Lemma total_nonneg l : (∀ y, y ∈ l → 0 ≤ f y) → 0 ≤ total f l.
Proof.
  intros Hf. induction l as [|x l IH]; cbn; [lia|].
  pose proof (Hf x ltac:(constructor)). specialize (IH ltac:(intros; apply Hf; by constructor)). lia.
Qed.

Lemma total_ge l i x :
  (∀ y, y ∈ l → 0 ≤ f y) → l !! i = Some x → f x ≤ total f l.
Proof.
  revert i. induction l as [|z l IH]; intros [|i] Hf Hi; simplify_eq/=.
  - pose proof (total_nonneg l ltac:(intros; apply Hf; by constructor)). lia.
  - pose proof (Hf z ltac:(constructor)).
    specialize (IH i ltac:(intros; apply Hf; by constructor) Hi). lia.
Qed.

Lemma total_0 l : (∀ y, y ∈ l → f y = 0) → total f l = 0.
Proof.
  intros Hf. induction l as [|x l IH]; cbn; [done|].
  rewrite (Hf x) by constructor. rewrite IH; [done|]. intros; apply Hf; by constructor.
Qed.
End total.

Lemma at_loc_range l p : 0 ≤ at_loc l p ≤ 1.
Proof. unfold at_loc. case_decide; lia. Qed.

Lemma at_loc_Some l : at_loc l (Some l) = 1.
Proof. unfold at_loc. by rewrite decide_True. Qed.
Lemma at_loc_ne l l' : l' ≠ l → at_loc l (Some l') = 0.
Proof. intros. unfold at_loc. rewrite decide_False by congruence. done. Qed.
Lemma at_loc_None l : at_loc l None = 0.
Proof. unfold at_loc. by rewrite decide_False. Qed.

Lemma var_lookup t x p : vars t !! x = Some p → var t x = p.
Proof. intros Hx. unfold var. by rewrite Hx. Qed.

Lemma held_ge l t x : at_loc l (var t x) ≤ total (at_loc l) (vars t).
Proof.
  unfold var. destruct (vars t !! x) as [p|] eqn:Hx; cbn.
  - by apply (total_ge (at_loc l) _ x); [intros; apply at_loc_range|].
  - rewrite at_loc_None. apply total_nonneg. intros. apply at_loc_range.
Qed.

(** Two variables with one pointer. *)
Lemma held_twice l t x y :
  x ≠ y → at_loc l (var t x) + at_loc l (var t y) ≤ total (at_loc l) (vars t).
Proof.
  intros Hne. destruct (vars t !! x) as [p|] eqn:Hx.
  - pose proof (total_insert (at_loc l) _ _ _ None Hx) as Hi.
    pose proof (held_ge l (MkThread (<[x := None]> (vars t)) Idle) y) as Hg.
    unfold var in *. cbn [vars] in Hg. rewrite list_lookup_insert_ne in Hg by done.
    rewrite Hx. cbn. rewrite at_loc_None in Hi. lia.
  - pose proof (held_ge l t y). unfold var at 1. rewrite Hx. cbn.
    rewrite at_loc_None. lia.
Qed.

(** ** The invariant *)

(** The thread is about to count the first reference of a new object, or to
    delete one that has none. *)
Definition transient (l : loc) (t : thread) : Z :=
  match at_ t with
  | Taking x None => at_loc l (var t x)
  | Deleting l' _ => at_loc l (Some l')
  | _ => 0
  end.

Definition thread_ok (t : thread) : Prop :=
  match at_ t with
  | Idle | Dropping _ | Deleting _ None => True
  | Taking x from => ∃ l, vars t !! x = Some (Some l)
      ∧ match from with Some y => x ≠ y ∧ vars t !! y = Some (Some l) | None => True end
  | Assigning x _ | Storing x _ | Deleting _ (Some (x, _)) => is_Some (vars t !! x)
  end.

(** An object has as many references as its counter says; without any it is
    new or about to be deleted. *)
Definition cell_ok (o : option Z) (refs transients : Z) : Prop :=
  match o with
  | None => refs = 0 ∧ transients = 0
  | Some n => n = refs ∧ 0 ≤ refs ∧ 0 ≤ transients ≤ 1
              ∧ 0 < refs + transients ∧ (transients = 1 → refs = 0)
  end.

Lemma references_nonneg l t : thread_ok t → 0 ≤ references l t.
Proof.
  unfold thread_ok, references. intros Ht.
  pose proof (total_nonneg (at_loc l) (vars t) ltac:(intros; apply at_loc_range)).
  destruct (at_ t) as [|x from|x p|x p|l'|l' [[x p]|]];
    try pose proof (at_loc_range l p); try pose proof (held_ge l t x); try lia.
  pose proof (at_loc_range l (Some l')). lia.
Qed.

Lemma transient_range l t : 0 ≤ transient l t ≤ 1.
Proof.
  unfold transient. destruct (at_ t) as [|x [y|]|x p|x p|l'|l' next]; try lia;
    apply at_loc_range.
Qed.

(** A step of one thread, among others with [r l] references and [u l]
    transients. *)
Section step.
Context (r u : loc → Z).
Hypothesis r_nonneg : ∀ l, 0 ≤ r l.
Hypothesis u_nonneg : ∀ l, 0 ≤ u l.

Definition cells_ok (h : objects) (t : thread) : Prop :=
  ∀ l, cell_ok (h !! l) (r l + references l t) (u l + transient l t).

Definition step_ok (h : objects) (t : thread) (m : outcome (objects * thread)) : Prop :=
  wp m (λ '(h', t'), thread_ok t'
    ∧ ((∀ l, r l + references l t' ≤ i32_max) → cells_ok h' t')).

Lemma cells_same h t t' :
  cells_ok h t → (∀ l, references l t' = references l t ∧ transient l t' = transient l t) →
  cells_ok h t'.
Proof. intros Hc Heq l. destruct (Heq l) as [-> ->]. apply Hc. Qed.

Lemma cells_insert h t t' l0 n :
  cells_ok h t →
  (∀ l, l ≠ l0 → references l t' = references l t ∧ transient l t' = transient l t) →
  cell_ok (Some n) (r l0 + references l0 t') (u l0 + transient l0 t') →
  cells_ok (<[l0 := n]> h) t'.
Proof.
  intros Hc Heq H0 l. destruct (decide (l = l0)) as [->|Hne].
  - rewrite lookup_insert_eq. exact H0.
  - rewrite lookup_insert_ne by done. destruct (Heq l Hne) as [-> ->]. apply Hc.
Qed.

(** An object with a reference or a transient of the thread exists. *)
Lemma cells_live h t l :
  cells_ok h t → 0 < references l t ∨ 0 < transient l t →
  ∃ n, h !! l = Some n ∧ n = r l + references l t ∧ 0 ≤ n
    ∧ 0 ≤ u l + transient l t ≤ 1 ∧ (u l + transient l t = 1 → n = 0)
    ∧ 0 < n + (u l + transient l t).
Proof.
  intros Hc Hp. specialize (Hc l). specialize (r_nonneg l). specialize (u_nonneg l).
  pose proof (transient_range l t).
  destruct (h !! l) as [n|]; cbn in Hc; [|lia].
  exists n. destruct Hc as (-> & ? & ? & ? & ?). split_and!; (done || lia).
Qed.

(** A counter goes up. *)
Lemma AddRef_step h t t' l0 :
  cells_ok h t → (0 < references l0 t ∨ 0 < transient l0 t) → thread_ok t' →
  (∀ l, references l t' = references l t + at_loc l (Some l0)) →
  (∀ l, transient l t' = 0) → (∀ l, l ≠ l0 → transient l t = 0) →
  step_ok h t (h ← AddRef h l0; Ret (h, t')).
Proof.
  intros Hc Hp Hok Hr Ht' Ht. destruct (cells_live _ _ _ Hc Hp) as (n & Hn & En & H0 & Hu & Hz & Hpos).
  unfold AddRef, ref_count_of. rewrite Hn. cbn. split; [done|]. intros Hroom.
  specialize (Hroom l0). pose proof (Hr l0) as Hr0. rewrite at_loc_Some in Hr0.
  assert (IncRef n = r l0 + references l0 t') as ->.
  { unfold IncRef, AtomicIncrement. rewrite as_i32_id; unfold_i32; lia. }
  apply cells_insert with (t := t); [done| |].
  - intros l Hne. rewrite Hr, Ht', Ht, at_loc_ne by done. lia.
  - cbn. rewrite Ht', Hr0. specialize (u_nonneg l0). specialize (r_nonneg l0).
    pose proof (transient_range l0 t). lia.
Qed.

(** A counter goes down; the object is deleted next if it has reached 0. *)
Lemma after_release_step h t next l0 :
  cells_ok h t → (∀ l, transient l t = 0) →
  0 < references l0 t →
  (∀ l, references l (goto t (Deleting l0 next)) = references l t - at_loc l (Some l0)) →
  (∀ l, references l (goto t match next with Some (x, p) => Storing x p | None => Idle end)
     = references l t - at_loc l (Some l0)) →
  match next with Some (x, _) => is_Some (vars t !! x) | None => True end →
  r l0 + references l0 t ≤ i32_max →
  step_ok h t (after_release h l0 t next).
Proof.
  intros Hc Ht Hp Hd Hs Hok Hmax.
  destruct (cells_live _ _ _ Hc (or_introl Hp)) as (n & Hn & En & H0 & Hu & Hz & Hpos).
  specialize (r_nonneg l0). rewrite Ht in Hu, Hz.
  assert (u l0 = 0) as Hu0 by lia.
  unfold after_release, release_count, ref_count_of. rewrite Hn. cbn [mbind outcome_bind DecRef].
  assert (AtomicDecrement n = n - 1) as ->.
  { unfold AtomicDecrement. rewrite as_i32_id; unfold_i32; lia. }
  destruct (Z.eqb_spec (n - 1) 0) as [E|E]; cbn [mbind outcome_bind wp].
  - split; [unfold thread_ok; cbn; by destruct next as [[x p]|]|]. intros _.
    apply cells_insert with (t := t); [done| |].
    + intros l Hne. rewrite Hd, Ht, at_loc_ne by done. unfold transient. cbn.
      rewrite at_loc_ne by done. lia.
    + rewrite Hd. unfold transient. cbn. rewrite at_loc_Some. lia.
  - split; [unfold thread_ok; cbn; by destruct next as [[x p]|]|]. intros _.
    apply cells_insert with (t := t); [done| |].
    + intros l Hne. rewrite Hs, Ht, at_loc_ne by done. unfold transient.
      destruct next as [[x p]|]; cbn; lia.
    + rewrite Hs. unfold transient. rewrite at_loc_Some.
      destruct next as [[x p]|]; cbn; lia.
Qed.
End step.

(** The references of a thread after a variable was set. *)
Lemma vars_set l t x p0 p :
  vars t !! x = Some p0 →
  total (at_loc l) (<[x := p]> (vars t)) = total (at_loc l) (vars t) - at_loc l p0 + at_loc l p.
Proof. apply total_insert. Qed.

Lemma var_set_eq t x p a : is_Some (vars t !! x) → var (set_var t x p a) x = p.
Proof.
  intros Hx. apply var_lookup. cbn. apply list_lookup_insert_eq.
  by apply lookup_lt_is_Some.
Qed.

Lemma at_set_var t x p a : at_ (set_var t x p a) = a.
Proof. done. Qed.

Lemma var_set_ne t x y p a : x ≠ y → var (set_var t x p a) y = var t y.
Proof. intros. unfold var. cbn. by rewrite list_lookup_insert_ne. Qed.

Lemma references_goto l t a :
  references l (goto t a)
    = total (at_loc l) (vars t)
      + match a with
        | Idle => 0
        | Taking x _ => - at_loc l (var t x)
        | Assigning x p => at_loc l p
        | Storing x p | Deleting _ (Some (x, p)) => at_loc l p - at_loc l (var t x)
        | Dropping l' => at_loc l (Some l')
        | Deleting _ None => 0
        end.
Proof. done. Qed.

Section thread_step.
Context (r u : loc → Z).
Hypothesis r_nonneg : ∀ l, 0 ≤ r l.
Hypothesis u_nonneg : ∀ l, 0 ≤ u l.
Implicit Types (h : objects) (t : thread).

(** A step that leaves the objects alone. *)
Lemma quiet_step h t t' :
  cells_ok r u h t → thread_ok t' →
  (∀ l, references l t' = references l t) →
  (∀ l, transient l t' = transient l t) →
  step_ok r u h t (Ret (h, t')).
Proof.
  intros Hc Hok Hr Ht. split; [done|]. intros _.
  eapply cells_same; [exact Hc|]. by split.
Qed.

Lemma Make_step h t x l0 :
  cells_ok r u h t → at_ t = Idle → vars t !! x = Some None → h !! l0 = None →
  step_ok r u h t (thread_step h t (Make x l0)).
Proof.
  intros Hc Ha Hx Hh. cbn [thread_step]. split.
  { exists l0. cbn. split; [|done]. apply list_lookup_insert_eq. by eapply lookup_lt_Some. }
  intros _. assert (Hv : ∀ l, references l (set_var t x (Some l0) (Taking x None)) = references l t).
  { intros l. unfold references. rewrite at_set_var, var_set_eq by by eexists.
    cbn [vars set_var]. rewrite (vars_set _ _ _ _ _ Hx), Ha, at_loc_None. lia. }
  assert (Hw : ∀ l, transient l (set_var t x (Some l0) (Taking x None)) = at_loc l (Some l0)).
  { intros l. unfold transient. by rewrite at_set_var, var_set_eq by by eexists. }
  assert (Hi : ∀ l, transient l t = 0) by (intros l; unfold transient; by rewrite Ha).
  apply cells_insert with (t := t); [done| |].
  - intros l Hne. rewrite Hw, Hi, at_loc_ne by done. by rewrite Hv.
  - specialize (Hc l0). rewrite Hh in Hc. cbn in Hc. rewrite Hi in Hc.
    rewrite Hv, Hw, at_loc_Some. cbn.
    pose proof (r_nonneg l0). pose proof (u_nonneg l0). lia.
Qed.

Lemma Copy_step h t x y :
  cells_ok r u h t → at_ t = Idle → vars t !! x = Some None →
  is_Some (vars t !! y) → x ≠ y →
  step_ok r u h t (thread_step h t (Copy x y)).
Proof.
  intros Hc Ha Hx [p Hy] Hne. cbn [thread_step]. rewrite (var_lookup _ _ _ Hy).
  destruct p as [l0|].
  2: { apply quiet_step; [done|unfold thread_ok; by rewrite Ha|done..]. }
  apply quiet_step; [done| | |].
  - exists l0. cbn. split; [|split; [done|by rewrite list_lookup_insert_ne]].
    apply list_lookup_insert_eq. by eapply lookup_lt_Some.
  - intros l. unfold references. rewrite at_set_var, var_set_eq by by eexists.
    cbn [vars set_var]. rewrite (vars_set _ _ _ _ _ Hx), Ha, at_loc_None. lia.
  - intros l. unfold transient. cbn. by rewrite Ha.
Qed.

Lemma Move_step h t x y :
  cells_ok r u h t → at_ t = Idle → vars t !! x = Some None →
  is_Some (vars t !! y) → x ≠ y →
  step_ok r u h t (thread_step h t (Move x y)).
Proof.
  intros Hc Ha Hx [p Hy] Hne. cbn [thread_step refptr_move refptr_release].
  apply quiet_step; [done|done| |].
  - intros l. unfold references. cbn [at_ set_var vars]. rewrite Ha.
    rewrite (total_insert _ _ x None) by (rewrite list_lookup_insert_ne by done; done).
    rewrite (vars_set _ _ _ _ _ Hy), (var_lookup _ _ _ Hy). lia.
  - intros l. unfold transient. cbn. by rewrite Ha.
Qed.

Lemma Assign_step h t x y :
  cells_ok r u h t → at_ t = Idle → is_Some (vars t !! x) → is_Some (vars t !! y) →
  step_ok r u h t (thread_step h t (Assign x y)).
Proof.
  intros Hc Ha Hx [p Hy]. cbn [thread_step]. rewrite (var_lookup _ _ _ Hy).
  assert (Hi : ∀ l, transient l t = 0) by (intros l; unfold transient; by rewrite Ha).
  destruct p as [l0|]; cbn [add_ref_if].
  - apply AddRef_step; [done..| |done| |done|by intros; apply Hi].
    + left. unfold references. rewrite Ha. pose proof (held_ge l0 t y) as Hg.
      rewrite (var_lookup _ _ _ Hy), at_loc_Some in Hg. lia.
    + intros l. unfold references. cbn. rewrite Ha. lia.
  - apply quiet_step; [done|done| |].
    + intros l. unfold references. cbn. rewrite Ha, at_loc_None. lia.
    + intros l. by rewrite Hi.
Qed.

Lemma Reset_step h t x :
  cells_ok r u h t → at_ t = Idle → is_Some (vars t !! x) →
  step_ok r u h t (thread_step h t (Reset x)).
Proof.
  intros Hc Ha Hx. apply quiet_step; [done|done| |].
  - intros l. unfold references. cbn. rewrite Ha, at_loc_None. lia.
  - intros l. unfold transient. cbn. by rewrite Ha.
Qed.

(** A temporary takes over a pointer. *)
Lemma drop_references l t p :
  references l (goto t match p with Some l' => Dropping l' | None => Idle end)
    = total (at_loc l) (vars t) + at_loc l p.
Proof. destruct p; unfold references; cbn; [done|]. rewrite at_loc_None. lia. Qed.

Lemma drop_transient l t p :
  transient l (goto t match p with Some l' => Dropping l' | None => Idle end) = 0.
Proof. by destruct p. Qed.

Lemma drop_ok t p : thread_ok (goto t match p with Some l' => Dropping l' | None => Idle end).
Proof. by destruct p. Qed.

Lemma AssignMove_step h t x y :
  cells_ok r u h t → at_ t = Idle → is_Some (vars t !! x) → is_Some (vars t !! y) →
  step_ok r u h t (thread_step h t (AssignMove x y)).
Proof.
  intros Hc Ha [px Hx] [py Hy].
  cbn [thread_step refptr_move refptr_release refptr_swap].
  apply quiet_step; [done|apply drop_ok| |].
  - intros l. rewrite drop_references. unfold references. rewrite Ha.
    cbn [vars set_var]. rewrite (var_lookup _ _ _ Hy).
    destruct (decide (x = y)) as [->|Hne].
    + rewrite var_set_eq by done. rewrite list_insert_insert_eq.
      rewrite (vars_set _ _ _ _ _ Hy), at_loc_None. lia.
    + rewrite var_set_ne, (var_lookup _ _ _ Hx) by done.
      rewrite (total_insert _ _ x px) by (rewrite list_lookup_insert_ne by done; done).
      rewrite (vars_set _ _ _ _ _ Hy), at_loc_None. lia.
  - intros l. rewrite drop_transient. unfold transient. by rewrite Ha.
Qed.

Lemma Destroy_step h t x :
  cells_ok r u h t → at_ t = Idle → is_Some (vars t !! x) →
  step_ok r u h t (thread_step h t (Destroy x)).
Proof.
  intros Hc Ha [p Hx]. cbn [thread_step]. rewrite (var_lookup _ _ _ Hx).
  change (set_var t x None ?a) with (goto (set_var t x None Idle) a).
  apply quiet_step; [done|apply drop_ok| |].
  - intros l. rewrite drop_references. unfold references. rewrite Ha.
    cbn [vars set_var]. rewrite (vars_set _ _ _ _ _ Hx), at_loc_None. lia.
  - intros l. rewrite drop_transient. unfold transient. by rewrite Ha.
Qed.

Lemma Use_step h t x l0 :
  cells_ok r u h t → at_ t = Idle → vars t !! x = Some (Some l0) →
  step_ok r u h t (thread_step h t (Use x)).
Proof.
  intros Hc Ha Hx. cbn [thread_step]. rewrite (var_lookup _ _ _ Hx).
  destruct (cells_live r u r_nonneg u_nonneg h t l0 Hc) as (n & Hn & _).
  { left. unfold references. rewrite Ha. pose proof (held_ge l0 t x) as Hg.
    rewrite (var_lookup _ _ _ Hx), at_loc_Some in Hg. lia. }
  unfold ref_count_of. rewrite Hn.
  apply quiet_step; [done|unfold thread_ok; by rewrite Ha|done..].
Qed.

Lemma Taking_step h t x from :
  cells_ok r u h t → thread_ok t → at_ t = Taking x from →
  step_ok r u h t (thread_step h t Continue).
Proof.
  intros Hc Hok Ha. pose proof Hok as Hx. unfold thread_ok in Hx. rewrite Ha in Hx.
  destruct Hx as (l0 & Hx & Hfrom). cbn [thread_step]. rewrite Ha.
  rewrite (var_lookup _ _ _ Hx). cbn [add_ref_if].
  apply AddRef_step; [done..| |done| |done|].
  - destruct from as [y|].
    + left. destruct Hfrom as [Hne Hy]. unfold references. rewrite Ha.
      pose proof (held_twice l0 t x y Hne) as Hg.
      rewrite (var_lookup _ _ _ Hx), (var_lookup _ _ _ Hy), at_loc_Some in *. lia.
    + right. unfold transient. rewrite Ha, (var_lookup _ _ _ Hx), at_loc_Some. lia.
  - intros l. rewrite references_goto. unfold references. rewrite Ha, (var_lookup _ _ _ Hx). lia.
  - intros l Hne. unfold transient. rewrite Ha. destruct from; [done|].
    by rewrite (var_lookup _ _ _ Hx), at_loc_ne.
Qed.

Lemma Assigning_step h t x p :
  cells_ok r u h t → thread_ok t → at_ t = Assigning x p →
  (∀ l, r l + references l t ≤ i32_max) →
  step_ok r u h t (thread_step h t Continue).
Proof.
  intros Hc Hok Ha Hmax. pose proof Hok as Hx. unfold thread_ok in Hx. rewrite Ha in Hx.
  destruct Hx as [q Hx]. cbn [thread_step]. rewrite Ha, (var_lookup _ _ _ Hx).
  destruct q as [l0|].
  - apply after_release_step; try done.
    + intros l. unfold transient. by rewrite Ha.
    + unfold references. rewrite Ha. pose proof (held_ge l0 t x) as Hg.
      rewrite (var_lookup _ _ _ Hx), at_loc_Some in Hg.
      pose proof (at_loc_range l0 p). lia.
    + intros l. rewrite references_goto. unfold references. rewrite Ha, (var_lookup _ _ _ Hx). lia.
    + intros l. rewrite references_goto. unfold references. rewrite Ha, (var_lookup _ _ _ Hx). lia.
  - apply quiet_step; [done|unfold thread_ok; cbn; by eexists| |].
    + intros l. rewrite references_goto. unfold references. rewrite Ha, (var_lookup _ _ _ Hx), at_loc_None. lia.
    + intros l. unfold transient. cbn. by rewrite Ha.
Qed.

Lemma Storing_step h t x p :
  cells_ok r u h t → thread_ok t → at_ t = Storing x p →
  step_ok r u h t (thread_step h t Continue).
Proof.
  intros Hc Hok Ha. pose proof Hok as Hx. unfold thread_ok in Hx. rewrite Ha in Hx.
  destruct Hx as [q Hx]. cbn [thread_step]. rewrite Ha. apply quiet_step; [done|done| |].
  - intros l. unfold references. cbn [at_ set_var vars]. rewrite Ha.
    rewrite (vars_set _ _ _ _ _ Hx), (var_lookup _ _ _ Hx). lia.
  - intros l. unfold transient. cbn. by rewrite Ha.
Qed.

Lemma Dropping_step h t l0 :
  cells_ok r u h t → at_ t = Dropping l0 →
  (∀ l, r l + references l t ≤ i32_max) →
  step_ok r u h t (thread_step h t Continue).
Proof.
  intros Hc Ha Hmax. cbn [thread_step]. rewrite Ha. apply after_release_step; try done.
  - intros l. unfold transient. by rewrite Ha.
  - unfold references. rewrite Ha, at_loc_Some.
    pose proof (total_nonneg (at_loc l0) (vars t) ltac:(intros; apply at_loc_range)). lia.
  - intros l. rewrite references_goto. unfold references. rewrite Ha. lia.
  - intros l. rewrite references_goto. unfold references. rewrite Ha. lia.
Qed.

Lemma Deleting_step h t l0 next :
  cells_ok r u h t → thread_ok t → at_ t = Deleting l0 next →
  step_ok r u h t (thread_step h t Continue).
Proof.
  intros Hc Hok Ha. cbn [thread_step]. rewrite Ha.
  set (t' := goto t _).
  assert (Hr : ∀ l, references l t' = references l t).
  { intros l. subst t'. unfold references. rewrite Ha. by destruct next as [[x p]|]. }
  assert (Ht' : ∀ l, transient l t' = 0).
  { intros l. subst t'. by destruct next as [[x p]|]. }
  assert (Ht : ∀ l, transient l t = at_loc l (Some l0)).
  { intros l. unfold transient. by rewrite Ha. }
  destruct (cells_live r u r_nonneg u_nonneg h t l0 Hc) as (n & Hn & En & H0 & Hu & Hz & Hpos).
  { right. rewrite Ht, at_loc_Some. lia. }
  unfold delete_this, ref_count_of. rewrite Hn. cbn [mbind outcome_bind]. split.
  { subst t'. unfold thread_ok in *. rewrite Ha in Hok. by destruct next as [[x p]|]. }
  intros _ l. destruct (decide (l = l0)) as [->|Hne].
  - rewrite lookup_delete_eq. cbn. rewrite Hr, Ht'. rewrite Ht, at_loc_Some in *.
    pose proof (u_nonneg l0). lia.
  - rewrite lookup_delete_ne by done. specialize (Hc l).
    rewrite Ht, at_loc_ne in Hc by done. by rewrite Hr, Ht'.
Qed.

(** No enabled step goes wrong, and each keeps the counts. *)
Lemma thread_step_ok h t s :
  cells_ok r u h t → thread_ok t → (∀ l, r l + references l t ≤ i32_max) →
  enabled h t s → step_ok r u h t (thread_step h t s).
Proof.
  intros Hc Hok Hmax He. destruct s as [x l|x y|x y|x y|x|x y|x|x|]; cbn in He;
    destruct (at_ t) as [|x' from|x' p|x' p|l'|l' next] eqn:Ha; try done.
  - destruct He. by apply Make_step.
  - destruct He as (? & ? & ?). by apply Copy_step.
  - destruct He as (? & ? & ?). by apply Move_step.
  - destruct He. by apply Assign_step.
  - by apply Reset_step.
  - destruct He. by apply AssignMove_step.
  - by apply Destroy_step.
  - destruct He as [l Hx]. by eapply Use_step.
  - by eapply Taking_step.
  - by eapply Assigning_step.
  - by eapply Storing_step.
  - by eapply Dropping_step.
  - by eapply Deleting_step.
Qed.
End thread_step.

(** ** Executions *)

(** The invariant, and the bound on the references. *)
Definition good (c : config) : Prop :=
  (∀ l, cell_ok (c.1 !! l) (total (references l) c.2) (total (transient l) c.2))
  ∧ Forall thread_ok c.2 ∧ ∀ l, total (references l) c.2 ≤ i32_max.

(** One thread among the others. *)
Lemma others_nonneg ts i t l :
  Forall thread_ok ts → ts !! i = Some t →
  0 ≤ total (references l) ts - references l t
  ∧ 0 ≤ total (transient l) ts - transient l t.
Proof.
  intros Hok Hi. rewrite list.Forall_forall in Hok. split.
  - enough (references l t ≤ total (references l) ts) by lia.
    apply (total_ge (references l) ts i t); [|done].
    intros t' Ht'. by apply references_nonneg, Hok.
  - enough (transient l t ≤ total (transient l) ts) by lia.
    apply (total_ge (transient l) ts i t); [|done]. intros. apply transient_range.
Qed.

Lemma good_step h ts i t s :
  good (h, ts) → ts !! i = Some t → enabled h t s →
  wp (thread_step h t s) (λ '(h', t'),
    (∀ l, total (references l) (<[i := t']> ts) ≤ i32_max) →
    good (h', <[i := t']> ts)).
Proof.
  intros (Hc & Hok & Hmax) Hi He. cbn [fst snd] in *.
  set (r := λ l, total (references l) ts - references l t).
  set (u := λ l, total (transient l) ts - transient l t).
  eapply wp_mono; [|apply (thread_step_ok r u)].
  - intros [h' t'] [Hok' Hcells] Hroom.
    assert (Hr : ∀ l, total (references l) (<[i := t']> ts) = r l + references l t').
    { intros l. rewrite (total_insert _ _ _ _ _ Hi). subst r. cbn. lia. }
    assert (Hu : ∀ l, total (transient l) (<[i := t']> ts) = u l + transient l t').
    { intros l. rewrite (total_insert _ _ _ _ _ Hi). subst u. cbn. lia. }
    split; [|split; [by apply Forall_insert|done]].
    intros l. cbn [fst snd]. rewrite Hr, Hu. apply Hcells. intros l'. by rewrite <- Hr.
  - intros l. by apply (others_nonneg ts i t l).
  - intros l. by apply (others_nonneg ts i t l).
  - intros l. subst r u. cbn. specialize (Hc l).
    by replace (_ + references l t) with (total (references l) ts) by lia;
      replace (_ + transient l t) with (total (transient l) ts) by lia.
  - rewrite list.Forall_forall in Hok. by eapply Hok, list_elem_of_lookup_2.
  - intros l. subst r. cbn. specialize (Hmax l). lia.
  - done.
Qed.

Lemma good_send h ts i j ti tj x y p :
  good (h, ts) → ts !! i = Some ti → ts !! j = Some tj → i ≠ j →
  at_ ti = Idle → at_ tj = Idle →
  vars ti !! x = Some p → vars tj !! y = Some None →
  good (h, <[j := set_var tj y p Idle]> (<[i := set_var ti x None Idle]> ts)).
Proof.
  intros (Hc & Hok & Hmax) Hi Hj Hne Hai Haj Hx Hy. cbn [fst snd] in *.
  assert (Hj' : <[i := set_var ti x None Idle]> ts !! j = Some tj)
    by by rewrite list_lookup_insert_ne.
  assert (Hr : ∀ l, total (references l)
    (<[j := set_var tj y p Idle]> (<[i := set_var ti x None Idle]> ts))
    = total (references l) ts).
  { intros l. rewrite (total_insert _ _ _ _ _ Hj'), (total_insert _ _ _ _ _ Hi).
    unfold references. cbn [at_ vars set_var]. rewrite Hai, Haj.
    rewrite (vars_set _ _ _ _ _ Hx), (vars_set _ _ _ _ _ Hy), at_loc_None. lia. }
  assert (Hu : ∀ l, total (transient l)
    (<[j := set_var tj y p Idle]> (<[i := set_var ti x None Idle]> ts))
    = total (transient l) ts).
  { intros l. rewrite (total_insert _ _ _ _ _ Hj'), (total_insert _ _ _ _ _ Hi).
    unfold transient. cbn [at_ set_var]. rewrite Hai, Haj. lia. }
  split; [|split].
  - intros l. cbn [fst snd]. by rewrite Hr, Hu.
  - cbn [snd]. by repeat apply Forall_insert.
  - intros l. cbn [snd]. by rewrite Hr.
Qed.

Lemma reachable_good c : reachable c → good c.
Proof.
  induction 1 as [ts Hts|c c' _ IH Hstep].
  - rewrite list.Forall_forall in Hts.
    assert (H0 : ∀ l t, t ∈ ts → references l t = 0 ∧ transient l t = 0).
    { intros l t Ht. destruct (Hts t Ht) as [Ha Hv]. unfold idle in Ha.
      unfold references, transient. rewrite Ha. split; [|done]. rewrite total_0; [done|].
      intros p Hp. rewrite list.Forall_forall in Hv. rewrite (Hv p Hp). apply at_loc_None. }
    assert (Hr : ∀ l, total (references l) ts = 0).
    { intros l. apply total_0. intros t Ht. by apply H0. }
    split; [|split].
    + intros l. cbn [fst snd]. rewrite lookup_empty, Hr, total_0; [done|].
      intros t Ht. by apply H0.
    + apply list.Forall_forall. intros t Ht. destruct (Hts t Ht) as [Ha _].
      unfold idle in Ha. unfold thread_ok. by rewrite Ha.
    + intros l. cbn [snd]. by rewrite Hr.
  - destruct Hstep as [h ts i t s h' t' Hi He Hs Hroom
                      |h ts i j ti tj x y p q Hi Hj Hne Hai Haj Hx Hy Hpq].
    + pose proof (good_step _ _ _ _ _ IH Hi He) as Hg. rewrite Hs in Hg. by apply Hg.
    + injection Hpq as <-. by eapply good_send.
Qed.

(** *** Uninterrupted member functions *)

(** A thread runs on alone until it is done; no member function has more than
    four steps. *)
Fixpoint finish (n : nat) (h : objects) (t : thread) : outcome (objects * thread) :=
  match at_ t with
  | Idle => Ret (h, t)
  | _ => match n with
         | O => NoFuel
         | S n => '(h, t) ← thread_step h t Continue; finish n h t
         end
  end.

Definition run_alone (h : objects) (t : thread) (s : statement) : outcome (objects * thread) :=
  '(h, t) ← thread_step h t s; finish 4 h t.

Lemma set_same t x : at_ t = Idle → set_var t x (var t x) Idle = t.
Proof.
  destruct t as [v a]. cbn. intros ->. unfold set_var, var. cbn.
  destruct (v !! x) as [p|] eqn:Hx; cbn.
  - by rewrite list_insert_id.
  - by rewrite list_insert_ge by by apply lookup_ge_None.
Qed.

(** [x = y], run alone, is the member function. *)
Lemma assign_alone h t x y :
  at_ t = Idle → 
  run_alone h t (Assign x y)
    = ('(h, p) ← refptr_assign h (var t x) (var t y); Ret (h, set_var t x p Idle)).
Proof.
  intros Ha. unfold run_alone, refptr_assign. cbn [thread_step].
  destruct (add_ref_if h (var t y)) as [h1| | |]; [|done..]. cbn [mbind outcome_bind].
  cbn [finish at_ goto thread_step mbind outcome_bind].
  change (var (goto t ?a) x) with (var t x).
  destruct (var t x) as [l|]; cbn [release_if]; [|done].
  unfold after_release, Release, release_count.
  destruct (ref_count_of h1 l) as [n| | |]; [|done..].
  cbn [mbind outcome_bind DecRef]. destruct (AtomicDecrement n =? 0); cbn; [|done].
  unfold delete_this. by destruct (ref_count_of _ l).
Qed.

(** So is [x = std::move(y)]. *)
Lemma assign_move_alone h t x y :
  at_ t = Idle → is_Some (vars t !! x) → x ≠ y →
  run_alone h t (AssignMove x y)
    = ('(h, p, q) ← refptr_assign_move h (var t x) (var t y);
       Ret (h, set_var (set_var t y q Idle) x p Idle)).
Proof.
  intros Ha Hx Hne. unfold run_alone, refptr_assign_move.
  cbn [thread_step refptr_move refptr_release refptr_swap].
  rewrite var_set_ne by done. unfold refptr_delete.
  destruct (var t x) as [l|]; cbn [release_if]; [|done].
  cbn [mbind outcome_bind finish at_ goto thread_step].
  unfold after_release, Release, release_count.
  destruct (ref_count_of h l) as [n| | |]; [|done..].
  cbn [mbind outcome_bind DecRef]. destruct (AtomicDecrement n =? 0); cbn; [|done].
  unfold delete_this. by destruct (ref_count_of _ l).
Qed.

(** So are the construction of [x] from [y] and the end of [x]. *)
Lemma copy_alone h t x y :
  at_ t = Idle → vars t !! x = Some None →
  run_alone h t (Copy x y)
    = ('(h, p) ← refptr_copy h (var t y); Ret (h, set_var t x p Idle)).
Proof.
  intros Ha Hx. unfold run_alone, refptr_copy. cbn [thread_step].
  destruct (var t y) as [l|]; cbn [add_ref_if mbind outcome_bind].
  - cbn [finish at_ set_var thread_step]. change (MkThread _ _)
      with (set_var t x (Some l) (Taking x (Some y))).
    rewrite var_set_eq by by eexists. cbn [add_ref_if].
    by destruct (AddRef h l).
  - pose proof (set_same t x Ha) as Hs. rewrite (var_lookup _ _ _ Hx) in Hs.
    rewrite Hs. cbn [finish]. by rewrite Ha.
Qed.

Lemma destroy_alone h t x :
  run_alone h t (Destroy x)
    = (h ← refptr_delete h (var t x); Ret (h, set_var t x None Idle)).
Proof.
  unfold run_alone, refptr_delete. cbn [thread_step].
  destruct (var t x) as [l|]; cbn [release_if]; [|done].
  cbn [mbind outcome_bind finish at_ set_var goto thread_step].
  unfold after_release, Release, release_count.
  destruct (ref_count_of h l) as [n| | |]; [|done..].
  cbn [mbind outcome_bind DecRef]. destruct (AtomicDecrement n =? 0); cbn; [|done].
  unfold delete_this. by destruct (ref_count_of _ l).
Qed.

(** *** The property *)

(** C40: Reference counting is safe under every interleaving.  Whatever threads
    do with their scoped_refptr variables (making, copying, moving, assigning,
    resetting and destroying them, handing them to each other) and wherever
    their member functions are interrupted, no step touches an object that has
    been deleted; an object that a variable outside of a member function
    points to exists, its counter is at least 1, and is 1 only if no other
    such variable points to it; and when no thread is inside of a member
    function, exactly the objects that variables point to exist, each with the
    number of these variables as its counter. *)
Theorem refcount_safe h ts :
  reachable (h, ts) →
  (∀ i t s, ts !! i = Some t → enabled h t s →
     wp (thread_step h t s) (λ _, True))
  ∧ (∀ i t x l, ts !! i = Some t → at_ t = Idle → vars t !! x = Some (Some l) →
     ∃ n, h !! l = Some n ∧ 1 ≤ n
       ∧ (HasOneRef n = true → ∀ j t' y, ts !! j = Some t' → at_ t' = Idle →
          vars t' !! y = Some (Some l) → j = i ∧ y = x))
  ∧ (Forall idle ts → ∀ l n,
     h !! l = Some n ↔ n = total (λ t, total (at_loc l) (vars t)) ts ∧ 0 < n).
Proof.
  intros Hreach. pose proof (reachable_good _ Hreach) as Hgood.
  pose proof Hgood as (Hc & Hok & Hmax). cbn [fst snd] in *. split_and!.
  - intros i t s Hi He. eapply wp_mono; [|by eapply good_step]. by intros [].
  - intros i t x l Hi Ha Hx.
    destruct (others_nonneg ts i t l Hok Hi) as [Hr Hu].
    pose proof (held_ge l t x) as Hg. rewrite (var_lookup _ _ _ Hx), at_loc_Some in Hg.
    assert (Ht : references l t = total (at_loc l) (vars t)).
    { unfold references. rewrite Ha. lia. }
    pose proof (transient_range l t). specialize (Hc l).
    destruct (h !! l) as [n|]; cbn in Hc; [|lia].
    exists n. split_and!; [done|lia|]. intros H1%Z.eqb_eq j t' y Hj Ha' Hy.
    pose proof (held_ge l t' y) as Hg'. rewrite (var_lookup _ _ _ Hy), at_loc_Some in Hg'.
    assert (Ht' : references l t' = total (at_loc l) (vars t')).
    { unfold references. rewrite Ha'. lia. }
    destruct (decide (j = i)) as [->|Hne].
    + split; [done|]. assert (t' = t) as -> by congruence.
      destruct (decide (y = x)) as [|Hyx]; [done|].
      pose proof (held_twice l t y x Hyx) as H2.
      rewrite (var_lookup _ _ _ Hx), (var_lookup _ _ _ Hy), at_loc_Some in H2. lia.
    + pose proof (total_insert (references l) ts i t (MkThread [] Idle) Hi) as Hi'.
      assert (Hj' : <[i := MkThread [] Idle]> ts !! j = Some t')
        by by rewrite list_lookup_insert_ne.
      assert (Hok' : Forall thread_ok (<[i := MkThread [] Idle]> ts))
        by by apply Forall_insert.
      destruct (others_nonneg _ j t' l Hok' Hj') as [Hr' _].
      assert (references l (MkThread [] Idle) = 0) by done. lia.
  - intros Hidle l n. specialize (Hc l).
    assert (total (references l) ts = total (λ t, total (at_loc l) (vars t)) ts
                 ∧ total (transient l) ts = 0) as [Hr Ht].
    { clear -Hidle. induction Hidle as [|t ts Ha _ [IH1 IH2]]; cbn; [done|].
      unfold idle in Ha. rewrite IH1, IH2. unfold references, transient. rewrite Ha. lia. }
    rewrite Hr, Ht in Hc. destruct (h !! l) as [m|]; cbn in Hc.
    + split; [intros E; simplify_eq; lia|]. intros [-> _]. f_equal. lia.
    + split; [done|]. lia.
Qed.

Lemma step_thread_to h ts i t s h' t' ts' :
  ts !! i = Some t → enabled h t s → thread_step h t s = Ret (h', t') →
  ts' = <[i := t']> ts → (∀ l, total (references l) ts' ≤ i32_max) →
  prog_step (h, ts) (h', ts').
Proof. intros Hi He Hs ->. by eapply step_thread. Qed.

(** Two threads; the first has made an object and is copying its reference. *)
Definition demo_thread0 : thread := MkThread [None; None] Idle.
Definition demo_thread1 : thread := MkThread [Some 1%positive; None] (Taking 0 None).
Definition demo_thread2 : thread := MkThread [Some 1%positive; None] Idle.
Definition demo_thread3 : thread :=
  MkThread [Some 1%positive; Some 1%positive] (Taking 1 (Some 0%nat)).
Definition demo_other : thread := MkThread [None] Idle.
Definition demo_threads : list thread := [demo_thread3; demo_other].
Definition demo_objects : objects := {[ 1%positive := 1 ]}.

Lemma demo_few l t :
  In t [demo_thread0; demo_thread1; demo_thread2; demo_thread3] →
  total (references l) [t; demo_other] ≤ i32_max.
Proof.
  pose proof (at_loc_range l (Some 1%positive)).
  intros Ht. repeat destruct Ht as [<-|Ht]; [..|done];
    unfold references; cbn; rewrite ?at_loc_None; unfold i32_max; lia.
Qed.

Lemma demo_reachable : reachable (demo_objects, demo_threads).
Proof.
  apply (reach_step (demo_objects, [demo_thread2; demo_other])).
  1: apply (reach_step ({[ 1%positive := 0 ]}, [demo_thread1; demo_other])).
  1: apply (reach_step (∅, [demo_thread0; demo_other])).
  - apply reach_init. repeat constructor.
  - eapply (step_thread_to ∅ _ 0 demo_thread0 (Make 0 1%positive));
      [done|done|reflexivity|done|]. intros l. apply demo_few. cbn. tauto.
  - eapply (step_thread_to _ _ 0 demo_thread1 Continue);
      [done|done|reflexivity|done|]. intros l. apply demo_few. cbn. tauto.
  - eapply (step_thread_to _ _ 0 demo_thread2 (Copy 1 0)); [done| |reflexivity|done|].
    + split; [done|]. split; [by eexists|done].
    + intros l. apply demo_few. cbn. tauto.
Qed.

Lemma refcount_safe_witness :
  (∀ i t s, demo_threads !! i = Some t → enabled demo_objects t s →
     wp (thread_step demo_objects t s) (λ _, True))
  ∧ (∀ i t x l, demo_threads !! i = Some t → at_ t = Idle → vars t !! x = Some (Some l) →
     ∃ n, demo_objects !! l = Some n ∧ 1 ≤ n
       ∧ (HasOneRef n = true → ∀ j t' y, demo_threads !! j = Some t' → at_ t' = Idle →
          vars t' !! y = Some (Some l) → j = i ∧ y = x))
  ∧ (Forall idle demo_threads → ∀ l n,
     demo_objects !! l = Some n
       ↔ n = total (λ t, total (at_loc l) (vars t)) demo_threads ∧ 0 < n).
Proof. apply refcount_safe. exact demo_reachable. Defined.
